(* ===== verification/_CoqProject ===== *)
-Q . S2P
Prelude.v
GoStrings.v
GoPath.v
GoTime.v
Config.v
World.v
TestBed.v
ConfigLoad.v
ConfigLock.v
Docker.v
Container.v
ContainerSpec.v
LifeCycle.v
BackupSpec.v
RoundTrip.v
Discord.v
DiscordSpec.v
Forwarder.v
ForwarderSpec.v
Tail.v
TailSpec.v
Vfs.v
Sftp.v
Access.v
SftpSpec.v
SftpServer.v
SftpServerSpec.v
Webdav.v
WebdavSpec.v
Terminal.v
Stats.v
Api.v
ApiSpec.v
AccessLog.v
AccessLogSpec.v
Sessions.v
Crashes.v
Main.v
