(* ===== verification/Prelude.v ===== *)
(** * play-bin: a verification development

    play-bin manages game servers that run as Docker containers.  One process
    serves a web interface with a JSON API and WebSockets, an SFTP and a WebDAV
    server onto the containers' mounts, and Discord bots with chat and log
    forwarding.  Everything is driven by one file, [config.json].

    ** The parts and how they interact

    [main.go] reads the configuration, makes the Docker client and starts the
    rest, as goroutines of one process.  The configuration ([internal/config]) is shared by all components;
    every handler asks it for the current users and servers with [Get], which
    rereads the file when it has changed, and decides with [HasPermission].  The
    API and the Discord bots act on containers through the manager
    ([internal/container]) and [internal/docker]; the two file servers resolve
    virtual paths with [internal/vfs].  All of them write through
    [internal/logger].

    ** The model

    A Go function is a computation [Comp S A] (below): a function from a state to
    an outcome, [Done] or [Panic], and the state reached.  The state of most code
    is [Sys W] of [World]: an abstract world [W], the loaded configuration, and
    the record of all calls made to the world with their arguments and answers.
    Theorems speak of that record: which calls were made, in which order, on
    which answers.  Errors are values ([option error], [result]).  Deferred calls
    are written at the places where the function returns.  A [for range] over a
    map visits its entries in an order given by [MapRange], of which only that it
    is a permutation is known.  Locks are left out where a body holds one
    throughout and modelled step by step where the order matters ([ConfigLock]).

    What is not Go code of this repository is an interface, a class whose
    operations answer arbitrarily: [DockerClient] (the Docker SDK; the variable
    that holds the client is [Docker], which is [None] when none could be made, and
    then a call panics), [OS] (os, exec,
    time, the JSON decoder on files), [WebSocket], [Boot] (listening, key files),
    [DiscordClient] (discordgo), [LineReader] (bufio.Scanner on a log), [HostStats]
    (gopsutil and the statistics stream), [Regexp], [SshLib] (x/crypto/ssh and
    pkg/sftp).  Where a theorem needs what such a library documents, the laws are
    a class of their own and named in the theorem: [Engine] (which calls create,
    start and remove containers, while each may come and go as it was created to),
    [Disk] (what rsync does to directories, as far as it looks, while nobody else
    writes to them), [SshLaws] (whose permissions a session has, and that its
    requests go to the handlers), [SshCalm] (a library panics only when a callback
    does).
    [TestBed] has an instance of the interfaces: a small engine and disk on which
    witnesses and examples are evaluated.

    ** The files

    - [Prelude]: computations, their weakest preconditions [wp] and their
      tactics, [finishes] (no panic), [returns] (what a value satisfies), lemmas on lists and maps.
    - [GoStrings], [GoPath], [GoTime]: the functions of Go's strings, sort,
      path/filepath and time the program uses, as executable definitions.
    - [Config]: [internal/config/config.go], the data and [HasPermission].
      [ConfigLoad]: [Get] and [Reload] as one step.  [ConfigLock]: the same two
      functions as goroutines that share the read-write lock, while the file is
      written in place, replaced or removed, with any modification times.
    - [World]: the interfaces, the record of calls, [internal/logger/logger.go].
    - [Docker]: [internal/docker/docker.go].  (Its [ReadNullWriteCloser] is the
      mode [ModeLogs] of [Terminal].)
    - [Container], [ContainerSpec], [LifeCycle], [BackupSpec], [RoundTrip]:
      [internal/container/container.go], one definition per method of [Manager],
      and what they promise.
    - [Discord], [DiscordSpec]: [internal/discord/bot.go] and [service.go].
      [Forwarder], [ForwarderSpec]: the forwarders and rules of
      [forwarder.go].  [Tail], [TailSpec]: its goroutine [tailContainerLogs].
    - [Vfs]: [internal/vfs/vfs.go].  [Access]: what it means that a change of, or
      a look at, the host's disk is permitted.
    - [Sftp], [SftpSpec]: authentication, request handlers and paging of
      [internal/sftp/server.go].  [SftpServer], [SftpServerSpec]: its host key,
      listener, connections and channels.
    - [Webdav], [WebdavSpec]: [internal/webdav/server.go].
    - [Api], [ApiSpec]: [auth.go], [handlers_containers.go], [handlers_ws.go] and
      [Routes] of [server.go] in [internal/api].  [Sessions]: histories of
      requests.  [Terminal]: the goroutines of [TerminalHandler].  [Stats]: the
      loop of [StatsHandler].  [AccessLog], [AccessLogSpec]: [middleware.go] and
      [Start] of [server.go].
    - [Crashes]: what makes each of the goroutines panic.
    - [Main]: [main.go], and the process with all its goroutines.

    ** What the theorems show

    - Permissions: [HasPermission_correct] gives the recursive check as a plain
      condition on names with wildcards.
    - Configuration: [Get_reloads]; side by side, [lock_excludes],
      [lock_progress] and [Get_fresh]; and [edit_lost], [early_edit_lost], edits
      that are missed.
    - Containers: the exact calls and results of [Start] and [Stop] on every
      branch, a refinement of the life cycle of containers
      ([ExecuteAction_refines], [containers_survive]), what a backup and a restore
      copy and when they report success, the list of generations, and that a
      restore brings back what was backed up ([backup_restore_roundtrip]).
    - File servers: a resolved path lies in a mount of a container the user may
      read ([MapPath_confined]) and all below a mount of a single directory is
      reachable ([MapPath_resolves]); an SFTP connection reads and changes only what its
      user may ([handleConn_confined]); changes over WebDAV are guarded
      ([dav_changes_guarded]), by the same check ([Filewrite_checks_like_dav]);
      listings are read whole ([ListAt_pages], [readdir_window_spec]).
    - API: nothing without a session ([mux_requires_session]), sessions only from
      logins with the password ([sessions_from_logins], [Login_correct]), actions
      only with their permission ([Action_gate]), lists with what one may see
      ([ListContainers_correct]); a terminal session is safe and ends whatever the
      order of its goroutines' steps ([session_safe], [session_ends]); statistics
      are forwarded in order, each sample with the host's ([stats_loop_sends]);
      the access log ([WithLogging_logs]).
    - Discord: who may run a command ([interaction_gate]), which sessions and
      forwarders a synchronisation leaves ([SyncBots_synchronises],
      [SyncLogForwarders_synchronises]), what is posted for a line
      ([tail_line_posts], [getLogRules_correct], [replacePlaceholders_shape]), and
      that a cancelled goroutine stops and holds no stream ([tail_stops],
      [tail_streams]).
    - The whole process: that it ends only when [main] returns for want of an
      address, when the web server fails, or over one of the panics nobody
      recovers, and what each of those comes from ([main_ends]); that any other
      request leaves it running ([request_survives]).

    Where the code does not do what its comments, its documentation or the rest
    of the code lead one to expect there is a theorem or an example on a concrete
    input that shows it, next to the property it limits
    ([Filecmd_rename_crosses], [Mkdir_dotdot_crosses], [Restore_escapes],
    [static_serves_config], [unknown_mode_crashes] and others).

    ** Bounds and fuel

    Loops over data are structural.  [ParseDuration] recurses on fuel, the length
    of its input, and each turn consumes a byte.  The endless loops are given a
    number of turns: the tickers of the two managers, the accept loop by the
    connections that come, the statistics by [stats_loop]'s turns; theorems hold
    for every number.  The process of [Main] runs for any number of turns.  A
    client's loop over the pages of a listing has fuel, and [ListAt_pages] bounds it.
    Terminal sessions, log followers and configuration locking are transition
    systems, with bounds on the steps left proved where they are to end.
    Integers are [Z]; the width is written out where it can matter: the length of
    a window in [readdir_window], nanoseconds in [ParseDuration], and the
    unsigned subtraction of [os_stats].

    ** What is not modelled

    The protocols of SSH, SFTP, WebDAV and WebSocket and the HTTP server are
    third-party code and interfaces here.  The prefix stripping and the file
    server of the routes are modelled as far as which path and which handler they
    give.  The handlers of [Api] that open a WebSocket run one schedule of its
    session, the one the engine ends; all schedules are in [Terminal].  In [Main]
    the goroutines come in any order, but each runs a whole turn: a request, an
    interaction, a connection, a tick, a step of a log follower.  (In between, the
    world may do anything; the finer interleavings that matter have models of
    their own, [ConfigLock], [Tail] and [Terminal].)  Modification times of virtual
    files ([time.Now]) are left out.  The web page, the container image, the
    compose files and the scripts are not Go code. *)

From Stdlib Require Export Ascii ZArith Lia.
From Stdlib Require String.
From stdpp Require Export base tactics list strings gmap sorting relations.

(** * Notation scope *)

Declare Scope go_scope.
Delimit Scope go_scope with go.
#[global] Open Scope stdpp_scope.
#[global] Open Scope go_scope.

(** * Computations

    A Go function body is a state transformer.  It either finishes with its
    result or panics; a panic keeps the state reached so far. *)

Inductive Outcome (A : Type) : Type :=
| Done (a : A)
| Panic (why : string).
Arguments Done {A} _.
Arguments Panic {A} _.

Definition Comp (S A : Type) : Type := S → Outcome A * S.

Definition ret {S A} (a : A) : Comp S A := λ s, (Done a, s).

Definition bind {S A B} (m : Comp S A) (k : A → Comp S B) : Comp S B :=
  λ s, match m s with
       | (Done a, s') => k a s'
       | (Panic e, s') => (Panic e, s')
       end.

Definition panic {S A} (why : string) : Comp S A := λ s, (Panic why, s).

Definition gets {S A} (f : S → A) : Comp S A := λ s, (Done (f s), s).

Definition modify {S} (f : S → S) : Comp S unit := λ s, (Done tt, f s).

Notation "x <- m ;; k" := (bind m (λ x, k))
  (at level 100, m at next level, right associativity) : go_scope.
Notation "m ;; k" := (bind m (λ _, k))
  (at level 100, right associativity) : go_scope.

(** [for _, x := range xs { body }] *)
Fixpoint for_each {S A} (body : A → Comp S unit) (xs : list A) : Comp S unit :=
  match xs with
  | [] => ret tt
  | x :: xs' => body x ;; for_each body xs'
  end.

(** The same loop carrying the local variables the body assigns. *)
Fixpoint for_fold {S A L} (body : A → L → Comp S L) (xs : list A) (l : L) : Comp S L :=
  match xs with
  | [] => ret l
  | x :: xs' => l' <- body x l ;; for_fold body xs' l'
  end.

(** A computation on a part of a larger state. *)
Definition zoom {S T A} (get : T → S) (put : S → T → T) (m : Comp S A) : Comp T A :=
  λ t, let '(o, s') := m (get t) in (o, put s' t).

(** * Monad laws, as rewriting lemmas *)

Create Rewrite HintDb comp.

Section MonadLaws.
Context {S A B C : Type}.

Lemma bind_ret_l (a : A) (k : A → Comp S B) s : bind (ret a) k s = k a s.
Proof. reflexivity. Qed.

Lemma bind_ret_r (m : Comp S A) s : bind m ret s = m s.
Proof. unfold bind, ret. by destruct (m s) as [[]]. Qed.

Lemma bind_assoc (m : Comp S A) (k : A → Comp S B) (k' : B → Comp S C) s :
  bind (bind m k) k' s = bind m (λ x, bind (k x) k') s.
Proof. unfold bind. by destruct (m s) as [[]]. Qed.

Lemma bind_panic (e : string) (k : A → Comp S B) s : bind (panic e) k s = (Panic e, s).
Proof. reflexivity. Qed.

Lemma bind_gets (f : S → A) (k : A → Comp S B) s : bind (gets f) k s = k (f s) s.
Proof. reflexivity. Qed.

Lemma bind_modify (f : S → S) (k : unit → Comp S B) s : bind (modify f) k s = k tt (f s).
Proof. reflexivity. Qed.

Lemma bind_done (m : Comp S A) (k : A → Comp S B) s a s' :
  m s = (Done a, s') → bind m k s = k a s'.
Proof. unfold bind. by intros ->. Qed.

(** What a finished [bind] is made of. *)
Lemma bind_inv (m : Comp S A) (k : A → Comp S B) s b s' :
  bind m k s = (Done b, s') → ∃ a s1, m s = (Done a, s1) ∧ k a s1 = (Done b, s').
Proof. unfold bind. destruct (m s) as [[a|e] s1]; [eauto|done]. Qed.

(** Two computations with the same runs are interchangeable under [bind]. *)
Lemma bind_ext (m m' : Comp S A) (k k' : A → Comp S B) s :
  m s = m' s → (∀ a s1, k a s1 = k' a s1) → bind m k s = bind m' k' s.
Proof. unfold bind. intros -> Hk. destruct (m' s) as [[]]; auto. Qed.
End MonadLaws.

#[export] Hint Rewrite @bind_ret_l @bind_gets @bind_modify @bind_panic @bind_assoc : comp.

Lemma for_each_app {S A} (body : A → Comp S unit) xs ys s :
  for_each body (xs ++ ys) s = bind (for_each body xs) (λ _, for_each body ys) s.
Proof.
  revert s. induction xs as [|x xs IH]; intros s; [done|]. simpl.
  rewrite bind_assoc. apply bind_ext; [done|]. intros []. apply IH.
Qed.

Lemma for_fold_snoc {S A L} (body : A → L → Comp S L) xs x l s :
  for_fold body (xs ++ [x]) l s = bind (for_fold body xs l) (body x) s.
Proof.
  revert l s. induction xs as [|y xs IH]; intros l s; simpl.
  - rewrite bind_ret_l. apply bind_ret_r.
  - rewrite bind_assoc. apply bind_ext; [done|]. intros l' s1. apply IH.
Qed.

(** * Values returned

    [returns P m]: whatever the state, a value [m] returns satisfies [P]. *)

Definition returns {S A} (P : A → Prop) (m : Comp S A) : Prop :=
  ∀ s a s', m s = (Done a, s') → P a.

Section Returns.
Context {S A B : Type}.

Lemma returns_any (m : Comp S A) : returns (λ _, True) m.
Proof. done. Qed.

Lemma returns_ret (P : A → Prop) a : P a → returns (S := S) P (ret a).
Proof. by intros ? ? ? ? [= <- _]. Qed.

Lemma returns_bind (P : A → Prop) (R : B → Prop) (m : Comp S A) (k : A → Comp S B) :
  returns P m → (∀ a, P a → returns R (k a)) → returns R (bind m k).
Proof. intros Hm Hk s b s' (a & s1 & Hr & Hb)%bind_inv. by eapply Hk, Hb; eapply Hm. Qed.
End Returns.

(** * Postconditions

    [wp m Q s]: run from [s], [m] ends in an outcome and a state satisfying [Q]. *)

Definition wp {S A} (m : Comp S A) (Q : Outcome A → S → Prop) (s : S) : Prop :=
  Q (m s).1 (m s).2.

Section Wp.
Context {S : Type}.

Lemma wp_ret {A} (a : A) Q (s : S) : Q (Done a) s → wp (ret a) Q s.
Proof. done. Qed.

Lemma wp_bind {A B} (m : Comp S A) (k : A → Comp S B) Q s :
  wp m (λ o s', match o with Done a => wp (k a) Q s' | Panic e => Q (Panic e) s' end) s →
  wp (bind m k) Q s.
Proof. unfold wp, bind. by destruct (m s) as [[]]. Qed.

Lemma wp_mono {A} (m : Comp S A) (Q Q' : Outcome A → S → Prop) s :
  wp m Q s → (∀ o s', Q o s' → Q' o s') → wp m Q' s.
Proof. unfold wp. auto. Qed.

Lemma wp_run {A} (m : Comp S A) Q (s : S) o s' : m s = (o, s') → Q o s' → wp m Q s.
Proof. unfold wp. by intros ->. Qed.

Lemma wp_ext {A} (m m' : Comp S A) Q (s : S) : m s = m' s → wp m' Q s → wp m Q s.
Proof. unfold wp. by intros ->. Qed.

(** A run that finishes, from its postcondition. *)
Lemma wp_exists {A} (m : Comp S A) (R : A → S → Prop) s :
  wp m (λ o s', ∃ a, o = Done a ∧ R a s') s → ∃ a s', m s = (Done a, s') ∧ R a s'.
Proof. unfold wp. destruct (m s) as [o s']. simpl. intros (a & -> & H). eauto. Qed.

(** Loop rule: an invariant of the body is an invariant of the loop. *)
Lemma wp_for_each {A} (body : A → Comp S unit) (I : S → Prop) xs s :
  (∀ x s, x ∈ xs → I s → wp (body x) (λ _ s', I s') s) →
  I s → wp (for_each body xs) (λ _ s', I s') s.
Proof.
  revert s. induction xs as [|x xs IH]; intros s Hb Hs; [done|].
  simpl. apply wp_bind. eapply wp_mono; [apply Hb; [by left|done]|].
  intros [[]|e] s' Hs'; [|done]. apply IH; [|done].
  intros y s1 Hy. apply Hb. by right.
Qed.

(** Loop rule for [for_fold]: the invariant speaks of the elements passed. *)
Lemma wp_for_fold {A L} (body : A → L → Comp S L) (I : list A → L → S → Prop) xs l s :
  I [] l s →
  (∀ pre x post l s, xs = pre ++ x :: post → I pre l s →
     wp (body x l) (λ o s', ∃ l', o = Done l' ∧ I (pre ++ [x]) l' s') s) →
  wp (for_fold body xs l) (λ o s', ∃ l', o = Done l' ∧ I xs l' s') s.
Proof.
  intros H0 Hb.
  assert (∀ rest pre l s, xs = pre ++ rest → I pre l s →
    wp (for_fold body rest l) (λ o s', ∃ l', o = Done l' ∧ I xs l' s') s) as H.
  { induction rest as [|x rest IH]; intros pre l' s' Hxs HI; simpl.
    - apply wp_ret. rewrite app_nil_r in Hxs. subst. eauto.
    - apply wp_bind. eapply wp_mono; [by eapply Hb|].
      intros o s1 (l1 & -> & HI1). apply (IH (pre ++ [x])); [|done].
      by rewrite Hxs, <- (assoc_L (++)). }
  by apply (H xs []).
Qed.

Lemma for_each_fold {A} (body : A → Comp S unit) xs s :
  for_each body xs s = for_fold (λ x _, body x) xs tt s.
Proof.
  revert s. induction xs as [|x xs IH]; intros s; [done|]. simpl. apply bind_ext; [done|].
  intros [] s1. apply IH.
Qed.
End Wp.

(** * Computations that never panic *)

Definition finishes {S A} (m : Comp S A) : Prop := ∀ s, ∃ a s', m s = (Done a, s').

Create HintDb finishes.

Section Finishes.
Context {S : Type}.

Lemma finishes_ret {A} (a : A) : finishes (ret (S := S) a).
Proof. intros s. by exists a, s. Qed.

Lemma finishes_gets {A} (f : S → A) : finishes (gets f).
Proof. intros s. by exists (f s), s. Qed.

Lemma finishes_modify (f : S → S) : finishes (modify f).
Proof. intros s. by exists tt, (f s). Qed.

Lemma finishes_bind {A B} (m : Comp S A) (k : A → Comp S B) :
  finishes m → (∀ a, finishes (k a)) → finishes (bind m k).
Proof. intros Hm Hk s. unfold bind. destruct (Hm s) as (a & s1 & ->). apply Hk. Qed.

Lemma finishes_for_each {A} (body : A → Comp S unit) xs :
  (∀ x, finishes (body x)) → finishes (for_each body xs).
Proof.
  intros Hb. induction xs as [|x xs IH]; [apply finishes_ret|]. by apply finishes_bind.
Qed.

Lemma finishes_for_fold {A L} (body : A → L → Comp S L) xs l :
  (∀ x l, finishes (body x l)) → finishes (for_fold body xs l).
Proof.
  intros Hb. revert l. induction xs as [|x xs IH]; intros l; [apply finishes_ret|].
  by apply finishes_bind.
Qed.

Lemma finishes_zoom {T A} (get : T → S) (put : S → T → T) (m : Comp S A) :
  finishes m → finishes (zoom get put m).
Proof. intros Hm t. unfold zoom. destruct (Hm (get t)) as (a & s' & ->). eauto. Qed.
End Finishes.

#[export] Hint Resolve finishes_ret finishes_gets finishes_modify : finishes.

(** * Tactics *)

(** Case analysis on the scrutinee of the first [match] of the goal that
    hides the result, keeping the equation. *)
Ltac go_case :=
  match goal with
  | |- context [match ?x with _ => _ end] =>
      lazymatch x with
      | context [match _ with _ => _ end] => fail
      | _ => destruct x eqn:?
      end
  end.

(** Case analysis on the [match] that blocks a hypothesis. *)
Ltac go_case_in H :=
  match type of H with
  | context [match ?x with _ => _ end] =>
      lazymatch x with
      | context [match _ with _ => _ end] => fail
      | _ => destruct x eqn:?
      end
  end.

(** Inversion of a finished chain of [bind]s. *)
Ltac go_inv H :=
  let a := fresh "a" in let s := fresh "s" in
  let H1 := fresh "Hrun" in let H2 := fresh "Hrest" in
  apply bind_inv in H; destruct H as (a & s & H1 & H2).

(** Evaluates a decidable proposition without variables. *)
Ltac decided := apply (bool_decide_unpack _); by vm_compute.

(** * Lists and options shared by the components *)

Lemma existsb_elem_of {A} (f : A → bool) (l : list A) :
  existsb f l = true ↔ ∃ x, x ∈ l ∧ f x = true.
Proof.
  rewrite existsb_exists. split; intros (x & Hx & Hf); exists x; split; auto;
    by apply list_elem_of_In.
Qed.

Lemma prefix_cons_iff {A} (x y : A) l1 l2 :
  (x :: l1) `prefix_of` (y :: l2) ↔ x = y ∧ l1 `prefix_of` l2.
Proof.
  split; [intros H; split; [by eapply prefix_cons_inv_1|by eapply prefix_cons_inv_2]|].
  intros [-> H]. by apply prefix_cons.
Qed.

Lemma list_snoc_cases {A} (l : list A) : l = [] ∨ ∃ l' x, l = l' ++ [x].
Proof. induction l as [|x l _] using rev_ind; eauto. Qed.

Lemma omap_none {A B} (f : A → option B) l : Forall (λ x, f x = None) l → omap f l = [].
Proof. induction 1 as [|x l Hx _ IH]; [done|]. cbn. by rewrite Hx. Qed.

Lemma omap_snoc {A B} (f : A → option B) l x : omap f (l ++ [x]) = omap f l ++ option_list (f x).
Proof. rewrite omap_app. cbn. by destruct (f x). Qed.

(** * Step relations *)

(** What every step keeps holds of every state reached from where it holds. *)
Lemma rtc_invariant {A} (R : relation A) (P : A → Prop) x y :
  (∀ u v, P u → R u v → P v) → P x → rtc R x y → P y.
Proof. intros Hstep Hx Hr. induction Hr; eauto. Qed.
