(* ===== verification/GoStrings.v ===== *)
(** The part of Go's [strings] and [sort] packages the program uses, on byte
    strings.  A Go [string] is a sequence of bytes and so is [string] here.
    Separators and cut sets are single bytes, as in every call of the program. *)

From S2P Require Import Prelude.

Definition slash : ascii := "/"%char.
Definition dot : ascii := "."%char.
Definition colon : ascii := ":"%char.

(** The bytes of a string. *)
Abbreviation bytes := String.list_ascii_of_string.

(** The string of one byte. *)
Definition chr (c : ascii) : string := String c "".

(** ** strings.Split, strings.Join, strings.SplitN(s, sep, 2) *)

Fixpoint Split (s : string) (sep : ascii) : list string :=
  match s with
  | "" => [""]
  | String c s' =>
      if decide (c = sep) then "" :: Split s' sep
      else match Split s' sep with
           | [] => [chr c]
           | w :: ws => String c w :: ws
           end
  end.

Fixpoint Join (xs : list string) (sep : ascii) : string :=
  match xs with
  | [] => ""
  | [x] => x
  | x :: xs' => x +:+ String sep (Join xs' sep)
  end.

(** [strings.SplitN(s, sep, 2)]: one piece when [sep] does not occur, else the
    text before and after its first occurrence. *)
Definition SplitN2 (s : string) (sep : ascii) : list string :=
  match Split s sep with
  | [] => []
  | [w] => [w]
  | w :: ws => [w; Join ws sep]
  end.

(** ** strings.Trim with a one-byte cut set *)

Fixpoint TrimLeft (s : string) (c : ascii) : string :=
  match s with
  | "" => ""
  | String a s' => if decide (a = c) then TrimLeft s' c else s
  end.

Fixpoint TrimRight (s : string) (c : ascii) : string :=
  match s with
  | "" => ""
  | String a s' =>
      match TrimRight s' c with
      | "" => if decide (a = c) then "" else chr a
      | t => String a t
      end
  end.

Definition Trim (s : string) (c : ascii) : string := TrimRight (TrimLeft s c) c.

(** ** strings.Fields

    Splits around runs of Unicode white space.  The white-space code points in
    UTF-8 are one to three bytes long and start with a byte that continues no
    other code point, so looking for them at every byte is exact, also in a
    string that is not valid UTF-8. *)

Definition byte (n : nat) : ascii := Ascii.ascii_of_nat n.

Definition space_len (s : string) : nat :=
  match s with
  | "" => 0
  | String a s' =>
      let n := Ascii.nat_of_ascii a in
      if decide (9 ≤ n ≤ 13 ∨ n = 32) then 1
      else match s' with
           | "" => 0
           | String b s'' =>
               let m := Ascii.nat_of_ascii b in
               if decide (n = 194 ∧ (m = 133 ∨ m = 160)) then 2
               else match s'' with
                    | "" => 0
                    | String c _ =>
                        let k := Ascii.nat_of_ascii c in
                        if decide ((n = 225 ∧ m = 154 ∧ k = 128)
                                   ∨ (n = 226 ∧ m = 128 ∧ (128 ≤ k ≤ 138 ∨ k = 168 ∨ k = 169 ∨ k = 175))
                                   ∨ (n = 226 ∧ m = 129 ∧ k = 159)
                                   ∨ (n = 227 ∧ m = 128 ∧ k = 128))
                        then 3 else 0
                    end
           end
  end.

(** [skip] counts the bytes left of the white space being passed, [cur] is the
    word being read. *)
Fixpoint fields_go (s : string) (skip : nat) (cur : string) : list string :=
  match s with
  | "" => if decide (cur = "") then [] else [cur]
  | String c s' =>
      match skip with
      | S k => fields_go s' k cur
      | 0 =>
          match space_len s with
          | 0 => fields_go s' 0 (cur +:+ chr c)
          | S k => if decide (cur = "") then fields_go s' k ""
                   else cur :: fields_go s' k ""
          end
      end
  end.

Definition Fields (s : string) : list string := fields_go s 0 "".

(** ** sort.Sort(sort.Reverse(sort.StringSlice(xs)))

    String comparison is bytewise; equal strings are indistinguishable, so the
    sorted slice is unique whatever algorithm [sort.Sort] runs. *)

Definition ge_string (a b : string) : Prop := String.le b a.
#[export] Instance ge_string_dec : RelDecision ge_string.
Proof. intros a b. unfold ge_string. apply _. Defined.
#[export] Instance ge_string_total : Total ge_string.
Proof. intros a b. unfold ge_string. destruct (String.le_total a b); auto. Qed.
#[export] Instance ge_string_trans : Transitive ge_string.
Proof. intros a b c H1 H2. unfold ge_string in *. by etrans. Qed.
#[export] Instance ge_string_antisymm : AntiSymm (=) ge_string.
Proof. intros a b H1 H2. unfold ge_string in *. by apply (anti_symm String.le). Qed.

Definition sort_reverse (xs : list string) : list string := merge_sort ge_string xs.

Lemma sort_reverse_perm xs : sort_reverse xs ≡ₚ xs.
Proof. apply merge_sort_Permutation. Qed.

Lemma sort_reverse_sorted xs : StronglySorted ge_string (sort_reverse xs).
Proof. apply StronglySorted_merge_sort; apply _. Qed.

(** * Lemmas on Split and Join *)

Lemma Split_ne s sep : Split s sep ≠ [].
Proof. destruct s as [|c s]; simpl; [done|]. case_decide; [done|]. by destruct (Split s sep). Qed.

Lemma Split_cons_ne c s sep w ws :
  c ≠ sep → Split s sep = w :: ws → Split (String c s) sep = String c w :: ws.
Proof. intros Hc Hs. simpl. rewrite decide_False by done. by rewrite Hs. Qed.

Lemma Join_Split s sep : Join (Split s sep) sep = s.
Proof.
  induction s as [|c s IH]; simpl; [done|]. case_decide as Hc.
  - subst. destruct (Split s sep) eqn:E; [by destruct (Split_ne s sep)|].
    rewrite <- IH. done.
  - destruct (Split s sep) as [|w ws] eqn:E; [by destruct (Split_ne s sep)|].
    rewrite <- IH. by destruct ws.
Qed.

Lemma Split_inj s t sep : Split s sep = Split t sep → s = t.
Proof. intros H. by rewrite <- (Join_Split s sep), H, Join_Split. Qed.

(** No piece contains the separator. *)
Lemma Split_no_sep s sep w : w ∈ Split s sep → sep ∉ bytes w.
Proof.
  revert w. induction s as [|c s IH]; intros w; simpl.
  - intros ->%list_elem_of_singleton. apply not_elem_of_nil.
  - case_decide as Hc.
    + intros [->|Hw]%elem_of_cons; [apply not_elem_of_nil|auto].
    + destruct (Split s sep) as [|v vs] eqn:E.
      { by destruct (Split_ne s sep). }
      intros [->|Hw]%elem_of_cons; simpl.
      * intros [->|Hin]%elem_of_cons; [done|]. by apply (IH v); [left|].
      * apply IH. by right.
Qed.

Lemma Split_single s sep : sep ∉ bytes s → Split s sep = [s].
Proof.
  induction s as [|c s IH]; simpl; [done|].
  rewrite not_elem_of_cons. intros [Hc Hs].
  rewrite decide_False by congruence. by rewrite IH.
Qed.

Lemma string_app_cons c s t : String c s +:+ t = String c (s +:+ t).
Proof. reflexivity. Qed.

Lemma bytes_app s t : bytes (s +:+ t) = bytes s ++ bytes t.
Proof. induction s as [|c s IH]; [done|]. rewrite string_app_cons. cbn. by rewrite <- IH. Qed.

Lemma string_app_nil_r s : s +:+ "" = s.
Proof. induction s as [|c s IH]; [done|]. by rewrite string_app_cons, IH. Qed.

Lemma string_app_assoc s t u : (s +:+ t) +:+ u = s +:+ (t +:+ u).
Proof. induction s as [|c s IH]; [done|]. rewrite !string_app_cons. by rewrite IH. Qed.

Lemma Split_app s t sep :
  sep ∉ bytes s → Split (s +:+ String sep t) sep = s :: Split t sep.
Proof.
  induction s as [|c s IH].
  - intros _. change (Split (String sep t) sep = "" :: Split t sep). simpl.
    by rewrite decide_True.
  - cbn [String.list_ascii_of_string]. rewrite not_elem_of_cons. intros [Hc Hs].
    rewrite string_app_cons. by rewrite (Split_cons_ne _ _ _ s (Split t sep)); [|congruence|auto].
Qed.

Lemma Join_cons x xs sep : xs ≠ [] → Join (x :: xs) sep = x +:+ String sep (Join xs sep).
Proof. by destruct xs. Qed.

Lemma Split_Join xs sep :
  xs ≠ [] → Forall (λ w, sep ∉ bytes w) xs → Split (Join xs sep) sep = xs.
Proof.
  induction xs as [|x xs IH]; [done|]. intros _ [Hx Hxs]%Forall_cons.
  destruct (decide (xs = [])) as [->|Hne]; [by apply Split_single|].
  rewrite Join_cons by done. rewrite Split_app by done. by rewrite IH.
Qed.

Lemma Join_app xs ys sep :
  xs ≠ [] → ys ≠ [] → Join (xs ++ ys) sep = Join xs sep +:+ String sep (Join ys sep).
Proof.
  intros Hx Hy. induction xs as [|x xs IH]; [done|]. simpl app.
  destruct (decide (xs = [])) as [->|Hne].
  - simpl app. by rewrite Join_cons.
  - rewrite !Join_cons by (try done; by destruct xs). rewrite IH by done.
    by rewrite string_app_assoc.
Qed.

Lemma Split_app_gen s t sep : Split (s +:+ String sep t) sep = Split s sep ++ Split t sep.
Proof.
  rewrite <- (Join_Split s sep) at 1.
  pose proof (Split_ne s sep) as Hne.
  assert (Forall (λ w, sep ∉ bytes w) (Split s sep)) as Hf
    by (apply Forall_forall; intros w Hw; by eapply Split_no_sep).
  revert Hne Hf. generalize (Split s sep) as xs. induction xs as [|x xs IH]; [done|].
  intros _ [Hx Hxs]%Forall_cons. destruct (decide (xs = [])) as [->|Hne].
  - simpl. by apply Split_app.
  - rewrite Join_cons, string_app_assoc, string_app_cons by done.
    rewrite Split_app by done. by rewrite IH.
Qed.

(** ** Lemmas on Trim *)

(** [ends_ok c s]: the string is empty, or neither starts nor ends with [c]. *)
Definition first_ne (c : ascii) (s : string) : Prop :=
  match s with "" => True | String a _ => a ≠ c end.

Lemma TrimLeft_id s c : first_ne c s → TrimLeft s c = s.
Proof. destruct s as [|a s]; simpl; [done|]. intros Ha. by rewrite decide_False. Qed.

Lemma TrimRight_app_ne s t c :
  TrimRight t c ≠ "" → TrimRight (s +:+ t) c = s +:+ TrimRight t c.
Proof.
  intros Ht. induction s as [|a s IH]; [done|]. rewrite !string_app_cons. simpl.
  rewrite IH. destruct (s +:+ TrimRight t c) eqn:E; [|done].
  exfalso. apply Ht. destruct s; [exact E|done].
Qed.

Lemma TrimRight_id_no s c : c ∉ bytes s → TrimRight s c = s.
Proof.
  induction s as [|a s IH]; [done|]. cbn [String.list_ascii_of_string].
  rewrite not_elem_of_cons. intros [Ha Hs]. simpl. rewrite IH by done.
  destruct s; [by rewrite decide_False by congruence|done].
Qed.

Lemma first_ne_no s c : c ∉ bytes s → first_ne c s.
Proof. destruct s as [|a s]; [done|]. cbn. rewrite not_elem_of_cons. intros []. congruence. Qed.

Lemma first_ne_app s t c : s ≠ "" → first_ne c s → first_ne c (s +:+ t).
Proof. by destruct s. Qed.

(** Joining non-empty separator-free words gives a text that [Trim] keeps. *)
Lemma Trim_Join xs sep :
  Forall (λ w, w ≠ "" ∧ sep ∉ bytes w) xs → Trim (Join xs sep) sep = Join xs sep.
Proof.
  intros Hxs. unfold Trim. rewrite TrimLeft_id.
  - induction xs as [|x xs IH]; [done|]. apply Forall_cons in Hxs as [[Hx Hn] Hxs].
    destruct (decide (xs = [])) as [->|Hne]; [by apply TrimRight_id_no|].
    rewrite Join_cons by done. change (String sep (Join xs sep)) with (chr sep +:+ Join xs sep).
    assert (Join xs sep ≠ "") as Hj.
    { destruct xs as [|y ys]; [done|]. apply Forall_cons in Hxs as [[Hy _] _].
      destruct ys; [done|]. rewrite Join_cons by done. by destruct y. }
    specialize (IH Hxs).
    assert (TrimRight (chr sep +:+ Join xs sep) sep = chr sep +:+ Join xs sep) as Hs
      by (rewrite TrimRight_app_ne; by rewrite IH).
    by rewrite TrimRight_app_ne; rewrite Hs.
  - destruct xs as [|x [|y ys]]; [done| |]; apply Forall_cons in Hxs as [[Hx Hn] _].
    + by apply first_ne_no.
    + rewrite Join_cons by done. apply first_ne_app; [done|]. by apply first_ne_no.
Qed.

(** A leading separator is trimmed away. *)
Lemma Trim_cons s c : Trim (String c s) c = Trim s c.
Proof. unfold Trim. simpl. by rewrite decide_True. Qed.

Lemma Split_sep s c : Split (String c s) c = "" :: Split s c.
Proof. simpl. by rewrite decide_True. Qed.

(** Trimming takes away empty words only. *)
Lemma TrimRight_Split s c : ∃ k, Split s c = Split (TrimRight s c) c ++ replicate k "".
Proof.
  induction s as [|a s [k IH]]; [by exists 0|]. simpl TrimRight.
  destruct (TrimRight s c) as [|b t] eqn:Ht.
  - simpl in IH. case_decide as Ha; subst.
    + exists (S k). by rewrite Split_sep, IH.
    + exists k. simpl. by rewrite !decide_False, IH.
  - exists k. destruct (decide (a = c)) as [->|Ha].
    + by rewrite !Split_sep, IH.
    + destruct (Split (String b t) c) as [|w ws] eqn:Hw; [by apply Split_ne in Hw|].
      rewrite (Split_cons_ne _ _ _ _ _ Ha IH). by rewrite (Split_cons_ne _ _ _ _ _ Ha Hw).
Qed.

Lemma TrimLeft_Split s c : ∃ k, Split s c = replicate k "" ++ Split (TrimLeft s c) c.
Proof.
  induction s as [|a s [k IH]]; [by exists 0|]. simpl TrimLeft. case_decide as Ha; [|by exists 0].
  subst. exists (S k). by rewrite Split_sep, IH.
Qed.

Lemma Trim_Split s c : ∃ j k, Split s c = replicate j "" ++ Split (Trim s c) c ++ replicate k "".
Proof.
  destruct (TrimLeft_Split s c) as [j Hj]. destruct (TrimRight_Split (TrimLeft s c) c) as [k Hk].
  exists j, k. by rewrite Hj, Hk.
Qed.

(** ** Substrings *)

Lemma substring_all s : String.substring 0 (String.length s) s = s.
Proof. induction s as [|c s IH]; [done|]. simpl. by rewrite IH. Qed.

(** A string is its first [n] bytes and the rest. *)
Lemma substring_split n s :
  String.substring 0 n s +:+ String.substring n (String.length s - n) s = s.
Proof.
  revert s. induction n as [|n IH]; intros s.
  - rewrite Nat.sub_0_r, substring_all. by destruct s.
  - destruct s as [|c s]; [done|]. simpl. rewrite string_app_cons. by rewrite IH.
Qed.

Lemma substring_take_length n s : n ≤ String.length s → String.length (String.substring 0 n s) = n.
Proof.
  revert n. induction s as [|c s IH]; intros [|n] H; simpl in *; try done; try lia.
  rewrite IH; lia.
Qed.

Lemma string_length_app s t : String.length (s +:+ t) = String.length s + String.length t.
Proof. induction s as [|c s IH]; [done|]. rewrite string_app_cons. simpl. by rewrite IH. Qed.

Lemma string_prefix_app s t : String.prefix s (s +:+ t) = true.
Proof.
  induction s as [|c s IH]; [by destruct t|]. rewrite string_app_cons. simpl.
  by destruct (ascii_dec c c).
Qed.

(** What follows a prefix. *)
Lemma substring_drop_app s t :
  String.substring (String.length s) (String.length t) (s +:+ t) = t.
Proof. induction s as [|c s IH]; [apply substring_all|]. rewrite string_app_cons. simpl. apply IH. Qed.
