(* ===== verification/GoPath.v ===== *)
(** Go's [path/filepath] on Unix: [Clean], [Join] and [Rel], which are purely
    lexical.  Go works on a byte buffer; here a path is cut into its
    slash-separated elements, which gives the same results. *)

From S2P Require Import Prelude GoStrings.

(** ** filepath.Clean *)

Definition is_rooted (p : string) : bool :=
  match p with String c _ => bool_decide (c = slash) | "" => false end.

(** One element of the path, against the elements kept so far (last first). *)
Definition clean_step (rooted : bool) (stack : list string) (e : string) : list string :=
  if decide (e = "" ∨ e = ".") then stack
  else if decide (e = "..") then
    match stack with
    | x :: rest => if decide (x = "..") then ".." :: stack else rest
    | [] => if rooted then [] else [".."]
    end
  else e :: stack.

Definition clean_elems (rooted : bool) (es : list string) : list string :=
  reverse (foldl (clean_step rooted) [] es).

Definition render (rooted : bool) (es : list string) : string :=
  if rooted then String slash (Join es slash)
  else if decide (es = []) then "." else Join es slash.

Definition Clean (p : string) : string :=
  if decide (p = "") then "."
  else render (is_rooted p) (clean_elems (is_rooted p) (Split p slash)).

(** ** filepath.Join *)

Fixpoint drop_empty (es : list string) : list string :=
  match es with
  | "" :: es' => drop_empty es'
  | _ => es
  end.

Definition JoinPath (es : list string) : string :=
  match drop_empty es with
  | [] => ""
  | es' => Clean (Join es' slash)
  end.

(** ** filepath.Rel: [None] stands for its error. *)

Definition words_of (p : string) : list string :=
  let q := if is_rooted p then String.substring 1 (String.length p - 1) p else p in
  if decide (q = "") then [] else Split q slash.

Fixpoint strip_common (bs ts : list string) : list string * list string :=
  match bs, ts with
  | b :: bs', t :: ts' => if decide (b = t) then strip_common bs' ts' else (bs, ts)
  | _, _ => (bs, ts)
  end.

Definition Rel (basepath targpath : string) : option string :=
  let base := Clean basepath in
  let targ := Clean targpath in
  if decide (base = targ) then Some "."
  else
    let base := if decide (base = ".") then "" else base in
    if decide (is_rooted base ≠ is_rooted targ) then None
    else
      let '(bs, ts) := strip_common (words_of base) (words_of targ) in
      match bs with
      | [] => Some (Join ts slash)
      | b :: _ => if decide (b = ".." ∧ ts ≠ []) then None
                  else Some (Join (((λ _, "..") <$> bs) ++ ts) slash)
      end.

(** * Normal element lists *)

(** An element that stands for a name. *)
Definition plain (e : string) : Prop := e ≠ "" ∧ e ≠ "." ∧ slash ∉ bytes e.

#[export] Instance plain_dec e : Decision (plain e).
Proof. unfold plain. apply _. Defined.

(** What [Clean] leaves: names and [".."], the latter only as a leading run of
    a path that is not rooted. *)
Definition normal (rooted : bool) (es : list string) : Prop :=
  ∃ n ns, es = replicate n ".." ++ ns ∧ Forall plain ns ∧ (".." ∉ ns) ∧ (rooted = true → n = 0).

(** The elements of a path that [Clean] returned. *)
Definition elems (p : string) : list string :=
  filter (λ e, e ≠ "" ∧ e ≠ ".") (Split p slash).

Lemma plain_dotdot : plain "..".
Proof. split; [done|]. split; [done|]. by intros [?|[?|?%elem_of_nil]%elem_of_cons]%elem_of_cons. Qed.

Lemma normal_plain rooted es : normal rooted es → Forall plain es.
Proof.
  intros (n & ns & -> & Hns & _ & _). apply Forall_app; split; [|done].
  apply Forall_replicate, plain_dotdot.
Qed.

Lemma normal_nil rooted : normal rooted [].
Proof. exists 0, []. split_and!; try done. apply not_elem_of_nil. Qed.

Lemma normal_names rooted ns : Forall plain ns → ".." ∉ ns → normal rooted ns.
Proof. intros. by exists 0, ns. Qed.

Lemma normal_tail rooted e es : normal rooted (e :: es) → normal false es.
Proof.
  intros (n & ns & H & Hns & Hd & _). destruct n as [|n]; simpl in H; simplify_eq.
  - exists 0, es. apply Forall_cons in Hns as [_ Hns].
    split_and!; try done. by apply not_elem_of_cons in Hd as [_ Hd].
  - exists n, ns. done.
Qed.

(** After an element that is a name, there is no [".."]. *)
Lemma normal_no_dotdot rooted e es :
  normal rooted (e :: es) → rooted = true ∨ e ≠ ".." → ".." ∉ es.
Proof.
  intros (n & ns & H & Hns & Hd & Hr) Hor. destruct n as [|n]; simpl in H; simplify_eq.
  - by apply not_elem_of_cons in Hd as [_ Hd].
  - exfalso. destruct Hor as [Hor|]; [|done]. by specialize (Hr Hor).
Qed.

(** ** The stack of [Clean] *)

Definition good_stack (rooted : bool) (st : list string) : Prop := normal rooted (reverse st).

Lemma good_stack_push rooted st e :
  good_stack rooted st → plain e → e ≠ ".." → good_stack rooted (e :: st).
Proof.
  intros (n & ns & H & Hns & Hd & Hr) He Hne. exists n, (ns ++ [e]).
  rewrite reverse_cons, H, (assoc_L (++)). split_and!; try done.
  - apply Forall_app; auto.
  - rewrite elem_of_app, list_elem_of_singleton. by intros [?|?].
Qed.

Lemma good_stack_push_dotdot st rest :
  st = [] ∨ st = ".." :: rest → good_stack false st → good_stack false (".." :: st).
Proof.
  intros Hst (n & ns & H & Hns & Hd & Hr).
  assert (ns = []) as ->.
  { destruct (list_snoc_cases ns) as [->|(ns' & x & ->)]; [done|]. exfalso.
    destruct Hst as [->| ->].
    - symmetry in H. apply app_eq_nil in H as [_ H]. by destruct ns'.
    - rewrite reverse_cons, (assoc_L (++)) in H. apply app_inj_tail in H as [_ <-].
      apply Hd. apply elem_of_app. right. by left. }
  exists (S n), []. rewrite reverse_cons, H, !app_nil_r. split_and!; try done.
  by rewrite <- replicate_cons_app.
Qed.

Lemma good_stack_pop rooted x st : good_stack rooted (x :: st) → x ≠ ".." → good_stack rooted st.
Proof.
  intros (n & ns & H & Hns & Hd & Hr) Hx. rewrite reverse_cons in H.
  destruct (list_snoc_cases ns) as [->|(ns' & y & ->)].
  - exfalso. rewrite app_nil_r in H. destruct n as [|n]; [by destruct (reverse st)|].
    rewrite replicate_S_end in H. by apply app_inj_tail in H as [_ ->].
  - rewrite (assoc_L (++)) in H. apply app_inj_tail in H as [H ->].
    exists n, ns'. apply Forall_app in Hns as [Hns _].
    split_and!; try done. intros Hin. apply Hd, elem_of_app. by left.
Qed.

Lemma clean_step_good rooted st e :
  slash ∉ bytes e → good_stack rooted st → good_stack rooted (clean_step rooted st e).
Proof.
  intros He Hst. unfold clean_step. case_decide as H1; [done|]. case_decide as H2.
  - destruct st as [|x st].
    + destruct rooted; [done|]. by apply (good_stack_push_dotdot [] []); [left|].
    + case_decide as Hx; [|by eapply good_stack_pop].
      subst. destruct rooted; [|by apply (good_stack_push_dotdot _ st); [right|]].
      destruct Hst as (n & ns & H & _ & Hd & Hr). rewrite (Hr eq_refl) in H.
      exfalso. apply Hd. simpl in H. rewrite <- H. apply elem_of_reverse. by left.
  - apply good_stack_push; [done| |done]. repeat split; naive_solver.
Qed.

Lemma clean_elems_normal rooted es :
  Forall (λ e, slash ∉ bytes e) es → normal rooted (clean_elems rooted es).
Proof.
  unfold clean_elems. assert (good_stack rooted []) as H by apply normal_nil.
  revert H. generalize (@nil string) as st. intros st H Hes. revert st H.
  induction Hes as [|e es He Hes IH]; intros st H; [done|]. simpl. by apply IH, clean_step_good.
Qed.

(** Names are pushed one after the other. *)
Lemma foldl_clean_step_app rooted st ns :
  Forall plain ns → ".." ∉ ns → foldl (clean_step rooted) st ns = reverse ns ++ st.
Proof.
  revert st. induction ns as [|e ns IH]; intros st Hns Hd; [done|].
  apply Forall_cons in Hns as [(H1 & H2 & H3) Hns]. apply not_elem_of_cons in Hd as [Hd1 Hd2].
  simpl. unfold clean_step at 2. rewrite decide_False by by intros [].
  rewrite decide_False, IH by done. by rewrite reverse_cons, <- (assoc_L (++)).
Qed.

(** A normal list is kept as it is. *)
Lemma clean_elems_id rooted es : normal rooted es → clean_elems rooted es = es.
Proof.
  intros (n & ns & -> & Hns & Hd & Hr). unfold clean_elems. rewrite foldl_app.
  assert (foldl (clean_step rooted) [] (replicate n "..") = replicate n "..") as ->.
  { destruct rooted; [by rewrite Hr|]. clear. induction n as [|n IH]; [done|].
    rewrite replicate_S_end, foldl_app, IH, <- replicate_S_end. by destruct n. }
  by rewrite foldl_clean_step_app, reverse_app, reverse_involutive, reverse_replicate.
Qed.

(** ** Clean *)

Lemma Split_plain es : es ≠ [] → Forall plain es → Split (Join es slash) slash = es.
Proof.
  intros Hne Hes. apply Split_Join; [done|]. eapply Forall_impl; [done|]. by intros e (_ & _ & ?).
Qed.

Lemma filter_plain es : Forall plain es → filter (λ e, e ≠ "" ∧ e ≠ ".") es = es.
Proof.
  induction 1 as [|e es (H1 & H2 & _) _ IH]; [done|].
  rewrite filter_cons_True by done. by rewrite IH.
Qed.

(** Every cleaned path is a rendered normal list. *)
Lemma Clean_render p :
  p ≠ "" → ∃ es, Clean p = render (is_rooted p) es ∧ normal (is_rooted p) es.
Proof.
  intros Hp. unfold Clean. rewrite decide_False by done. eexists; split; [done|].
  apply clean_elems_normal, Forall_forall. intros e He. by eapply Split_no_sep.
Qed.

Lemma Clean_normal_form p :
  ∃ rooted es, Clean p = render rooted es ∧ normal rooted es.
Proof.
  destruct (decide (p = "")) as [->|Hp].
  - exists false, []. split; [done|]. apply normal_nil.
  - destruct (Clean_render p Hp) as (es & ? & ?). eauto.
Qed.

Lemma is_rooted_Join es : Forall plain es → is_rooted (Join es slash) = false.
Proof.
  intros Hes. destruct es as [|e es]; [done|]. apply Forall_cons in Hes as [(H1 & _ & H3) _].
  destruct e as [|c e]; [done|].
  assert (is_rooted (Join (String c e :: es) slash) = bool_decide (c = slash)) as ->
    by (by destruct es).
  apply bool_decide_eq_false. intros ->. apply H3. by left.
Qed.

Lemma is_rooted_render rooted es : Forall plain es → is_rooted (render rooted es) = rooted.
Proof.
  intros Hes. destruct rooted; [done|]. unfold render. case_decide; [done|]. by apply is_rooted_Join.
Qed.

(** The elements of a rendered list. *)
Lemma elems_render rooted es : Forall plain es → elems (render rooted es) = es.
Proof.
  intros Hes. unfold elems, render. destruct (decide (es = [])) as [->|Hne].
  - by destruct rooted.
  - destruct rooted.
    + change (String slash (Join es slash)) with ("" +:+ String slash (Join es slash)).
      rewrite Split_app by apply not_elem_of_nil. rewrite filter_cons_False by by intros [].
      rewrite Split_plain by done. by apply filter_plain.
    + rewrite Split_plain by done. by apply filter_plain.
Qed.

(** [clean_step] passes over empty and [.] elements. *)
Lemma clean_elems_filter rooted es :
  clean_elems rooted (filter (λ e, e ≠ "" ∧ e ≠ ".") es) = clean_elems rooted es.
Proof.
  unfold clean_elems. f_equal. generalize (@nil string) as st.
  induction es as [|e es IH]; intros st; [done|]. destruct (decide (e ≠ "" ∧ e ≠ ".")) as [He|He].
  - rewrite filter_cons_True by done. simpl. apply IH.
  - rewrite filter_cons_False by done. simpl. rewrite IH. f_equal.
    unfold clean_step. rewrite decide_True; [done|]. destruct (decide (e = "")); [by left|].
    right. destruct (decide (e = ".")); [done|]. naive_solver.
Qed.

Lemma Clean_elems p : p ≠ "" → Clean p = render (is_rooted p) (clean_elems (is_rooted p) (elems p)).
Proof. intros Hp. unfold Clean, elems. by rewrite decide_False, clean_elems_filter. Qed.

(** A path in normal form is left alone. *)
Lemma Clean_render_id rooted es : normal rooted es → Clean (render rooted es) = render rooted es.
Proof.
  intros Hes. assert (render rooted es ≠ "") as Hne.
  { unfold render. destruct rooted; [done|]. case_decide as Hd; [done|].
    apply normal_plain in Hes. destruct es as [|e es]; [done|].
    apply Forall_cons in Hes as [(? & _) _]. destruct es; [done|]. rewrite Join_cons by done. by destruct e. }
  rewrite Clean_elems by done. pose proof (normal_plain _ _ Hes) as Hp.
  rewrite is_rooted_render, elems_render by done. by rewrite clean_elems_id.
Qed.

Lemma Clean_idempotent p : Clean (Clean p) = Clean p.
Proof. destruct (Clean_normal_form p) as (rooted & es & -> & H). by apply Clean_render_id. Qed.

Lemma Clean_Join_plain es : es ≠ [] → normal false es → Clean (Join es slash) = Join es slash.
Proof.
  intros Hne Hes. pose proof (Clean_render_id false es Hes) as H. unfold render in H.
  by rewrite decide_False in H.
Qed.

(** A rooted path has no [".."] left. *)
Lemma Clean_rooted_no_dotdot p :
  is_rooted p = true → is_rooted (Clean p) = true ∧ ".." ∉ elems (Clean p).
Proof.
  intros Hr. assert (p ≠ "") as Hp by (by intros ->).
  destruct (Clean_render p Hp) as (es & -> & Hes). rewrite Hr in *.
  rewrite is_rooted_render, elems_render by (by eapply normal_plain). split; [done|].
  destruct Hes as (n & ns & -> & _ & Hd & H0). by rewrite (H0 eq_refl).
Qed.

(** ** Confinement *)

(** [within base p]: [p] is [base] or a path below it. *)
Definition within (base p : string) : Prop :=
  is_rooted p = is_rooted base ∧ ∃ rest, elems p = elems base ++ rest ∧ ".." ∉ rest.

#[export] Instance within_dec base p : Decision (within base p).
Proof.
  destruct (decide (is_rooted p = is_rooted base)) as [Hr|Hr]; [|right; by intros [? _]].
  destruct (decide (elems base `prefix_of` elems p)) as [Hp|Hp].
  - destruct (decide (".." ∈ drop (length (elems base)) (elems p))) as [Hd|Hd].
    + right. intros (_ & rest & He & Hn). rewrite He, drop_app_length in Hd. done.
    + left. split; [done|]. destruct Hp as [rest Hp]. exists rest. split; [done|].
      by rewrite Hp, drop_app_length in Hd.
  - right. intros (_ & rest & He & _). apply Hp. by exists rest.
Defined.

Lemma within_refl p : within p p.
Proof. split; [done|]. exists []. by rewrite app_nil_r; split; [|apply not_elem_of_nil]. Qed.

Lemma within_trans p q r : within p q → within q r → within p r.
Proof.
  intros [H1 (l1 & E1 & N1)] [H2 (l2 & E2 & N2)]. split; [congruence|].
  exists (l1 ++ l2). rewrite E2, E1, (assoc_L (++)). split; [done|].
  rewrite elem_of_app. by intros [?|?].
Qed.

Lemma elems_Clean p :
  p ≠ "" → elems (Clean p) = clean_elems (is_rooted p) (Split p slash).
Proof.
  intros Hp. unfold Clean. rewrite decide_False by done. apply elems_render.
  eapply normal_plain, clean_elems_normal, Forall_forall. intros e He. by eapply Split_no_sep.
Qed.

Lemma is_rooted_Clean p : is_rooted (Clean p) = is_rooted p.
Proof.
  destruct (decide (p = "")) as [->|Hp]; [done|]. unfold Clean. rewrite decide_False by done.
  apply is_rooted_render. eapply normal_plain, clean_elems_normal, Forall_forall.
  intros e He. by eapply Split_no_sep.
Qed.

Lemma JoinPath_within src ns :
  ns ≠ [] → Forall plain ns → ".." ∉ ns → within (Clean src) (JoinPath [src; Join ns slash]).
Proof.
  intros Hne Hns Hd.
  assert (normal false ns) as Hnorm by by apply normal_names.
  assert (Join ns slash ≠ "") as Hj.
  { intros E. pose proof (Split_plain ns Hne Hns) as Hs. rewrite E in Hs. simpl in Hs. subst ns.
    by apply Forall_cons in Hns as [(? & _) _]. }
  destruct (decide (src = "")) as [->|Hs].
  - unfold JoinPath. simpl. destruct (Join ns slash) eqn:E; [done|]. rewrite <- E.
    simpl. rewrite Clean_Join_plain by done. split; [by rewrite is_rooted_Join|].
    exists ns. split; [|done]. pose proof (elems_render false ns Hns) as H.
    unfold render in H. by rewrite decide_False in H.
  - unfold JoinPath. assert (drop_empty [src; Join ns slash] = [src; Join ns slash]) as ->
      by (by destruct src). simpl Join.
    assert (src +:+ String slash (Join ns slash) ≠ "") as Hne' by (by destruct src).
    assert (is_rooted (src +:+ String slash (Join ns slash)) = is_rooted src) as Hr by (by destruct src).
    split; [by rewrite !is_rooted_Clean|]. exists ns. split; [|done].
    rewrite !elems_Clean by done. rewrite Hr. unfold clean_elems.
    rewrite Split_app_gen, foldl_app, Split_plain by done.
    rewrite foldl_clean_step_app by done. by rewrite reverse_app, reverse_involutive.
Qed.

Lemma JoinPath_dot_within src : within (Clean src) (JoinPath [src; "."]).
Proof.
  destruct (decide (src = "")) as [->|Hs]; [by apply within_refl|].
  unfold JoinPath. assert (drop_empty [src; "."] = [src; "."]) as -> by (by destruct src).
  simpl Join. assert (src +:+ String slash "." ≠ "") as Hne by (by destruct src).
  assert (is_rooted (src +:+ String slash ".") = is_rooted src) as Hr by (by destruct src).
  split; [by rewrite !is_rooted_Clean|]. exists []. split; [|apply not_elem_of_nil].
  rewrite !elems_Clean, app_nil_r by done. rewrite Hr. unfold clean_elems.
  by rewrite Split_app_gen, foldl_app.
Qed.

Lemma Clean_JoinPath es : drop_empty es ≠ [] → Clean (JoinPath es) = JoinPath es.
Proof. unfold JoinPath. destruct (drop_empty es); [done|]. intros _. apply Clean_idempotent. Qed.

(** ** Paths without [..] *)

(** Cleaning such a path only drops its empty and [.] parts. *)
Lemma elems_Clean_no_dotdot p : ".." ∉ Split p slash → elems (Clean p) = elems p.
Proof.
  intros Hd. destruct (decide (p = "")) as [->|Hp]; [done|].
  rewrite elems_Clean, <- clean_elems_filter by done. apply clean_elems_id, normal_names.
  - apply Forall_forall. intros e ([? ?] & Hin)%list_elem_of_filter.
    split_and!; [done..|]. by eapply Split_no_sep.
  - by intros [_ ?]%list_elem_of_filter.
Qed.

Lemma elems_Trim p : elems p = filter (λ e, e ≠ "" ∧ e ≠ ".") (Split (Trim p slash) slash).
Proof.
  unfold elems. destruct (Trim_Split p slash) as (j & k & ->). rewrite !filter_app.
  assert (∀ n, filter (λ e, e ≠ "" ∧ e ≠ ".") (replicate n "") = []) as Hr.
  { induction n as [|n IH]; [done|]. simpl replicate. rewrite filter_cons_False; [done|]. by intros []. }
  by rewrite !Hr, app_nil_r.
Qed.

(** ** Leaving a directory *)

(** Each [..] takes one name off the stack. *)
Lemma foldl_clean_step_pop rooted ds st :
  ".." ∉ ds → foldl (clean_step rooted) (ds ++ st) (replicate (length ds) "..") = st.
Proof.
  induction ds as [|d ds IH]; intros Hd; [done|]. apply not_elem_of_cons in Hd as [Hd1 Hd2].
  simpl. unfold clean_step at 2. rewrite decide_False by by intros [].
  rewrite decide_True by done. simpl. rewrite decide_False by congruence. by apply IH.
Qed.

(** Enough [..] in front of a name lead from any directory to any other one. *)
Lemma JoinPath_escape ds ns :
  ds ≠ [] → Forall plain ds → ".." ∉ ds → Forall plain ns → ".." ∉ ns →
  JoinPath [render true ds; Join (replicate (length ds) ".." ++ ns) slash] = render true ns.
Proof.
  intros Hne Hds Hd Hns Hn. set (up := replicate (length ds) ".." ++ ns).
  assert (Forall plain up) as Hup
    by (apply Forall_app; split; [apply Forall_replicate, plain_dotdot|done]).
  assert (up ≠ []) as Hupne by (by destruct ds).
  assert (JoinPath [render true ds; Join up slash]
    = render true (clean_elems true (Split (render true ds +:+ String slash (Join up slash)) slash))) as ->
    by done.
  f_equal. unfold clean_elems. rewrite Split_app_gen, Split_plain by done.
  assert (Split (render true ds) slash = "" :: ds) as ->.
  { change (render true ds) with ("" +:+ String slash (Join ds slash)).
    by rewrite Split_app_gen, Split_plain. }
  unfold up. rewrite !foldl_app.
  change (foldl (clean_step true) [] ("" :: ds)) with (foldl (clean_step true) [] ds).
  rewrite (foldl_clean_step_app true [] ds), app_nil_r by done.
  rewrite <- (length_reverse ds), <- (app_nil_r (reverse ds)) at 1.
  rewrite foldl_clean_step_pop by by rewrite elem_of_reverse.
  rewrite foldl_clean_step_app by done. by rewrite app_nil_r, reverse_involutive.
Qed.

(** ** Paths apart from each other *)

(** Neither is the other, or below it. *)
Definition apart (p q : string) : Prop := ¬ within (Clean p) (Clean q) ∧ ¬ within (Clean q) (Clean p).

#[export] Instance apart_dec p q : Decision (apart p q).
Proof. unfold apart. apply _. Defined.

Lemma apart_sym p q : apart p q → apart q p.
Proof. by intros [? ?]. Qed.

(** Two paths above the same one are one above the other. *)
Lemma within_comparable p q r : within p r → within q r → within p q ∨ within q p.
Proof.
  intros [H1 (l1 & E1 & N1)] [H2 (l2 & E2 & N2)]. rewrite E1 in E2.
  destruct (app_eq_inv _ _ _ _ E2) as [(k & Ek & El)|(k & Ek & El)].
  - right. split; [congruence|]. exists k. split; [done|]. intros Hk. apply N2. rewrite El. apply elem_of_app. by left.
  - left. split; [congruence|]. exists k. split; [done|]. intros Hk. apply N1. rewrite El. apply elem_of_app. by left.
Qed.

(** What is apart from a directory is apart from everything below it. *)
Lemma apart_below p base q : apart p base → within (Clean base) (Clean q) → apart p q.
Proof.
  intros [H1 H2] Hb. split; intros H.
  - by destruct (within_comparable _ _ _ H Hb).
  - apply H2. by eapply within_trans.
Qed.

Lemma elems_below base name :
  base ≠ "" → plain name → name ≠ ".." →
  elems (Clean (base +:+ "/" +:+ name)) = elems (Clean base) ++ [name].
Proof.
  intros Hb Hn Hd. change (base +:+ "/" +:+ name) with (base +:+ String slash name).
  assert (base +:+ String slash name ≠ "") as Hne by by destruct base.
  assert (is_rooted (base +:+ String slash name) = is_rooted base) as Hr by by destruct base.
  rewrite !elems_Clean by done. rewrite Hr. unfold clean_elems.
  rewrite Split_app_gen, foldl_app, (Split_single name) by apply Hn. simpl.
  unfold clean_step at 1. destruct Hn as (? & ? & _). rewrite decide_False by tauto.
  rewrite decide_False by done. by rewrite reverse_cons.
Qed.

Lemma within_below base name :
  base ≠ "" → plain name → name ≠ ".." → within (Clean base) (Clean (base +:+ "/" +:+ name)).
Proof.
  intros Hb Hn Hd. split; [rewrite !is_rooted_Clean; by destruct base|].
  exists [name]. split; [by apply elems_below|]. by intros ?%list_elem_of_singleton.
Qed.

Lemma apart_siblings base n m :
  base ≠ "" → plain n → n ≠ ".." → plain m → m ≠ ".." → n ≠ m →
  apart (base +:+ "/" +:+ n) (base +:+ "/" +:+ m).
Proof.
  intros Hb Hn Hn' Hm Hm' Hne.
  split; intros [_ (rest & E & _)]; rewrite !elems_below, <- (assoc_L (++)) in E by done;
    apply app_inv_head in E; injection E as E; by subst.
Qed.

(** A slash at the end does not matter. *)
Lemma Clean_slash p : p ≠ "" → Clean (p +:+ "/") = Clean p.
Proof.
  intros Hp. assert (p +:+ "/" ≠ "") as Hne by by destruct p.
  assert (is_rooted (p +:+ "/") = is_rooted p) as Hr by by destruct p.
  unfold Clean. rewrite !decide_False by done. f_equal; [done|]. rewrite Hr.
  unfold clean_elems. change (p +:+ "/") with (p +:+ String slash ""). by rewrite Split_app_gen, foldl_app.
Qed.

Lemma JoinPath_slash base name : base ≠ "" → JoinPath [base; name] = Clean (base +:+ "/" +:+ name) ∨ name = "".
Proof. intros Hb. destruct name as [|c name]; [by right|]. left. by destruct base. Qed.
