(* ===== verification/GoTime.v ===== *)
(** Go's [time] package as far as the program uses it: the two layouts it
    formats with, and [time.ParseDuration]. *)

From Stdlib Require Import SpecFloat.
From S2P Require Import Prelude GoStrings.

(** * Formatting *)

(** A local time, as [Format] sees it. *)
Record DateTime := mkDateTime {
  Year : N; Month : N; Day : N; Hour : N; Minute : N; Second : N;
}.

Definition digit (n : N) : ascii := ascii_of_N (48 + n mod 10).

(** The [w] lowest decimal digits of [n]. *)
Fixpoint fixed (w : nat) (n : N) : string :=
  match w with
  | 0 => ""
  | S w' => fixed w' (n / 10) +:+ chr (digit n)
  end.

Fixpoint width (fuel : nat) (n : N) : nat :=
  match fuel with
  | 0 => 1
  | S f => if decide (n < 10)%N then 1 else S (width f (n / 10))
  end.

(** Zero padding to [w] digits; a longer number is not cut. *)
Definition pad (w : nat) (n : N) : string := fixed (w `max` width (N.to_nat (N.size n)) n) n.

(** [t.Format("20060102_150405")] *)
Definition FormatStamp (t : DateTime) : string :=
  pad 4 (Year t) +:+ pad 2 (Month t) +:+ pad 2 (Day t) +:+ "_" +:+
  pad 2 (Hour t) +:+ pad 2 (Minute t) +:+ pad 2 (Second t).

(** [t.Format("2006-01-02 15:04:05")] *)
Definition FormatLog (t : DateTime) : string :=
  pad 4 (Year t) +:+ "-" +:+ pad 2 (Month t) +:+ "-" +:+ pad 2 (Day t) +:+ " " +:+
  pad 2 (Hour t) +:+ ":" +:+ pad 2 (Minute t) +:+ ":" +:+ pad 2 (Second t).

(** * time.ParseDuration

    The result is a number of nanoseconds, [None] stands for the error.  The
    fraction of a unit is computed in [float64], as Go does. *)

Definition float64 := spec_float.
Definition f64_of_Z (z : Z) : float64 := binary_normalize 53 1024 z 0 false.
Definition f64_mul (x y : float64) : float64 := SFmul 53 1024 x y.
Definition f64_div (x y : float64) : float64 := SFdiv 53 1024 x y.

(** [uint64(x)] for a finite non-negative [x]: truncation. *)
Definition f64_trunc (x : float64) : Z :=
  match x with
  | S754_finite _ m e => if decide (0 ≤ e)%Z then (Z.pos m * 2 ^ e)%Z else (Z.pos m / 2 ^ (- e))%Z
  | _ => 0%Z
  end.

Definition digit_val (c : ascii) : option Z :=
  let n := Z.of_N (N_of_ascii c) in
  if decide (48 ≤ n ≤ 57)%Z then Some (n - 48)%Z else None.

(** [leadingInt]: the digits' value and the rest, [None] on overflow. *)
Fixpoint leadingInt (s : string) (x : Z) : option (Z * string) :=
  match s with
  | "" => Some (x, s)
  | String c s' =>
      match digit_val c with
      | None => Some (x, s)
      | Some d =>
          if decide (x > 2 ^ 63 / 10)%Z then None
          else if decide (x * 10 + d > 2 ^ 63)%Z then None
          else leadingInt s' (x * 10 + d)
      end
  end.

(** [leadingFraction]: value, scale, and rest; digits that overflow are passed over. *)
Fixpoint leadingFraction (s : string) (x : Z) (scale : float64) (overflow : bool)
    : Z * float64 * string :=
  match s with
  | "" => (x, scale, s)
  | String c s' =>
      match digit_val c with
      | None => (x, scale, s)
      | Some d =>
          if overflow then leadingFraction s' x scale true
          else if decide (x > (2 ^ 63 - 1) / 10)%Z then leadingFraction s' x scale true
          else if decide (x * 10 + d > 2 ^ 63)%Z then leadingFraction s' x scale true
          else leadingFraction s' (x * 10 + d) (f64_mul scale (f64_of_Z 10)) false
      end
  end.

(** The unit: everything up to the next digit or dot. *)
Fixpoint unit_name (s : string) : string * string :=
  match s with
  | "" => ("", "")
  | String c s' =>
      if decide (c = dot) then ("", s)
      else match digit_val c with
           | Some _ => ("", s)
           | None => let '(u, r) := unit_name s' in (String c u, r)
           end
  end.

Definition unitMap (u : string) : option Z :=
  if decide (u = "ns") then Some 1%Z
  else if decide (u = "us" ∨ u = "µs" ∨ u = "μs") then Some (10 ^ 3)%Z
  else if decide (u = "ms") then Some (10 ^ 6)%Z
  else if decide (u = "s") then Some (10 ^ 9)%Z
  else if decide (u = "m") then Some (60 * 10 ^ 9)%Z
  else if decide (u = "h") then Some (3600 * 10 ^ 9)%Z
  else None.

(** One number with its unit: the nanoseconds and the rest. *)
Definition duration_item (s : string) : option (Z * string) :=
  match s with
  | "" => None
  | String c _ =>
      if decide (c = dot ∨ is_Some (digit_val c)) then
        match leadingInt s 0 with
        | None => None
        | Some (v, s1) =>
            let pre := bool_decide (String.length s1 ≠ String.length s) in
            let '(f, scale, s2, post) :=
              match s1 with
              | String c1 s1' =>
                  if decide (c1 = dot) then
                    let '(f, scale, r) := leadingFraction s1' 0 (f64_of_Z 1) false in
                    (f, scale, r, bool_decide (String.length r ≠ String.length s1'))
                  else (0%Z, f64_of_Z 1, s1, false)
              | "" => (0%Z, f64_of_Z 1, s1, false)
              end in
            if negb pre && negb post then None
            else let '(u, s3) := unit_name s2 in
                 if decide (u = "") then None
                 else match unitMap u with
                      | None => None
                      | Some unit =>
                          if decide (v > 2 ^ 63 / unit)%Z then None
                          else
                            let v := (v * unit)%Z in
                            if decide (f > 0)%Z then
                              let v := (v + f64_trunc (f64_mul (f64_of_Z f) (f64_div (f64_of_Z unit) scale)))%Z in
                              if decide (v > 2 ^ 63)%Z then None else Some (v, s3)
                            else Some (v, s3)
                      end
        end
      else None
  end.

(** The loop over the items; an item takes at least one byte, so the length of
    the text is fuel enough. *)
Fixpoint duration_items (fuel : nat) (s : string) (d : Z) : option Z :=
  match s with
  | "" => Some d
  | _ =>
      match fuel with
      | 0 => None
      | S fuel' =>
          match duration_item s with
          | None => None
          | Some (v, s') => if decide (d + v > 2 ^ 63)%Z then None else duration_items fuel' s' (d + v)
          end
      end
  end.

Definition ParseDuration (s : string) : option Z :=
  let '(neg, s) :=
    match s with
    | String c s' => if decide (c = "-"%char) then (true, s')
                     else if decide (c = "+"%char) then (false, s') else (false, s)
    | "" => (false, s)
    end in
  if decide (s = "0") then Some 0%Z
  else if decide (s = "") then None
  else match duration_items (String.length s) s 0 with
       | None => None
       | Some d => if neg then Some (- d)%Z
                   else if decide (d > 2 ^ 63 - 1)%Z then None else Some d
       end.

Example ParseDuration_10s : ParseDuration "10s" = Some 10000000000%Z.
Proof. vm_compute. reflexivity. Qed.
Example ParseDuration_mixed : ParseDuration "-1h1.5m0.3s2µs" = Some (-3690300002000)%Z.
Proof. vm_compute. reflexivity. Qed.
Example ParseDuration_bad : ParseDuration "10" = None.
Proof. vm_compute. reflexivity. Qed.

(** ** The fuel is enough *)

Lemma leadingInt_le s x v r : leadingInt s x = Some (v, r) → String.length r ≤ String.length s.
Proof.
  revert x. induction s as [|c s IH]; intros x H; simpl in *; [by simplify_eq|].
  repeat case_match; simplify_eq/=; try lia. apply IH in H. lia.
Qed.

Lemma leadingFraction_le s x sc o v sc' r :
  leadingFraction s x sc o = (v, sc', r) → String.length r ≤ String.length s.
Proof.
  revert x sc o. induction s as [|c s IH]; intros x sc o H; simpl in *; [by simplify_eq|].
  repeat case_match; simplify_eq/=; try lia; apply IH in H; lia.
Qed.

Lemma unit_name_le s u r : unit_name s = (u, r) → String.length u + String.length r = String.length s.
Proof.
  revert u. induction s as [|c s IH]; intros u H; simpl in *; [by simplify_eq|].
  repeat case_match; simplify_eq/=; try lia. specialize (IH _ eq_refl). lia.
Qed.

Lemma duration_item_lt s v r : duration_item s = Some (v, r) → String.length r < String.length s.
Proof.
  unfold duration_item. destruct s as [|c s]; [done|]. set (t := String c s).
  case_decide; [|done]. destruct (leadingInt t 0) as [[v1 s1]|] eqn:E1; [|done].
  apply leadingInt_le in E1. destruct (match s1 with "" => _ | String _ _ => _ end) as [[[f sc] s2] post] eqn:E2.
  assert (String.length s2 ≤ String.length s1).
  { destruct s1 as [|c1 s1']; [by simplify_eq|]. case_decide; [|by simplify_eq].
    destruct (leadingFraction s1' 0 (f64_of_Z 1) false) as [[f' sc'] r'] eqn:E3.
    apply leadingFraction_le in E3. simplify_eq/=. lia. }
  destruct (negb _ && negb _); [done|]. destruct (unit_name s2) as [u s3] eqn:E4. apply unit_name_le in E4.
  case_decide as Hu; [done|]. assert (String.length u ≠ 0) by (by destruct u).
  intros H'. assert (r = s3) as -> by (repeat case_match; by simplify_eq). lia.
Qed.

(** More fuel than the length of the text changes nothing. *)
Lemma duration_items_fuel n m s d :
  String.length s ≤ n → String.length s ≤ m → duration_items n s d = duration_items m s d.
Proof.
  revert m s d. induction n as [|n IH]; intros m s d Hn Hm.
  - destruct s; simpl in *; [by destruct m|lia].
  - destruct m as [|m]; [destruct s; simpl in *; [done|lia]|].
    destruct s as [|c s]; [done|]. cbn [duration_items].
    destruct (duration_item (String c s)) as [[v r]|] eqn:E; [|done].
    apply duration_item_lt in E. case_decide; [done|]. apply IH; lia.
Qed.

(** * Stamps are ordered as the times they show *)

(** Reading a time field by field. *)
Definition stamp_key (t : DateTime) : list N := [Year t; Month t; Day t; Hour t; Minute t; Second t].

(** A time whose stamp has its usual 15 characters. *)
Definition four_digit_year (t : DateTime) : Prop :=
  (Year t < 10000 ∧ Month t < 100 ∧ Day t < 100 ∧ Hour t < 100 ∧ Minute t < 100 ∧ Second t < 100)%N.

Definition lex_compare (c d : comparison) : comparison := match c with Eq => d | _ => c end.

Fixpoint compare_keys (k1 k2 : list N) : comparison :=
  match k1, k2 with
  | x :: k1', y :: k2' => lex_compare (x ?= y)%N (compare_keys k1' k2')
  | [], [] => Eq
  | [], _ => Lt
  | _, [] => Gt
  end.

Lemma compare_app s1 s2 t1 t2 :
  String.length s1 = String.length s2 →
  String.compare (s1 +:+ t1) (s2 +:+ t2) = lex_compare (String.compare s1 s2) (String.compare t1 t2).
Proof.
  revert s2. induction s1 as [|a s1 IH]; intros [|b s2] Hl; try discriminate; [done|].
  injection Hl as Hl. rewrite !string_app_cons. simpl. rewrite (IH _ Hl). by destruct (Ascii.compare a b).
Qed.

Lemma length_string_app s t : String.length (s +:+ t) = String.length s + String.length t.
Proof. induction s as [|a s IH]; [done|]. rewrite string_app_cons. simpl. by rewrite IH. Qed.

Lemma length_fixed w n : String.length (fixed w n) = w.
Proof. revert n. induction w as [|w IH]; intros n; simpl; [done|]. rewrite length_string_app, IH. simpl. lia. Qed.

Lemma compare_digit n m : String.compare (chr (digit n)) (chr (digit m)) = (n mod 10 ?= m mod 10)%N.
Proof.
  simpl. unfold Ascii.compare, digit.
  assert (n mod 10 < 10)%N by (apply N.mod_lt; lia). assert (m mod 10 < 10)%N by (apply N.mod_lt; lia).
  rewrite !N_ascii_embedding by lia.
  rewrite <- !N2Z.inj_compare, !N2Z.inj_add, Z.add_compare_mono_l. by destruct (_ ?= _)%Z.
Qed.

Lemma compare_div_mod n m :
  lex_compare (n / 10 ?= m / 10)%N (n mod 10 ?= m mod 10)%N = (n ?= m)%N.
Proof.
  pose proof (N.div_mod n 10 ltac:(lia)) as Hn. pose proof (N.div_mod m 10 ltac:(lia)) as Hm.
  assert (n mod 10 < 10)%N as H1 by (apply N.mod_lt; lia).
  assert (m mod 10 < 10)%N as H2 by (apply N.mod_lt; lia).
  revert Hn Hm H1 H2. generalize (n / 10)%N (n mod 10)%N (m / 10)%N (m mod 10)%N.
  intros q r q' r' -> -> H1 H2. symmetry.
  destruct (N.compare_spec q q'); simpl;
    [destruct (N.compare_spec r r')|..];
    first [apply N.compare_eq_iff; lia|apply N.compare_lt_iff; lia|apply N.compare_gt_iff; lia].
Qed.

Lemma compare_fixed w n m :
  (n < 10 ^ N.of_nat w)%N → (m < 10 ^ N.of_nat w)%N →
  String.compare (fixed w n) (fixed w m) = (n ?= m)%N.
Proof.
  revert n m. induction w as [|w IH]; intros n m Hn Hm.
  - change (10 ^ N.of_nat 0)%N with 1%N in *. assert (n = 0)%N as -> by lia. by assert (m = 0)%N as -> by lia.
  - cbn [fixed]. rewrite compare_app by (by rewrite !length_fixed).
    rewrite Nat2N.inj_succ, N.pow_succ_r' in Hn, Hm.
    rewrite IH by (apply N.Div0.div_lt_upper_bound; lia).
    rewrite compare_digit. apply compare_div_mod.
Qed.

Lemma width_le fuel w n : 0 < w → (n < 10 ^ N.of_nat w)%N → width fuel n ≤ w.
Proof.
  revert w n. induction fuel as [|f IH]; intros w n Hw Hn; simpl; [lia|].
  case_decide as H; [lia|]. destruct w as [|w]; [lia|].
  rewrite Nat2N.inj_succ, N.pow_succ_r' in Hn.
  destruct w as [|w]; [change (10 ^ N.of_nat 0)%N with 1%N in Hn; lia|].
  apply le_n_S, IH; [lia|]. apply N.Div0.div_lt_upper_bound. lia.
Qed.

Lemma pad_fixed w n : 0 < w → (n < 10 ^ N.of_nat w)%N → pad w n = fixed w n.
Proof. intros Hw Hn. unfold pad. rewrite Nat.max_l; [done|]. by apply width_le. Qed.

Lemma compare_refl s : String.compare s s = Eq.
Proof. induction s as [|a s IH]; [done|]. simpl. unfold Ascii.compare. by rewrite N.compare_refl. Qed.

(** String order on stamps is the order of the times. *)
Lemma compare_stamp t1 t2 :
  four_digit_year t1 → four_digit_year t2 →
  String.compare (FormatStamp t1) (FormatStamp t2) = compare_keys (stamp_key t1) (stamp_key t2).
Proof.
  intros (Y1 & M1 & D1 & h1 & m1 & s1) (Y2 & M2 & D2 & h2 & m2 & s2). unfold FormatStamp.
  rewrite !pad_fixed by (try lia; assumption).
  repeat (rewrite compare_app by (by rewrite ?length_fixed)).
  rewrite !compare_fixed by assumption. rewrite compare_refl. simpl.
  by destruct (Second t1 ?= Second t2)%N.
Qed.

(** ** The characters of a stamp *)

Lemma digit_not_slash n : digit n ≠ slash ∧ digit n ≠ "_"%char.
Proof.
  unfold digit. assert (n mod 10 < 10)%N as H by (apply N.mod_lt; lia).
  revert H. generalize (n mod 10)%N. intros m Hm.
  split; intros E; apply (f_equal N_of_ascii) in E; rewrite N_ascii_embedding in E by lia;
    [change (N_of_ascii slash) with 47%N in E | change (N_of_ascii "_") with 95%N in E]; lia.
Qed.

Lemma fixed_no_slash w n : slash ∉ bytes (fixed w n).
Proof.
  revert n. induction w as [|w IH]; intros n; [apply not_elem_of_nil|]. cbn [fixed].
  rewrite bytes_app, elem_of_app. intros [H|H%list_elem_of_singleton]; [by apply (IH (n / 10)%N)|].
  by destruct (digit_not_slash n).
Qed.

Lemma pad_no_slash w n : slash ∉ bytes (pad w n).
Proof. apply fixed_no_slash. Qed.

Lemma FormatStamp_no_slash t : slash ∉ bytes (FormatStamp t).
Proof.
  unfold FormatStamp. rewrite !bytes_app, !elem_of_app.
  intros [H|[H|[H|[H|[H|[H|H]]]]]]; try by apply pad_no_slash in H.
  by apply list_elem_of_singleton in H.
Qed.

Lemma FormatStamp_underscore t : "_"%char ∈ bytes (FormatStamp t).
Proof. unfold FormatStamp. rewrite !bytes_app, !elem_of_app. do 3 right. left. by left. Qed.
