(* ===== verification/Config.v ===== *)
(** [internal/config]: the data model of [config.json] and the permission
    check.  Reading the file is in [ConfigLoad.v]. *)

From S2P Require Import Prelude GoStrings.

(** * Data *)

(** [None] is the nil map. *)
Record UserConfig := mkUserConfig {
  UserDiscord : string;
  Password : string;
  Permissions : option (gmap string (list string));
}.

Record NetworkConfig := mkNetworkConfig {
  NetMode : string;
  Mapping : gmap string string;
}.

Record StartConfig := mkStartConfig {
  Entrypoint : string;
  Arguments_ : string;
}.

Record CmdConfig := mkCmdConfig {
  CmdType : string;
  Arg : string;
}.

Record ComposeConfig := mkComposeConfig {
  Image : string;
  Restart : string;
  Command : option StartConfig;
  Network : NetworkConfig;
  Mount : gmap string string;
}.

(** [Stop] keeps the difference between a nil slice ([None]) and an empty one,
    which [calculateActions] looks at; for [Backup] only the length matters. *)
Record CommandsConfig := mkCommandsConfig {
  Stop : option (list CmdConfig);
  Backup : list CmdConfig;
  Message : option string;
}.

Record DiscordConfig := mkDiscordConfig {
  Token : string;
  Channel : string;
  Webhook : string;
  LogSetting : string;
}.

Record ServerConfig := mkServerConfig {
  WorkingDir : string;
  Compose : option ComposeConfig;
  Commands : CommandsConfig;
  Discord : option DiscordConfig;
}.

Record Config := mkConfig {
  HTTPListen : string;
  SFTPListen : string;
  Users : gmap string UserConfig;
  Servers : gmap string ServerConfig;
}.

(** Zero values: what indexing a map at a missing key gives. *)
Definition zero_UserConfig : UserConfig := mkUserConfig "" "" None.
Definition zero_ServerConfig : ServerConfig := mkServerConfig "" None (mkCommandsConfig None [] None) None.
Definition zero_Config : Config := mkConfig "" "" ∅ ∅.

(** [cfg.Users[name]] used as a value. *)
Definition user_at (cfg : Config) (name : string) : UserConfig :=
  default zero_UserConfig (Users cfg !! name).

(** * Permission names *)

Definition PermFileRead : string := "file.read".
Definition PermFileWrite : string := "file.write".
Definition PermContainerRead : string := "container.read".
Definition PermContainerWrite : string := "container.write".
Definition PermContainerExecute : string := "container.execute.*".
Definition PermContainerStart : string := "container.execute.start".
Definition PermContainerStop : string := "container.execute.stop".
Definition PermContainerKill : string := "container.execute.kill".
Definition PermContainerBackup : string := "container.execute.backup".
Definition PermContainerRestore : string := "container.execute.restore".
Definition PermContainerRemove : string := "container.execute.remove".

(** * The check *)

(** The loop of [matchRecursive]: [None] when it ends without returning. *)
Fixpoint match_parts (userParts reqParts : list string) : option bool :=
  match userParts with
  | [] => None
  | u :: us =>
      if decide (u = "*") then Some true
      else match reqParts with
           | [] => Some false
           | r :: rs => if decide (u = r) then match_parts us rs else Some false
           end
  end.

Definition matchRecursive (userPerm required : string) : bool :=
  if decide (userPerm = "*") then true
  else if decide (userPerm = required) then true
  else
    let userParts := Split userPerm dot in
    let reqParts := Split required dot in
    match match_parts userParts reqParts with
    | Some b => b
    | None => bool_decide (length userParts = length reqParts)
    end.

Fixpoint checkPermission (userPerms : list string) (required : string) : bool :=
  match userPerms with
  | [] => false
  | p :: ps => if matchRecursive p required then true else checkPermission ps required
  end.

Definition HasPermission (u : UserConfig) (serverName requiredPerm : string) : bool :=
  match Permissions u with
  | None => false
  | Some perms =>
      if checkPermission (default [] (perms !! serverName)) requiredPerm then true
      else if checkPermission (default [] (perms !! "*")) requiredPerm then true
      else false
  end.

(** * Specification *)

(** A granted permission covers a required one when they are equal, or when the
    dotted parts before one of its [*] begin the required one. *)
Definition covers (granted required : string) : Prop :=
  granted = required ∨
  ∃ pre post, Split granted dot = pre ++ "*" :: post ∧ pre `prefix_of` Split required dot.

(** The permissions that apply to a server: its own and those under [*]. *)
Definition granted_on (u : UserConfig) (serverName p : string) : Prop :=
  ∃ perms, Permissions u = Some perms ∧
    (p ∈ default [] (perms !! serverName) ∨ p ∈ default [] (perms !! "*")).

Lemma match_parts_true us rs :
  match_parts us rs = Some true ↔ ∃ pre post, us = pre ++ "*" :: post ∧ pre `prefix_of` rs.
Proof.
  revert rs. induction us as [|u us IH]; intros rs; simpl.
  { split; [done|]. intros (pre & post & H & _). by destruct pre. }
  case_decide as Hu.
  { split; [|done]. intros _. exists [], us. split; [by rewrite Hu|]. apply prefix_nil. }
  destruct rs as [|r rs]; [|case_decide as Hr].
  - split; [done|]. intros (pre & post & H & Hp). apply prefix_nil_inv in Hp as ->. by simplify_eq/=.
  - subst r. rewrite IH. split.
    + intros (pre & post & -> & Hp). exists (u :: pre), post. split; [done|]. by apply prefix_cons.
    + intros (pre & post & H & Hp). destruct pre as [|x pre]; simplify_eq/=.
      apply prefix_cons_iff in Hp as [_ Hp]. eauto.
  - split; [done|]. intros (pre & post & H & Hp). destruct pre as [|x pre]; simplify_eq/=.
    by apply prefix_cons_iff in Hp as [? _].
Qed.

(** The loop falls through only when the granted parts begin the required ones. *)
Lemma match_parts_None us rs : match_parts us rs = None → us `prefix_of` rs.
Proof.
  revert rs. induction us as [|u us IH]; intros rs; simpl; [by intros; apply prefix_nil|].
  case_decide; [done|]. destruct rs as [|r rs]; [done|]. case_decide; [|done].
  subst. intros Hnone. by apply prefix_cons, IH.
Qed.

(** [matchRecursive] decides [covers]. *)
Lemma matchRecursive_covers p r : matchRecursive p r = true ↔ covers p r.
Proof.
  unfold matchRecursive, covers. case_decide as H1; [|case_decide as H2].
  - subst. split; [|done]. intros _. right. exists [], []. split; [done|]. apply prefix_nil.
  - naive_solver.
  - destruct (match_parts (Split p dot) (Split r dot)) as [[|]|] eqn:E.
    + apply match_parts_true in E. split; [by right|done].
    + split; [done|]. intros [?|H]; [done|]. apply match_parts_true in H. congruence.
    + rewrite bool_decide_eq_true. split.
      * intros Hl. apply match_parts_None in E as [k Hk]. left.
        assert (k = []) as -> by (destruct k; [done|]; apply (f_equal length) in Hk;
          rewrite length_app in Hk; simpl in Hk; lia).
        apply (Split_inj _ _ dot). by rewrite Hk, app_nil_r.
      * intros [?|H]; [done|]. apply match_parts_true in H. congruence.
Qed.

Lemma checkPermission_iff ps r : checkPermission ps r = true ↔ ∃ p, p ∈ ps ∧ covers p r.
Proof.
  induction ps as [|p ps IH]; simpl.
  { split; [done|]. intros (p & H & _). by apply elem_of_nil in H. }
  destruct (matchRecursive p r) eqn:E.
  - apply matchRecursive_covers in E. split; [|done]. intros _. exists p. split; [by left|done].
  - rewrite IH. split.
    + intros (q & Hq & Hc). exists q. split; [by right|done].
    + intros (q & [->|Hq]%elem_of_cons & Hc); [|eauto].
      apply matchRecursive_covers in Hc. congruence.
Qed.

Lemma HasPermission_iff u s r :
  HasPermission u s r = true ↔ ∃ p, granted_on u s p ∧ covers p r.
Proof.
  unfold HasPermission, granted_on. destruct (Permissions u) as [perms|].
  2: { split; [done|]. intros (p & (perms & ? & _) & _). done. }
  destruct (checkPermission (default [] (perms !! s)) r) eqn:E1.
  { apply checkPermission_iff in E1 as (p & Hp & Hc). split; [|done]. intros _. eauto 10. }
  destruct (checkPermission (default [] (perms !! "*")) r) eqn:E2.
  { apply checkPermission_iff in E2 as (p & Hp & Hc). split; [|done]. intros _. eauto 10. }
  split; [done|]. intros (p & (perms' & [= <-] & Hp) & Hc).
  destruct Hp as [Hp|Hp].
  - rewrite <- E1. apply checkPermission_iff. eauto.
  - rewrite <- E2. apply checkPermission_iff. eauto.
Qed.

(** ** Derived facts *)

Lemma HasPermission_zero s r : HasPermission zero_UserConfig s r = false.
Proof. done. Qed.

(** What covers [a.*] covers every [a.b]. *)
Lemma covers_wildcard p a b :
  covers p (a +:+ String dot "*") → covers p (a +:+ String dot b).
Proof.
  intros [->|(pre & post & Hp & Hpre)]; right.
  - exists (Split a dot), []. rewrite !Split_app_gen. split; [done|]. by exists (Split b dot).
  - rewrite Split_app_gen in Hpre. change (Split "*" dot) with ["*"] in Hpre.
    destruct (list_snoc_cases pre) as [->|(pre' & x & ->)].
    { exists [], post. split; [done|]. apply prefix_nil. }
    destruct Hpre as [k Hk]. destruct (list_snoc_cases k) as [->|(k' & y & ->)].
    + rewrite app_nil_r in Hk. apply app_inj_tail in Hk as [Hk <-].
      exists pre', ("*" :: post). rewrite Hp, <- (assoc_L (++)). split; [done|].
      rewrite Split_app_gen, Hk. by exists (Split b dot).
    + rewrite (assoc_L (++)) in Hk. apply app_inj_tail in Hk as [Hk _].
      exists (pre' ++ [x]), post. split; [done|]. rewrite Split_app_gen, Hk.
      rewrite <- (assoc_L (++)). by exists (k' ++ Split b dot).
Qed.

Lemma HasPermission_wildcard u s a b :
  HasPermission u s (a +:+ String dot "*") = true → HasPermission u s (a +:+ String dot b) = true.
Proof.
  rewrite !HasPermission_iff. intros (p & Hp & Hc). exists p. split; [done|].
  by eapply covers_wildcard.
Qed.

(** A permission without a [*] part covers only itself. *)
Lemma covers_concrete p r : "*" ∉ Split p dot → covers p r → p = r.
Proof.
  intros Hn [->|(pre & post & Hp & _)]; [done|]. exfalso. apply Hn. rewrite Hp.
  apply elem_of_app. right. by left.
Qed.

(** Granting more never takes away. *)
Lemma HasPermission_mono u u' s r :
  (∀ p, granted_on u s p → granted_on u' s p) →
  HasPermission u s r = true → HasPermission u' s r = true.
Proof. rewrite !HasPermission_iff. intros Hm (p & Hp & Hc). eauto. Qed.

(** * Properties *)

(** C1: a user has a permission on a server exactly when some permission listed
    for that server, or under the server wildcard, covers it: it is the same
    name, or the parts before one of its [*] parts begin the required name. *)
Theorem HasPermission_correct (u : UserConfig) (serverName requiredPerm : string) :
  HasPermission u serverName requiredPerm = true ↔
  ∃ perms p, Permissions u = Some perms ∧
    p ∈ default [] (perms !! serverName) ++ default [] (perms !! "*") ∧
    (p = requiredPerm ∨ ∃ k, Split p dot !! k = Some "*" ∧
       take k (Split p dot) `prefix_of` Split requiredPerm dot).
Proof.
  rewrite HasPermission_iff. unfold granted_on, covers. split.
  - intros (p & (perms & Hp & Hin) & Hc). exists perms, p. rewrite elem_of_app.
    split_and!; [done..|]. destruct Hc as [|(pre & post & Hs & Hpre)]; [by left|right].
    exists (length pre). rewrite Hs. by rewrite list_lookup_middle, take_app_length.
  - intros (perms & p & Hp & Hin & Hc). exists p. rewrite elem_of_app in Hin. split; [eauto|].
    destruct Hc as [|(k & Hk & Hpre)]; [by left|right].
    exists (take k (Split p dot)), (drop (S k) (Split p dot)). split; [|done].
    by rewrite take_drop_middle.
Qed.
