(* ===== verification/World.v ===== *)
(** The world around the program: the error values, the Docker client and the
    operating system as interfaces whose answers are arbitrary, the record of
    every call made to them, and [internal/logger]. *)

From stdpp Require Import pretty.
From S2P Require Import Prelude GoStrings GoTime Config.

(** * Errors *)

(** The package-level error values the code compares with are constructors;
    [ErrExt nf msg] is an error made by a library or the operating system, and
    [nf] says whether [errdefs.IsNotFound] or [os.IsNotExist] recognises it. *)
Inductive error : Type :=
| ErrVfsRoot
| ErrVfsContainerRoot
| ErrPermission
| ErrNotExist
| ErrInvalid
| EOF
| ErrNew (msg : string)
| ErrWrap (msg : string) (inner : error)
| ErrExt (notFound : bool) (msg : string).

#[export] Instance error_eq_dec : EqDecision error.
Proof. solve_decision. Defined.

(** [err.Error()] *)
Definition ErrorText (e : error) : string :=
  match e with
  | ErrVfsRoot => "vfs_root"
  | ErrVfsContainerRoot => "vfs_container_root"
  | ErrPermission => "permission denied"
  | ErrNotExist => "file does not exist"
  | ErrInvalid => "invalid argument"
  | EOF => "EOF"
  | ErrNew msg => msg
  | ErrWrap msg _ => msg
  | ErrExt _ msg => msg
  end.

Fixpoint IsNotFound (e : error) : bool :=
  match e with
  | ErrNotExist => true
  | ErrExt nf _ => nf
  | ErrWrap _ inner => IsNotFound inner
  | _ => false
  end.

(** * fmt.Sprintf

    The arguments are given as their verbs print them.  A [%] at the end, or a
    verb without an argument, does not occur in the program. *)
Fixpoint Sprintf (format : string) (args : list string) : string :=
  match format with
  | "" => ""
  | String c rest =>
      if decide (c = "%"%char) then
        match rest with
        | "" => "%!(NOVERB)"
        | String v rest' =>
            match args with
            | a :: args' => a +:+ Sprintf rest' args'
            | [] => "%!" +:+ chr v +:+ "(MISSING)" +:+ Sprintf rest' []
            end
        end
      else String c (Sprintf rest args)
  end.

(** [fmt.Errorf] without and with [%w]; in the program [%w] is always last. *)
Definition Errorf (format : string) (args : list string) : error := ErrNew (Sprintf format args).
Definition Errorf_w (format : string) (args : list string) (inner : error) : error :=
  ErrWrap (Sprintf format (args ++ [ErrorText inner])) inner.

(** [%v] of an error, and [%d] of an integer. *)
Definition show_error (e : error) : string := ErrorText e.
Definition show_int (z : Z) : string := pretty z.

(** ** [%v] of a time.Duration, in nanoseconds *)

(** [fmtFrac]: the last [prec] digits of [v] as a fraction without trailing
    zeros, in front of [acc], and what remains of [v]. *)
Fixpoint fmtFrac (prec : nat) (v : Z) (print : bool) (acc : string) : string * Z :=
  match prec with
  | 0 => (if print then "." +:+ acc else acc, v)
  | S prec' =>
      let digit := (v mod 10)%Z in
      let print := print || bool_decide (digit ≠ 0%Z) in
      fmtFrac prec' (v / 10) print (if print then show_int digit +:+ acc else acc)
  end.

(** [v] in a unit of [10 ^ prec] nanoseconds. *)
Definition show_unit (prec : nat) (unit : string) (v : Z) : string :=
  let '(frac, whole) := fmtFrac prec v false unit in show_int whole +:+ frac.

Definition show_duration (d : Z) : string :=
  let u := Z.abs d in
  (if decide (d < 0)%Z then "-" else "") +:+
  if decide (u = 0%Z) then "0s"
  else if decide (u < 1000)%Z then show_unit 0 "ns" u
  else if decide (u < 1000000)%Z then show_unit 3 "µs" u
  else if decide (u < 1000000000)%Z then show_unit 6 "ms" u
  else
    let '(frac, secs) := fmtFrac 9 u false "s" in
    let mins := (secs / 60)%Z in
    let hours := (mins / 60)%Z in
    (if decide (0 < hours)%Z then show_int hours +:+ "h" else "") +:+
    (if decide (0 < mins)%Z then show_int (mins mod 60) +:+ "m" else "") +:+
    show_int (secs mod 60) +:+ frac.

Example show_duration_units :
  map show_duration [0; 7; 1500; 250000000; 2000000000; 90500000000; 3600000000000; -61000000000]%Z =
  ["0s"; "7ns"; "1.5µs"; "250ms"; "2s"; "1m30.5s"; "1h0m0s"; "-1m1s"].
Proof. vm_compute. reflexivity. Qed.

(** * Data of the Docker client and of package os *)

Record MountPoint := mkMountPoint { Source : string; Destination : string }.

(** The fields of an inspect answer the code reads. *)
Record InspectResponse := mkInspectResponse {
  InspectName : string;
  Running : bool;
  Tty : bool;
  Mounts : list MountPoint;
}.

Record Summary := mkSummary { ID : string; Names : list string; State : string }.

Record ContainerConfig := mkContainerConfig {
  CImage : string;
  CTty : bool;
  COpenStdin : bool;
  CEntrypoint : list string;
  CCmd : list string;
  CExposedPorts : gset string;
}.

Record PortBinding := mkPortBinding { HostIP : string; HostPort : string }.

Record HostConfig := mkHostConfig {
  Binds : list string;
  RestartPolicyName : string;
  NetworkMode : string;
  PortBindings : gmap string (list PortBinding);
}.

Record ExecOptions := mkExecOptions {
  ETty : bool;
  EAttachStdin : bool;
  EAttachStdout : bool;
  EAttachStderr : bool;
  EEnv : list string;
  ECmd : list string;
}.

Record FileInfo := mkFileInfo { FName : string; FIsDir : bool; FModTime : Z }.
Record DirEntry := mkDirEntry { EntryName : string; EntryIsDir : bool }.

(** Handles the world gives out. *)
Abbreviation File := nat.
Abbreviation Conn := nat.
Abbreviation Session := nat.

(** What is sent to Discord. *)
Record MessageEmbed := mkMessageEmbed { Color : Z; Title : string; Description : string }.

Inductive InteractionResponse : Type :=
| RespondEphemeral (content : string)
| RespondDeferred.

(** What [encoding/json] decodes into an [any]; the entries of an object in any
    order, and a number as its text. *)
Inductive Json : Type :=
| JNull
| JBool (b : bool)
| JNumber (n : string)
| JString (s : string)
| JArray (l : list Json)
| JObject (kvs : list (string * Json)).

(** The decoded part of a log rule. *)
Record RawRule := mkRawRule { RegexpSrc : list string; WebhookBody : list Json }.

(** The outcome of a call that returns a value and an error. *)
Abbreviation result A := (error + A)%type.

(** * Interfaces

    Every method may answer anything and may change the world: other processes
    and goroutines run between any two calls. *)

Class DockerClient (W : Type) := {
  ContainerInspect : string → W → result InspectResponse * W;
  ContainerList : W → result (list Summary) * W;
  ContainerCreate : string → ContainerConfig → HostConfig → W → option error * W;
  ContainerStart : string → W → option error * W;
  ContainerStop : string → option Z → W → option error * W;
  ContainerKill : string → string → W → option error * W;
  ContainerRemove : string → W → option error * W;
  ContainerAttach : string → W → result Conn * W;
  ConnWrite : Conn → string → W → option error * W;
  ConnClose : Conn → W → W;
  (** reads the stream to its end *)
  ConnDrain : Conn → W → W;
  ContainerExecCreate : string → ExecOptions → W → result string * W;
  ContainerExecAttach : string → bool → W → result Conn * W;
  ContainerExecInspect : string → W → result Z * W;
  (** [follow] and [tail] options; a stream of bytes *)
  ContainerLogs : string → bool → string → W → result Conn * W;
  ContainerStats : string → W → result Conn * W;
}.

(** [docker.Client], the package variable through which every call is made:
    [None] is the nil pointer [Init] leaves there when it fails. *)
Class Docker (W : Type) := docker_Client : option (DockerClient W).

#[export] Instance made_client {W} (client : DockerClient W) : Docker W := Some client.

(** [wsUpgrader.Upgrade]: turns the request's connection into a WebSocket. *)
Class WebSocket (W : Type) := {
  Upgrade : W → option error * W;
  WsClose : W → W;
  (** [ws.WriteMessage(websocket.BinaryMessage, p)] *)
  WriteMessage : string → W → option error * W;
}.

Class OS (W : Type) := {
  Stat : string → W → result FileInfo * W;
  Open : string → W → result File * W;
  OpenFile : string → Z → Z → W → result File * W;
  FileStat : File → W → result FileInfo * W;
  FileClose : File → W → W;
  (** [json.NewDecoder(f).Decode(&newCfg)] *)
  DecodeConfig : File → W → result Config * W;
  (** [json.NewDecoder(f).Decode(&rules)] *)
  DecodeRules : File → W → result (list RawRule) * W;
  ReadDir : string → W → result (list DirEntry) * W;
  (** [entry.Info()] *)
  EntryInfo : string → DirEntry → W → result FileInfo * W;
  MkdirAll : string → Z → W → option error * W;
  RemoveFile : string → W → option error * W;
  RemoveAll : string → W → option error * W;
  Rename : string → string → W → option error * W;
  Symlink : string → string → W → option error * W;
  (** [exec.CommandContext(..).CombinedOutput()] *)
  RunCommand : string → list string → W → (string * option error) * W;
  Now : W → DateTime * W;
  Sleep : Z → W → W;
  (** [rand.Read] of so many bytes *)
  RandRead : nat → W → result (list ascii) * W;
  Printf : string → W → W;
}.

(** Package os and net as the servers use them when they start. *)
Class Boot (W : Type) := {
  ReadFile : string → W → result string * W;
  (** [cmd.Run()] *)
  RunSilent : string → list string → W → option error * W;
  (** [net.Listen] on an address, and how [http.ListenAndServe] begins *)
  Listen : string → W → option error * W;
  (** how it ends: the error of the accept loop *)
  ServeEnd : W → error * W;
  (** [time.Since(start)] in nanoseconds *)
  Since : DateTime → W → Z * W;
  (** [client.NewClientWithOpts] *)
  NewDockerClient : W → result (DockerClient W) * W;
}.

(** [discordgo.ApplicationCommand]: the fields the code fills in.  Every option it
    registers is of the type [ApplicationCommandOptionString], and the name of a
    choice is its value. *)
Record ApplicationCommandOption := mkApplicationCommandOption {
  optName : string; optDescription : string; Required : bool; Choices : list string;
}.
Record ApplicationCommand := mkApplicationCommand {
  cmdName : string; cmdDescription : string; cmdOptions : list ApplicationCommandOption;
}.

(** The sessions of [discordgo], and the webhook. *)
Class DiscordClient (W : Type) := {
  (** [dg.State.User.ID] *)
  StateUserID : Session → string;
  dg_New : string → W → result Session * W;
  dg_Open : Session → W → option error * W;
  dg_Close : Session → W → W;
  ApplicationCommandCreate : Session → ApplicationCommand → W → option error * W;
  InteractionRespond : InteractionResponse → W → option error * W;
  InteractionResponseEdit : MessageEmbed → W → W;
  (** the errors of [json.Marshal] and of [http.NewRequest] with an address *)
  MarshalError : Json → option error;
  NewRequestError : string → option error;
  (** [http.DefaultClient.Do] of the POST, with the body it carries *)
  PostWebhook : string → Json → W → W;
}.

(** A [bufio.Scanner] on a log stream: the next line, or [None] at its end. *)
Class LineReader (W : Type) := { Scan : Conn → W → option string * W }.

(** [mem.VirtualMemory()]: the percentage as JSON prints it, the rest in bytes. *)
Record VirtualMemoryStat := mkVirtualMemoryStat { UsedPercent : string; Total : Z; Available : Z }.

(** The statistics of a container and of the host. *)
Class HostStats (W : Type) := {
  (** [decoder.Decode(&dockerStats)]; [None] is the nil map a JSON null leaves *)
  DecodeStats : Conn → W → result (option (gmap string Json)) * W;
  (** [None] is the nil pointer that comes with an error *)
  VirtualMemory : W → option VirtualMemoryStat * W;
  (** the percentages as JSON prints them; none when there is an error *)
  CpuPercent : W → list string * W;
  WriteJSON : gmap string Json → W → option error * W;
}.

(** [for k, v := range m]: every entry once, in an order the language leaves open. *)
Class MapRange (W : Type) := {
  map_range : ∀ {V : Type}, gmap string V → W → list (string * V) * W;
  map_range_perm : ∀ {V : Type} (m : gmap string V) (w : W), (map_range m w).1 ≡ₚ map_to_list m;
}.

(** * The record of calls *)

Inductive Event : Type :=
| EvPrint (line : string)
| EvInspect (id : string) (r : result InspectResponse)
| EvList (r : result (list Summary))
| EvCreate (name : string) (c : ContainerConfig) (h : HostConfig) (err : option error)
| EvStart (id : string) (err : option error)
| EvStop (id : string) (timeout : option Z) (err : option error)
| EvKill (id signal : string) (err : option error)
| EvRemove (id : string) (err : option error)
| EvAttach (id : string) (r : result Conn)
| EvWrite (c : Conn) (data : string) (err : option error)
| EvClose (c : Conn)
| EvDrain (c : Conn)
| EvExecCreate (id : string) (o : ExecOptions) (r : result string)
| EvExecAttach (exec : string) (r : result Conn)
| EvExecInspect (exec : string) (r : result Z)
| EvLogs (id : string) (follow : bool) (tail : string) (r : result Conn)
| EvStats (id : string) (r : result Conn)
| EvUpgrade (err : option error)
| EvWsClose
| EvStat (path : string) (r : result FileInfo)
| EvOpen (path : string) (r : result File)
| EvOpenFile (path : string) (flag perm : Z) (r : result File)
| EvFileStat (f : File) (r : result FileInfo)
| EvFileClose (f : File)
| EvDecodeConfig (f : File) (r : result Config)
| EvReadDir (path : string) (r : result (list DirEntry))
| EvEntryInfo (dir : string) (e : DirEntry) (r : result FileInfo)
| EvMkdirAll (path : string) (perm : Z) (err : option error)
| EvRemoveFile (path : string) (err : option error)
| EvRemoveAll (path : string) (err : option error)
| EvRename (oldpath newpath : string) (err : option error)
| EvSymlink (target link : string) (err : option error)
| EvRun (cmd : string) (args : list string) (out : string * option error)
| EvNow (t : DateTime)
| EvSleep (d : Z)
| EvRand (n : nat) (r : result (list ascii))
| EvDecodeRules (f : File) (r : result (list RawRule))
| EvDgNew (auth : string) (r : result Session)
| EvDgOpen (session : Session) (err : option error)
| EvDgClose (session : Session)
| EvDgCommand (session : Session) (cmd : ApplicationCommand) (err : option error)
| EvRespond (r : InteractionResponse) (err : option error)
| EvEdit (e : MessageEmbed)
| EvWebhook (url : string) (body : Json)
| EvReadFile (path : string) (r : result string)
| EvRunSilent (cmd : string) (args : list string) (err : option error)
| EvListen (addr : string) (err : option error)
| EvServeEnd (err : error)
| EvSince (d : Z)
| EvDockerClient (err : option error)
| EvReject (channel : nat)
| EvReply (ok : bool)
| EvSshClose (conn : nat)
| EvWsWrite (data : string) (err : option error)
| EvScan (c : Conn) (line : option string)
| EvSample (stream : Conn) (r : result (option (gmap string Json)))
| EvVirtualMemory (v : option VirtualMemoryStat)
| EvCpuPercent (c : list string)
| EvWsJson (doc : gmap string Json) (err : option error).

(** * The state of a run *)

(** [config.LoadedConfig]; times are nanoseconds after Go's zero time. *)
Record LoadedConfig := mkLoadedConfig { cfg_Config : Config; LastLoaded : Z }.

Definition zero_LoadedConfig : LoadedConfig := mkLoadedConfig zero_Config 0.

Record Sys (W : Type) := mkSys {
  world : W;
  loaded : LoadedConfig;
  events : list Event;
}.
Arguments mkSys {W} _ _ _.
Arguments world {W} _.
Arguments loaded {W} _.
Arguments events {W} _.

Definition set_loaded {W} (lc : LoadedConfig) (s : Sys W) : Sys W :=
  mkSys (world s) lc (events s).

(** The configurations in force during a run from [s] that left the record [t]:
    the one it started with and those it decoded. *)
Definition in_force {W} (s : Sys W) (t : list Event) (cfg : Config) : Prop :=
  cfg = cfg_Config (loaded s) ∨ ∃ f, EvDecodeConfig f (inr cfg) ∈ t.

Lemma in_force_mono {W} (s : Sys W) t t' cfg : in_force s t cfg → t ⊆ t' → in_force s t' cfg.
Proof. intros [?|(f & ?)] Ht; [by left|right; eauto]. Qed.

(** What is in force later was in force from the start on. *)
Lemma in_force_trans {W} (s s1 : Sys W) t t1 t' cfg :
  in_force s t (cfg_Config (loaded s1)) → in_force s1 t1 cfg → t ⊆ t' → t1 ⊆ t' → in_force s t' cfg.
Proof. intros H [->|(f & ?)] Ht Ht1; [by eapply in_force_mono|right; eauto]. Qed.

(** * Calls *)

Section Calls.
Context {W : Type}.

(** Ask the world and record the exchange. *)
Definition call {A} (f : W → A * W) (ev : A → Event) : Comp (Sys W) A :=
  λ s, let '(a, w) := f (world s) in
       (Done a, mkSys w (loaded s) (events s ++ [ev a])).

Definition tell (f : W → W) (ev : Event) : Comp (Sys W) unit :=
  call (λ w, (tt, f w)) (λ _, ev).

Context `{!OS W, !MapRange W}.

(** A method of the client; on a nil client it panics.  (The methods of a
    connection are reached through the same interface: there is no connection
    without a client.) *)
Definition nil_pointer : string := "invalid memory address or nil pointer dereference".

Definition with_client `{!Docker W} {A} (use : DockerClient W → Comp (Sys W) A) : Comp (Sys W) A :=
  match docker_Client with
  | Some client => use client
  | None => panic nil_pointer
  end.

Definition ws_Upgrade `{!WebSocket W} := call Upgrade EvUpgrade.
Definition ws_Close `{!WebSocket W} := tell WsClose EvWsClose.
Definition ws_WriteMessage `{!WebSocket W} p := call (WriteMessage p) (EvWsWrite p).

Section Client.
Context `{!Docker W}.
Definition dk_Stats id := with_client (λ _, call (ContainerStats id) (EvStats id)).
Definition dk_Inspect id := with_client (λ _, call (ContainerInspect id) (EvInspect id)).
Definition dk_List := with_client (λ _, call ContainerList EvList).
Definition dk_Create name c h := with_client (λ _, call (ContainerCreate name c h) (EvCreate name c h)).
Definition dk_Start id := with_client (λ _, call (ContainerStart id) (EvStart id)).
Definition dk_Stop id timeout := with_client (λ _, call (ContainerStop id timeout) (EvStop id timeout)).
Definition dk_Kill id signal := with_client (λ _, call (ContainerKill id signal) (EvKill id signal)).
Definition dk_Remove id := with_client (λ _, call (ContainerRemove id) (EvRemove id)).
Definition dk_Attach id := with_client (λ _, call (ContainerAttach id) (EvAttach id)).
Definition dk_Write c data := with_client (λ _, call (ConnWrite c data) (EvWrite c data)).
Definition dk_Close c := with_client (λ _, tell (ConnClose c) (EvClose c)).
Definition dk_Drain c := with_client (λ _, tell (ConnDrain c) (EvDrain c)).
Definition dk_ExecCreate id o := with_client (λ _, call (ContainerExecCreate id o) (EvExecCreate id o)).
Definition dk_ExecAttach exec tty := with_client (λ _, call (ContainerExecAttach exec tty) (EvExecAttach exec)).
Definition dk_ExecInspect exec := with_client (λ _, call (ContainerExecInspect exec) (EvExecInspect exec)).
Definition dk_Logs id follow tail := with_client (λ _, call (ContainerLogs id follow tail) (EvLogs id follow tail)).
End Client.

Definition dgo_New `{!DiscordClient W} auth := call (dg_New auth) (EvDgNew auth).
Definition dgo_Open `{!DiscordClient W} session := call (dg_Open session) (EvDgOpen session).
Definition dgo_Close `{!DiscordClient W} session := tell (dg_Close session) (EvDgClose session).
Definition dgo_Command `{!DiscordClient W} session cmd :=
  call (ApplicationCommandCreate session cmd) (EvDgCommand session cmd).
Definition dgo_Respond `{!DiscordClient W} r := call (InteractionRespond r) (EvRespond r).
Definition dgo_Edit `{!DiscordClient W} e := tell (InteractionResponseEdit e) (EvEdit e).
Definition post_Webhook `{!DiscordClient W} url body := tell (PostWebhook url body) (EvWebhook url body).

Definition os_Stat path := call (Stat path) (EvStat path).
Definition os_Open path := call (Open path) (EvOpen path).
Definition os_OpenFile path flag perm := call (OpenFile path flag perm) (EvOpenFile path flag perm).
Definition file_Stat f := call (FileStat f) (EvFileStat f).
Definition file_Close f := tell (FileClose f) (EvFileClose f).
Definition json_DecodeConfig f := call (DecodeConfig f) (EvDecodeConfig f).
Definition json_DecodeRules f := call (DecodeRules f) (EvDecodeRules f).
Definition os_ReadDir path := call (ReadDir path) (EvReadDir path).
Definition entry_Info dir e := call (EntryInfo dir e) (EvEntryInfo dir e).
Definition os_MkdirAll path perm := call (MkdirAll path perm) (EvMkdirAll path perm).
Definition os_Remove path := call (RemoveFile path) (EvRemoveFile path).
Definition os_RemoveAll path := call (RemoveAll path) (EvRemoveAll path).
Definition os_Rename a b := call (Rename a b) (EvRename a b).
Definition os_Symlink target link := call (Symlink target link) (EvSymlink target link).
Definition exec_Run cmd args := call (RunCommand cmd args) (EvRun cmd args).
Definition time_Now := call Now EvNow.
Definition time_Sleep d := tell (Sleep d) (EvSleep d).
Definition rand_Read n := call (RandRead n) (EvRand n).

Definition stats_Decode `{!HostStats W} c := call (DecodeStats c) (EvSample c).
Definition mem_VirtualMemory `{!HostStats W} := call VirtualMemory EvVirtualMemory.
Definition cpu_Percent `{!HostStats W} := call CpuPercent EvCpuPercent.
Definition ws_WriteJSON `{!HostStats W} doc := call (WriteJSON doc) (EvWsJson doc).
Definition scanner_Scan `{!LineReader W} c := call (Scan c) (EvScan c).
Definition os_ReadFile `{!Boot W} path := call (ReadFile path) (EvReadFile path).
Definition cmd_Run `{!Boot W} cmd args := call (RunSilent cmd args) (EvRunSilent cmd args).
Definition net_Listen `{!Boot W} addr := call (Listen addr) (EvListen addr).
Definition http_ServeEnd `{!Boot W} := call ServeEnd EvServeEnd.
Definition time_Since `{!Boot W} start := call (Since start) EvSince.
Definition dk_NewClient `{!Boot W} :=
  call NewDockerClient (λ r, EvDockerClient (match r with inl err => Some err | inr _ => None end)).

(** Ask the world without a record. *)
Definition ask {A} (f : W → A * W) : Comp (Sys W) A :=
  λ s, let '(a, w) := f (world s) in (Done a, mkSys w (loaded s) (events s)).

(** Ranging over a map leaves no record. *)
Definition range_map {V} (m : gmap string V) : Comp (Sys W) (list (string * V)) :=
  λ s, let '(l, w) := map_range m (world s) in (Done l, mkSys w (loaded s) (events s)).
End Calls.

(** * internal/logger *)

Section Logger.
Context {W : Type} `{!OS W}.

(** The line [Log] prints. *)
Definition log_line (t : DateTime) (level service message : string) : string :=
  Sprintf "[%s] [%s] [%s]: %s" [FormatLog t; level; service; message] +:+ chr (byte 10).

Definition Log (level service message : string) : Comp (Sys W) unit :=
  timestamp <- time_Now ;;
  tell (Printf (log_line timestamp level service message))
       (EvPrint (log_line timestamp level service message)).

Definition Logf (level service format : string) (v : list string) : Comp (Sys W) unit :=
  Log level service (Sprintf format v).

Definition Internal (service message : string) := Log "Internal" service message.
Definition Client (service message : string) := Log "Client" service message.
Definition External (service message : string) := Log "External" service message.

(** [logger.Error(service, err)] *)
Definition LogError (service : string) (err : option error) : Comp (Sys W) unit :=
  match err with
  | Some e => Internal service (ErrorText e)
  | None => ret tt
  end.

Definition InternalError (service format : string) (v : list string) : Comp (Sys W) error :=
  let msg := Sprintf format v in
  Internal service msg ;;
  ret (Errorf "[%s] %s" [service; msg]).

Definition ClientError (service format : string) (v : list string) : Comp (Sys W) error :=
  let msg := Sprintf format v in
  Client service msg ;;
  ret (Errorf "[%s] %s" [service; msg]).

Definition ExternalError (service format : string) (v : list string) : Comp (Sys W) error :=
  let msg := Sprintf format v in
  External service msg ;;
  ret (Errorf "[%s] %s" [service; msg]).
End Logger.

(** * What a computation asks of the world

    [emits P m]: whatever the state, [m] only adds calls satisfying [P] to the
    record. *)

Definition emits {W A} (P : Event → Prop) (m : Comp (Sys W) A) : Prop :=
  ∀ s, ∃ t, events (m s).2 = events s ++ t ∧ Forall P t.

(** Log lines, and the calls that read the configuration file. *)
Definition quiet (e : Event) : bool :=
  match e with
  | EvPrint _ | EvNow _ | EvStat _ _ | EvFileStat _ _ | EvFileClose _ | EvDecodeConfig _ _ => true
  | EvOpen path _ => bool_decide (path = "./config.json")
  | _ => false
  end.

(** Calls that change nothing outside the program but its log. *)
Definition read_only (e : Event) : bool :=
  match e with
  | EvPrint _ | EvInspect _ _ | EvList _ | EvStat _ _ | EvOpen _ _ | EvFileStat _ _
  | EvFileClose _ | EvDecodeConfig _ _ | EvReadDir _ _ | EvEntryInfo _ _ _ | EvNow _ => true
  | _ => false
  end.

Lemma quiet_read_only e : quiet e = true → read_only e = true.
Proof. by destruct e. Qed.

Lemma quiet_read_onlys t :
  Forall (λ e, quiet e = true) t → Forall (λ e, read_only e = true) t.
Proof. intros H. eapply Forall_impl; [exact H|]. apply quiet_read_only. Qed.

(** A kind of calls that holds no quiet one is not in a quiet record. *)
Lemma quiet_omap {A} (f : Event → option A) t :
  (∀ e, quiet e = true → f e = None) → Forall (λ e, quiet e = true) t → omap f t = [].
Proof. intros Hf H. apply omap_none. eapply Forall_impl; [exact H|]. exact Hf. Qed.

(** Log lines, the configuration file, and the inspection of containers. *)
Definition looks (e : Event) : bool :=
  match e with EvInspect _ _ => true | _ => quiet e end.

Lemma quiet_looks e : quiet e = true → looks e = true.
Proof. by destruct e. Qed.

Lemma quiet_lookss t : Forall (λ e, quiet e = true) t → Forall (λ e, looks e = true) t.
Proof. intros H. eapply Forall_impl; [exact H|]. apply quiet_looks. Qed.

Lemma looks_read_only e : looks e = true → read_only e = true.
Proof. by destruct e. Qed.

Lemma looks_read_onlys t : Forall (λ e, looks e = true) t → Forall (λ e, read_only e = true) t.
Proof. intros H. eapply Forall_impl; [exact H|]. apply looks_read_only. Qed.

(** Proves that a record written out as appended pieces is read-only, or only
    looks. *)
Ltac solve_read_only :=
  solve [ repeat first
    [ assumption | apply quiet_read_onlys; assumption | apply quiet_lookss; assumption
    | apply looks_read_onlys; assumption | apply Forall_nil; exact I
    | apply Forall_cons; split; [reflexivity|] | apply Forall_app; split ] ].

(** Calls that change a container. *)
Definition engine_change (e : Event) : bool :=
  match e with
  | EvCreate _ _ _ _ | EvStart _ _ | EvStop _ _ _ | EvKill _ _ _ | EvRemove _ _ => true
  | _ => false
  end.

(** Open flags that let a file be created, emptied or written:
    [O_WRONLY], [O_RDWR], [O_CREATE], [O_TRUNC] and [O_APPEND]. *)
Definition opens_for_writing (flag : Z) : bool := bool_decide (Z.land flag 1603 ≠ 0%Z).

(** The paths of the host a call may change. *)
Definition changed_paths (e : Event) : list string :=
  match e with
  | EvOpenFile path flag _ _ => if opens_for_writing flag then [path] else []
  | EvMkdirAll path _ _ | EvRemoveFile path _ | EvRemoveAll path _ => [path]
  | EvRename oldpath newpath _ => [oldpath; newpath]
  | EvSymlink _ link _ => [link]
  | _ => []
  end.

Lemma read_only_changes_nothing t :
  Forall (λ e, read_only e = true) t → ∀ e p, e ∈ t → p ∉ changed_paths e.
Proof.
  intros H e p He. apply (Forall_forall _ t) with e in H; [|done]. destruct e; try done; apply not_elem_of_nil.
Qed.

Create HintDb emits.
Create HintDb calls.

Section Emits.
Context {W : Type}.
Implicit Types P : Event → Prop.

Lemma emits_ret {A} P (a : A) : emits P (ret (S := Sys W) a).
Proof. intros s. exists []. simpl. by rewrite app_nil_r. Qed.

Lemma emits_panic {A} P why : emits P (panic (S := Sys W) (A := A) why).
Proof. intros s. exists []. simpl. by rewrite app_nil_r. Qed.

Lemma emits_gets {A} P (f : Sys W → A) : emits P (gets f).
Proof. intros s. exists []. simpl. by rewrite app_nil_r. Qed.

Lemma emits_set_loaded P (f : Sys W → LoadedConfig) : emits P (modify (λ s, set_loaded (f s) s)).
Proof. intros s. exists []. simpl. by rewrite app_nil_r. Qed.

Lemma emits_bind {A B} P (m : Comp (Sys W) A) (k : A → Comp (Sys W) B) :
  emits P m → (∀ a, emits P (k a)) → emits P (bind m k).
Proof.
  intros Hm Hk s. destruct (Hm s) as (t & Ht & HP). unfold bind.
  destruct (m s) as [[a|e] s1]; simpl in *; [|eauto].
  destruct (Hk a s1) as (t' & Ht' & HP'). exists (t ++ t').
  rewrite Ht', Ht, (assoc_L (++)). split; [done|]. by apply Forall_app.
Qed.

Lemma emits_call {A} P (f : W → A * W) (ev : A → Event) :
  (∀ a, P (ev a)) → emits P (call f ev).
Proof.
  intros HP s. exists [ev (f (world s)).1]. unfold call.
  destruct (f (world s)) as [a w] eqn:E. simpl. split; [done|]. by repeat constructor.
Qed.

Lemma emits_tell P (f : W → W) ev : P ev → emits P (tell f ev).
Proof. intros HP. by apply emits_call. Qed.

Lemma emits_mono {A} P P' (m : Comp (Sys W) A) : emits P m → (∀ e, P e → P' e) → emits P' m.
Proof.
  intros Hm HP s. destruct (Hm s) as (t & Ht & H). exists t. split; [done|].
  eapply Forall_impl; eauto.
Qed.

Lemma emits_for_each {A} P (body : A → Comp (Sys W) unit) xs :
  (∀ x, x ∈ xs → emits P (body x)) → emits P (for_each body xs).
Proof.
  induction xs as [|x xs IH]; intros H; [apply emits_ret|]. simpl.
  apply emits_bind; [apply H; by left|]. intros _. apply IH. intros y Hy. apply H. by right.
Qed.

Lemma emits_for_fold {A L} P (body : A → L → Comp (Sys W) L) xs l :
  (∀ x l, x ∈ xs → emits P (body x l)) → emits P (for_fold body xs l).
Proof.
  revert l. induction xs as [|x xs IH]; intros l H; [apply emits_ret|]. simpl.
  apply emits_bind; [apply H; by left|]. intros l'. apply IH. intros y l'' Hy. apply H. by right.
Qed.

Lemma emits_with_client `{!Docker W} {A} P (use : DockerClient W → Comp (Sys W) A) :
  (∀ client, emits P (use client)) → emits P (with_client use).
Proof. intros H. unfold with_client. destruct docker_Client; [done|]. apply emits_panic. Qed.

Lemma emits_range `{!MapRange W} {V} P (m : gmap string V) : emits P (range_map (W := W) m).
Proof.
  intros s. exists []. unfold range_map. destruct (map_range m (world s)). simpl.
  by rewrite app_nil_r.
Qed.

Lemma emits_Log `{!OS W} P level service message :
  (∀ t, P (EvNow t)) → (∀ l, P (EvPrint l)) → emits P (Log (W := W) level service message).
Proof. intros H1 H2. apply emits_bind; [by apply emits_call|]. intros t. by apply emits_tell. Qed.

(** The record of a run that started in [s]. *)
Lemma emits_run {A} P (m : Comp (Sys W) A) s o s' :
  emits P m → m s = (o, s') → ∃ t, events s' = events s ++ t ∧ Forall P t.
Proof. intros Hm Hs. destruct (Hm s) as (t & Ht & HP). rewrite Hs in Ht. eauto. Qed.

(** If no call of [m] satisfies [P] then none is added. *)
Lemma emits_not {A} P (m : Comp (Sys W) A) s e :
  emits (λ e, ¬ P e) m → P e → e ∈ events (m s).2 → e ∈ events s.
Proof.
  intros Hm HP Hin. destruct (Hm s) as (t & Ht & H). rewrite Ht in Hin.
  apply elem_of_app in Hin as [?|Hin]; [done|]. by apply (Forall_forall _ t) with e in H.
Qed.
End Emits.

#[export] Hint Resolve emits_ret emits_panic emits_gets emits_set_loaded emits_range : emits.

#[export] Hint Unfold json_DecodeRules dgo_New dgo_Open dgo_Close dgo_Command dgo_Respond dgo_Edit post_Webhook dk_Stats ws_Upgrade ws_Close ws_WriteMessage dk_Inspect dk_List dk_Create dk_Start dk_Stop dk_Kill dk_Remove dk_Attach
  dk_Write dk_Close dk_Drain dk_ExecCreate dk_ExecAttach dk_ExecInspect dk_Logs
  os_Stat os_Open os_OpenFile file_Stat file_Close json_DecodeConfig os_ReadDir entry_Info
  os_MkdirAll os_Remove os_RemoveAll os_Rename os_Symlink exec_Run time_Now time_Sleep rand_Read
  stats_Decode mem_VirtualMemory cpu_Percent ws_WriteJSON scanner_Scan os_ReadFile cmd_Run net_Listen time_Since dk_NewClient
  tell Logf Internal Client External LogError : calls.

(** Walks through a computation; the side conditions left are about the calls. *)
Ltac emits_step :=
  lazymatch goal with
  | |- emits _ (bind _ _) => apply emits_bind; [|intros ?]
  | |- emits _ (for_each _ _) => apply emits_for_each; intros ? ?
  | |- emits _ (for_fold _ _ _) => apply emits_for_fold; intros ? ? ?
  | |- emits _ (match ?x with _ => _ end) => destruct x eqn:?
  | |- emits _ (Log _ _ _) => apply emits_Log; intros ?
  | |- emits _ (with_client _) => apply emits_with_client; intros ?
  | |- emits _ (call _ _) => apply emits_call; intros ?
  | |- emits _ _ => first [solve [auto with emits] | progress autounfold with calls]
  end.

Ltac solve_emits := repeat emits_step; try done; auto with emits.

(** * What a computation does to the world

    [moves R m]: the world after [m] is related by [R], a preorder, to the world
    before. *)

Definition moves {W A} (R : relation W) (m : Comp (Sys W) A) : Prop :=
  ∀ s, R (world s) (world (m s).2).

Create HintDb moves.

Section Moves.
Context {W : Type} (R : relation W) `{!PreOrder R}.

Lemma moves_ret {A} (a : A) : moves R (ret a).
Proof. intros s. by simpl. Qed.

Lemma moves_gets {A} (f : Sys W → A) : moves R (gets f).
Proof. intros s. by simpl. Qed.

Lemma moves_set_loaded (f : Sys W → LoadedConfig) : moves R (modify (λ s, set_loaded (f s) s)).
Proof. intros s. by simpl. Qed.

Lemma moves_bind {A C} (m : Comp (Sys W) A) (k : A → Comp (Sys W) C) :
  moves R m → (∀ a, moves R (k a)) → moves R (bind m k).
Proof.
  intros Hm Hk s. specialize (Hm s). unfold bind. destruct (m s) as [[a|e] s1]; [|done].
  simpl in Hm. etrans; [exact Hm|]. apply Hk.
Qed.

Lemma moves_for_each {A} (body : A → Comp (Sys W) unit) xs :
  (∀ x, moves R (body x)) → moves R (for_each body xs).
Proof. intros H. induction xs as [|x xs IH]; [apply moves_ret|]. by apply moves_bind. Qed.

Lemma moves_for_fold {A L} (body : A → L → Comp (Sys W) L) xs l :
  (∀ x l, moves R (body x l)) → moves R (for_fold body xs l).
Proof. intros H. revert l. induction xs; intros l; [apply moves_ret|]. by apply moves_bind. Qed.

Lemma moves_call {A} (f : W → A * W) ev : (∀ w, R w (f w).2) → moves R (call f ev).
Proof using. intros H s. unfold call. specialize (H (world s)). by destruct (f (world s)). Qed.

Lemma moves_tell (f : W → W) ev : (∀ w, R w (f w)) → moves R (tell f ev).
Proof using. intros H. by apply moves_call. Qed.

Lemma moves_mono {A} (R' : relation W) (m : Comp (Sys W) A) :
  moves R m → (∀ w w', R w w' → R' w w') → moves R' m.
Proof using. intros Hm HR s. by apply HR. Qed.

Lemma moves_range `{!MapRange W} {V} (m : gmap string V) :
  (∀ w, R w (map_range m w).2) → moves R (range_map m).
Proof using.
  intros H s. unfold range_map. specialize (H (world s)). by destruct (map_range m (world s)).
Qed.
End Moves.

#[export] Hint Resolve moves_ret moves_gets moves_set_loaded : moves.

(** Walks through a computation; the calls are looked up among the hints. *)
Ltac solve_moves :=
  repeat lazymatch goal with
  | |- moves _ (bind _ _) => apply moves_bind; [exact _| |intros ?]
  | |- moves _ (for_each _ _) => apply moves_for_each; [exact _|intros ?]
  | |- moves _ (for_fold _ _ _) => apply moves_for_fold; [exact _|intros ? ?]
  | |- moves _ (match ?x with _ => _ end) => destruct x eqn:?
  | |- moves _ (call _ _) => apply moves_call; intros ?; cbn [snd]; auto with moves
  | |- moves _ (tell _ _) => apply moves_tell; intros ?; auto with moves
  | |- moves _ (range_map _) => apply moves_range; intros ?; auto with moves
  | |- moves _ (Log _ _ _) => unfold Log
  | |- moves ?R (@with_client _ (made_client ?client) _ ?use) => change (moves R (use client)); cbv beta
  | |- moves _ _ => first [solve [auto with moves typeclass_instances] | progress autounfold with calls]
  end.

(** * No call panics *)

Section FinishesCalls.
Context {W : Type}.

Lemma finishes_call {A} (f : W → A * W) (ev : A → Event) : finishes (call f ev).
Proof. intros s. unfold call. destruct (f (world s)). eauto. Qed.

Lemma finishes_range `{!MapRange W} {V} (m : gmap string V) : finishes (range_map (W := W) m).
Proof. intros s. unfold range_map. destruct (map_range m (world s)). eauto. Qed.

Lemma finishes_Log `{!OS W} level service message : finishes (Log (W := W) level service message).
Proof. apply finishes_bind; [apply finishes_call|]. intros t. apply finishes_call. Qed.
End FinishesCalls.

#[export] Hint Resolve finishes_call finishes_range finishes_Log : finishes.

(** Walks through a computation without a [panic]. *)
Ltac solve_finishes :=
  repeat lazymatch goal with
  | |- finishes (bind _ _) => apply finishes_bind; [|intros ?]
  | |- finishes (for_each _ _) => apply finishes_for_each; intros ?
  | |- finishes (for_fold _ _ _) => apply finishes_for_fold; intros ? ?
  | |- finishes (match ?x with _ => _ end) => destruct x eqn:?
  | |- finishes (@with_client _ (made_client ?client) _ ?use) => change (finishes (use client)); cbv beta
  | |- finishes _ => first [solve [auto with finishes] | progress autounfold with calls]
  end.

(** * Running a computation under a postcondition *)

Section WpCalls.
Context {W : Type}.

Lemma wp_gets {S A} (f : S → A) Q s : Q (Done (f s)) s → wp (gets f) Q s.
Proof. done. Qed.

Lemma wp_modify {S} (f : S → S) Q s : Q (Done tt) (f s) → wp (modify f) Q s.
Proof. done. Qed.

Lemma wp_panic {S A} why (Q : Outcome A → S → Prop) s : Q (Panic why) s → wp (panic why) Q s.
Proof. done. Qed.

Lemma wp_call {A} (f : W → A * W) (ev : A → Event) Q s :
  (∀ a w, f (world s) = (a, w) → Q (Done a) (mkSys w (loaded s) (events s ++ [ev a]))) →
  wp (call f ev) Q s.
Proof. intros H. unfold wp, call. destruct (f (world s)) as [a w] eqn:E. by apply H. Qed.

Lemma call_run {A} (f : W → A * W) (ev : A → Event) s a w :
  f (world s) = (a, w) → call f ev s = (Done a, mkSys w (loaded s) (events s ++ [ev a])).
Proof. unfold call. by intros ->. Qed.

Lemma dk_Inspect_run `{!DockerClient W} id s r w :
  ContainerInspect id (world s) = (r, w) →
  dk_Inspect id s = (Done r, mkSys w (loaded s) (events s ++ [EvInspect id r])).
Proof. apply call_run. Qed.

Lemma wp_ask {A} (f : W → A * W) Q s :
  (∀ a w, f (world s) = (a, w) → Q (Done a) (mkSys w (loaded s) (events s))) → wp (ask f) Q s.
Proof. intros H. unfold wp, ask. destruct (f (world s)) as [a w] eqn:E. by apply H. Qed.

(** Logging adds the clock reading and the line, and keeps the configuration. *)
Lemma wp_Log `{!OS W} level service message Q s :
  (∀ w t, Forall (λ e, quiet e = true) t →
     Q (Done tt) (mkSys w (loaded s) (events s ++ t))) →
  wp (Log level service message) Q s.
Proof.
  intros H. unfold Log, time_Now, tell. apply wp_bind, wp_call. intros t w _.
  apply wp_call. intros [] w' _. simpl. rewrite <- (assoc_L (++)). apply H. by repeat constructor.
Qed.

Lemma wp_range `{!MapRange W} {V} (m : gmap string V) Q s :
  (∀ l w, l ≡ₚ map_to_list m → map_range m (world s) = (l, w) →
     Q (Done l) (mkSys w (loaded s) (events s))) →
  wp (range_map m) Q s.
Proof.
  intros H. unfold wp, range_map. pose proof (map_range_perm m (world s)) as Hp.
  destruct (map_range m (world s)) as [l w] eqn:E. by apply H.
Qed.

(** Continuing after a computation that moves the world as [R] says. *)
Lemma wp_moves {A} (R : relation W) (m : Comp (Sys W) A) Q s :
  moves R m → finishes m →
  (∀ a s', m s = (Done a, s') → R (world s) (world s') → Q (Done a) s') → wp m Q s.
Proof.
  intros Hk Hf HQ. specialize (Hk s). destruct (Hf s) as (a & s' & E). unfold wp. rewrite E in *.
  by apply HQ.
Qed.

(** Reading a postcondition off a run. *)
Lemma wp_elim {S A} (m : Comp S A) Q s o s' : wp m Q s → m s = (o, s') → Q o s'.
Proof. unfold wp. intros H E. by rewrite E in H. Qed.

Lemma wp_intro {S A} (m : Comp S A) Q s : (∀ o s', m s = (o, s') → Q o s') → wp m Q s.
Proof. unfold wp. intros H. apply H. by destruct (m s). Qed.
End WpCalls.

(** A call through a client that was made. *)
Ltac wp_made_client :=
  match goal with
  | |- wp (@with_client _ (made_client ?client) _ ?use) ?Q ?s => change (wp (use client) Q s); cbv beta
  end.

(** One step of a run under a postcondition. *)
Ltac wp_step :=
  lazymatch goal with
  | |- wp (bind _ _) _ _ => apply wp_bind
  | |- wp (ret _) _ _ => apply wp_ret
  | |- wp (gets _) _ _ => apply wp_gets
  | |- wp (modify _) _ _ => apply wp_modify
  | |- wp (panic _) _ _ => apply wp_panic
  | |- wp (call _ _) _ _ => apply wp_call; intros ? ? ?
  | |- wp (ask _) _ _ => apply wp_ask; intros ? ? ?
  | |- wp (Log _ _ _) _ _ => apply wp_Log; intros ? ? ?
  | |- wp (match ?x with _ => _ end) _ _ => destruct x eqn:?
  | |- wp (with_client _) _ _ => wp_made_client; try (apply wp_call; intros ? ? ?)
  | |- wp _ _ _ => progress autounfold with calls; try wp_made_client
  end; cbn [world loaded events set_loaded] in *;
  repeat match goal with u : unit |- _ => destruct u end.

(** Uses the world's answers met on the way in a specification of the result. *)
Ltac wp_answers :=
  repeat match goal with
  | H : ?x = (_, _) |- context [?x] => rewrite H; simpl
  end.

(** Extends [H], about the record so far, by [K], about the calls after it. *)
Ltac in_force_step H K :=
  lazymatch type of H with in_force ?s ?t _ =>
  lazymatch type of K with in_force ?s1 ?t1 _ =>
    let H' := fresh "Hforce" in
    assert (H' := in_force_trans s s1 t t1 (t ++ t1) _ H K
      (λ e He, proj2 (elem_of_app t t1 e) (or_introl He))
      (λ e He, proj2 (elem_of_app t t1 e) (or_intror He)));
    clear K; rename H' into K
  end end.

(** Finds a call in a record written out as appended pieces. *)
Ltac in_record :=
  solve [ left | right; in_record
        | apply elem_of_app; left; in_record | apply elem_of_app; right; in_record
        | assumption ].

(** Splits the membership of a call in a record written out in pieces; a call
    that is not quiet is not in a quiet piece. *)
Ltac record_cases :=
  repeat match goal with
  | H : _ ∈ _ ++ _ |- _ => apply elem_of_app in H as [H|H]
  | H : _ ∈ _ :: _ |- _ => apply elem_of_cons in H as [H|H]
  | H : _ ∈ [] |- _ => by apply elem_of_nil in H
  | Ht : Forall (λ e, quiet e = true) ?t, H : _ ∈ ?t |- _ =>
      exfalso; discriminate (proj1 (Forall_forall (λ e, quiet e = true) t) Ht _ H)
  end; simplify_eq.
