(* ===== verification/ConfigLoad.v ===== *)
(** [config.LoadedConfig]: [Get] and [Reload], the configuration shared by every
    component and reread when its file changes. *)

From S2P Require Import Prelude GoStrings GoTime Config World TestBed.

Definition config_path : string := "./config.json".

Section ConfigLoad.
Context {W : Type} `{!OS W}.

(** [c.Config = newCfg] and [c.LastLoaded = t] *)
Definition store_Config (newCfg : Config) : Comp (Sys W) unit :=
  modify (λ s, set_loaded (mkLoadedConfig newCfg (LastLoaded (loaded s))) s).
Definition store_LastLoaded (t : Z) : Comp (Sys W) unit :=
  modify (λ s, set_loaded (mkLoadedConfig (cfg_Config (loaded s)) t) s).

(** Between [Open] and the deferred [Close]. *)
Definition reload_from (f : File) : Comp (Sys W) unit :=
  d <- json_DecodeConfig f ;;
  match d with
  | inl err => Logf "Internal" "Config" "設定のパース（JSON）に失敗しました: %v" [show_error err]
  | inr newCfg =>
      store_Config newCfg ;;
      info <- file_Stat f ;;
      match info with
      | inl err => Logf "Internal" "Config" "ファイル情報の取得に失敗しました: %v" [show_error err]
      | inr fi =>
          store_LastLoaded (FModTime fi) ;;
          Log "Internal" "Config" "設定ファイルが再読み込みされました"
      end
  end.

Definition Reload : Comp (Sys W) unit :=
  r <- os_Open config_path ;;
  match r with
  | inl err => Logf "Internal" "Config" "設定ファイルのオープンに失敗しました: %v" [show_error err]
  | inr f => reload_from f ;; file_Close f
  end.

Definition Get : Comp (Sys W) Config :=
  info <- os_Stat config_path ;;
  lc <- gets loaded ;;
  match info with
  | inr fi => if decide (LastLoaded lc < FModTime fi)%Z then Reload else ret tt
  | inl _ => ret tt
  end ;;
  gets (λ s, cfg_Config (loaded s)).

(** ** Calls made *)

Lemma Reload_emits P :
  (∀ e, quiet e = true → P e) → emits P Reload.
Proof. intros H. unfold Reload, reload_from, store_Config, store_LastLoaded. solve_emits; by apply H. Qed.

Lemma Get_emits P : (∀ e, quiet e = true → P e) → emits P Get.
Proof. intros H. unfold Get. repeat emits_step; try (by apply H); try by apply Reload_emits. Qed.

Lemma Get_finishes : finishes Get.
Proof. unfold Get, Reload, reload_from, store_Config, store_LastLoaded. solve_finishes. Qed.

(** ** Results *)

(** [Reload] as a function of what the world answers. *)
Definition reload_outcome (s : Sys W) : LoadedConfig :=
  let '(r, w1) := Open config_path (world s) in
  match r with
  | inl _ => loaded s
  | inr f =>
      let '(d, w2) := DecodeConfig f w1 in
      match d with
      | inl _ => loaded s
      | inr c =>
          match (FileStat f w2).1 with
          | inl _ => mkLoadedConfig c (LastLoaded (loaded s))
          | inr fi => mkLoadedConfig c (FModTime fi)
          end
      end
  end.

Lemma Reload_run s : wp Reload (λ o s', o = Done tt ∧ loaded s' = reload_outcome s) s.
Proof.
  unfold Reload, reload_outcome, reload_from, store_Config, store_LastLoaded.
  repeat wp_step; simplify_eq/=; wp_answers; done.
Qed.

(** [Get] as a function of what the world answers. *)
Definition get_outcome (s : Sys W) : LoadedConfig :=
  let '(info, w1) := Stat config_path (world s) in
  match info with
  | inr fi =>
      if decide (LastLoaded (loaded s) < FModTime fi)%Z
      then reload_outcome (mkSys w1 (loaded s) []) else loaded s
  | inl _ => loaded s
  end.

Lemma reload_outcome_events w lc t t' :
  reload_outcome (mkSys w lc t) = reload_outcome (mkSys w lc t').
Proof. done. Qed.

Lemma Get_run s :
  wp Get (λ o s', loaded s' = get_outcome s ∧ o = Done (cfg_Config (loaded s'))) s.
Proof.
  unfold Get, get_outcome. do 3 wp_step. wp_step. wp_step. wp_answers.
  repeat wp_step; simplify_eq/=; try done. eapply wp_mono; [apply Reload_run|].
  intros o s' [-> H']. repeat wp_step. done.
Qed.

(** What a caller of [Get] sees. *)
Lemma Get_inv s o s' :
  Get s = (o, s') → o = Done (cfg_Config (loaded s')) ∧ loaded s' = get_outcome s.
Proof. intros H. apply (wp_elim _ _ _ _ _ (Get_run s)) in H. by destruct H. Qed.

Lemma Get_in_force s :
  wp Get (λ o s', o = Done (cfg_Config (loaded s')) ∧ ∃ t, events s' = events s ++ t ∧
    Forall (λ e, quiet e = true) t ∧ in_force s t (cfg_Config (loaded s'))) s.
Proof.
  unfold Get, Reload, reload_from, store_Config, store_LastLoaded.
  repeat wp_step; (split; [done|]); rewrite <- ?(assoc_L (++)); eexists; (split; [reflexivity|]);
    (split; [repeat first [assumption | apply Forall_nil; exact I | apply Forall_cons; split;
               [reflexivity|] | apply Forall_app; split]|]);
    first [by left | right; eexists; in_record].
Qed.

(** Continuing after [Get]. *)
Lemma wp_Get (Q : Outcome Config → Sys W → Prop) s :
  (∀ w lc t, Forall (λ e, quiet e = true) t → in_force s t (cfg_Config lc) →
     Q (Done (cfg_Config lc)) (mkSys w lc (events s ++ t))) →
  wp Get Q s.
Proof.
  intros H. eapply wp_mono; [apply Get_in_force|]. intros o s' (-> & t & Ht & HP & Hf).
  destruct s' as [w lc ev]. simpl in *. rewrite Ht. by apply H.
Qed.

(** Continuing after [Get], keeping what the configuration is. *)
Lemma wp_Get_outcome (Q : Outcome Config → Sys W → Prop) s :
  (∀ w t, Forall (λ e, quiet e = true) t →
     Q (Done (cfg_Config (get_outcome s))) (mkSys w (get_outcome s) (events s ++ t))) →
  wp Get Q s.
Proof.
  intros H. apply wp_intro. intros o s' E. destruct (Get_inv _ _ _ E) as [-> Hl].
  destruct (emits_run _ _ _ _ _ (Get_emits _ (λ e He, He)) E) as (t & Ht & HP).
  destruct s' as [w lc ev]. simpl in *. rewrite Hl, Ht. by apply H.
Qed.

(** * Properties *)

(** C27: when the file is newer than the last load and can be opened, decoded
    and examined, [Get] returns the new configuration and remembers the time
    of the file it read. *)
Theorem Get_reloads (s : Sys W) info w1 f w2 c w3 fi w4 :
  Stat config_path (world s) = (inr info, w1) →
  (LastLoaded (loaded s) < FModTime info)%Z →
  Open config_path w1 = (inr f, w2) →
  DecodeConfig f w2 = (inr c, w3) →
  FileStat f w3 = (inr fi, w4) →
  (Get s).1 = Done c ∧ loaded (Get s).2 = mkLoadedConfig c (FModTime fi).
Proof.
  intros H1 H2 H3 H4 H5. destruct (Get s) as [o s'] eqn:E. apply Get_inv in E as [-> E].
  simpl. rewrite E. unfold get_outcome. rewrite H1, decide_True by done.
  unfold reload_outcome. simpl. by rewrite H3, H4, H5.
Qed.

(** An unreadable or broken file never replaces the running
    configuration, and is tried again later since the load time stays; the
    same holds for a file that is missing or not newer. *)
Theorem Get_keeps (s : Sys W) :
  match Stat config_path (world s) with
  | (inl _, _) => True
  | (inr info, w1) =>
      (FModTime info ≤ LastLoaded (loaded s))%Z ∨
      match Open config_path w1 with
      | (inl _, _) => True
      | (inr f, w2) => ∃ err, (DecodeConfig f w2).1 = inl err
      end
  end →
  (Get s).1 = Done (cfg_Config (loaded s)) ∧ loaded (Get s).2 = loaded s.
Proof.
  intros H. destruct (Get s) as [o s'] eqn:E. apply Get_inv in E as [-> E]. simpl.
  assert (loaded s' = loaded s) as ->; [|done]. rewrite E. unfold get_outcome.
  destruct (Stat config_path (world s)) as [[?|info] w1]; [done|]. case_decide; [|done].
  destruct H as [H|H]; [lia|]. unfold reload_outcome. simpl.
  destruct (Open config_path w1) as [[?|f] w2]; [done|]. destruct H as [err H].
  destruct (DecodeConfig f w2) as [d w3]. simpl in H. by subst.
Qed.
End ConfigLoad.

#[export] Hint Resolve Get_finishes : finishes.

(** * Witnesses *)

Lemma Get_reloads_witness :
  (Get toy_boot).1 = Done toy_config ∧ loaded (Get toy_boot).2 = mkLoadedConfig toy_config 100.
Proof.
  apply (Get_reloads toy_boot (mkFileInfo "./config.json" false 100) toy_world 7 toy_world
    toy_config toy_world (mkFileInfo "./config.json" false 100) toy_world); try reflexivity.
Defined.

Lemma Get_keeps_witness : loaded (Get toy_sys).2 = mkLoadedConfig toy_config 100.
Proof. apply (Get_keeps toy_sys). simpl. left. lia. Defined.
