(* ===== verification/ConfigLock.v ===== *)
(** The locking of [config.LoadedConfig]: [Get] and [Reload] as goroutines run
    them side by side, step by step, with the lock they share and a
    configuration file that is written in place, replaced by another file or
    removed meanwhile.  [ConfigLoad] models the same two functions as one step
    each; here they are cut where others can come in between. *)

From stdpp Require Import functions.
From S2P Require Import Prelude.

(** Where a goroutine is in [Get], or in the [Reload] it calls.  [Checked] keeps
    whether the file was newer, and which version of it was seen; [Opened] and
    [Stored] keep the file that was opened. *)
Inductive Pc : Type :=
| Idle
| WantR
| HasR
| Checked (newer : bool) (seen : nat)
| WantW
| PendingW
| HasW
| Opened (f : nat)
| Stored (f : nat)
| Unlocking
| WantR2
| HasR2.

#[export] Instance pc_eq_dec : EqDecision Pc.
Proof. solve_decision. Defined.

(** [readers] hold the read lock; [writer] has announced itself, which keeps new
    readers out, and holds the lock once the readers are gone.  The writings of
    the configuration are counted by [file], so that a version is the number of
    the writing it comes from.  A file is known by the version it was created
    with; [holds] is the version in it now and [path] the file that
    [./config.json] names, if any.  [config] is the version the shared [Config]
    was decoded from and [stamp] is [LastLoaded].  [torn] notes that a file was
    written between the two reads a reload does of it. *)
Record Shared := mkShared {
  pcs : nat → Pc;
  readers : gset nat;
  writer : option nat;
  file : nat;
  holds : nat → nat;
  path : option nat;
  config : nat;
  stamp : Z;
  torn : bool;
}.

Definition at_pc (i : nat) (p : Pc) (s : Shared) : Shared :=
  mkShared (<[i:=p]> (pcs s)) (readers s) (writer s) (file s) (holds s) (path s) (config s) (stamp s) (torn s).
Definition set_readers (r : gset nat) (s : Shared) : Shared :=
  mkShared (pcs s) r (writer s) (file s) (holds s) (path s) (config s) (stamp s) (torn s).
Definition set_writer (w : option nat) (s : Shared) : Shared :=
  mkShared (pcs s) (readers s) w (file s) (holds s) (path s) (config s) (stamp s) (torn s).
Definition set_config (c : nat) (s : Shared) : Shared :=
  mkShared (pcs s) (readers s) (writer s) (file s) (holds s) (path s) c (stamp s) (torn s).
Definition set_stamp (m : Z) (s : Shared) : Shared :=
  mkShared (pcs s) (readers s) (writer s) (file s) (holds s) (path s) (config s) m (torn s).

(** What others do to the configuration file: it is written in place, another
    file takes its name, or it is removed.  A file that lost the name stays as
    it is for whoever has it open. *)
Inductive edit (s : Shared) : Shared → Prop :=
| written f b : path s = Some f → (torn s = true → b = true) → ((∃ i, pcs s i = Stored f) → b = true) →
    edit s (mkShared (pcs s) (readers s) (writer s) (S (file s)) (<[f:=S (file s)]> (holds s)) (path s)
      (config s) (stamp s) b)
| replaced :
    edit s (mkShared (pcs s) (readers s) (writer s) (S (file s)) (<[S (file s):=S (file s)]> (holds s))
      (Some (S (file s))) (config s) (stamp s) (torn s))
| removed :
    edit s (mkShared (pcs s) (readers s) (writer s) (file s) (holds s) None (config s) (stamp s) (torn s)).

(** What holds of a goroutine after another one moved. *)
Ltac pc_cases j :=
  match goal with |- context [<[?i:=_]> _ j] =>
    destruct (decide (i = j)) as [<-|]; [rewrite fn_lookup_insert|rewrite fn_lookup_insert_ne by done]
  | H : context [<[?i:=_]> _ j] |- _ =>
    destruct (decide (i = j)) as [<-|]; [rewrite fn_lookup_insert in H|rewrite fn_lookup_insert_ne in H by done]
  end.

(** Steps of a concrete run. *)
Ltac run_by i c := eapply rtc_l; [left; exists i; by eapply c|]; simpl.
Ltac lock_run c := run_by 0 c.
Ltac edit_run c := eapply rtc_l; [right; by eapply c|]; simpl.

Section ConfigLock.
(** The modification time each version leaves on its file, whatever the clocks
    and the tools that wrote it say: two versions may have the same, and a later
    one an earlier.  Version 0 is no file at all, and its time the zero value of
    [LastLoaded]. *)
Variable mtime : nat → Z.

(** At the start the zero configuration, and no file yet. *)
Definition boot_state : Shared := mkShared (λ _, Idle) ∅ None 0 (λ _, 0) None 0 (mtime 0) false.

(** A step of the goroutine [i].  [os.Stat] follows the name, while decoding and
    [f.Stat] are of the file that was opened; the decoder reads it in one go. *)
Inductive get_step (i : nat) (s : Shared) : Shared → Prop :=
| call_Get : pcs s i = Idle → get_step i s (at_pc i WantR s)
| rlock : pcs s i = WantR → writer s = None →
    get_step i s (at_pc i HasR (set_readers ({[i]} ∪ readers s) s))
| stat_file f : pcs s i = HasR → path s = Some f →
    get_step i s (at_pc i (Checked (bool_decide (stamp s < mtime (holds s f))%Z) (holds s f)) s)
| stat_fails : pcs s i = HasR → get_step i s (at_pc i (Checked false 0) s)
| get_returns seen : pcs s i = Checked false seen →
    get_step i s (at_pc i Idle (set_readers (readers s ∖ {[i]}) s))
| runlock seen : pcs s i = Checked true seen →
    get_step i s (at_pc i WantW (set_readers (readers s ∖ {[i]}) s))
| lock_announced : pcs s i = WantW → writer s = None →
    get_step i s (at_pc i PendingW (set_writer (Some i) s))
| lock_acquired : pcs s i = PendingW → readers s = ∅ → get_step i s (at_pc i HasW s)
| file_opened f : pcs s i = HasW → path s = Some f → get_step i s (at_pc i (Opened f) s)
| open_fails : pcs s i = HasW → get_step i s (at_pc i Unlocking s)
| decoded f : pcs s i = Opened f → get_step i s (at_pc i (Stored f) (set_config (holds s f) s))
| decode_fails f : pcs s i = Opened f → get_step i s (at_pc i Unlocking s)
| stamped f : pcs s i = Stored f → get_step i s (at_pc i Unlocking (set_stamp (mtime (holds s f)) s))
| stamp_fails f : pcs s i = Stored f → get_step i s (at_pc i Unlocking s)
| unlock : pcs s i = Unlocking → get_step i s (at_pc i WantR2 (set_writer None s))
| rlock_again : pcs s i = WantR2 → writer s = None →
    get_step i s (at_pc i HasR2 (set_readers ({[i]} ∪ readers s) s))
| reloaded_returns : pcs s i = HasR2 →
    get_step i s (at_pc i Idle (set_readers (readers s ∖ {[i]}) s)).

Definition goroutine_step (s s' : Shared) : Prop := ∃ i, get_step i s s'.

Definition lock_step (s s' : Shared) : Prop := goroutine_step s s' ∨ edit s s'.

(** Each version carries a later modification time than the ones before it. *)
Definition timely : Prop := ∀ v w, v < w → (mtime v < mtime w)%Z.

Lemma timely_le v w : timely → v ≤ w → (mtime v ≤ mtime w)%Z.
Proof. intros Ht Hle. destruct (decide (v = w)) as [->|]; [lia|]. specialize (Ht v w). lia. Qed.

Lemma timely_ge v w : timely → (mtime v ≤ mtime w)%Z → v ≤ w.
Proof. intros Ht Hle. destruct (decide (w < v)) as [H|]; [specialize (Ht w v H)|]; lia. Qed.

(** * The invariant *)

Definition reading (p : Pc) : Prop := match p with HasR | Checked _ _ | HasR2 => True | _ => False end.
Definition writing (p : Pc) : Prop :=
  match p with HasW | Opened _ | Stored _ | Unlocking => True | _ => False end.
Definition writer_pc (p : Pc) : Prop := match p with PendingW => True | _ => writing p end.

#[export] Instance reading_dec p : Decision (reading p).
Proof. destruct p; apply _. Defined.
#[export] Instance writing_dec p : Decision (writing p).
Proof. destruct p; apply _. Defined.

Lemma writing_writer p : writing p → writer_pc p.
Proof. by destruct p. Qed.

Record lock_ok (s : Shared) : Prop := {
  ok_readers i : i ∈ readers s ↔ reading (pcs s i);
  ok_writer i : writer s = Some i ↔ writer_pc (pcs s i);
  ok_alone i : writing (pcs s i) → readers s = ∅;
  ok_holds f : holds s f ≤ file s;
  ok_path f : path s = Some f → f ≤ file s ∧ holds s f = file s;
  ok_config : config s ≤ file s;
  ok_opened i f : pcs s i = Opened f → f ≤ file s ∧ config s ≤ holds s f;
  (** without a write in between, the stamp is of what was decoded *)
  ok_stored i f : pcs s i = Stored f → f ≤ file s ∧ (torn s = false → config s = holds s f);
  ok_clean : timely → torn s = false → (stamp s ≤ mtime (config s))%Z;
  ok_seen i newer seen : pcs s i = Checked newer seen → seen ≤ file s;
  ok_fresh i seen : timely → torn s = false → pcs s i = Checked false seen → seen ≤ config s;
}.

Lemma boot_ok : lock_ok boot_state.
Proof. by split; simpl; try lia. Qed.

Lemma get_step_ok i s s' : lock_ok s → get_step i s s' → lock_ok s'.
Proof.
  intros [Hr Hw Ha Hh Hpa Hc Ho Hst Hcl Hse Hf] Hstep.
  pose proof (Hr i) as Hri. pose proof (Hw i) as Hwi. pose proof (Ha i) as Hai.
  assert (writing (pcs s i) → ∀ j, writing (pcs s j) → i = j) as Hexcl.
  { intros H1%writing_writer%Hw j H2%writing_writer%Hw. congruence. }
  destruct Hstep as [Hp|Hp Hn|f Hp Hfl|Hp|seen Hp|seen Hp|Hp Hn|Hp He|f Hp Hfl|Hp|f Hp|f Hp|f Hp|f Hp|Hp|Hp Hn|Hp];
    rewrite Hp in Hri, Hwi, Hai, Hexcl; simpl in *.
  all: split; simpl; try done; try lia.
  all: try (intros j; pc_cases j; simpl).
  all: try (by eauto).
  all: try (by (intros; simplify_eq)).
  all: try (match goal with |- ?k ∈ _ ↔ _ => specialize (Hr k); clear - Hr Hri n end; set_solver).
  all: try (clear - Hri; set_solver).
  all: try (intros Hj; specialize (Ha j Hj); clear - Ha; set_solver).
  all: try (intros Hj%writing_writer; apply Hw in Hj; congruence).
  all: try (rewrite <- Hw; naive_solver).
  all: try (by (intros; simplify_eq; eauto using timely_le)).
  - intros seen Ht Hto [= Hb%bool_decide_eq_false <-]. apply timely_ge; [done|]. specialize (Hcl Ht Hto). lia.
  - intros newer seen [= <- <-]. lia.
  - intros seen _ _ [= <-]. lia.
  - intros f' [= <-]. destruct (Hpa f Hfl) as [? ->]. by split.
  - intros f' Hj. by destruct n; apply (Hexcl I); rewrite Hj.
  - intros f' [= <-]. destruct (Ho i f Hp). by split.
  - intros f' Hj. by destruct n; apply (Hexcl I); rewrite Hj.
  - intros Ht Hto. destruct (Ho i f Hp) as [_ Hle]. specialize (Hcl Ht Hto). pose proof (timely_le _ _ Ht Hle). lia.
  - intros seen Ht Hto Hj. destruct (Ho i f Hp) as [_ Hle]. specialize (Hf j seen Ht Hto Hj). lia.
  - intros _ Hto. destruct (Hst i f Hp) as [_ <-]; [lia|done].
Qed.

Lemma edit_ok s s' : lock_ok s → edit s s' → lock_ok s'.
Proof.
  intros [Hr Hw Ha Hh Hpa Hc Ho Hst Hcl Hse Hf] He.
  assert (∀ i f, pcs s i = Stored f → f ≤ file s) as Hsf by (intros; by eapply Hst).
  destruct He as [f b Hp Hb1 Hb2| |]; split; simpl; try done; try lia.
  all: try (intros g; pc_cases g; [lia|by apply le_S, Hh]).
  all: try (by intros i newer seen Hi; specialize (Hse i newer seen Hi); lia).
  - intros g Hg. rewrite Hp in Hg. injection Hg as <-. destruct (Hpa f Hp). rewrite fn_lookup_insert. lia.
  - intros i g Hi. destruct (Ho i g Hi). pc_cases g; lia.
  - intros i g Hi. specialize (Hsf i g Hi). split; [lia|]. intros ->.
    destruct (decide (f = g)) as [<-|]; [by specialize (Hb2 (ex_intro _ i Hi))|].
    rewrite fn_lookup_insert_ne by done. apply (Hst i g Hi). destruct (torn s); [by specialize (Hb1 eq_refl)|done].
  - intros Ht ->. apply Hcl; [done|]. destruct (torn s); [by specialize (Hb1 eq_refl)|done].
  - intros i seen Ht ->. apply Hf; [done|]. destruct (torn s); [by specialize (Hb1 eq_refl)|done].
  - intros g [= <-]. by rewrite fn_lookup_insert.
  - intros i g Hi. destruct (Ho i g Hi). rewrite fn_lookup_insert_ne by lia. lia.
  - intros i g Hi. specialize (Hsf i g Hi). rewrite fn_lookup_insert_ne by lia. split; [lia|by apply (Hst i g Hi)].
Qed.

Lemma reachable_lock_ok s : rtc lock_step boot_state s → lock_ok s.
Proof.
  apply rtc_invariant; [|apply boot_ok].
  intros u v Hu [[i Hi]|He]; [by eapply get_step_ok|by eapply edit_ok].
Qed.

(** * Properties *)

(** While one goroutine replaces the configuration no other reads or replaces
    it, however the calls and the edits of the file interleave. *)
Theorem lock_excludes s i j :
  rtc lock_step boot_state s → writing (pcs s i) →
  readers s = ∅ ∧ ¬ reading (pcs s j) ∧ (writing (pcs s j) → j = i).
Proof.
  intros Hr Hi. pose proof (reachable_lock_ok s Hr) as [Hrd Hw Ha _ _ _ _ _ _ _ _].
  specialize (Ha i Hi). split_and!; [done|by rewrite <- Hrd, Ha; set_solver|].
  intros Hj%writing_writer%Hw. apply writing_writer, Hw in Hi. congruence.
Qed.

(** A goroutine that holds the lock, or waits for nothing, can go on. *)
Lemma holder_goes s k : reading (pcs s k) ∨ writing (pcs s k) → ∃ s', get_step k s s'.
Proof.
  destruct (pcs s k) as [| | |[] seen| | | |f|f| | |] eqn:E; intros [H|H]; try done.
  - eexists. exact (stat_fails k s E).
  - eexists. exact (runlock k s seen E).
  - eexists. exact (get_returns k s seen E).
  - eexists. exact (open_fails k s E).
  - eexists. exact (decode_fails k s f E).
  - eexists. exact (stamp_fails k s f E).
  - eexists. exact (unlock k s E).
  - eexists. exact (reloaded_returns k s E).
Qed.

Lemma holder_busy s k : reading (pcs s k) ∨ writing (pcs s k) → pcs s k ≠ Idle.
Proof. intros H E. rewrite E in H. by destruct H. Qed.

(** C21: [Get] does not block for ever: whenever a call is under way, one of the
    calls under way can go on. *)
Theorem lock_progress s i :
  rtc lock_step boot_state s → pcs s i ≠ Idle →
  ∃ j s', pcs s j ≠ Idle ∧ get_step j s s'.
Proof.
  intros Hr Hi. pose proof (reachable_lock_ok s Hr) as [Hrd Hw Ha _ _ _ _ _ _ _ _].
  assert (∀ k, reading (pcs s k) ∨ writing (pcs s k) → ∃ j s', pcs s j ≠ Idle ∧ get_step j s s') as Hgo.
  { intros k Hk. destruct (holder_goes s k Hk) as [s' ?]. exists k, s'. by split; [apply holder_busy|]. }
  assert (∀ k, writer s = Some k → ∃ j s', pcs s j ≠ Idle ∧ get_step j s s') as Hwr.
  { intros k Hk. pose proof (proj1 (Hw k) Hk) as Hpc.
    destruct (decide (pcs s k = PendingW)) as [E|Hne].
    - destruct (decide (readers s = ∅)) as [He|He].
      + exists k. eexists. rewrite E. split; [done|]. exact (lock_acquired k s E He).
      + apply set_choose_L in He as [l Hl%Hrd]. apply (Hgo l). by left.
    - apply (Hgo k). right. by destruct (pcs s k). }
  destruct (writer s) as [k|] eqn:F; [by apply (Hwr k)|].
  destruct (decide (reading (pcs s i) ∨ writing (pcs s i))) as [H|H]; [by apply (Hgo i)|].
  destruct (pcs s i) eqn:E; try done; try (by destruct H; (left + right)).
  - exists i. eexists. rewrite E. split; [done|]. exact (rlock i s E F).
  - exists i. eexists. rewrite E. split; [done|]. exact (lock_announced i s E F).
  - assert (None = Some i) by (apply Hw; by rewrite E). done.
  - exists i. eexists. rewrite E. split; [done|]. exact (rlock_again i s E F).
Qed.

(** C22: the configuration only moves on to later versions of the file.  And
    provided each version carries a later modification time than the ones before
    it and no file was ever written between the two reads of a reload, a call
    that finds no newer file returns a configuration at least as new as the
    version it saw. *)
Theorem Get_fresh s :
  rtc lock_step boot_state s →
  config s ≤ file s ∧ (∀ s', lock_step s s' → config s ≤ config s') ∧
  (timely → torn s = false → ∀ i seen, pcs s i = Checked false seen → seen ≤ config s).
Proof.
  intros Hr. pose proof (reachable_lock_ok s Hr) as [_ _ _ _ _ Hc Ho _ _ _ Hf]. split_and!; [done| |by eauto].
  intros s' [[i Hi]|He]; [|by destruct He]. destruct Hi as [| | | | | | | | | |f Hp| | | | | |]; try done.
  by apply (Ho i f).
Qed.

(** No call is on its way to a reload, and none will be: the file the name stands
    for is not newer than the stamp. *)
Definition settled (c : nat) (s : Shared) : Prop :=
  (∀ f, path s = Some f → mtime (holds s f) ≤ stamp s)%Z ∧ config s = c ∧
  ∀ i, match pcs s i with Idle | WantR | HasR | Checked false _ => True | _ => False end.

Lemma settled_step c s s' : settled c s → goroutine_step s s' → settled c s'.
Proof.
  intros (Hst & Hc & Hp) [i Hs]. pose proof (Hp i) as Hi.
  destruct Hs as [E|E ?|f E Hf|E|seen E|seen E|E ?|E ?|f E Hf|E|f E|f E|f E|f E|E|E ?|E]; rewrite E in Hi; try done;
    (split; [done|]; split; [done|]); intros j; simpl; pc_cases j; try done; try apply Hp.
  specialize (Hst f Hf). rewrite bool_decide_eq_false_2 by lia. done.
Qed.

Lemma settled_stays c s s' : settled c s → rtc goroutine_step s s' → config s' = config s.
Proof.
  intros Hs Hr. assert (settled c s') as (_ & -> & _); [|by destruct Hs as (_ & -> & _)].
  revert Hr. apply (rtc_invariant _ (settled c)); [apply settled_step|done].
Qed.

(** Nothing under way, the version [2] in the file and an older one loaded, for
    good: no call notices as long as the file stays as it is. *)
Definition lost_edit (s : Shared) : Prop :=
  rtc lock_step boot_state s ∧ (∀ i, pcs s i = Idle) ∧ config s < file s ∧
  ∀ s', rtc goroutine_step s s' → config s' = config s.

(** A run that loaded the first version and then met the second. *)
Lemma lost_edit_intro s :
  rtc lock_step boot_state s → (∀ i, pcs s i = Idle) → config s = 1 → file s = 2 →
  (∀ f, path s = Some f → mtime (holds s f) ≤ stamp s)%Z → lost_edit s.
Proof.
  intros Hr Hi Hc Hf Hst. split_and!; [done..|lia|]. intros s'. apply (settled_stays 1).
  split_and!; [done..|]. intros i. by rewrite Hi.
Qed.

Ltac idle_again :=
  intros i; simpl; destruct (decide (i = 0)) as [->|]; [by rewrite fn_lookup_insert|by rewrite !fn_lookup_insert_ne].

(** A write between the decoding of the file and the reading of its time is lost,
    though its time is later than all before. *)
Theorem edit_lost : timely → ∃ s, lost_edit s.
Proof.
  intros Ht. specialize (Ht 0 1). eexists. apply lost_edit_intro.
  - edit_run replaced. lock_run call_Get. lock_run rlock. lock_run stat_file.
    rewrite bool_decide_eq_true_2 by (rewrite fn_lookup_insert; lia). lock_run runlock.
    lock_run lock_announced. lock_run lock_acquired. lock_run file_opened. lock_run decoded.
    eapply rtc_l; [right; by apply (written _ 1 true)|]; simpl.
    lock_run stamped. lock_run unlock. lock_run rlock_again. lock_run reloaded_returns. apply rtc_refl.
  - idle_again.
  - done.
  - done.
  - intros f [= <-]. simpl. rewrite !fn_lookup_insert. lia.
Qed.

(** And so is any version, whenever it is put in place, whose time is not later
    than that of the one loaded: a restored copy that kept its time, or a second
    write within the resolution of the file system's clock. *)
Theorem early_edit_lost : (mtime 0 < mtime 1)%Z → (mtime 2 ≤ mtime 1)%Z → ∃ s, torn s = false ∧ lost_edit s.
Proof.
  intros H1 H2. eexists. split; [|apply lost_edit_intro]; cycle 1.
  - edit_run replaced. lock_run call_Get. lock_run rlock. lock_run stat_file.
    rewrite bool_decide_eq_true_2 by (rewrite fn_lookup_insert; lia). lock_run runlock.
    lock_run lock_announced. lock_run lock_acquired. lock_run file_opened. lock_run decoded.
    lock_run stamped. lock_run unlock. lock_run rlock_again. lock_run reloaded_returns.
    edit_run replaced. apply rtc_refl.
  - idle_again.
  - done.
  - done.
  - intros f [= <-]. simpl. rewrite !fn_lookup_insert. lia.
  - done.
Qed.
End ConfigLock.

(** * At a concrete input *)

(** A clock that moves on with every version. *)
Lemma timely_clock : timely Z.of_nat.
Proof. intros v w. lia. Qed.

Lemma edit_lost_witness : ∃ s, lost_edit Z.of_nat s.
Proof. apply edit_lost, timely_clock. Defined.

(** A clock that stands still after the first version. *)
Lemma early_edit_lost_witness : ∃ s, torn s = false ∧ lost_edit (λ v, Z.of_nat (v `min` 1)) s.
Proof. apply early_edit_lost; simpl; lia. Defined.

(** One goroutine replaces the configuration while another waits to read. *)
Lemma run_to_write : ∃ s, rtc (lock_step Z.of_nat) (boot_state Z.of_nat) s ∧ pcs s 0 = HasW ∧ pcs s 1 = WantR.
Proof.
  eexists. split.
  - edit_run replaced. lock_run call_Get. lock_run rlock. lock_run stat_file. lock_run runlock.
    lock_run lock_announced. lock_run lock_acquired. run_by 1 call_Get. apply rtc_refl.
  - done.
Qed.

Lemma lock_excludes_witness :
  ∃ s, pcs s 0 = HasW ∧ readers s = ∅ ∧ ¬ reading (pcs s 1).
Proof.
  destruct run_to_write as (s & Hr & H0 & H1). exists s. split; [exact H0|].
  destruct (lock_excludes Z.of_nat s 0 1 Hr) as (? & ? & _); [by rewrite H0|by split].
Defined.

Lemma lock_progress_witness :
  ∃ s j s', pcs s 1 = WantR ∧ writer s ≠ None ∧ pcs s j ≠ Idle ∧ get_step Z.of_nat j s s'.
Proof.
  destruct run_to_write as (s & Hr & H0 & H1). exists s.
  destruct (lock_progress Z.of_nat s 1 Hr) as (j & s' & ? & ?); [by rewrite H1|].
  exists j, s'. split_and!; try done. intros Hn.
  assert (writer s = Some 0) as Hw by (apply (ok_writer _ s (reachable_lock_ok _ s Hr)); by rewrite H0).
  congruence.
Defined.

(** A call that saw the version loaded before it. *)
Lemma run_to_check :
  ∃ s, rtc (lock_step Z.of_nat) (boot_state Z.of_nat) s ∧ pcs s 1 = Checked false 1 ∧ torn s = false.
Proof.
  eexists. split.
  - edit_run replaced. lock_run call_Get. lock_run rlock. lock_run stat_file. lock_run runlock.
    lock_run lock_announced. lock_run lock_acquired. lock_run file_opened. lock_run decoded. lock_run stamped.
    lock_run unlock. run_by 1 call_Get. run_by 1 rlock. run_by 1 stat_file. apply rtc_refl.
  - done.
Qed.

Lemma Get_fresh_witness : ∃ s, pcs s 1 = Checked false 1 ∧ 1 ≤ config s.
Proof.
  destruct run_to_check as (s & Hr & H1 & Ht). exists s. split; [exact H1|].
  destruct (Get_fresh Z.of_nat s Hr) as (_ & _ & Hf). exact (Hf timely_clock Ht 1 1 H1).
Defined.
