(* ===== verification/Docker.v ===== *)
(** [internal/docker]: the client, sending a command to a container's standard input, and
    running a process inside a container. *)

From S2P Require Import Prelude GoStrings GoTime Config World.

Definition newline : string := chr (byte 10).

Section Docker.
Context {W : Type} `{!Docker W, !OS W}.

(** [Init]: what it leaves in the package variable [Client], and its error.  When
    the library makes no client the variable is nil. *)
Definition Init `{!Boot W} : Comp (Sys W) (option (DockerClient W) * option error) :=
  r <- dk_NewClient ;;
  match r with
  | inl err =>
      Logf "External" "Docker" "クライアント初期化失敗: %v" [show_error err] ;;
      ret (None, Some err)
  | inr Client => ret (Some Client, None)
  end.

Definition SendCommand (id command : string) : Comp (Sys W) (option error) :=
  r <- dk_Attach id ;;
  match r with
  | inl err => ret (Some err)
  | inr conn =>
      err <- dk_Write conn command ;;
      dk_Close conn ;;
      ret err
  end.

Definition SendExec (id : string) (cmd : list string) : Comp (Sys W) (option error) :=
  r <- dk_ExecCreate id (mkExecOptions false false true true [] cmd) ;;
  match r with
  | inl err => ret (Some err)
  | inr exec =>
      a <- dk_ExecAttach exec false ;;
      match a with
      | inl err => ret (Some err)
      | inr conn =>
          dk_Drain conn ;;
          i <- dk_ExecInspect exec ;;
          let res := match i with
                     | inl err => Some err
                     | inr code =>
                         if decide (code = 0%Z) then None
                         else Some (Errorf_w "command exited with code %d: %w" [show_int code]
                                      (ErrNew "non-zero exit code"))
                     end in
          dk_Close conn ;;
          ret res
      end
  end.

(** Neither changes the state of a container. *)
Lemma SendCommand_emits P id command :
  (∀ r, P (EvAttach id r)) → (∀ c e, P (EvWrite c command e)) → (∀ c, P (EvClose c)) →
  emits P (SendCommand id command).
Proof. intros. unfold SendCommand. solve_emits. Qed.

Lemma SendExec_emits P id cmd :
  (∀ o r, P (EvExecCreate id o r)) → (∀ x r, P (EvExecAttach x r)) → (∀ c, P (EvDrain c)) →
  (∀ x r, P (EvExecInspect x r)) → (∀ c, P (EvClose c)) →
  emits P (SendExec id cmd).
Proof. intros. unfold SendExec. solve_emits. Qed.

End Docker.

Section DockerMade.
Context {W : Type} `{!DockerClient W, !OS W}.

Lemma SendCommand_finishes id command : finishes (SendCommand id command).
Proof. unfold SendCommand. solve_finishes. Qed.

Lemma SendExec_finishes id cmd : finishes (SendExec id cmd).
Proof. unfold SendExec. solve_finishes. Qed.
End DockerMade.

#[export] Hint Resolve SendCommand_finishes SendExec_finishes : finishes.
