(* ===== verification/Container.v ===== *)
(** [internal/container]: the operations of [Manager] on containers and backups. *)

From S2P Require Import Prelude GoStrings GoPath GoTime Config World ConfigLoad Docker.

(** * Actions *)

Abbreviation Action := string (only parsing).
Definition ActionStart : Action := "start".
Definition ActionStop : Action := "stop".
Definition ActionKill : Action := "kill".
Definition ActionBackup : Action := "backup".
Definition ActionRestore : Action := "restore".
Definition ActionRemove : Action := "remove".

(** * Start: the configuration of the new container *)

(** [containerConfig] before the ports. *)
Definition container_config (compose : ComposeConfig) : ContainerConfig :=
  let '(entry, cmd) :=
    match Command compose with
    | None => ([], [])
    | Some c =>
        (if decide (Entrypoint c = "") then [] else Fields (Entrypoint c),
         if decide (Arguments_ c = "") then [] else Fields (Arguments_ c))
    end in
  mkContainerConfig (Image compose) true true entry cmd ∅.

(** The binds, restart policy and network mode; the mounts in the order they are
    ranged over. *)
Definition host_config (compose : ComposeConfig) (mounts : list (string * string)) : HostConfig :=
  mkHostConfig
    ((λ '(hostPath, containerPath), hostPath +:+ ":" +:+ containerPath) <$> mounts)
    (if decide (Restart compose = "") then "no" else Restart compose)
    (if decide (NetMode (Network compose) = "") then "bridge" else NetMode (Network compose))
    ∅.

(** The port-forwarding loop, over the mapping in the order it is ranged over. *)
Definition port_of (containerPort : string) : string := containerPort +:+ "/tcp".

Definition add_port (kv : string * string) (acc : gmap string (list PortBinding) * gset string)
    : gmap string (list PortBinding) * gset string :=
  let '(hostPort, containerPort) := kv in
  let '(portBindings, exposedPorts) := acc in
  (<[port_of containerPort := [mkPortBinding "0.0.0.0" hostPort]]> portBindings,
   {[port_of containerPort]} ∪ exposedPorts).

Definition port_maps (mapping : list (string * string)) : gmap string (list PortBinding) * gset string :=
  foldl (λ acc kv, add_port kv acc) (∅, ∅) mapping.

Definition with_ports (mapping : list (string * string)) (c : ContainerConfig) (h : HostConfig)
    : ContainerConfig * HostConfig :=
  let '(portBindings, exposedPorts) := port_maps mapping in
  (mkContainerConfig (CImage c) (CTty c) (COpenStdin c) (CEntrypoint c) (CCmd c) exposedPorts,
   mkHostConfig (Binds h) (RestartPolicyName h) (NetworkMode h) portBindings).

Module Manager.
Section Manager.
Context {W : Type} `{!Docker W, !OS W, !MapRange W}.

(** The calls that bring the container up, once nothing stands in the way. *)
Definition create_and_start (serverName : string) (compose : ComposeConfig)
    : Comp (Sys W) (option error) :=
  let c := container_config compose in
  mounts <- range_map (Mount compose) ;;
  let h := host_config compose mounts in
  ch <- (if decide (NetworkMode h = "bridge" ∧ 0 < size (Mapping (Network compose))) then
           mapping <- range_map (Mapping (Network compose)) ;;
           ret (with_ports mapping c h)
         else ret (c, h)) ;;
  err <- dk_Create serverName ch.1 ch.2 ;;
  match err with
  | Some err =>
      Logf "Internal" "Container" "コンテナ作成失敗(%s): %v" [serverName; show_error err] ;;
      ret (Some (Errorf_w "failed to create container: %w" [] err))
  | None =>
      err <- dk_Start serverName ;;
      match err with
      | Some err =>
          Logf "Internal" "Container" "コンテナ起動失敗(%s): %v" [serverName; show_error err] ;;
          ret (Some (Errorf_w "failed to start container: %w" [] err))
      | None =>
          Logf "Internal" "Container" "コンテナの起動に成功しました: %s" [serverName] ;;
          ret None
      end
  end.

Definition Start (serverName : string) : Comp (Sys W) (option error) :=
  cfg <- Get ;;
  match Servers cfg !! serverName with
  | None => ret None
  | Some serverCfg =>
      match Compose serverCfg with
      | None => ret None
      | Some compose =>
          if decide (Image compose = "") then ret None
          else
            r <- dk_Inspect serverName ;;
            match r with
            | inr inspect =>
                if Running inspect
                then ret (Some (Errorf "container %s is already running. please stop and remove it first" [serverName]))
                else ret (Some (Errorf "container %s already exists. please remove it manually to apply new config" [serverName]))
            | inl err =>
                if negb (IsNotFound err) then
                  Logf "Internal" "Container" "コンテナ状態確認失敗(%s): %v" [serverName; show_error err] ;;
                  ret (Some (Errorf_w "failed to inspect container: %w" [] err))
                else create_and_start serverName compose
            end
      end
  end.

(** * Stop *)

(** One step of the configured sequence; a step that fails is logged and passed. *)
Definition stop_step (serverName : string) (cmd : CmdConfig) : Comp (Sys W) unit :=
  if decide (CmdType cmd = "attach") then
    err <- SendCommand serverName (Arg cmd) ;;
    match err with
    | Some err => Logf "Internal" "Container" "%s: attachコマンド送信失敗: %v" [serverName; show_error err]
    | None => ret tt
    end
  else if decide (CmdType cmd = "exec") then
    err <- SendExec serverName ["/bin/sh"; "-c"; Arg cmd] ;;
    match err with
    | Some err => Logf "Internal" "Container" "%s: exec実行失敗: %v" [serverName; show_error err]
    | None => ret tt
    end
  else if decide (CmdType cmd = "log") then
    Log "Internal" "Container" (Sprintf "[%s] %s" [serverName; Arg cmd])
  else if decide (CmdType cmd = "sleep") then
    match ParseDuration (Arg cmd) with
    | Some dur => time_Sleep dur
    | None => ret tt
    end
  else ret tt.

Definition Stop (serverName : string) : Comp (Sys W) (option error) :=
  cfg <- Get ;;
  match Servers cfg !! serverName with
  | None => dk_Stop serverName None
  | Some serverCfg =>
      for_each (stop_step serverName) (default [] (Config.Stop (Commands serverCfg))) ;;
      err <- dk_Stop serverName None ;;
      match err with
      | Some err =>
          Logf "Internal" "Container" "コンテナ停止失敗(%s): %v" [serverName; show_error err] ;;
          ret (Some (Errorf_w "failed to stop container: %w" [] err))
      | None =>
          Logf "Internal" "Container" "コンテナの停止に成功しました: %s" [serverName] ;;
          ret None
      end
  end.

(** * Kill *)

Definition Kill (serverName : string) : Comp (Sys W) (option error) :=
  err <- dk_Stop serverName (Some 30%Z) ;;
  match err with
  | None =>
      Logf "Internal" "Container" "コンテナが正常に停止しました(Kill経由): %s" [serverName] ;;
      ret None
  | Some _ =>
      err <- dk_Kill serverName "SIGKILL" ;;
      match err with
      | None =>
          Logf "Internal" "Container" "コンテナを強制終了しました: %s" [serverName] ;;
          ret None
      | Some err => ret (Some (Errorf_w "failed to kill container: %w" [] err))
      end
  end.

(** * Backup *)

(** [src:destBase] of a backup step. *)
Definition backup_parts (arg : string) : option (string * string) :=
  match SplitN2 arg colon with
  | [src; destBase] => Some (src, destBase)
  | _ => None
  end.

Definition rsync_args (src current latest : string) (linked : bool) : list string :=
  ["-avh"; "--delete"] ++ (if linked then ["--link-dest"; latest] else []) ++ [src +:+ "/"; current].

(** The copy of one [src:destBase]; the flag says whether rsync failed. *)
Definition backup_copy (serverName timestamp src destBase : string) (hasError : bool)
    : Comp (Sys W) bool :=
  let current := Sprintf "%s/%s" [destBase; timestamp] in
  let latest := Sprintf "%s/latest" [destBase] in
  os_MkdirAll destBase 493 ;;
  st <- os_Stat latest ;;
  let linked := match st with inr _ => true | inl _ => false end in
  out <- exec_Run "rsync" (rsync_args src current latest linked) ;;
  match out.2 with
  | Some err =>
      Logf "Internal" "Container" "%s: rsync失敗: %v, output: %s" [serverName; show_error err; out.1] ;;
      ret true
  | None =>
      os_Remove latest ;;
      os_Symlink timestamp latest ;;
      ret hasError
  end.

Definition backup_step (serverName timestamp : string) (isRunning : bool)
    (cmd : CmdConfig) (hasError : bool) : Comp (Sys W) bool :=
  if decide (CmdType cmd = "attach") then
    if negb isRunning then
      Logf "Internal" "Container" "%s: コンテナ停止中のためバックアップ準備コマンド(attach)をスキップします" [serverName] ;;
      ret hasError
    else
      err <- SendCommand serverName (Arg cmd +:+ newline) ;;
      match err with
      | Some err => Logf "Internal" "Container" "%s: バックアップ準備コマンド送信失敗: %v" [serverName; show_error err]
      | None => ret tt
      end ;;
      ret hasError
  else if decide (CmdType cmd = "sleep") then
    if negb isRunning then ret hasError
    else
      match ParseDuration (Arg cmd) with
      | Some dur => time_Sleep dur
      | None => ret tt
      end ;;
      ret hasError
  else if decide (CmdType cmd = "backup") then
    match backup_parts (Arg cmd) with
    | None => ret hasError
    | Some (src, destBase) => backup_copy serverName timestamp src destBase hasError
    end
  else ret hasError.

Definition Backup (serverName : string) : Comp (Sys W) (option error) :=
  cfg <- Get ;;
  match Servers cfg !! serverName with
  | None => ret (Some (Errorf "server %s not found in config or not managed by docker" [serverName]))
  | Some serverCfg =>
      now <- time_Now ;;
      let timestamp := FormatStamp now in
      r <- dk_Inspect serverName ;;
      let isRunning := match r with inr inspect => Running inspect | inl _ => false end in
      hasError <- for_fold (backup_step serverName timestamp isRunning) (Config.Backup (Commands serverCfg)) false ;;
      if hasError : bool then
        ret (Some (Errorf_w "backup failed partially: %w" [] (ErrNew "one or more backup steps failed")))
      else
        Logf "Internal" "Container" "バックアップが完了しました: %s" [serverName] ;;
        ret None
  end.

(** * Backup generations *)

(** [seen] and [generations]: the names met, in the order met. *)
Definition add_generation (entry : DirEntry) (acc : gset string * list string) : gset string * list string :=
  let '(seen, generations) := acc in
  if decide (EntryName entry = "latest") then acc
  else if negb (EntryIsDir entry) then acc
  else if decide (EntryName entry ∈ seen) then acc
  else ({[EntryName entry]} ∪ seen, generations ++ [EntryName entry]).

Definition list_step (cmd : CmdConfig) (acc : gset string * list string)
    : Comp (Sys W) (gset string * list string) :=
  if decide (CmdType cmd ≠ "backup") then ret acc
  else match backup_parts (Arg cmd) with
       | None => ret acc
       | Some (_, destBase) =>
           r <- os_ReadDir destBase ;;
           match r with
           | inl _ => ret acc
           | inr entries => ret (foldl (λ acc e, add_generation e acc) acc entries)
           end
       end.

Definition ListBackupGenerations (serverName : string) : Comp (Sys W) (result (list string)) :=
  cfg <- Get ;;
  match Servers cfg !! serverName with
  | None => ret (inl (Errorf "server %s not found in config" [serverName]))
  | Some serverCfg =>
      acc <- for_fold list_step (Config.Backup (Commands serverCfg)) (∅, []) ;;
      ret (inr (sort_reverse acc.2))
  end.

(** * Restore *)

Definition restore_step (serverName generation : string) (cmd : CmdConfig) (hasError : bool)
    : Comp (Sys W) bool :=
  if decide (CmdType cmd ≠ "backup") then ret hasError
  else match backup_parts (Arg cmd) with
       | None => ret hasError
       | Some (src, destBase) =>
           let restoreSrc := JoinPath [destBase; generation] in
           st <- os_Stat restoreSrc ;;
           match st with
           | inl _ =>
               Logf "Internal" "Container" "%s: 復元対象のバックアップが見つかりません: %s" [serverName; restoreSrc] ;;
               ret hasError
           | inr _ =>
               out <- exec_Run "rsync" ["-avh"; "--delete"; restoreSrc +:+ "/"; src] ;;
               match out.2 with
               | Some err =>
                   Logf "Internal" "Container" "%s: 復元失敗: %v, output: %s" [serverName; show_error err; out.1] ;;
                   ret true
               | None => ret hasError
               end
           end
       end.

Definition Restore (serverName generation : string) : Comp (Sys W) (option error) :=
  if decide (generation = "") then ret (Some (Errorf "generation is required for restore" []))
  else
    cfg <- Get ;;
    match Servers cfg !! serverName with
    | None => ret (Some (Errorf "server %s not found in config" [serverName]))
    | Some serverCfg =>
        r <- dk_Inspect serverName ;;
        let isRunning := match r with inr inspect => Running inspect | inl _ => false end in
        if isRunning : bool then
          ret (Some (Errorf "container is running. please stop it before restore" []))
        else
          hasError <- for_fold (restore_step serverName generation) (Config.Backup (Commands serverCfg)) false ;;
          if hasError : bool then ret (Some (Errorf "restore failed partially" []))
          else
            Logf "Internal" "Container" "世代 %s からの復元が完了しました: %s" [generation; serverName] ;;
            ret None
    end.

(** * Remove *)

Definition Remove (serverName : string) : Comp (Sys W) (option error) :=
  r <- dk_Inspect serverName ;;
  match r with
  | inr inspect =>
      if Running inspect then
        ret (Some (Errorf "container is running. please stop/kill it before remove" []))
      else
        err <- dk_Remove serverName ;;
        match err with
        | Some err =>
            Logf "Internal" "Container" "コンテナ削除失敗(%s): %v" [serverName; show_error err] ;;
            ret (Some (Errorf_w "failed to remove container: %w" [] err))
        | None =>
            Logf "Internal" "Container" "コンテナを削除しました: %s" [serverName] ;;
            ret None
        end
  | inl err =>
      if IsNotFound err then ret None
      else
        Logf "Internal" "Container" "コンテナ状態確認失敗(%s): %v" [serverName; show_error err] ;;
        ret (Some (Errorf_w "failed to check container state: %w" [] err))
  end.

(** * ExecuteAction *)

Definition ExecuteAction (serverName : string) (action : Action) : Comp (Sys W) (option error) :=
  if decide (action = ActionStart) then Start serverName
  else if decide (action = ActionStop) then Stop serverName
  else if decide (action = ActionKill) then Kill serverName
  else if decide (action = ActionBackup) then Backup serverName
  else if decide (action = ActionRestore) then
    ret (Some (Errorf "restore requires a generation parameter. use dedicated restore handler" []))
  else if decide (action = ActionRemove) then Remove serverName
  else ret (Some (Errorf_w "unknown action: %w" [] (ErrNew action))).

(** ** Every operation only adds to the record *)

Lemma Get_appends : emits (W := W) (λ _, True) Get.
Proof. by apply Get_emits. Qed.
Lemma SendCommand_appends id command : emits (W := W) (λ _, True) (SendCommand id command).
Proof. by apply SendCommand_emits. Qed.
Lemma SendExec_appends id cmd : emits (W := W) (λ _, True) (SendExec id cmd).
Proof. by apply SendExec_emits. Qed.

Hint Resolve Get_appends SendCommand_appends SendExec_appends : emits.

Lemma ListBackupGenerations_appends name : emits (W := W) (λ _, True) (ListBackupGenerations name).
Proof. unfold ListBackupGenerations, list_step. solve_emits. Qed.

Lemma Restore_appends name generation : emits (W := W) (λ _, True) (Restore name generation).
Proof. unfold Restore, restore_step. solve_emits. Qed.

Lemma ExecuteAction_appends name action : emits (W := W) (λ _, True) (ExecuteAction name action).
Proof.
  unfold ExecuteAction, Start, create_and_start, Stop, stop_step, Kill, Backup, backup_step, backup_copy,
    Remove. solve_emits.
Qed.
End Manager.

(** ** With a client no operation panics *)

Section Made.
Context {W : Type} `{!DockerClient W, !OS W, !MapRange W}.

Lemma Start_finishes name : finishes (Start name).
Proof. unfold Start, create_and_start. solve_finishes. Qed.

Lemma Stop_finishes name : finishes (Stop name).
Proof. unfold Stop, stop_step. solve_finishes. Qed.

Lemma Kill_finishes name : finishes (Kill name).
Proof. unfold Kill. solve_finishes. Qed.

Lemma Backup_finishes name : finishes (Backup name).
Proof. unfold Backup, backup_step, backup_copy. solve_finishes. Qed.

Lemma ListBackupGenerations_finishes name : finishes (ListBackupGenerations name).
Proof. unfold ListBackupGenerations, list_step. solve_finishes. Qed.

Lemma Restore_finishes name generation : finishes (Restore name generation).
Proof. unfold Restore, restore_step. solve_finishes. Qed.

Lemma Remove_finishes name : finishes (Remove name).
Proof. unfold Remove. solve_finishes. Qed.

Lemma ExecuteAction_finishes name action : finishes (ExecuteAction name action).
Proof.
  unfold ExecuteAction. repeat case_decide;
    auto using Start_finishes, Stop_finishes, Kill_finishes, Backup_finishes, Remove_finishes with finishes.
Qed.
End Made.
End Manager.

#[export] Hint Resolve Manager.Start_finishes Manager.Stop_finishes Manager.Kill_finishes
  Manager.Backup_finishes Manager.ListBackupGenerations_finishes Manager.Restore_finishes
  Manager.Remove_finishes Manager.ExecuteAction_finishes : finishes.
#[export] Hint Resolve Manager.Get_appends Manager.SendCommand_appends Manager.SendExec_appends
  Manager.ListBackupGenerations_appends Manager.Restore_appends Manager.ExecuteAction_appends : emits.
