(* ===== verification/ContainerSpec.v ===== *)
(** What the operations of [Manager] do, whatever the Docker engine and the
    operating system answer: the calls they make, in which order, and the result. *)

From S2P Require Import Prelude GoStrings GoPath GoTime Config World ConfigLoad Docker Container.

(** * Calls that change containers, as they appear in a record *)

(** The calls of a record but for the log lines and the reading of the
    configuration. *)
Abbreviation loud := (List.filter (λ e, negb (quiet e))).

Lemma quiet_loud t : Forall (λ e, quiet e = true) t → loud t = [].
Proof. induction 1 as [|e t He _ IH]; [done|]. simpl. by rewrite He, IH. Qed.

(** The process an [exec] step runs. *)
Definition step_exec (cmd : CmdConfig) : ExecOptions :=
  mkExecOptions false false true true [] ["/bin/sh"; "-c"; Arg cmd].

(** What one configured step of a stop sequence does, whatever is answered: the
    text goes to the standard input of the container, or the process is created,
    started and read to its end, or the time is slept. *)
Inductive step_calls (name : string) (cmd : CmdConfig) : list Event → Prop :=
| attach_refused err :
    CmdType cmd = "attach" → step_calls name cmd [EvAttach name (inl err)]
| attach_sent conn err :
    CmdType cmd = "attach" →
    step_calls name cmd [EvAttach name (inr conn); EvWrite conn (Arg cmd) err; EvClose conn]
| exec_not_created err :
    CmdType cmd = "exec" → step_calls name cmd [EvExecCreate name (step_exec cmd) (inl err)]
| exec_not_started exec err :
    CmdType cmd = "exec" →
    step_calls name cmd [EvExecCreate name (step_exec cmd) (inr exec); EvExecAttach exec (inl err)]
| exec_ran exec conn code :
    CmdType cmd = "exec" →
    step_calls name cmd [EvExecCreate name (step_exec cmd) (inr exec); EvExecAttach exec (inr conn);
                         EvDrain conn; EvExecInspect exec code; EvClose conn]
| step_slept d :
    CmdType cmd = "sleep" → ParseDuration (Arg cmd) = Some d → step_calls name cmd [EvSleep d]
| no_duration :
    CmdType cmd = "sleep" → ParseDuration (Arg cmd) = None → step_calls name cmd []
| other_step :
    CmdType cmd ∉ ["attach"; "exec"; "sleep"] → step_calls name cmd [].

(** The record of one step; a [log] step writes its line. *)
Definition step_record (name : string) (cmd : CmdConfig) (t : list Event) : Prop :=
  step_calls name cmd (loud t) ∧
  (CmdType cmd = "log" → ∃ now, t = [EvNow now;
     EvPrint (log_line now "Internal" "Container" (Sprintf "[%s] %s" [name; Arg cmd]))]).

(** The calls of a record that change a container. *)
Abbreviation changes := (List.filter engine_change).

Lemma quiet_engine t : Forall (λ e, quiet e = true) t → changes t = [].
Proof. induction 1 as [|e t He _ IH]; [done|]. simpl. rewrite IH. by destruct e. Qed.

(** Collects the pieces of a record that end in the read-only tails of log lines. *)
Ltac record_simpl :=
  rewrite <- ?(assoc_L (++)); rewrite ?List.filter_app; simpl;
  repeat match goal with
  | H : Forall (λ e, quiet e = true) ?t |- _ =>
      rewrite ?(quiet_loud t H), ?(quiet_engine t H); clear H
  end.

Section ContainerSpec.
Context {W : Type} `{!DockerClient W, !OS W, !MapRange W}.
Implicit Types s : Sys W.
Import Manager.

(** ** Stop *)

Lemma stop_step_run name cmd s :
  wp (stop_step name cmd)
     (λ o s', o = Done tt ∧ ∃ t, events s' = events s ++ t ∧ step_record name cmd t) s.
Proof.
  unfold stop_step, step_record, SendCommand, SendExec.
  destruct (decide (CmdType cmd = "log")) as [El|El].
  { do 2 (case_decide; [congruence|]). unfold Log.
    repeat wp_step. split; [done|]. rewrite <- (assoc_L (++)). eexists. split; [reflexivity|].
    split; [|by eexists]. apply other_step. rewrite El. decided. }
  repeat wp_step; (split; [done|]); rewrite <- ?(assoc_L (++));
    first [eexists; split; [reflexivity|] | exists []; split; [symmetry; apply app_nil_r|]];
    (split; [|done]); record_simpl; try (by econstructor).
  apply other_step. rewrite !not_elem_of_cons. split_and!; try done. apply not_elem_of_nil.
Qed.

Lemma stop_steps_run name cmds s :
  wp (for_each (stop_step name) cmds)
     (λ o s', o = Done tt ∧ ∃ parts, events s' = events s ++ concat parts ∧
        Forall2 (step_record name) cmds parts) s.
Proof.
  revert s. induction cmds as [|c cmds IH]; intros s; simpl.
  - apply wp_ret. split; [done|]. exists []. rewrite app_nil_r. by split; [|constructor].
  - apply wp_bind. eapply wp_mono; [apply stop_step_run|].
    intros o s1 (-> & t1 & H1 & A1). eapply wp_mono; [apply IH|].
    intros o s2 (-> & parts & H2 & A2). split; [done|]. exists (t1 :: parts).
    rewrite H2, H1, <- (assoc_L (++)). by split; [|constructor].
Qed.

(** The stop sequence of a server under a configuration. *)
Definition stop_sequence (cfg : Config) (name : string) : list CmdConfig :=
  match Servers cfg !! name with
  | Some srv => default [] (Config.Stop (Commands srv))
  | None => []
  end.

(** C4: stopping a server carries out every step of its configured sequence, in
    order and whichever of them fail: the text of an attach step is written to
    the standard input of the container, an exec step is created, started and
    waited for, a sleep step slept.  Then the engine is asked once to stop the
    container, and stopping succeeds exactly when it does. *)
Theorem Stop_sequence name s :
  ∃ o s', Stop name s = (Done o, s') ∧ ∃ t0 parts t1 err,
    events s' = events s ++ t0 ++ concat parts ++ t1 ∧
    loud t0 = [] ∧
    Forall2 (step_record name) (stop_sequence (cfg_Config (get_outcome s)) name) parts ∧
    loud t1 = [EvStop name None err] ∧ (o = None ↔ err = None).
Proof.
  apply wp_exists. unfold Stop, stop_sequence. wp_step. apply wp_Get_outcome. intros w t0 Ht0.
  destruct (Servers _ !! name) as [srv|] eqn:Hsrv.
  - wp_step. eapply wp_mono; [apply stop_steps_run|]. intros o s1 (-> & parts & H1 & A1).
    repeat wp_step; rewrite H1; cbn [events]; (eexists; split; [reflexivity|]);
      exists t0, parts; do 2 eexists; (split; [by rewrite <- !(assoc_L (++))|]);
      (split; [by apply quiet_loud|]); (split; [done|]); record_simpl; done.
  - repeat wp_step. eexists. split; [reflexivity|]. exists t0, []. do 2 eexists.
    split; [by rewrite <- !(assoc_L (++))|]. split; [by apply quiet_loud|]. split; [constructor|].
    record_simpl. done.
Qed.

(** ** Start, Kill, Remove *)

(** A configured server with an image: what [Start] can bring up. *)
Definition startable (cfg : Config) (name : string) : Prop :=
  ∃ srv compose, Servers cfg !! name = Some srv ∧ Compose srv = Some compose ∧ Image compose ≠ "".

(** The changes a run of [Start] makes to containers, and its result. *)
Inductive start_changes (name : string) : list Event → option error → Prop :=
| start_nothing o : start_changes name [] o
| start_create_failed c h err o :
    o ≠ None → start_changes name [EvCreate name c h (Some err)] o
| start_created c h err o :
    (o = None ↔ err = None) → start_changes name [EvCreate name c h None; EvStart name err] o.

Lemma create_and_start_run name compose s :
  wp (create_and_start name compose)
     (λ o s', ∃ r, o = Done r ∧ ∃ t, events s' = events s ++ t ∧
        changes t ≠ [] ∧
        start_changes name (changes t) r) s.
Proof.
  unfold create_and_start. wp_step. apply wp_range. intros mounts w _ _.
  wp_step. case_decide; repeat (wp_step || (apply wp_range; intros ? ? _ _));
    rewrite <- ?(assoc_L (++)); eexists; (split; [reflexivity|]); eexists;
    (split; [reflexivity|]); record_simpl; (split; [done|]); by constructor.
Qed.

(** C5: [Start] never touches an existing container: it changes something only
    for a configured image, after an inspect that found no such container, and
    then creates and starts it, reporting success exactly when both
    succeed; a startable server is never passed over in silence. *)
Theorem Start_spec name s :
  ∃ o s', Start name s = (Done o, s') ∧ ∃ t,
    events s' = events s ++ t ∧
    start_changes name (changes t) o ∧
    (changes t ≠ [] →
       startable (cfg_Config (get_outcome s)) name ∧
       ∃ err, EvInspect name (inl err) ∈ t ∧ IsNotFound err = true) ∧
    (startable (cfg_Config (get_outcome s)) name → o = None →
       changes t ≠ []).
Proof.
  apply wp_exists. unfold Start, startable. wp_step. apply wp_Get_outcome. intros w t0 Ht0.
  destruct (Servers _ !! name) as [srv|] eqn:Hsrv.
  2: { repeat wp_step. eexists. split; [reflexivity|]. exists t0. split; [reflexivity|].
       record_simpl. split_and!; [constructor|done|intros (?&?&?&?&?); congruence]. }
  destruct (Compose srv) as [compose|] eqn:Hc.
  2: { repeat wp_step. eexists. split; [reflexivity|]. exists t0. split; [reflexivity|].
       record_simpl. split_and!; [constructor|done|intros (?&?&?&?&?); congruence]. }
  case_decide as Him.
  { repeat wp_step. eexists. split; [reflexivity|]. exists t0. split; [reflexivity|].
    record_simpl. split_and!; [constructor|done|intros (?&?&?&?&?); congruence]. }
  wp_step. wp_step. wp_step. destruct a as [err|ins].
  - destruct (IsNotFound err) eqn:Hnf; simpl negb; cbv iota.
    + eapply wp_mono; [apply create_and_start_run|]. simpl.
      intros o s1 (r & -> & t & Ht & Hne & Hch). exists r. split; [done|].
      rewrite Ht, <- !(assoc_L (++)). eexists. split; [reflexivity|]. record_simpl. simpl.
      split_and!; try done. intros _. split; [by eauto 6|]. exists err. split; [in_record|done].
    + repeat wp_step. rewrite <- !(assoc_L (++)). eexists. split; [reflexivity|].
      eexists. split; [reflexivity|]. record_simpl. split_and!; [constructor|done|done].
  - repeat wp_step; rewrite <- !(assoc_L (++)); eexists; (split; [reflexivity|]);
      eexists; (split; [reflexivity|]); record_simpl; (split_and!; [constructor|done|done]).
Qed.

(** [Kill] first asks the engine to stop the container within 30 seconds,
    sends SIGKILL exactly when that fails, and reports the outcome of the last
    call it made. *)
Theorem Kill_spec name s :
  ∃ o s', Kill name s = (Done o, s') ∧ ∃ t,
    events s' = events s ++ t ∧
    ((changes t = [EvStop name (Some 30%Z) None] ∧ o = None) ∨
     ∃ err err', changes t =
         [EvStop name (Some 30%Z) (Some err); EvKill name "SIGKILL" err'] ∧
       (o = None ↔ err' = None)).
Proof.
  apply wp_exists. unfold Kill.
  repeat wp_step; rewrite <- ?(assoc_L (++)); eexists; (split; [reflexivity|]); eexists;
    (split; [reflexivity|]); record_simpl; simpl; eauto 10.
  right. do 2 eexists. split; [reflexivity|done].
Qed.

(** [Remove] asks the engine to remove a container only after an inspect
    that showed it is not running; it succeeds without doing anything when the
    container does not exist, and otherwise reports what the engine answers. *)
Theorem Remove_spec name s :
  ∃ o s', Remove name s = (Done o, s') ∧ ∃ t r,
    events s' = events s ++ t ∧ EvInspect name r ∈ t ∧
    match r with
    | inr ins =>
        if Running ins then changes t = [] ∧ o ≠ None
        else ∃ err, changes t = [EvRemove name err] ∧ (o = None ↔ err = None)
    | inl err =>
        changes t = [] ∧ (o = None ↔ IsNotFound err = true)
    end.
Proof.
  apply wp_exists. unfold Remove.
  repeat wp_step; rewrite <- ?(assoc_L (++)); eexists; (split; [reflexivity|]);
    eexists _, _; (split; [reflexivity|]); (split; [in_record|]); simpl;
    repeat match goal with H : _ = true |- _ => rewrite H | H : _ = false |- _ => rewrite H end;
    record_simpl; simpl;
    first [done | split; [done|split; congruence] | eexists; split; [reflexivity|split; congruence]].
Qed.
End ContainerSpec.
