(* ===== verification/LifeCycle.v ===== *)
(** The life cycle of containers.  [Engine] is the interface the manager relies
    on: which containers exist, which were started, and which calls change that.
    The operations of [Manager] are shown to refine the transition relation
    [life_step], and a run of any number of actions to keep every container nobody
    removed. *)

From S2P Require Import Prelude GoStrings GoPath GoTime Config World TestBed ConfigLoad Docker Container ContainerSpec.

(** * The interface *)

(** What the manager can rely on: the names of the containers that exist, those
    among them the engine removes by itself when they end (created elsewhere with
    --rm), and those that have been started. *)
Record Fleet := mkFleet { existing : gset string; passing : gset string; started : gset string }.

(** What may become of a container while nobody creates or removes it. *)
Definition drift_at (n : string) (F F' : Fleet) : Prop :=
  (n ∈ existing F' → n ∈ existing F) ∧ (n ∈ passing F' → n ∈ passing F) ∧
  (n ∈ existing F → n ∉ passing F → n ∈ existing F') ∧
  (n ∈ started F → n ∈ existing F' → n ∈ started F').

Definition drift (F F' : Fleet) : Prop := ∀ n, drift_at n F F'.

(** All but one container drift. *)
Definition others (name : string) (F F' : Fleet) : Prop := ∀ n, n ≠ name → drift_at n F F'.

#[export] Instance drift_preorder : PreOrder drift.
Proof.
  split; [intros F n; unfold drift_at; tauto|]. intros F1 F2 F3 H1 H2 n.
  specialize (H1 n). specialize (H2 n). unfold drift_at in *. tauto.
Qed.

Lemma others_drift name F F1 F2 : others name F F1 → drift F1 F2 → others name F F2.
Proof.
  intros H1 H2 n Hn. specialize (H1 n Hn). specialize (H2 n). unfold drift_at in *. tauto.
Qed.

Lemma drift_others name F F1 F2 : drift F F1 → others name F1 F2 → others name F F2.
Proof.
  intros H1 H2 n Hn. specialize (H2 n Hn). specialize (H1 n). unfold drift_at in *. tauto.
Qed.

(** The engine, as long as nobody else creates or removes containers: a creation
    and a removal that succeed do what they say, a start that succeeds has started
    the container, an inspect tells whether a name exists, and under every other
    call the containers drift.  (References are names here, not prefixes of
    identifiers; the containers the program creates are not removed by the engine
    when they end, since it never asks for that.) *)
Class Engine (W : Type) `{!DockerClient W, !OS W, !MapRange W} := {
  fleet : W → Fleet;
  inspect_fleet id w :
    drift (fleet w) (fleet (ContainerInspect id w).2) ∧
    match (ContainerInspect id w).1 with
    | inr _ => id ∈ existing (fleet w)
    | inl err => IsNotFound err = true → id ∉ existing (fleet w)
    end;
  create_fleet name c h w :
    match ContainerCreate name c h w with
    | (None, w') => others name (fleet w) (fleet w') ∧ name ∈ existing (fleet w') ∧ name ∉ passing (fleet w')
    | (Some _, w') => drift (fleet w) (fleet w')
    end;
  remove_fleet id w :
    match ContainerRemove id w with
    | (None, w') => id ∈ existing (fleet w) ∧ others id (fleet w) (fleet w') ∧ id ∉ existing (fleet w')
    | (Some _, w') => drift (fleet w) (fleet w')
    end;
  start_fleet id w :
    drift (fleet w) (fleet (ContainerStart id w).2) ∧
    ((ContainerStart id w).1 = None → id ∈ started (fleet (ContainerStart id w).2));
  stop_fleet id timeout w : drift (fleet w) (fleet (ContainerStop id timeout w).2);
  kill_fleet id signal w : drift (fleet w) (fleet (ContainerKill id signal w).2);
  attach_fleet id w : drift (fleet w) (fleet (ContainerAttach id w).2);
  write_fleet c data w : drift (fleet w) (fleet (ConnWrite c data w).2);
  close_fleet c w : drift (fleet w) (fleet (ConnClose c w));
  drain_fleet c w : drift (fleet w) (fleet (ConnDrain c w));
  exec_create_fleet id o w : drift (fleet w) (fleet (ContainerExecCreate id o w).2);
  exec_attach_fleet x tty w : drift (fleet w) (fleet (ContainerExecAttach x tty w).2);
  exec_inspect_fleet x w : drift (fleet w) (fleet (ContainerExecInspect x w).2);
  stat_fleet path w : drift (fleet w) (fleet (World.Stat path w).2);
  open_fleet path w : drift (fleet w) (fleet (Open path w).2);
  file_stat_fleet f w : drift (fleet w) (fleet (FileStat f w).2);
  file_close_fleet f w : drift (fleet w) (fleet (FileClose f w));
  decode_fleet f w : drift (fleet w) (fleet (DecodeConfig f w).2);
  read_dir_fleet path w : drift (fleet w) (fleet (ReadDir path w).2);
  mkdir_fleet path perm w : drift (fleet w) (fleet (MkdirAll path perm w).2);
  remove_file_fleet path w : drift (fleet w) (fleet (RemoveFile path w).2);
  symlink_fleet a b w : drift (fleet w) (fleet (Symlink a b w).2);
  run_fleet cmd args w : drift (fleet w) (fleet (RunCommand cmd args w).2);
  now_fleet w : drift (fleet w) (fleet (Now w).2);
  sleep_fleet d w : drift (fleet w) (fleet (Sleep d w));
  printf_fleet l w : drift (fleet w) (fleet (Printf l w));
  range_fleet {V} (m : gmap string V) w : drift (fleet w) (fleet (map_range m w).2);
}.

(** * Computations under which every container drifts *)

Section Drifts.
Context {W : Type} `{!DockerClient W, !OS W, !MapRange W, !Engine W}.

Definition drifts (w w' : W) : Prop := drift (fleet w) (fleet w').

#[export] Instance drifts_preorder : PreOrder drifts.
Proof. split; [intros w; unfold drifts; reflexivity|]. intros w1 w2 w3 H1 H2. unfold drifts in *. by etrans. Qed.

Lemma inspect_drifts id w : drift (fleet w) (fleet (ContainerInspect id w).2).
Proof. by destruct (inspect_fleet id w). Qed.

Lemma start_drifts id w : drift (fleet w) (fleet (ContainerStart id w).2).
Proof. by destruct (start_fleet id w). Qed.
End Drifts.

Abbreviation keeps := (moves drifts).

#[export] Hint Unfold drifts : moves.
#[export] Hint Extern 1 (drifts _ _) => red : moves.
#[export] Hint Resolve range_fleet inspect_drifts start_drifts
  stop_fleet kill_fleet attach_fleet write_fleet close_fleet drain_fleet
  exec_create_fleet exec_attach_fleet exec_inspect_fleet stat_fleet open_fleet
  file_stat_fleet file_close_fleet decode_fleet read_dir_fleet mkdir_fleet
  remove_file_fleet symlink_fleet run_fleet now_fleet sleep_fleet printf_fleet : moves.

Section KeepingOperations.
Context {W : Type} `{!DockerClient W, !OS W, !MapRange W, !Engine W}.
Import Manager.

Lemma keeps_Get : keeps (Get : Comp (Sys W) _).
Proof. unfold Get, Reload, reload_from, store_Config, store_LastLoaded. solve_moves. Qed.

Lemma keeps_SendCommand id command : keeps (SendCommand id command : Comp (Sys W) _).
Proof. unfold SendCommand. solve_moves. Qed.

Lemma keeps_SendExec id cmd : keeps (SendExec id cmd : Comp (Sys W) _).
Proof. unfold SendExec. solve_moves. Qed.

Hint Resolve keeps_Get keeps_SendCommand keeps_SendExec : moves.

Lemma keeps_Stop name : keeps (Stop name : Comp (Sys W) _).
Proof. unfold Stop, stop_step. solve_moves. Qed.

Lemma keeps_Kill name : keeps (Kill name : Comp (Sys W) _).
Proof. unfold Kill. solve_moves. Qed.

Lemma keeps_Backup name : keeps (Backup name : Comp (Sys W) _).
Proof. unfold Backup, backup_step, backup_copy. solve_moves. Qed.

Lemma keeps_Restore name generation : keeps (Restore name generation : Comp (Sys W) _).
Proof. unfold Restore, restore_step. solve_moves. Qed.
End KeepingOperations.

(** * The specification *)

(** The actions the manager knows, but for the restore, which has its own entry. *)
Definition known_action (action : Action) : Prop :=
  action ∈ [ActionStart; ActionStop; ActionKill; ActionBackup; ActionRemove].

(** No container of this name exists, or it is one the engine removes by itself. *)
Definition absent (name : string) (F : Fleet) : Prop := name ∈ existing F → name ∈ passing F.

Lemma absent_drift name F F' : drift F F' → name ∉ existing F' → absent name F.
Proof.
  intros Hd Hn Hin. destruct (decide (name ∈ passing F)) as [|Hp]; [done|]. exfalso.
  specialize (Hd name). unfold drift_at in Hd. by apply Hn, Hd.
Qed.

(** What an action may do to the containers, and what it reports.  [startable] is
    said of the configuration in force. *)
Inductive life_step (cfg : Config) (name : string) : Action → Fleet → option error → Fleet → Prop :=
| life_started F F' :
    startable cfg name → absent name F → others name F F' →
    name ∈ existing F' → name ∉ passing F' → name ∈ started F' →
    life_step cfg name ActionStart F None F'
| life_created_only F F' err :
    startable cfg name → absent name F → others name F F' →
    name ∈ existing F' → name ∉ passing F' →
    life_step cfg name ActionStart F (Some err) F'
| life_not_managed F F' :
    ¬ startable cfg name → drift F F' → life_step cfg name ActionStart F None F'
| life_start_refused F F' err :
    startable cfg name → drift F F' → life_step cfg name ActionStart F (Some err) F'
| life_removed F F' :
    name ∈ existing F → others name F F' → name ∉ existing F' →
    life_step cfg name ActionRemove F None F'
| life_nothing_to_remove F F' :
    absent name F → drift F F' → life_step cfg name ActionRemove F None F'
| life_remove_refused F F' err :
    drift F F' → life_step cfg name ActionRemove F (Some err) F'
| life_other F F' action o :
    action ∈ [ActionStop; ActionKill; ActionBackup] → drift F F' → life_step cfg name action F o F'
| life_unknown F F' action err :
    ¬ known_action action → drift F F' → life_step cfg name action F (Some err) F'.

Section Refinement.
Context {W : Type} `{!DockerClient W, !OS W, !MapRange W, !Engine W}.
Implicit Types s : Sys W.
Import Manager.

(** The containers in the state of a run. *)
Definition fleet_of s : Fleet := fleet (world s).

(** Continuing after a computation under which every container drifts. *)
Lemma wp_keeps {A} (m : Comp (Sys W) A) Q s :
  keeps m → finishes m →
  (∀ a s', drift (fleet_of s) (fleet_of s') → Q (Done a) s') → wp m Q s.
Proof. intros Hk Hf HQ. eapply wp_moves; [done..|]. intros a s' _. apply HQ. Qed.

Lemma wp_Get_life Q s :
  (∀ s', drift (fleet_of s) (fleet_of s') → Q (Done (cfg_Config (get_outcome s))) s') →
  wp Get Q s.
Proof.
  intros HQ. apply wp_intro. intros o s' E. pose proof (keeps_Get s) as Hk. rewrite E in Hk.
  destruct (Get_inv _ _ _ E) as [-> Hl]. rewrite Hl. by apply HQ.
Qed.

Lemma wp_Log_life level service msg Q s :
  (∀ s', drift (fleet_of s) (fleet_of s') → Q (Done tt) s') →
  wp (Log level service msg) Q s.
Proof. intros HQ. apply wp_keeps; [solve_moves|unfold Log; solve_finishes|]. by intros []. Qed.

Lemma wp_Inspect_life id Q s :
  (∀ r s', drift (fleet_of s) (fleet_of s') →
     match r with
     | inr _ => id ∈ existing (fleet_of s)
     | inl err => IsNotFound err = true → id ∉ existing (fleet_of s)
     end → Q (Done r) s') →
  wp (dk_Inspect id) Q s.
Proof.
  intros HQ. apply wp_call. intros r w E. destruct (inspect_fleet id (world s)) as [H1 H2].
  rewrite E in H1, H2. by apply HQ.
Qed.

(** A result that is reported after a log line. *)
Lemma wp_Log_report {P : option error → Sys W → Prop} level service msg (r : option error) s :
  (∀ s', drift (fleet_of s) (fleet_of s') → P r s') →
  wp (Log level service msg ;; ret r) (λ o s', ∃ r, o = Done r ∧ P r s') s.
Proof. intros HP. apply wp_bind, wp_Log_life. intros s' Hs'. apply wp_ret. eauto. Qed.

Lemma Remove_life cfg name s :
  wp (Remove name) (λ o s', ∃ r, o = Done r ∧
    life_step cfg name ActionRemove (fleet_of s) r (fleet_of s')) s.
Proof.
  unfold Remove. wp_step. apply wp_Inspect_life. intros [err|ins] s1 H1 Hr.
  - destruct (IsNotFound err) eqn:Hn.
    + wp_step. exists None. split; [done|]. constructor; [|done]. unfold absent. intros Hin. by destruct (Hr eq_refl).
    + apply wp_Log_report. intros s2 H2. constructor. by etrans.
  - destruct (Running ins); [wp_step; eexists; split; [done|]; by constructor|].
    apply wp_bind, wp_call. intros a w E. pose proof (remove_fleet name (world s1)) as Hrm.
    rewrite E in Hrm. destruct a as [err|]; apply wp_Log_report; intros s2 H2.
    + constructor. etrans; [exact H1|]. by etrans.
    + destruct Hrm as (_ & Ho & Hgone). apply life_removed; [done| |].
      * eapply others_drift; [|exact H2]. eapply drift_others; [exact H1|done].
      * intros Hin. by apply Hgone, (H2 name).
Qed.

Lemma create_and_start_life cfg name compose s0 s :
  startable cfg name → drift (fleet_of s0) (fleet_of s) → absent name (fleet_of s0) →
  wp (create_and_start name compose) (λ o s', ∃ r, o = Done r ∧
    life_step cfg name ActionStart (fleet_of s0) r (fleet_of s')) s.
Proof.
  intros Hs H0 Hn. unfold create_and_start. apply wp_bind, wp_keeps; [solve_moves|solve_finishes|].
  intros mounts s1 H1. apply wp_bind, wp_keeps; [solve_moves|solve_finishes|].
  intros ch s2 H2. apply wp_bind, wp_call. intros a w E.
  pose proof (create_fleet name ch.1 ch.2 (world s2)) as Hc. rewrite E in Hc.
  assert (drift (fleet_of s0) (fleet_of s2)) as H02 by (etrans; [exact H0|]; by etrans).
  destruct a as [err|].
  - apply wp_Log_report. intros s3 H3. apply life_start_refused; [done|]. etrans; [exact H02|].
    etrans; [exact Hc|exact H3].
  - destruct Hc as (Ho & Hin & Hp). apply wp_bind, wp_call.
    intros b w' E'. pose proof (start_fleet name w) as [Hst Hok]. simpl in E'. rewrite E' in Hst, Hok.
    simpl in Hst, Hok.
    assert (∀ s3, drift (fleet w') (fleet_of s3) →
      others name (fleet_of s0) (fleet_of s3) ∧ name ∈ existing (fleet_of s3) ∧ name ∉ passing (fleet_of s3)) as Hall.
    { intros s3 H3. assert (drift (fleet w) (fleet_of s3)) as Hd by by etrans.
      split; [|specialize (Hd name); unfold drift_at in Hd; tauto].
      eapply drift_others; [exact H02|]. by eapply others_drift. }
    destruct b as [err|]; apply wp_Log_report; intros s3 H3; destruct (Hall s3 H3) as (? & ? & ?).
    + by apply life_created_only.
    + apply life_started; try done. specialize (H3 name). specialize (Hok eq_refl).
      unfold drift_at in H3. by apply H3.
Qed.

Lemma Start_life name s :
  wp (Start name) (λ o s', ∃ r, o = Done r ∧
    life_step (cfg_Config (get_outcome s)) name ActionStart (fleet_of s) r (fleet_of s')) s.
Proof.
  unfold Start. apply wp_bind, wp_Get_life. intros s1 H1.
  assert (∀ cfg, ¬ startable cfg name → wp (ret (S := Sys W) None) (λ o s', ∃ r, o = Done r ∧
    life_step cfg name ActionStart (fleet_of s) r (fleet_of s')) s1) as Hnot.
  { intros cfg Hno. apply wp_ret. eexists. split; [done|]. by constructor. }
  destruct (Servers _ !! name) as [srv|] eqn:Hsrv.
  2: { apply Hnot. intros (srv & compose & E & _). congruence. }
  destruct (Compose srv) as [compose|] eqn:Hc.
  2: { apply Hnot. intros (srv' & compose & E & E' & _). congruence. }
  case_decide as Him.
  { apply Hnot. intros (srv' & compose' & E & E' & Hne). congruence. }
  assert (startable (cfg_Config (get_outcome s)) name) as Hst by by exists srv, compose.
  apply wp_bind, wp_Inspect_life. intros [err|ins] s2 H2 Hr.
  - destruct (IsNotFound err) eqn:Hn; cbn [negb].
    + apply create_and_start_life; [done|by etrans|]. eapply absent_drift; [exact H1|]. by apply Hr.
    + apply wp_Log_report. intros s3 H3. apply life_start_refused; [done|]. etrans; [exact H1|]. by etrans.
  - repeat wp_step; eexists; (split; [done|]); (apply life_start_refused; [done|]; by etrans).
Qed.

Lemma ExecuteAction_life name action s :
  wp (ExecuteAction name action) (λ o s', ∃ r, o = Done r ∧
    life_step (cfg_Config (get_outcome s)) name action (fleet_of s) r (fleet_of s')) s.
Proof.
  unfold ExecuteAction.
  assert (∀ m : Comp (Sys W) (option error), action ∈ [ActionStop; ActionKill; ActionBackup] → keeps m → finishes m →
    wp m (λ o s', ∃ r, o = Done r ∧ life_step (cfg_Config (get_outcome s)) name action
      (fleet_of s) r (fleet_of s')) s) as Hkeep.
  { intros m Hin Hk Hf. apply wp_keeps; [done..|]. intros r s' Hd. eexists. split; [done|].
    by constructor. }
  destruct (decide (action = ActionStart)) as [->|Hst]; [apply Start_life|].
  destruct (decide (action = ActionStop)) as [->|Hsp]; [apply Hkeep; [decided|apply keeps_Stop|auto with finishes]|].
  destruct (decide (action = ActionKill)) as [->|Hki]; [apply Hkeep; [decided|apply keeps_Kill|auto with finishes]|].
  destruct (decide (action = ActionBackup)) as [->|Hba]; [apply Hkeep; [decided|apply keeps_Backup|auto with finishes]|].
  destruct (decide (action = ActionRestore)) as [->|Hre].
  { apply wp_ret. eexists. split; [done|]. apply life_unknown; [decided|reflexivity]. }
  destruct (decide (action = ActionRemove)) as [->|Hrm]; [apply Remove_life|].
  apply wp_ret. eexists. split; [done|]. apply life_unknown; [|reflexivity].
  unfold known_action. rewrite !not_elem_of_cons. split_and!; try done. apply not_elem_of_nil.
Qed.


(** ** Histories *)

(** A run of actions one after the other, as requests drive them. *)
Definition run_actions (todo : list (Action * string)) : Comp (Sys W) unit :=
  for_each (λ '(action, name), ExecuteAction name action ;; ret tt) todo.

(** A container of the program's own, which the engine does not remove by itself. *)
Definition lasting (n : string) (F : Fleet) : Prop := n ∈ existing F ∧ n ∉ passing F.

Lemma life_step_bounds cfg name action F o F' :
  life_step cfg name action F o F' →
  (∀ n, lasting n F → (action = ActionRemove → n ≠ name) → lasting n F') ∧
  (∀ n, n ∈ existing F' → n ∈ existing F ∨ action = ActionStart ∧ n = name).
Proof.
  unfold lasting, absent. intros H.
  assert (∀ n, drift_at n F F' → (n ∈ existing F ∧ n ∉ passing F → n ∈ existing F' ∧ n ∉ passing F') ∧
    (n ∈ existing F' → n ∈ existing F)) as Hat by (unfold drift_at; tauto).
  destruct H as [| | | | | | | |]; split; intros n Hn; try intros Hr.
  all: destruct (decide (n = name)) as [->|Hne];
    [|match goal with
      | Hd : drift _ _ |- _ => specialize (Hat n (Hd n))
      | Ho : others _ _ _ |- _ => specialize (Hat n (Ho n Hne)) end; tauto].
  all: try match goal with Hd : drift _ _ |- _ => specialize (Hat name (Hd name)); tauto end; try tauto.
Qed.

(** C30: over any history of actions with a Docker client, a container that the
    engine does not remove by itself survives unless its own removal is asked
    for, and a container appears only when its own start is asked for; no action
    panics. *)
Theorem containers_survive todo s :
  ∃ s', run_actions todo s = (Done tt, s') ∧
    (∀ n, lasting n (fleet_of s) → (ActionRemove, n) ∉ todo → lasting n (fleet_of s')) ∧
    (∀ n, n ∈ existing (fleet_of s') → n ∈ existing (fleet_of s) ∨ (ActionStart, n) ∈ todo).
Proof.
  revert s. induction todo as [|[action name] todo IH]; intros s.
  { exists s. split; [done|]. split; [done|]. by left. }
  destruct (wp_exists _ _ _ (ExecuteAction_life name action s)) as (o & s1 & E & Hl).
  destruct (life_step_bounds _ _ _ _ _ _ Hl) as [Hkeep Hnew]. destruct (IH s1) as (s2 & E2 & H1 & H2).
  exists s2. split; [|split].
  - unfold run_actions. simpl. rewrite bind_assoc, (bind_done _ _ _ _ _ E). exact E2.
  - intros n Hn [Hne Hnot]%not_elem_of_cons. apply H1; [|done]. apply Hkeep; [done|]. congruence.
  - intros n Hn. destruct (H2 n Hn) as [Hn1|?]; [|right; by right].
    destruct (Hnew n Hn1) as [?|[-> ->]]; [by left|right; by left].
Qed.
End Refinement.

(** Without a client the first call on the engine panics. *)
Lemma Remove_without_client {W} `{!OS W, !MapRange W} name (s : Sys W) :
  Manager.Remove (Docker0 := None) name s = (Panic nil_pointer, s).
Proof. reflexivity. Qed.

(** * The engine of the examples satisfies the interface *)

Lemma on_container_dom {A} id (f : InspectResponse → A * option InspectResponse) missing w :
  (∀ ins, is_Some (f ins).2) → dom (t_engine (on_container id f missing w).2) = dom (t_engine w).
Proof.
  intros Hf. unfold on_container. destruct (t_engine w !! id) as [ins|] eqn:E; [|done].
  specialize (Hf ins). destruct (f ins) as [a ins']. simpl. apply set_eq. intros x.
  rewrite !elem_of_dom. destruct (decide (x = id)) as [->|Hne].
  - rewrite lookup_partial_alter_eq, E. split; [by eexists|done].
  - by rewrite lookup_partial_alter_ne.
Qed.

(** Its containers all stay until they are removed; it does not remember which of
    them were never started. *)
Definition toy_fleet (w : Toy) : Fleet := mkFleet (dom (t_engine w)) ∅ (dom (t_engine w)).

Lemma toy_fleet_same w w' : dom (t_engine w') = dom (t_engine w) → drift (toy_fleet w) (toy_fleet w').
Proof. unfold toy_fleet. intros ->. reflexivity. Qed.

Lemma on_container_drift {A} id (f : InspectResponse → A * option InspectResponse) missing w :
  (∀ ins, is_Some (f ins).2) → drift (toy_fleet w) (toy_fleet (on_container id f missing w).2).
Proof. intros Hf. by apply toy_fleet_same, on_container_dom. Qed.

#[export] Instance toy_engine_laws : Engine Toy.
Proof.
  refine {| fleet := toy_fleet |}; try (intros; reflexivity);
    try (by intros; apply on_container_drift; intros; eexists).
  - intros id w. split; [apply on_container_drift; by eexists|]. simpl. unfold on_container.
    destruct (t_engine w !! id) as [ins|] eqn:E; simpl; [by apply elem_of_dom|].
    intros _. by apply not_elem_of_dom.
  - intros name c h w. simpl. destruct (t_engine w !! name) as [ins|] eqn:E; [done|].
    unfold others, drift_at. simpl. rewrite dom_insert_L. set_solver.
  - intros id w. simpl. unfold on_container. destruct (t_engine w !! id) as [ins|] eqn:E; [|done].
    unfold others, drift_at. simpl. split; [by apply elem_of_dom|].
    assert (∀ x, x ∈ dom (partial_alter (λ _, None) id (t_engine w)) ↔ x ∈ dom (t_engine w) ∧ x ≠ id) as Hd.
    { intros x. rewrite !elem_of_dom. destruct (decide (x = id)) as [->|Hne].
      - rewrite lookup_partial_alter_eq. split; [by intros [? ?]|by intros [_ ?]].
      - rewrite lookup_partial_alter_ne by done. tauto. }
    split; [|by intros [_ ?]%Hd]. intros n Hn. rewrite !Hd. tauto.
  - intros id w. split; [apply on_container_drift; by eexists|]. simpl. unfold on_container.
    destruct (t_engine w !! id) as [ins|] eqn:E; [|done]. intros _. simpl. apply elem_of_dom.
    rewrite lookup_partial_alter_eq. by eexists.
  - intros cmd args w. apply toy_fleet_same. simpl. unfold toy_run. by repeat case_match.
Defined.

(** * Witnesses *)


Lemma containers_survive_witness :
  ∃ s', run_actions [(ActionRemove, "mc1"); (ActionStart, "mc1"); (ActionStop, "mc2")] toy_sys = (Done tt, s') ∧
    lasting "mc2" (fleet_of s').
Proof.
  destruct (containers_survive [(ActionRemove, "mc1"); (ActionStart, "mc1"); (ActionStop, "mc2")] toy_sys)
    as (s' & E & H & _).
  exists s'. split; [exact E|]. apply H; [unfold lasting; split; decided|decided].
Defined.
