(* ===== verification/BackupSpec.v ===== *)
(** Backups: what [Backup] and [Restore] copy and when they report success, the
    list of generations and its order, and the restoring of a backup. *)

From S2P Require Import Prelude GoStrings GoPath GoTime Config World TestBed ConfigLoad Docker Container ContainerSpec.

(** * Copies in a record *)

(** Source and destination of an rsync run: its last two arguments. *)
Definition copy_of (e : Event) : option (string * string) :=
  match e with
  | EvRun _ args _ =>
      match reverse args with
      | dst :: src :: _ => Some (src, dst)
      | _ => None
      end
  | _ => None
  end.

(** A run of a command that failed. *)
Definition failed_run (e : Event) : bool :=
  match e with EvRun _ _ (_, Some _) => true | _ => false end.

(** What a configured step is meant to copy. *)
Definition copy_of_step (timestamp : string) (cmd : CmdConfig) : option (string * string) :=
  if decide (CmdType cmd = "backup") then
    match Manager.backup_parts (Arg cmd) with
    | Some (src, destBase) => Some (src +:+ "/", destBase +:+ "/" +:+ timestamp)
    | None => None
    end
  else None.

(** The container whose standard input a call opens. *)
Definition attach_of (e : Event) : option string := match e with EvAttach id _ => Some id | _ => None end.

(** Whether a configured step opens one, given whether the container runs. *)
Definition attach_of_step (name : string) (running : bool) (cmd : CmdConfig) : option string :=
  if running && bool_decide (CmdType cmd = "attach") then Some name else None.

(** What is written goes to the standard input that was opened, and is the line of
    an attach step. *)
Definition writes_lines (name : string) (cmds : list CmdConfig) (t : list Event) : Prop :=
  ∀ conn data err, EvWrite conn data err ∈ t →
    EvAttach name (inr conn) ∈ t ∧ ∃ cmd, cmd ∈ cmds ∧ CmdType cmd = "attach" ∧ data = Arg cmd +:+ newline.

Lemma writes_lines_app name cmds cmds' t t' :
  writes_lines name cmds t → writes_lines name cmds' t' → writes_lines name (cmds ++ cmds') (t ++ t').
Proof.
  intros H H' conn data err Hin. setoid_rewrite elem_of_app. apply elem_of_app in Hin as [Hin|Hin].
  - destruct (H _ _ _ Hin) as (? & cmd & ? & ?). eauto 10.
  - destruct (H' _ _ _ Hin) as (? & cmd & ? & ?). eauto 10.
Qed.

(** A record that only looks around writes nothing. *)
Lemma writes_lines_nothing name cmds t :
  Forall (λ e, read_only e = true) t → writes_lines name cmds t.
Proof. intros H conn data err Hin. by apply (Forall_forall _ t) with (EvWrite conn data err) in H. Qed.

Lemma quiet_copy t : Forall (λ e, quiet e = true) t → omap copy_of t = [].
Proof. apply quiet_omap. by intros []. Qed.

Lemma quiet_failed t : Forall (λ e, quiet e = true) t → existsb failed_run t = false.
Proof. induction 1 as [|e t He _ IH]; [done|]. simpl. rewrite IH. by destruct e. Qed.

Lemma quiet_attach t : Forall (λ e, quiet e = true) t → omap attach_of t = [].
Proof. apply quiet_omap. by intros []. Qed.

Lemma rsync_args_copy src current latest linked out :
  copy_of (EvRun "rsync" (Manager.rsync_args src current latest linked) out) = Some (src +:+ "/", current).
Proof. by destruct linked. Qed.

Ltac copies_simpl :=
  rewrite <- ?(assoc_L (++)); rewrite ?omap_app, ?existsb_app; simpl;
  repeat match goal with
  | H : Forall (λ e, quiet e = true) ?t |- _ =>
      rewrite ?(quiet_copy t H), ?(quiet_failed t H), ?(quiet_attach t H); clear H
  end; simpl.

Section Backup.
Context {W : Type} `{!DockerClient W, !OS W, !MapRange W}.
Implicit Types s : Sys W.
Import Manager.

(** One step of a backup. *)
Lemma backup_step_run name stamp running cmd hasError s :
  wp (backup_step name stamp running cmd hasError)
     (λ o s', ∃ b, o = Done b ∧ ∃ t, events s' = events s ++ t ∧
        omap copy_of t = option_list (copy_of_step stamp cmd) ∧
        b = hasError || existsb failed_run t ∧
        omap attach_of t = option_list (attach_of_step name running cmd) ∧
        writes_lines name [cmd] t) s.
Proof.
  unfold backup_step, copy_of_step, attach_of_step, backup_copy, SendCommand.
  destruct (decide (CmdType cmd = "attach")) as [Ea|Ea];
    [rewrite (decide_False (P := CmdType cmd = "backup")) by congruence; rewrite bool_decide_true by done|
     rewrite bool_decide_false, andb_false_r by done; destruct (decide (CmdType cmd = "sleep")) as [Es|];
       [rewrite (decide_False (P := CmdType cmd = "backup")) by congruence|]].
  all: repeat wp_step; eexists; (split; [reflexivity|]); rewrite <- ?(assoc_L (++));
    first [eexists; split; [reflexivity|] | exists []; split; [symmetry; apply app_nil_r|]];
    (split_and!; [..|intros conn data err Hin; record_cases;
                      (split; [in_record|]; exists cmd; split_and!; [by left|done|done])]);
    copies_simpl; simplify_eq/=; rewrite ?orb_false_r, ?orb_true_r; try done.
  all: try by destruct running.
  all: match goal with
    | H : RunCommand _ _ ?w = (?out, _), st : result FileInfo |- _ => destruct out as [? ?], st
    end; simplify_eq/=; rewrite ?string_app_nil_r, ?orb_true_r, ?orb_false_r; done.
Qed.

Lemma backup_steps_run name stamp running cmds s :
  wp (for_fold (backup_step name stamp running) cmds false)
     (λ o s', ∃ b, o = Done b ∧ ∃ t, events s' = events s ++ t ∧
        omap copy_of t = omap (copy_of_step stamp) cmds ∧
        b = existsb failed_run t ∧
        omap attach_of t = omap (attach_of_step name running) cmds ∧
        writes_lines name cmds t) s.
Proof.
  apply (wp_for_fold _ (λ pre b s', ∃ t, events s' = events s ++ t ∧
    omap copy_of t = omap (copy_of_step stamp) pre ∧
    b = existsb failed_run t ∧ omap attach_of t = omap (attach_of_step name running) pre ∧
    writes_lines name pre t)).
  - exists []. rewrite app_nil_r. split_and!; try done. by intros ? ? ? ?%elem_of_nil.
  - intros pre cmd post b s1 _ (t & Ht & Hc & Hb & Ha & Hw).
    eapply wp_mono; [apply backup_step_run|]. intros o s2 (b' & -> & t' & Ht' & Hc' & Hb' & Ha' & Hw').
    exists b'. split; [done|]. exists (t ++ t').
    rewrite Ht', Ht, (assoc_L (++)), !omap_snoc, !omap_app, !existsb_app, Hc, Hc', Hb', Hb, Ha, Ha'.
    split_and!; try done. by apply writes_lines_app.
Qed.

(** C6: a backup copies every configured source into the directory of one and
    the same time stamp, in order and whichever copy fails; it succeeds
    exactly when the server is configured and no copy failed.  It opens the
    standard input of the server's own container, once for every attach step when
    an inspect showed it running and not at all otherwise, and writes nothing but
    the lines of those steps there. *)
Theorem Backup_spec name s :
  ∃ o s', Backup name s = (Done o, s') ∧ ∃ t, events s' = events s ++ t ∧
    match Servers (cfg_Config (get_outcome s)) !! name with
    | None => o ≠ None ∧ omap copy_of t = [] ∧ omap attach_of t = []
    | Some srv =>
        (∃ now, EvNow now ∈ t ∧
           omap copy_of t = omap (copy_of_step (FormatStamp now)) (Config.Backup (Commands srv))) ∧
        (o = None ↔ existsb failed_run t = false) ∧
        (∃ r, EvInspect name r ∈ t ∧
           omap attach_of t =
             omap (attach_of_step name (match r with inr ins => Running ins | inl _ => false end))
               (Config.Backup (Commands srv))) ∧
        writes_lines name (Config.Backup (Commands srv)) t
    end.
Proof.
  apply wp_exists. unfold Backup. wp_step. apply wp_Get_outcome. intros w t0 Ht0.
  destruct (Servers _ !! name) as [srv|] eqn:Hsrv.
  2: { wp_step. eexists. split; [reflexivity|]. exists t0. split; [reflexivity|]. copies_simpl. done. }
  do 6 wp_step. eapply wp_mono; [apply backup_steps_run|].
  intros o s1 (b & -> & t & Ht & Hc & Hb & Ha & Hw).
  assert (∀ t', Forall (λ e, quiet e = true) t' → writes_lines name (Config.Backup (Commands srv))
    (t0 ++ [EvNow a] ++ [EvInspect name a0] ++ t ++ t')) as Hlines.
  { intros t' Ht'. rewrite <- (app_nil_r (Config.Backup _)), <- (app_nil_l (_ ++ [])).
    rewrite (assoc_L (++) [EvNow a]), (assoc_L (++) t0).
    apply writes_lines_app; [apply writes_lines_nothing; solve_read_only|].
    apply writes_lines_app; [done|]. apply writes_lines_nothing. solve_read_only. }
  destruct b; repeat wp_step; rewrite Ht; rewrite <- !(assoc_L (++));
    eexists; (split; [reflexivity|]); eexists; (split; [reflexivity|]).
  all: split_and!.
  1, 5: exists a; (split; [in_record|]); copies_simpl; by rewrite Hc, ?app_nil_r.
  1, 4: copies_simpl; by rewrite <- Hb.
  1, 3: exists a0; (split; [in_record|]); copies_simpl; by rewrite Ha, ?app_nil_r.
  - specialize (Hlines [] ltac:(done)). by rewrite app_nil_r in Hlines.
  - by apply Hlines.
Qed.
(** C23: one copy of a backup makes the directory, looks for the generation
    [latest], and runs rsync against it exactly when it is there; [latest] is
    replaced by a link to the new time stamp exactly when rsync succeeded, and a
    failure is what the result remembers. *)
Theorem backup_copy_incremental name stamp src dest e s :
  ∃ b s', backup_copy name stamp src dest e s = (Done b, s') ∧
  ∃ made latest out t, events s' = events s ++
      [EvMkdirAll dest 493 made; EvStat (dest +:+ "/latest") latest;
       EvRun "rsync"
         (["-avh"; "--delete"] ++
          (match latest with inr _ => ["--link-dest"; dest +:+ "/latest"] | inl _ => [] end) ++
          [src +:+ "/"; dest +:+ "/" +:+ stamp]) out] ++ t ∧
    match out.2 with
    | None => b = e ∧ ∃ err1 err2,
        t = [EvRemoveFile (dest +:+ "/latest") err1; EvSymlink stamp (dest +:+ "/latest") err2]
    | Some _ => b = true ∧ Forall (λ e, quiet e = true) t
    end.
Proof.
  apply wp_exists. unfold backup_copy. repeat wp_step; eexists; (split; [reflexivity|]); cbn [Sprintf];
    exists a, a0, a1; eexists; rewrite <- ?(assoc_L (++)); (split; [destruct a0; simpl; by rewrite ?string_app_nil_r|]); rewrite Heqo;
    (split; [done|]); [done|by eauto].
Qed.
End Backup.

Section Restore.
Context {W : Type} `{!DockerClient W, !OS W, !MapRange W}.
Implicit Types s : Sys W.
Import Manager.

(** A copy a restore of [generation] may make, justified by the record. *)
Definition restore_copy (cmds : list CmdConfig) (generation : string) (t : list Event)
    (copy : string * string) : Prop :=
  ∃ cmd base info, cmd ∈ cmds ∧ CmdType cmd = "backup" ∧
    backup_parts (Arg cmd) = Some (copy.2, base) ∧
    copy.1 = JoinPath [base; generation] +:+ "/" ∧
    EvStat (JoinPath [base; generation]) (inr info) ∈ t.

Lemma restore_copy_mono cmds cmds' generation t t' copy :
  restore_copy cmds generation t copy → cmds ⊆ cmds' → t ⊆ t' →
  restore_copy cmds' generation t' copy.
Proof. intros (cmd & base & info & ? & ? & ? & ? & ?) Hs1 Hs2. exists cmd, base, info. eauto 10. Qed.

Lemma restore_step_run name generation cmd hasError s :
  wp (restore_step name generation cmd hasError)
     (λ o s', ∃ b, o = Done b ∧ ∃ t, events s' = events s ++ t ∧
        b = hasError || existsb failed_run t ∧
        Forall (restore_copy [cmd] generation t) (omap copy_of t) ∧
        (existsb failed_run t = true → omap copy_of t ≠ [])) s.
Proof.
  unfold restore_step. repeat wp_step;
    eexists; (split; [reflexivity|]); rewrite <- ?(assoc_L (++));
    first [eexists; split; [reflexivity|] | exists []; split; [symmetry; apply app_nil_r|]];
    copies_simpl; rewrite ?orb_false_r, ?orb_true_r; try (split; [done|split; [by constructor|done]]).
  all: match goal with H : RunCommand _ _ _ = (?out, _) |- _ => destruct out as [? ?] end.
  all: simplify_eq/=; rewrite ?orb_true_r, ?orb_false_r; (split; [done|]); split; [|done].
  all: repeat constructor; eexists cmd, _, _; (split_and!; [by left|by apply dec_stable|done|done|in_record]).
Qed.

Lemma restore_steps_run name generation cmds s :
  wp (for_fold (restore_step name generation) cmds false)
     (λ o s', ∃ b, o = Done b ∧ ∃ t, events s' = events s ++ t ∧
        b = existsb failed_run t ∧ Forall (restore_copy cmds generation t) (omap copy_of t) ∧
        (existsb failed_run t = true → omap copy_of t ≠ [])) s.
Proof.
  apply (wp_for_fold _ (λ pre b s', ∃ t, events s' = events s ++ t ∧
    b = existsb failed_run t ∧ Forall (restore_copy pre generation t) (omap copy_of t) ∧
    (existsb failed_run t = true → omap copy_of t ≠ []))).
  - exists []. rewrite app_nil_r. by repeat constructor.
  - intros pre cmd post b s1 _ (t & Ht & Hb & Hc & Hf).
    eapply wp_mono; [apply restore_step_run|]. intros o s2 (b' & -> & t' & Ht' & Hb' & Hc' & Hf').
    exists b'. split; [done|]. exists (t ++ t').
    rewrite Ht', Ht, (assoc_L (++)), omap_app, existsb_app, Hb', Hb. split_and!; try done.
    2: { intros [H1|H1]%orb_true_iff [E1 E2]%app_nil; [by apply Hf|by apply Hf']. }
    apply Forall_app. split; (eapply Forall_impl; [eassumption|]); intros copy Hcp;
      (eapply restore_copy_mono; [exact Hcp|set_solver|set_solver]).
Qed.

(** What a restore does, over the record it leaves. *)
Definition restoring (cfg : Config) (name generation : string) (o : option error) (t : list Event) : Prop :=
  if decide (generation = "") then o ≠ None ∧ t = []
  else match Servers cfg !! name with
       | None => o ≠ None ∧ omap copy_of t = []
       | Some srv =>
           ∃ r, EvInspect name r ∈ t ∧
           if match r with inr ins => Running ins | inl _ => false end
           then o ≠ None ∧ omap copy_of t = []
           else (o = None ↔ existsb failed_run t = false) ∧
                Forall (restore_copy (Config.Backup (Commands srv)) generation t) (omap copy_of t)
       end.

Lemma Restore_run name generation s :
  wp (Restore name generation)
     (λ o s', ∃ r, o = Done r ∧ ∃ t, events s' = events s ++ t ∧
        restoring (cfg_Config (get_outcome s)) name generation r t ∧
        (existsb failed_run t = true → omap copy_of t ≠ [])) s.
Proof.
  unfold Restore, restoring. destruct (decide (generation = "")) as [Hg|Hg].
  { wp_step. eexists. split; [reflexivity|]. exists []. by rewrite app_nil_r. }
  wp_step. apply wp_Get_outcome. intros w t0 Ht0.
  destruct (Servers _ !! name) as [srv|] eqn:Hsrv.
  2: { wp_step. eexists. split; [reflexivity|]. exists t0. split; [reflexivity|]. copies_simpl. done. }
  do 3 wp_step. destruct (match a with inl _ => false | inr ins => Running ins end) eqn:Hrun.
  { wp_step. eexists. split; [reflexivity|]. rewrite <- (assoc_L (++)). eexists. split; [reflexivity|].
    split; [exists a; split; [in_record|]; rewrite Hrun|]; copies_simpl; done. }
  wp_step. eapply wp_mono; [apply restore_steps_run|].
  intros o s1 (b & -> & t & Ht & Hb & Hc & Hf).
  destruct b; repeat wp_step; rewrite Ht; rewrite <- !(assoc_L (++));
    eexists; (split; [reflexivity|]); eexists; (split; [reflexivity|]);
    (split; [exists a; (split; [in_record|]); rewrite Hrun|]); copies_simpl;
    rewrite ?app_nil_r, ?orb_false_r; try exact Hf; rewrite <- Hb; (split; [done|]);
    (eapply Forall_impl; [exact Hc|]); intros copy Hcp;
    (eapply restore_copy_mono; [exact Hcp|done|set_solver]).
Qed.

(** C7: without a generation a restore does nothing but fail; for a container
    seen running, or a server not configured, it fails without copying
    anything; and otherwise it copies only from directories of that generation
    that were found, into the source of the same step, and succeeds exactly
    when no copy failed. *)
Theorem Restore_spec name generation s :
  ∃ o s', Restore name generation s = (Done o, s') ∧ ∃ t, events s' = events s ++ t ∧
    if decide (generation = "") then o ≠ None ∧ t = []
    else match Servers (cfg_Config (get_outcome s)) !! name with
         | None => o ≠ None ∧ omap copy_of t = []
         | Some srv =>
             ∃ r, EvInspect name r ∈ t ∧
             if match r with inr ins => Running ins | inl _ => false end
             then o ≠ None ∧ omap copy_of t = []
             else (o = None ↔ existsb failed_run t = false) ∧
                  Forall (restore_copy (Config.Backup (Commands srv)) generation t) (omap copy_of t)
         end.
Proof.
  apply wp_exists. eapply wp_mono; [apply Restore_run|].
  intros o s' (r & -> & t & Ht & H & _). exists r. split; [done|]. by exists t.
Qed.

(** A restore of a generation that is found in none of the backup
    directories copies nothing and still reports success. *)
Theorem Restore_nothing_found name generation s o s' :
  generation ≠ "" → is_Some (Servers (cfg_Config (get_outcome s)) !! name) →
  Restore name generation s = (o, s') →
  ∃ t, events s' = events s ++ t ∧
    ((∀ ins, EvInspect name (inr ins) ∈ t → Running ins = false) →
     (∀ base info, EvStat (JoinPath [base; generation]) (inr info) ∉ t) →
     o = Done None ∧ omap copy_of t = []).
Proof.
  intros Hg [srv Hsrv] Hrun.
  destruct (wp_elim _ _ _ _ _ (Restore_run name generation s) Hrun) as (r & -> & t & Ht & H & Hf).
  exists t. split; [done|]. intros Hins Hstat. unfold restoring in H.
  rewrite decide_False, Hsrv in H by done. destruct H as (i & Hi & H).
  replace (match i with inl _ => false | inr ins => Running ins end) with false in H.
  2: { destruct i as [|ins]; [done|]. symmetry. by apply Hins. }
  destruct H as [Hiff Hc].
  assert (omap copy_of t = []) as Hnil.
  { destruct (omap copy_of t) as [|cp cps]; [done|]. apply Forall_cons in Hc as [Hc _].
    destruct Hc as (cmd & base & info & _ & _ & _ & _ & Hin). by destruct (Hstat base info). }
  split; [|done]. f_equal. apply Hiff. destruct (existsb failed_run t); [|done]. by destruct Hf.
Qed.

Lemma backup_parts_split src dest :
  colon ∉ bytes src → backup_parts (src +:+ String colon dest) = Some (src, dest).
Proof.
  intros Hs. unfold backup_parts, SplitN2. rewrite Split_app by done.
  destruct (Split dest colon) as [|w ws] eqn:E; [by apply Split_ne in E|].
  apply (f_equal (λ l, Join l colon)) in E. rewrite Join_Split in E. by rewrite E.
Qed.

(** The generation of a restore is not confined to the backup directory:
    one made of enough [..] names any directory of the host, and when that
    directory exists it is copied over the server's data. *)
Theorem Restore_escapes name src ds ns hasError s info :
  colon ∉ bytes src →
  ds ≠ [] → Forall plain ds → ".." ∉ ds → Forall plain ns → ".." ∉ ns →
  (World.Stat (render true ns) (world s)).1 = inr info →
  ∃ s' t, (restore_step name (Join (replicate (length ds) ".." ++ ns) slash)
     (mkCmdConfig "backup" (src +:+ String colon (render true ds))) hasError s).2 = s' ∧
    events s' = events s ++ t ∧ omap copy_of t = [(render true ns +:+ "/", src)].
Proof.
  intros Hsrc Hne Hds Hd Hns Hn Hst.
  eapply (wp_elim _ (λ _ s1, ∃ s' t, s1 = s' ∧ events s' = events s ++ t ∧ _) s);
    [|apply surjective_pairing].
  unfold restore_step. cbn [CmdType Arg]. rewrite decide_False by by intros [].
  rewrite backup_parts_split by done. cbv zeta. rewrite JoinPath_escape by done.
  repeat wp_step; try (match goal with H : World.Stat _ _ = _ |- _ => by rewrite H in Hst end); do 2 eexists; (split; [reflexivity|]); rewrite <- ?(assoc_L (++));
    (split; [reflexivity|]); copies_simpl; done.
Qed.
End Restore.

Lemma StronglySorted_lookup {A} (R : relation A) l i j x y :
  StronglySorted R l → l !! i = Some x → l !! j = Some y → i < j → R x y.
Proof.
  intros Hs. revert i j. induction Hs as [|z l _ IH Hz]; intros i j Hi Hj Hij; [done|].
  destruct j as [|j]; [lia|]. destruct i as [|i]; simplify_eq/=.
  - by eapply Forall_lookup_1.
  - eapply IH; eauto. lia.
Qed.

Section Generations.
Context {W : Type} `{!DockerClient W, !OS W, !MapRange W}.
Implicit Types s : Sys W.
Import Manager.

(** The directories a record of calls listed. *)
Definition listed_dir (e : Event) : option string :=
  match e with EvReadDir path _ => Some path | _ => None end.

Definition base_of_step (cmd : CmdConfig) : option string :=
  if decide (CmdType cmd = "backup") then snd <$> backup_parts (Arg cmd) else None.

(** A generation a record shows: a directory listed, other than [latest]. *)
Definition generation_in (t : list Event) (n : string) : Prop :=
  n ≠ "latest" ∧ ∃ dir entries, EvReadDir dir (inr entries) ∈ t ∧ mkDirEntry n true ∈ entries.

(** [seen] and [generations] hold the same names, each once. *)
Definition acc_ok (acc : gset string * list string) (P : string → Prop) : Prop :=
  NoDup acc.2 ∧ (∀ n, n ∈ acc.1 ↔ n ∈ acc.2) ∧ (∀ n, n ∈ acc.2 ↔ P n).

Lemma acc_ok_iff acc P P' : acc_ok acc P → (∀ n, P n ↔ P' n) → acc_ok acc P'.
Proof. intros (? & ? & H) HP. split_and!; try done. intros n. by rewrite H, HP. Qed.

Lemma add_generation_ok e acc P :
  acc_ok acc P →
  acc_ok (add_generation e acc)
    (λ n, P n ∨ (n ≠ "latest" ∧ e = mkDirEntry n true)).
Proof.
  destruct acc as [seen gens]. intros (Hnd & Hseen & HP). unfold add_generation.
  destruct e as [n d]. simpl. case_decide as Hl; [|destruct d; simpl; [case_decide as Hin|]].
  - split_and!; try done. intros m. rewrite HP. split; [by left|]. intros [?|[? [= -> _]]]; done.
  - split_and!; try done. intros m. rewrite HP. split; [by left|].
    intros [?|[? [= ->]]]; [done|]. by apply HP, Hseen.
  - split_and!; simpl.
    + apply NoDup_app. split_and!; [done| |apply NoDup_singleton].
      intros m Hm ->%list_elem_of_singleton. by apply Hin, Hseen.
    + intros m. rewrite elem_of_union, elem_of_singleton, elem_of_app, list_elem_of_singleton, Hseen. tauto.
    + intros m. rewrite elem_of_app, list_elem_of_singleton, HP. split.
      * intros [?| ->]; [by left|by right].
      * intros [?|[? [= ->]]]; [by left|by right].
  - split_and!; try done. intros m. rewrite HP. split; [by left|]. by intros [?|[? ?]].
Qed.

Lemma add_generations_ok es acc P :
  acc_ok acc P →
  acc_ok (foldl (λ acc e, add_generation e acc) acc es)
    (λ n, P n ∨ (n ≠ "latest" ∧ mkDirEntry n true ∈ es)).
Proof.
  revert acc P. induction es as [|e es IH]; intros acc P H; simpl.
  - eapply acc_ok_iff; [exact H|]. intros n. split; [by left|].
    by intros [?|[_ ?%elem_of_nil]].
  - eapply acc_ok_iff; [apply IH, add_generation_ok, H|]. intros n. rewrite elem_of_cons. naive_solver.
Qed.

Lemma list_step_run cmd acc s t0 :
  acc_ok acc (generation_in t0) →
  wp (list_step cmd acc)
     (λ o s', ∃ acc', o = Done acc' ∧ ∃ t, events s' = events s ++ t ∧
        omap listed_dir t = option_list (base_of_step cmd) ∧
        acc_ok acc' (generation_in (t0 ++ t))) s.
Proof.
  intros Hok. unfold list_step, base_of_step.
  assert (∀ e, (∀ p es, e ≠ EvReadDir p (inr es)) → acc_ok acc (generation_in (t0 ++ [e]))) as Hskip.
  { intros e He. eapply acc_ok_iff; [exact Hok|]. intros n. unfold generation_in.
    setoid_rewrite elem_of_app. setoid_rewrite list_elem_of_singleton. naive_solver. }
  destruct (decide (CmdType cmd = "backup")) as [E|E].
  2: { rewrite decide_True by done. wp_step. eexists. split; [done|]. exists [].
       by rewrite !app_nil_r. }
  rewrite decide_False by naive_solver. destruct (backup_parts (Arg cmd)) as [[src base]|]; simpl.
  2: { wp_step. eexists. split; [done|]. exists []. by rewrite !app_nil_r. }
  repeat wp_step; (eexists; split; [reflexivity|]); (eexists; split; [reflexivity|]); (split; [done|]).
  - by apply Hskip.
  - eapply acc_ok_iff; [apply add_generations_ok, Hok|]. intros n. unfold generation_in.
    setoid_rewrite elem_of_app. setoid_rewrite list_elem_of_singleton. naive_solver.
Qed.

Lemma quiet_listed t : Forall (λ e, quiet e = true) t → omap listed_dir t = [].
Proof. apply quiet_omap. by intros []. Qed.

(** What a listing finds, over the record it leaves. *)
Definition listing (cfg : Config) (name : string) (r : error + list string) (t : list Event) : Prop :=
  match Servers cfg !! name, r with
  | Some srv, inr gens =>
      NoDup gens ∧ StronglySorted ge_string gens ∧ (∀ n, n ∈ gens ↔ generation_in t n) ∧
      omap listed_dir t = omap base_of_step (Config.Backup (Commands srv))
  | None, inl _ => omap listed_dir t = []
  | _, _ => False
  end.

Lemma ListBackupGenerations_run name s :
  wp (ListBackupGenerations name)
     (λ o s', ∃ r, o = Done r ∧ ∃ t, events s' = events s ++ t ∧
        listing (cfg_Config (get_outcome s)) name r t) s.
Proof.
  unfold ListBackupGenerations, listing. wp_step. apply wp_Get_outcome. intros w t0 Ht0.
  destruct (Servers _ !! name) as [srv|] eqn:Hsrv.
  2: { wp_step. eexists. split; [reflexivity|]. exists t0. split; [done|]. by apply quiet_listed. }
  wp_step. eapply wp_mono; [apply (wp_for_fold _ (λ pre acc s', ∃ t, events s' = events s ++ t0 ++ t ∧
    omap listed_dir t = omap base_of_step pre ∧ acc_ok acc (generation_in (t0 ++ t))))|].
  - exists []. rewrite !app_nil_r. split; [done|]. split; [done|].
    split; [apply NoDup_nil_2|]. split; [set_solver|]. intros n. split; [by intros ?%elem_of_nil|].
    intros (_ & dir & es & Hin & _). exfalso. eapply Forall_forall in Ht0; [|exact Hin]. done.
  - intros pre cmd post acc s1 _ (t & Ht & Hl & Hok).
    eapply wp_mono; [by apply list_step_run|]. intros o s2 (acc' & -> & t' & Ht' & Hl' & Hok').
    exists acc'. split; [done|]. exists (t ++ t').
    rewrite Ht', Ht, omap_app, omap_snoc, Hl, Hl', !(assoc_L (++)). split; [done|]. split; [done|]. done.
  - intros o s1 (acc & -> & t & Ht & Hl & Hnd & _ & Hiff). wp_step.
    eexists. split; [reflexivity|]. exists (t0 ++ t). split; [done|]. split_and!.
    + by rewrite sort_reverse_perm.
    + apply sort_reverse_sorted.
    + intros n. by rewrite sort_reverse_perm.
    + rewrite omap_app, (quiet_listed t0) by done. done.
Qed.

Lemma ListBackupGenerations_facts name s gens s' :
  ListBackupGenerations name s = (Done (inr gens), s') → NoDup gens ∧ StronglySorted ge_string gens.
Proof.
  intros Hrun. destruct (wp_elim _ _ _ _ _ (ListBackupGenerations_run name s) Hrun)
    as (r & Er & t & _ & Hl).
  simplify_eq. unfold listing in Hl. case_match; [|done]. by destruct Hl as (? & ? & _).
Qed.

(** C29: the list of generations has no duplicates, is in descending order, and
    holds exactly the directories other than [latest] found in the backup
    directories of the server's configuration, each of which is read. *)
Theorem ListBackupGenerations_correct name s :
  ∃ r s', ListBackupGenerations name s = (Done r, s') ∧ ∃ t, events s' = events s ++ t ∧
    match Servers (cfg_Config (get_outcome s)) !! name, r with
    | Some srv, inr gens =>
        NoDup gens ∧ StronglySorted ge_string gens ∧
        (∀ n, n ∈ gens ↔ generation_in t n) ∧
        omap listed_dir t = omap base_of_step (Config.Backup (Commands srv))
    | None, inl _ => omap listed_dir t = []
    | _, _ => False
    end.
Proof. apply wp_exists, ListBackupGenerations_run. Qed.

(** Generations are listed newest first: of two listed stamps of times
    with a four-digit year, the one listed first is not the earlier one. *)
Theorem generations_newest_first name s gens s' i j t1 t2 :
  ListBackupGenerations name s = (Done (inr gens), s') →
  gens !! i = Some (FormatStamp t1) → gens !! j = Some (FormatStamp t2) → i < j →
  four_digit_year t1 → four_digit_year t2 →
  compare_keys (stamp_key t1) (stamp_key t2) = Gt.
Proof.
  intros Hrun Hi Hj Hij H1 H2. rewrite <- compare_stamp by done.
  destruct (ListBackupGenerations_facts name s gens s' Hrun) as [Hnd Hs].
  assert (ge_string (FormatStamp t1) (FormatStamp t2)) as Hge by exact (StronglySorted_lookup _ _ _ _ _ _ Hs Hi Hj Hij).
  unfold ge_string, String.le, String.leb in Hge. rewrite String.compare_antisym in Hge.
  destruct (String.compare (FormatStamp t1) (FormatStamp t2)) eqn:E; try done.
  apply String.compare_eq_iff in E. rewrite E in Hi.
  pose proof (NoDup_lookup _ _ _ _ Hnd Hi Hj). lia.
Qed.
End Generations.

(** * Witnesses *)

Lemma Restore_nothing_found_witness :
  (Manager.Restore "mc1" "20991231_000000" toy_sys).1 = Done None.
Proof.
  destruct (Restore_nothing_found "mc1" "20991231_000000" toy_sys
    (Manager.Restore "mc1" "20991231_000000" toy_sys).1
    (Manager.Restore "mc1" "20991231_000000" toy_sys).2) as (t & Ht & H);
    [done|by eexists|apply surjective_pairing|].
  vm_compute in Ht. subst t. apply H; clear H.
  - intros ins Hin. repeat (apply elem_of_cons in Hin as [Hin|Hin]; [by simplify_eq|]).
    by apply elem_of_nil in Hin.
  - intros base info Hin. apply elem_of_cons in Hin as [Hin|Hin].
    + assert (Clean "./config.json" ≠ "./config.json") as Hc by (by vm_compute). apply Hc.
      injection Hin as <-. apply Clean_JoinPath. by destruct base.
    + repeat (apply elem_of_cons in Hin as [Hin|Hin]; [by simplify_eq|]). by apply elem_of_nil in Hin.
Defined.

Lemma Restore_escapes_witness :
  ∃ t, omap copy_of t = [("/etc/", "/srv/mc1/data")].
Proof.
  destruct (Restore_escapes (W := Toy) "mc1" "/srv/mc1/data" ["backup"; "mc1"] ["etc"] false toy_sys
    (mkFileInfo "/etc" true 0)) as (s' & t & _ & _ & H);
    [decided|decided|decided|decided|decided|decided|by vm_compute|].
  by exists t.
Defined.

Lemma generations_newest_first_witness :
  compare_keys (stamp_key (mkDateTime 2025 1 1 0 0 0)) (stamp_key (mkDateTime 2024 1 1 0 0 0)) = Gt.
Proof.
  apply (generations_newest_first "mc1" toy_boot ["20250101_000000"; "20240101_000000"]
    (Manager.ListBackupGenerations "mc1" toy_boot).2 0 1);
    first [ lia | decided | vm_compute; reflexivity ].
Defined.
