(* ===== verification/RoundTrip.v ===== *)
(** Restoring a backup brings the data back.  [Disk] is the interface the manager
    relies on: what directories hold, what rsync does to them, and which of them
    nobody else writes to meanwhile. *)

From S2P Require Import Prelude GoStrings GoPath GoTime Config World TestBed ConfigLoad Docker Container ContainerSpec BackupSpec.

(** * The interface *)

(** The options the program gives to rsync. *)
Definition rsync_options (opts : list string) : Prop :=
  opts = ["-avh"; "--delete"] ∨ ∃ latest, opts = ["-avh"; "--delete"; "--link-dest"; latest].

(** [held p w] is what the directory [p] holds.  [alike] is equality as far as rsync
    looks: the same names with the same sizes, times and attributes; files that
    agree in these are not read again.  A path is [calm] while nobody but the
    program writes there.  An rsync from [src/] to calm paths that succeeds leaves
    its destination like its source, and one that fails may leave anything there.
    What is calm and apart from the path a call writes to keeps what it holds.  It
    stays calm as well, but under the calls by which a container may be made to
    write, or is given the time to. *)
Class Disk (W : Type) `{!DockerClient W, !OS W, !MapRange W} := {
  tree : Type;
  alike : relation tree;
  #[global] alike_equiv :: Equivalence alike;
  held : string → W → option tree;
  calm : string → W → Prop;
  held_clean p w : held (Clean p) w = held p w;
  calm_clean p w : calm (Clean p) w ↔ calm p w;
  stat_finds p w : is_Some (held p w) → ∃ info, (World.Stat p w).1 = inr info;
  rsync_copies opts src dst out w w' :
    rsync_options opts → is_rooted src = true → is_rooted dst = true → calm src w → calm dst w →
    RunCommand "rsync" (opts ++ [src +:+ "/"; dst]) w = ((out, None), w') →
    is_Some (held src w) ∧ option_Forall2 alike (held dst w') (held src w);
  rsync_calm cmd args p w : calm p w → calm p (RunCommand cmd args w).2;
  rsync_frame opts src dst p w :
    rsync_options opts → is_rooted src = true → is_rooted dst = true → apart p dst → calm p w →
    held p (RunCommand "rsync" (opts ++ [src +:+ "/"; dst]) w).2 = held p w;
  mkdir_frame path perm p w : apart p path → calm p w → held p (MkdirAll path perm w).2 = held p w;
  remove_frame path p w : apart p path → calm p w → held p (RemoveFile path w).2 = held p w;
  symlink_frame target link p w : apart p link → calm p w → held p (Symlink target link w).2 = held p w;
  stat_held path p w : calm p w → held p (World.Stat path w).2 = held p w ∧ calm p (World.Stat path w).2;
  open_held path p w : calm p w → held p (Open path w).2 = held p w ∧ calm p (Open path w).2;
  file_stat_held f p w : calm p w → held p (FileStat f w).2 = held p w ∧ calm p (FileStat f w).2;
  file_close_held f p w : calm p w → held p (FileClose f w) = held p w ∧ calm p (FileClose f w);
  decode_held f p w : calm p w → held p (DecodeConfig f w).2 = held p w ∧ calm p (DecodeConfig f w).2;
  inspect_held id p w : calm p w → held p (ContainerInspect id w).2 = held p w ∧ calm p (ContainerInspect id w).2;
  now_held p w : calm p w → held p (Now w).2 = held p w ∧ calm p (Now w).2;
  printf_held l p w : calm p w → held p (Printf l w) = held p w ∧ calm p (Printf l w);
  attach_held id p w : calm p w → held p (ContainerAttach id w).2 = held p w;
  write_held c data p w : calm p w → held p (ConnWrite c data w).2 = held p w;
  close_held c p w : calm p w → held p (ConnClose c w) = held p w;
  sleep_held d p w : calm p w → held p (Sleep d w) = held p w;
}.

Section Relations.
Context {W : Type} `{!DockerClient W, !OS W, !MapRange W, !Disk W}.

(** The same contents, as far as rsync looks. *)
Definition same : relation (option tree) := option_Forall2 alike.

(** A path nobody else ever writes to. *)
Definition private (p : string) : Prop := ∀ w, calm p w.

(** What is calm stays so and keeps what it holds. *)
Definition calmly (w w' : W) : Prop := ∀ p, calm p w → held p w' = held p w ∧ calm p w'.

(** Private paths keep what they hold. *)
Definition spares (w w' : W) : Prop := ∀ p, private p → held p w' = held p w.

#[export] Instance calmly_preorder : PreOrder calmly.
Proof.
  split; [by intros w p|]. intros w1 w2 w3 H1 H2 p Hp. destruct (H1 p Hp) as [E1 Hp2].
  destruct (H2 p Hp2) as [E2 Hp3]. split; [congruence|done].
Qed.

#[export] Instance spares_preorder : PreOrder spares.
Proof. split; [by intros w p|]. intros w1 w2 w3 H1 H2 p Hp. by rewrite H2, H1. Qed.

Lemma calmly_spares w w' : calmly w w' → spares w w'.
Proof. intros H p Hp. by apply H. Qed.

#[export] Instance same_equiv : Equivalence same.
Proof. unfold same. apply _. Qed.
End Relations.

(** The laws of single calls, as hints. *)
#[export] Hint Extern 2 (calmly _ _) => intros ? ? : moves.
#[export] Hint Extern 2 (spares _ _) => intros ? Hprivate;
  match goal with |- held _ _ = held _ ?w => specialize (Hprivate w) end : moves.
#[export] Hint Resolve stat_held open_held file_stat_held file_close_held decode_held inspect_held
  now_held printf_held attach_held write_held close_held sleep_held : moves.
(** * The copies of a configuration *)

Definition pair_of_step (cmd : CmdConfig) : option (string * string) :=
  if decide (CmdType cmd = "backup") then Manager.backup_parts (Arg cmd) else None.

(** The source and backup directories, in order. *)
Definition pairs (cmds : list CmdConfig) : list (string * string) := omap pair_of_step cmds.

(** All paths are absolute; no source is a backup directory, above or below one;
    and the same holds of two sources, and of two backup directories. *)
Record separate (ps : list (string * string)) : Prop := {
  sep_rooted q : q ∈ ps → is_rooted q.1 = true ∧ is_rooted q.2 = true;
  sep_apart p q : p ∈ ps → q ∈ ps → apart p.1 q.2;
  sep_pairs pre p post q : ps = pre ++ p :: post → q ∈ pre → apart q.1 p.1 ∧ apart q.2 p.2;
}.

(** A usable generation: a name, and not [latest]. *)
Definition good_stamp (g : string) : Prop := plain g ∧ g ≠ ".." ∧ g ≠ "latest".

Definition generation_dir (base g : string) : string := base +:+ "/" +:+ g.

Lemma rooted_ne p : is_rooted p = true → p ≠ "".
Proof. by destruct p. Qed.

Lemma FormatStamp_good t : good_stamp (FormatStamp t).
Proof.
  pose proof (FormatStamp_underscore t) as Hu. unfold good_stamp, plain.
  split_and!; try (intros E; rewrite E in Hu; revert Hu; vm_compute; set_solver).
  apply FormatStamp_no_slash.
Qed.

Lemma latest_plain : plain "latest".
Proof. decided. Qed.

Lemma rooted_dir base g : is_rooted (base +:+ "/" +:+ g) = is_rooted base ∨ base = "".
Proof. destruct base; [by right|by left]. Qed.

(** What is apart from a backup directory is apart from its generations. *)
Lemma apart_dir p base g :
  is_rooted base = true → plain g → g ≠ ".." → apart p base → apart p (generation_dir base g).
Proof. intros Hb ? ? Ha. eapply apart_below; [exact Ha|]. apply within_below; [by apply rooted_ne|done..]. Qed.

Section RoundTrip.
Context {W : Type} `{!DockerClient W, !OS W, !MapRange W, !Disk W}.
Implicit Types s : Sys W.
Import Manager.

Lemma calm_Get : moves calmly (Get : Comp (Sys W) _).
Proof. unfold Get, Reload, reload_from, store_Config, store_LastLoaded. solve_moves. Qed.

Lemma calm_Log level service message : moves calmly (Log level service message : Comp (Sys W) _).
Proof. solve_moves. Qed.

Lemma spares_SendCommand id command : moves spares (SendCommand id command : Comp (Sys W) _).
Proof. unfold SendCommand. solve_moves. Qed.

Lemma spares_Log level service message : moves spares (Log level service message : Comp (Sys W) _).
Proof. eapply moves_mono; [apply calm_Log|apply calmly_spares]. Qed.

Hint Resolve calm_Get calm_Log spares_SendCommand spares_Log : moves.

(** ** Backup *)

(** The world in which [backup_copy] runs rsync. *)
Definition copy_world (base : string) s : W :=
  (World.Stat (base +:+ "/latest") (MkdirAll base 493 (world s)).2).2.

(** One copy: what is private and apart from the backup directory stays, and unless
    the flag is raised the generation becomes like the source was when rsync ran. *)
Lemma backup_copy_held name g src base b s :
  is_rooted src = true → is_rooted base = true → good_stamp g → private (generation_dir base g) →
  wp (backup_copy name g src base b)
     (λ o s', ∃ b', o = Done b' ∧
        (∀ p, private p → apart p base → held p (world s') = held p (world s)) ∧
        (b' = false → b = false ∧ (calm src (copy_world base s) →
           is_Some (held src (copy_world base s)) ∧
           same (held (generation_dir base g) (world s')) (held src (copy_world base s))))) s.
Proof.
  intros Hs Hb (Hg & Hg1 & Hg2) Hpriv. pose proof (rooted_ne _ Hb) as Hb'. unfold copy_world.
  set (dst := generation_dir base g) in *. set (latest := base +:+ "/" +:+ "latest").
  assert (Sprintf "%s/%s" [base; g] = dst) as Ed by (simpl; by rewrite string_app_nil_r).
  assert (Sprintf "%s/latest" [base] = latest) as El by done. change (base +:+ "/latest") with latest.
  assert (∀ p, apart p base → apart p dst) as Hdst by (intros; by apply apart_dir).
  assert (∀ p, apart p base → apart p latest) as Hlat by (intros; by apply apart_dir; [|apply latest_plain|..]).
  assert (apart dst latest) as Hsib by (by apply apart_siblings; [..|apply latest_plain| |]).
  assert (is_rooted dst = true) as Hr by (unfold dst, generation_dir; by destruct (rooted_dir base g) as [->|]).
  unfold backup_copy. rewrite Ed, El. unfold os_MkdirAll. apply wp_bind, wp_call. intros e w1 E1.
  unfold os_Stat. apply wp_bind, wp_call. intros st w2 E2. simpl in E2. rewrite E1. simpl. rewrite E2. simpl.
  assert (∀ p, private p → apart p base → held p w2 = held p (world s)) as H2.
  { intros p Hp Ha. destruct (stat_held latest p w1 (Hp w1)) as [H _]. rewrite E2 in H. simpl in H. rewrite H.
    pose proof (mkdir_frame base 493 p (world s) Ha (Hp _)) as H'. by rewrite E1 in H'. }
  set (linked := match st with inr _ => true | inl _ => false end).
  assert (∃ opts, rsync_options opts ∧ rsync_args src dst latest linked = opts ++ [src +:+ "/"; dst]) as (opts & Hopts & ->).
  { destruct linked; [exists ["-avh"; "--delete"; "--link-dest"; latest]|exists ["-avh"; "--delete"]];
      (split; [|reflexivity]); [right; by eexists|by left]. }
  unfold exec_Run. apply wp_bind, wp_call. intros [out err] w3 E3. simpl in E3. cbn [snd].
  assert (∀ p, private p → apart p base → held p w3 = held p (world s)) as H3.
  { intros p Hp Ha. pose proof (rsync_frame opts src dst p w2 Hopts Hs Hr (Hdst p Ha) (Hp w2)) as H.
    rewrite E3 in H. simpl in H. rewrite H. by apply H2. }
  destruct err as [err|].
  { unfold Logf. apply wp_bind, (wp_moves spares); [apply spares_Log|solve_finishes|]. intros [] s4 _ H4.
    apply wp_ret. exists true. split; [done|]. split; [|done]. intros p Hp Ha. rewrite (H4 p Hp). by apply H3. }
  unfold os_Remove, os_Symlink. apply wp_bind, wp_call. intros e4 w4 E4. apply wp_bind, wp_call. intros e5 w5 E5.
  apply wp_ret. exists b. split; [done|]. simpl in E4, E5. simpl.
  assert (∀ p, private p → apart p latest → held p w5 = held p w3) as H5.
  { intros p Hp Ha. pose proof (symlink_frame g latest p w4 Ha (Hp w4)) as H. rewrite E5 in H. simpl in H.
    rewrite H. pose proof (remove_frame latest p w3 Ha (Hp w3)) as H'. by rewrite E4 in H'. }
  split; [intros p Hp Ha; rewrite (H5 p Hp), (H3 p Hp) by auto; done|]. intros ->. split; [done|]. intros Hcalm.
  destruct (rsync_copies opts src dst out w2 w3 Hopts Hs Hr Hcalm (Hpriv w2) E3) as [Hsome Hheld].
  split; [done|]. by rewrite (H5 dst Hpriv Hsib).
Qed.

(** A step that copies nothing keeps the flag and spares what is private. *)
Lemma backup_step_other name g running cmd b s :
  pair_of_step cmd = None →
  wp (backup_step name g running cmd b) (λ o s', o = Done b ∧ spares (world s) (world s')) s.
Proof.
  unfold pair_of_step, backup_step. intros Hn.
  assert (∀ (m : Comp (Sys W) unit) s, moves spares m → finishes m →
    wp (m ;; ret b) (λ o s', o = Done b ∧ spares (world s) (world s')) s) as Hskip.
  { intros m s1 Hk Hf. apply wp_bind, (wp_moves spares); [done..|]. intros [] s2 _ H2. by apply wp_ret. }
  destruct (decide (CmdType cmd = "attach"));
    [destruct running; cbn [negb]|destruct (decide (CmdType cmd = "sleep")); [destruct running; cbn [negb]|]].
  - apply wp_bind, (wp_moves spares); [apply spares_SendCommand|solve_finishes|]. intros err s1 _ H1.
    eapply wp_mono; [apply Hskip; [destruct err; [apply spares_Log|solve_moves]|solve_finishes]|].
    intros o s2 [-> H2]. split; [done|]. by etrans.
  - apply Hskip; [apply spares_Log|solve_finishes].
  - apply Hskip; [solve_moves|solve_finishes].
  - by apply wp_ret.
  - destruct (decide (CmdType cmd = "backup")); [rewrite Hn|]; by apply wp_ret.
Qed.

Lemma backup_step_copy name g running cmd b src base s :
  pair_of_step cmd = Some (src, base) →
  backup_step name g running cmd b s = backup_copy name g src base b s.
Proof. unfold pair_of_step, backup_step. case_decide as E; [|done]. intros ->. by rewrite E. Qed.

Lemma pairs_snoc pre cmd : pairs (pre ++ [cmd]) = pairs pre ++ option_list (pair_of_step cmd).
Proof. apply omap_snoc. Qed.

Lemma pairs_split cmds pre cmd post q :
  cmds = pre ++ cmd :: post → pair_of_step cmd = Some q → pairs cmds = pairs pre ++ q :: pairs post.
Proof.
  intros -> Hq. unfold pairs. rewrite omap_app.
  change (omap pair_of_step (cmd :: post)) with
    (match pair_of_step cmd with Some y => y :: omap pair_of_step post | None => omap pair_of_step post end).
  by rewrite Hq.
Qed.

(** [w] is the world in which rsync copies [q] when the steps run from [s]. *)
Definition copied_in (name g : string) (running : bool) (cmds : list CmdConfig) s (q : string * string) (w : W) : Prop :=
  ∃ pre cmd post b sq, cmds = pre ++ cmd :: post ∧ pair_of_step cmd = Some q ∧
    for_fold (backup_step name g running) pre false s = (Done b, sq) ∧ w = copy_world q.2 sq.

(** All copies of a backup. *)
Lemma backup_steps_held name g running cmds s :
  separate (pairs cmds) → good_stamp g →
  (∀ q, q ∈ pairs cmds → private (generation_dir q.2 g)) →
  (∀ q w, copied_in name g running cmds s q w → calm q.1 w) →
  wp (for_fold (backup_step name g running) cmds false)
     (λ o s', ∃ b, o = Done b ∧
        (b = false → ∀ q, q ∈ pairs cmds → ∃ w, copied_in name g running cmds s q w ∧
           is_Some (held q.1 w) ∧ same (held (generation_dir q.2 g) (world s')) (held q.1 w))) s.
Proof.
  intros Hsep Hg Hpriv Hcalm. pose proof Hg as (Hg0 & Hg1 & _).
  eapply wp_mono; [apply (wp_for_fold _ (λ pre b s',
    for_fold (backup_step name g running) pre false s = (Done b, s') ∧
    (b = false → ∀ q, q ∈ pairs pre → ∃ w, copied_in name g running cmds s q w ∧
       is_Some (held q.1 w) ∧ same (held (generation_dir q.2 g) (world s')) (held q.1 w))))|].
  - split; [done|]. by intros _ q ?%elem_of_nil.
  - intros pre cmd post b s1 Hall [Hrun Hdone]. rewrite pairs_snoc. apply wp_intro. intros o s2 E2.
    assert (∀ b', o = Done b' → for_fold (backup_step name g running) (pre ++ [cmd]) false s = (Done b', s2)) as Hrun'.
    { intros b' ->. by rewrite for_fold_snoc, (bind_done _ _ _ _ _ Hrun). }
    destruct (pair_of_step cmd) as [[src base]|] eqn:Hp; simpl.
    2: { destruct (wp_elim _ _ _ _ _ (backup_step_other name g running cmd b s1 Hp) E2) as [-> H2].
         exists b. split; [done|]. split; [by apply Hrun'|]. rewrite app_nil_r. intros Eb q Hq.
         destruct (Hdone Eb q Hq) as (w & Hw & Hs & Hh). exists w. split; [done|]. split; [done|].
         rewrite (H2 (generation_dir q.2 g)); [done|]. apply Hpriv. rewrite Hall. unfold pairs.
         rewrite omap_app. apply elem_of_app. by left. }
    pose proof (pairs_split _ _ _ _ _ Hall Hp) as Hps.
    assert ((src, base) ∈ pairs cmds) as Hin by (rewrite Hps; apply elem_of_app; right; by left).
    destruct (sep_rooted _ Hsep _ Hin) as [Hrs Hrb].
    rewrite (backup_step_copy name g running cmd b src base s1 Hp) in E2.
    destruct (wp_elim _ _ _ _ _ (backup_copy_held name g src base b s1 Hrs Hrb Hg (Hpriv _ Hin)) E2)
      as (b' & -> & H2 & Hb').
    exists b'. split; [done|]. split; [by apply Hrun'|].
    assert (copied_in name g running cmds s (src, base) (copy_world base s1)) as Hci
      by (by exists pre, cmd, post, b, s1).
    intros E q [Hq| ->%list_elem_of_singleton]%elem_of_app; destruct (Hb' E) as [Eb Hheld].
    + destruct (Hdone Eb q Hq) as (w & Hw & Hs & Hh). exists w. split; [done|]. split; [done|].
      assert (q ∈ pairs cmds) as Hqc by (rewrite Hps; apply elem_of_app; by left).
      rewrite (H2 (generation_dir q.2 g) (Hpriv q Hqc)); [done|].
      destruct (sep_pairs _ Hsep _ _ _ q Hps Hq) as [_ Ha].
      apply apart_sym, apart_dir; [by apply (sep_rooted _ Hsep)|done..|by apply apart_sym].
    + exists (copy_world base s1). split; [done|]. apply Hheld. by apply (Hcalm (src, base)).
  - intros o s' (b & -> & _ & H). by exists b.
Qed.
(** ** Restore *)

Lemma restore_step_other name g cmd b s :
  pair_of_step cmd = None → restore_step name g cmd b s = (Done b, s).
Proof.
  unfold pair_of_step, restore_step. intros Hn. destruct (decide (CmdType cmd = "backup")) as [E|E].
  - rewrite decide_False by naive_solver. by rewrite Hn.
  - by rewrite decide_True.
Qed.

(** One step: if the generation was there and the flag stays down, the source
    becomes like the generation; what is apart from the source and calm stays. *)
Lemma restore_step_held name g cmd b src base s :
  pair_of_step cmd = Some (src, base) → is_rooted src = true → is_rooted base = true → g ≠ "" →
  private (generation_dir base g) → calm src (world s) →
  is_Some (held (generation_dir base g) (world s)) →
  wp (restore_step name g cmd b)
     (λ o s', ∃ b', o = Done b' ∧
        (∀ p, calm p (world s) → calm p (world s') ∧ (apart p src → held p (world s') = held p (world s))) ∧
        (b' = false → b = false ∧ same (held src (world s')) (held (generation_dir base g) (world s)))) s.
Proof.
  intros Hp Hs Hb Hg Hpriv Hcalm Hsome. unfold pair_of_step in Hp. unfold restore_step.
  destruct (decide (CmdType cmd = "backup")) as [E|]; [|done]. rewrite decide_False by naive_solver.
  rewrite Hp. destruct (JoinPath_slash base g (rooted_ne _ Hb)) as [Ej|]; [|done].
  set (dir := JoinPath [base; g]) in *. fold (generation_dir base g) in Ej.
  assert (is_rooted dir = true) as Hr.
  { rewrite Ej, is_rooted_Clean. unfold generation_dir. by destruct (rooted_dir base g) as [->| ->]. }
  assert (∀ w, held dir w = held (generation_dir base g) w) as Hdir by (intros w; rewrite Ej; apply held_clean).
  assert (private dir) as Hpd by (intros w; rewrite Ej; apply calm_clean, Hpriv).
  rewrite <- Hdir in Hsome. unfold os_Stat. apply wp_bind, wp_call. intros st w1 E1.
  destruct (stat_finds dir (world s) Hsome) as [info Hi]. rewrite E1 in Hi. simpl in Hi. subst st.
  assert (calmly (world s) w1) as H1 by (intros p Hcp; pose proof (stat_held dir p (world s) Hcp) as H; by rewrite E1 in H).
  unfold exec_Run. apply wp_bind, wp_call. intros [out err] w2 E2. cbn [snd]. simpl in E2.
  change ["-avh"; "--delete"; dir +:+ "/"; src] with (["-avh"; "--delete"] ++ [dir +:+ "/"; src]) in E2.
  assert (rsync_options ["-avh"; "--delete"]) as Ho by by left.
  assert (∀ p, calm p (world s) → calm p w2 ∧ (apart p src → held p w2 = held p (world s))) as H2.
  { intros p Hcp. destruct (H1 p Hcp) as [Hh1 Hc1]. split.
    - pose proof (rsync_calm "rsync" (["-avh"; "--delete"] ++ [dir +:+ "/"; src]) p w1 Hc1) as H. by rewrite E2 in H.
    - intros Ha. pose proof (rsync_frame _ dir src p w1 Ho Hr Hs Ha Hc1) as H. rewrite E2 in H. simpl in H. congruence. }
  destruct err as [err|].
  - unfold Logf. apply wp_bind, (wp_moves calmly); [apply calm_Log|solve_finishes|]. intros [] s3 _ H3. apply wp_ret.
    exists true. split; [done|]. split; [|done]. intros p Hcp. destruct (H2 p Hcp) as [Hc2 Hh2].
    destruct (H3 p Hc2) as [Hh3 Hc3]. split; [done|]. intros Ha. rewrite Hh3. by apply Hh2.
  - apply wp_ret. exists b. split; [done|]. split; [exact H2|]. intros ->. split; [done|].
    destruct (H1 src Hcalm) as [_ Hc1].
    destruct (rsync_copies _ dir src out w1 w2 Ho Hr Hs (Hpd w1) Hc1 E2) as [_ Hh]. cbn [world].
    destruct (H1 dir (Hpd _)) as [Ed _]. by rewrite Ed, Hdir in Hh.
Qed.

(** All copies of a restore. *)
Lemma restore_steps_held name g cmds s :
  separate (pairs cmds) → good_stamp g →
  (∀ q, q ∈ pairs cmds → private (generation_dir q.2 g) ∧ calm q.1 (world s) ∧
     is_Some (held (generation_dir q.2 g) (world s))) →
  wp (for_fold (restore_step name g) cmds false)
     (λ o s', ∃ b, o = Done b ∧
        (∀ q, q ∈ pairs cmds → calm q.1 (world s')) ∧
        (b = false → ∀ q, q ∈ pairs cmds →
           same (held q.1 (world s')) (held (generation_dir q.2 g) (world s)))) s.
Proof.
  intros Hsep Hg Hthere. pose proof Hg as (Hg0 & Hg1 & _).
  eapply wp_mono; [apply (wp_for_fold _ (λ pre b s',
    (∀ q, q ∈ pairs cmds → calm q.1 (world s') ∧
       held (generation_dir q.2 g) (world s') = held (generation_dir q.2 g) (world s)) ∧
    (b = false → ∀ q, q ∈ pairs pre → same (held q.1 (world s')) (held (generation_dir q.2 g) (world s)))))|].
  - split; [intros q Hq; split; [by apply Hthere|done]|]. by intros _ q ?%elem_of_nil.
  - intros pre cmd post b s1 Hall [Hdirs Hdone]. rewrite pairs_snoc.
    destruct (pair_of_step cmd) as [[src base]|] eqn:Hp; simpl.
    2: { eapply wp_run; [by apply restore_step_other|]. exists b. by rewrite app_nil_r. }
    pose proof (pairs_split _ _ _ _ _ Hall Hp) as Hps.
    assert ((src, base) ∈ pairs cmds) as Hin by (rewrite Hps; apply elem_of_app; right; by left).
    destruct (sep_rooted _ Hsep _ Hin) as [Hrs Hrb]. destruct (Hdirs _ Hin) as [Hc1 Hd1].
    destruct (Hthere _ Hin) as (Hpriv & _ & Hsome). simpl in *.
    eapply wp_mono; [apply (restore_step_held name g cmd b src base s1 Hp Hrs Hrb)|]; try done.
    { by destruct Hg0. }
    { by rewrite Hd1. }
    intros o s2 (b' & -> & H2 & Hb'). exists b'. split; [done|]. split.
    + intros q Hq. destruct (Hthere q Hq) as (Hpq & _). destruct (Hdirs q Hq) as [Hcq Hdq].
      split; [by apply (H2 q.1)|]. destruct (H2 _ (Hpq (world s1))) as [_ Hkeep]. rewrite Hkeep; [done|].
      apply apart_sym, apart_dir; [by apply (sep_rooted _ Hsep)|done..|]. by apply (sep_apart _ Hsep (src, base) q).
    + intros E q [Hq| ->%list_elem_of_singleton]%elem_of_app; destruct (Hb' E) as [-> Hheld].
      * assert (q ∈ pairs cmds) as Hqc by (rewrite Hps; apply elem_of_app; by left).
        destruct (Hdirs q Hqc) as [Hcq _]. destruct (H2 _ Hcq) as [_ ->]; [by apply Hdone|].
        by destruct (sep_pairs _ Hsep _ _ _ q Hps Hq).
      * simpl. by rewrite <- Hd1.
  - intros o s' (b & -> & H1 & H). exists b. split; [done|]. split; [by intros q Hq; apply H1|done].
Qed.

(** ** The operations *)

(** What [Backup] does before its first step. *)
Definition backup_start (name : string) : Comp (Sys W) (DateTime * bool) :=
  Get ;;
  now <- time_Now ;;
  r <- dk_Inspect name ;;
  ret (now, match r with inr inspect => Running inspect | inl _ => false end).

(** [w] is the world in which rsync copies [q] when [Backup] runs from [s]. *)
Definition copied_at (name : string) (cmds : list CmdConfig) s (q : string * string) (w : W) : Prop :=
  ∃ now running s4, backup_start name s = (Done (now, running), s4) ∧
    copied_in name (FormatStamp now) running cmds s4 q w.

Lemma backup_steps_appends name g running cmds :
  emits (W := W) (λ _, True) (for_fold (backup_step name g running) cmds false).
Proof. unfold backup_step, backup_copy. solve_emits. Qed.

Lemma Backup_held name srv s s1 :
  Servers (cfg_Config (get_outcome s)) !! name = Some srv → separate (pairs (Config.Backup (Commands srv))) →
  (∀ q g, q ∈ pairs (Config.Backup (Commands srv)) → good_stamp g → private (generation_dir q.2 g)) →
  (∀ q w, copied_at name (Config.Backup (Commands srv)) s q w → calm q.1 w) →
  Backup name s = (Done None, s1) →
  ∃ now, EvNow now ∈ events s1 ∧ ∀ q, q ∈ pairs (Config.Backup (Commands srv)) →
    ∃ w, copied_at name (Config.Backup (Commands srv)) s q w ∧ is_Some (held q.1 w) ∧
      same (held (generation_dir q.2 (FormatStamp now)) (world s1)) (held q.1 w).
Proof.
  intros Hsrv Hsep Hpriv Hcalm Hrun.
  destruct (Get s) as [og sg] eqn:Eg. destruct (Get_inv _ _ _ Eg) as [Hc Hl]. subst og.
  destruct (time_Now sg) as [on sn] eqn:En. unfold time_Now, call in En.
  destruct (Now (world sg)) as [now wn] eqn:En'. injection En as <- <-.
  destruct (dk_Inspect name (mkSys wn (loaded sg) (events sg ++ [EvNow now]))) as [oi s4] eqn:Ei.
  pose proof Ei as Ei'. change (dk_Inspect name) with (call (ContainerInspect name) (EvInspect name)) in Ei'.
  unfold call in Ei'. destruct (ContainerInspect name _) as [r wi] eqn:Ei2. injection Ei' as <- Hs4.
  set (running := match r with inr inspect => Running inspect | inl _ => false end).
  assert (backup_start name s = (Done (now, running), s4)) as Hstart.
  { unfold backup_start. rewrite (bind_done _ _ _ _ _ Eg). unfold time_Now. erewrite bind_done by (by apply call_run).
    by rewrite (bind_done _ _ _ _ _ Ei). }
  unfold Backup in Hrun. rewrite (bind_done _ _ _ _ _ Eg), Hl, Hsrv in Hrun. unfold time_Now in Hrun.
  erewrite bind_done in Hrun by (by apply call_run). rewrite (bind_done _ _ _ _ _ Ei) in Hrun.
  change (match r with inr _ => _ | inl _ => _ end) with running in Hrun. cbv zeta in Hrun.
  assert (∀ q w, copied_in name (FormatStamp now) running (Config.Backup (Commands srv)) s4 q w →
    copied_at name (Config.Backup (Commands srv)) s q w) as Hat by (intros q w ?; by exists now, running, s4).
  go_inv Hrun.
  destruct (wp_elim _ _ _ _ _ (backup_steps_held name (FormatStamp now) running _ s4 Hsep (FormatStamp_good now)
    (λ q Hq, Hpriv q _ Hq (FormatStamp_good now)) (λ q w Hw, Hcalm q w (Hat q w Hw))) Hrun0) as (b & [= ->] & Hb).
  destruct (emits_run _ _ _ _ _ (backup_steps_appends name (FormatStamp now) running _) Hrun0) as (t & Ht & _).
  destruct b; [done|]. go_inv Hrest. injection Hrest0 as <-.
  exists now. split.
  - destruct (emits_run _ _ _ _ _ (emits_Log (λ _, True) _ _ _ (λ _, I) (λ _, I)) Hrun) as (t' & -> & _).
    rewrite Ht, <- Hs4. simpl. in_record.
  - intros q Hq. destruct (Hb eq_refl q Hq) as (w & Hw & Hsome & Hh). exists w. split; [by apply Hat|]. split; [done|].
    pose proof (spares_Log "Internal" "Container" (Sprintf "バックアップが完了しました: %s" [name]) s0) as HL.
    unfold Logf in Hrun. rewrite Hrun in HL. simpl in HL. rewrite (HL _ (Hpriv q _ Hq (FormatStamp_good now))). done.
Qed.
Lemma Restore_held name srv g s s1 :
  Servers (cfg_Config (get_outcome s)) !! name = Some srv → separate (pairs (Config.Backup (Commands srv))) →
  good_stamp g →
  (∀ q, q ∈ pairs (Config.Backup (Commands srv)) → private (generation_dir q.2 g) ∧ calm q.1 (world s) ∧
     is_Some (held (generation_dir q.2 g) (world s))) →
  Restore name g s = (Done None, s1) →
  ∀ q, q ∈ pairs (Config.Backup (Commands srv)) →
    same (held q.1 (world s1)) (held (generation_dir q.2 g) (world s)).
Proof.
  intros Hsrv Hsep Hg Hthere Hrun. revert Hrun.
  enough (wp (Restore name g) (λ o s1, o = Done None → ∀ q, q ∈ pairs (Config.Backup (Commands srv)) →
    same (held q.1 (world s1)) (held (generation_dir q.2 g) (world s))) s) as H.
  { intros Hrun. by apply (wp_elim _ _ _ _ _ H Hrun). }
  unfold Restore. rewrite decide_False by (by destruct Hg as ((? & _) & _)).
  apply wp_bind, (wp_moves calmly); [apply calm_Get|apply Get_finishes|]. intros cfg s2 E2 H2.
  destruct (Get_inv _ _ _ E2) as [Hc Hl]. injection Hc as ->. rewrite Hl, Hsrv.
  apply wp_bind, (wp_moves calmly); [solve_moves|solve_finishes|]. intros r s3 _ H3.
  assert (calmly (world s) (world s3)) as H23 by by etrans.
  destruct (match r with inr ins => Running ins | inl _ => false end); [by apply wp_ret|].
  apply wp_bind. apply wp_intro. intros o s4 E4.
  assert (∀ q, q ∈ pairs (Config.Backup (Commands srv)) → private (generation_dir q.2 g) ∧ calm q.1 (world s3) ∧
    is_Some (held (generation_dir q.2 g) (world s3))) as Hthere3.
  { intros q Hq. destruct (Hthere q Hq) as (Hp & Hcq & Hsome). split; [done|].
    split; [by apply H23|]. by rewrite (calmly_spares _ _ H23 _ Hp). }
  destruct (wp_elim _ _ _ _ _ (restore_steps_held name g _ s3 Hsep Hg Hthere3) E4) as (b & -> & Hc4 & Hb).
  destruct b; [by apply wp_ret|].
  unfold Logf. apply wp_bind, (wp_moves calmly); [apply calm_Log|solve_finishes|]. intros [] s5 _ H5.
  apply wp_ret. intros _ q Hq. destruct (H5 _ (Hc4 q Hq)) as [-> _]. rewrite (Hb eq_refl q Hq).
  destruct (Hthere q Hq) as (Hp & _). by rewrite (calmly_spares _ _ H23 _ Hp).
Qed.

(** C10: the generation a successful backup made brings the data back.  When the
    paths of the configuration are absolute and separate from each other, nobody
    else writes to the backup directories, and nobody writes to a source while it
    is copied or restored, then a restore of that generation that reports success,
    with the copies and the server's backup steps as they were, leaves in every
    source directory what it held when the backup copied it, as far as rsync
    tells: the same files with the same sizes and times. *)
Theorem backup_restore_roundtrip name srv s s1 :
  Servers (cfg_Config (get_outcome s)) !! name = Some srv →
  separate (pairs (Config.Backup (Commands srv))) →
  (∀ q g, q ∈ pairs (Config.Backup (Commands srv)) → good_stamp g → private (generation_dir q.2 g)) →
  (∀ q w, copied_at name (Config.Backup (Commands srv)) s q w → calm q.1 w) →
  Backup name s = (Done None, s1) →
  ∃ now, EvNow now ∈ events s1 ∧ ∀ s2 s3 srv',
    Servers (cfg_Config (get_outcome s2)) !! name = Some srv' →
    Config.Backup (Commands srv') = Config.Backup (Commands srv) →
    (∀ q, q ∈ pairs (Config.Backup (Commands srv)) → calm q.1 (world s2) ∧
       held (generation_dir q.2 (FormatStamp now)) (world s2) = held (generation_dir q.2 (FormatStamp now)) (world s1)) →
    Restore name (FormatStamp now) s2 = (Done None, s3) →
    ∀ q, q ∈ pairs (Config.Backup (Commands srv)) →
      ∃ w, copied_at name (Config.Backup (Commands srv)) s q w ∧
        is_Some (held q.1 w) ∧ same (held q.1 (world s3)) (held q.1 w).
Proof.
  intros Hsrv Hsep Hpriv Hcalm Hb.
  destruct (Backup_held name srv s s1 Hsrv Hsep Hpriv Hcalm Hb) as (now & Hnow & Hheld).
  exists now. split; [done|]. intros s2 s3 srv' Hsrv' Heq Hsame Hr q Hq.
  destruct (Hheld q Hq) as (w & Hw & Hsome & Hh). exists w. split; [done|]. split; [done|].
  rewrite <- Heq in Hsep, Hq. rewrite (Restore_held name srv' _ s2 s3 Hsrv' Hsep (FormatStamp_good now)); try done.
  - rewrite Heq in Hq. destruct (Hsame q Hq) as [_ ->]. exact Hh.
  - intros q' Hq'. rewrite Heq in Hq'. destruct (Hsame q' Hq') as [Hc ->].
    split; [by apply Hpriv, FormatStamp_good|]. split; [done|].
    destruct (Hheld q' Hq') as (w' & _ & [t Ht] & Hh'). rewrite Ht in Hh'. inversion Hh'. by eexists.
Qed.
End RoundTrip.

(** * The disk of the examples satisfies the interface *)

Lemma on_container_disk {A} id (f : InspectResponse → A * option InspectResponse) missing w :
  t_disk (on_container id f missing w).2 = t_disk w.
Proof. unfold on_container. destruct (t_engine w !! id); [|done]. by destruct (f i). Qed.

Lemma toy_run_copy opts src dst w :
  rsync_options opts → is_rooted src = true →
  toy_run (opts ++ [src +:+ "/"; dst]) w =
    match t_disk w !! Clean src with
    | Some t => (("", None), set_disk (<[Clean dst := t]> (t_disk w)) w)
    | None => (("", Some (ErrExt false "exit status 23")), w)
    end.
Proof.
  intros Ho Hs. unfold toy_run. rewrite reverse_app. simpl. rewrite Clean_slash by by apply rooted_ne. done.
Qed.

#[export] Instance toy_disk_laws : Disk Toy.
Proof.
  refine {| tree := string; alike := eq; held p w := t_disk w !! Clean p; calm _ _ := True |}; try done;
    try (intros; simpl; by rewrite ?on_container_disk).
  - intros p w. by rewrite Clean_idempotent.
  - intros p w [t Ht]. simpl. unfold toy_stat. case_decide; [by eexists|]. rewrite Ht.
    destruct (t_dirs w !! p); by eexists.
  - intros opts src dst out w w' Ho Hs _ _ _. cbn [RunCommand toy_os]. rewrite (toy_run_copy opts src dst w Ho Hs).
    destruct (t_disk w !! Clean src) as [t|] eqn:E; [|done]. intros [= <- <-]. split; [by eexists|].
    simpl. rewrite lookup_insert_eq. reflexivity.
  - intros opts src dst p w Ho Hs _ [Ha _] _. cbn [RunCommand toy_os]. rewrite (toy_run_copy opts src dst w Ho Hs).
    destruct (t_disk w !! Clean src) as [t|]; [|done]. simpl. rewrite lookup_insert_ne; [done|].
    intros E. apply Ha. rewrite E. apply within_refl.
Defined.

(** * At a concrete input *)

Definition mc1_backup : Sys Toy := (Manager.Backup "mc1" toy_sys).2.

(** The data changes after the backup. *)
Definition mc1_damaged : Sys Toy :=
  mkSys (set_disk (<["/srv/mc1/data" := "griefed"]> (t_disk (world mc1_backup))) (world mc1_backup))
    (loaded mc1_backup) (events mc1_backup).

Lemma mc1_separate : separate (pairs (Config.Backup (Commands mc1_config))).
Proof.
  change (pairs (Config.Backup (Commands mc1_config))) with [("/srv/mc1/data", "/backup/mc1")].
  split.
  - intros q ->%list_elem_of_singleton. done.
  - intros p q ->%list_elem_of_singleton ->%list_elem_of_singleton. decided.
  - intros pre p post q E Hq. destruct pre as [|x [|]]; [by apply elem_of_nil in Hq|discriminate E..].
Qed.

Lemma backup_restore_roundtrip_witness :
  ∃ s3 w, Manager.Restore "mc1" "20250309_040506" mc1_damaged = (Done None, s3) ∧
    copied_at "mc1" (Config.Backup (Commands mc1_config)) toy_sys ("/srv/mc1/data", "/backup/mc1") w ∧
    held "/srv/mc1/data" (world s3) = held "/srv/mc1/data" w.
Proof.
  destruct (backup_restore_roundtrip "mc1" mc1_config toy_sys mc1_backup) as (now & Hnow & H).
  - reflexivity.
  - exact mc1_separate.
  - intros q g _ _ w. exact I.
  - intros q w _. exact I.
  - vm_compute. reflexivity.
  - assert (now = mkDateTime 2025 3 9 4 5 6) as ->.
    { revert Hnow. vm_compute. intros Hnow.
      repeat (apply elem_of_cons in Hnow as [Hnow|Hnow]; [first [by injection Hnow as -> | discriminate Hnow]|]).
      by apply elem_of_nil in Hnow. }
    exists (Manager.Restore "mc1" "20250309_040506" mc1_damaged).2.
    destruct (H mc1_damaged (Manager.Restore "mc1" "20250309_040506" mc1_damaged).2 mc1_config) with
      (q := ("/srv/mc1/data", "/backup/mc1")) as (w & Hw & _ & E).
    + reflexivity.
    + reflexivity.
    + intros q Hq. change (pairs _) with [("/srv/mc1/data", "/backup/mc1")] in Hq.
      apply list_elem_of_singleton in Hq. subst q. split; [exact I|]. vm_compute. reflexivity.
    + vm_compute. reflexivity.
    + change (pairs _) with [("/srv/mc1/data", "/backup/mc1")]. by left.
    + exists w. split; [vm_compute; reflexivity|]. split; [exact Hw|].
      assert (∀ o o' : option string, option_Forall2 eq o o' → o = o') as Hq by (intros ? ? []; congruence).
      by apply Hq.
Defined.
