(* ===== verification/Discord.v ===== *)
(** [internal/discord/bot.go] and [service.go]: the bot sessions and slash
    commands, and the chat bridge.  The forwarding of logs is in [Forwarder]. *)

From S2P Require Import Prelude GoStrings GoPath GoTime Config World ConfigLoad Docker Container.

(** * State *)

(** A goroutine that runs [tailContainerLogs], known by its context. *)
Record Tailer := mkTailer { ctx : nat; tailServer : string; tailSetting : string; tailWebhook : string }.

(** [forwarderState]: the context [cancel] ends, and the settings it was started with. *)
Record forwarderState := mkForwarderState { cancel : nat; logSetting : string; webhookURL : string }.

(** [BotManager].  A nil session is kept apart from a missing one.  The goroutines
    started and the contexts cancelled so far are part of the state. *)
Record BotManager (W : Type) := mkBotManager {
  bsys : Sys W;
  Sessions : gmap string (option Session);
  ChannelToServer : gmap string string;
  ChannelUpdatedAt : Z;
  ActiveForwarders : gmap string forwarderState;
  goroutines : list Tailer;
  cancelled : gset nat;
  nextCtx : nat;
}.
Arguments mkBotManager {W} _ _ _ _ _ _ _ _.
Arguments bsys {W} _.
Arguments Sessions {W} _.
Arguments ChannelToServer {W} _.
Arguments ChannelUpdatedAt {W} _.
Arguments ActiveForwarders {W} _.
Arguments goroutines {W} _.
Arguments cancelled {W} _.
Arguments nextCtx {W} _.

Definition NewBotManager {W} (s : Sys W) : BotManager W := mkBotManager s ∅ ∅ 0 ∅ [] ∅ 0.

Section Setters.
Context {W : Type}.
Definition set_bsys (s : Sys W) (m : BotManager W) : BotManager W :=
  mkBotManager s (Sessions m) (ChannelToServer m) (ChannelUpdatedAt m) (ActiveForwarders m)
    (goroutines m) (cancelled m) (nextCtx m).
Definition set_Sessions (v : gmap string (option Session)) (m : BotManager W) : BotManager W :=
  mkBotManager (bsys m) v (ChannelToServer m) (ChannelUpdatedAt m) (ActiveForwarders m)
    (goroutines m) (cancelled m) (nextCtx m).
Definition set_ChannelToServer (v : gmap string string) (m : BotManager W) : BotManager W :=
  mkBotManager (bsys m) (Sessions m) v (ChannelUpdatedAt m) (ActiveForwarders m)
    (goroutines m) (cancelled m) (nextCtx m).
Definition set_ChannelUpdatedAt (v : Z) (m : BotManager W) : BotManager W :=
  mkBotManager (bsys m) (Sessions m) (ChannelToServer m) v (ActiveForwarders m)
    (goroutines m) (cancelled m) (nextCtx m).
Definition set_ActiveForwarders (v : gmap string forwarderState) (m : BotManager W) : BotManager W :=
  mkBotManager (bsys m) (Sessions m) (ChannelToServer m) (ChannelUpdatedAt m) v
    (goroutines m) (cancelled m) (nextCtx m).

(** [state.cancel()] *)
Definition cancel_ctx (c : nat) (m : BotManager W) : BotManager W :=
  mkBotManager (bsys m) (Sessions m) (ChannelToServer m) (ChannelUpdatedAt m) (ActiveForwarders m)
    (goroutines m) ({[c]} ∪ cancelled m) (nextCtx m).

(** [context.WithCancel], the new entry, and [go m.tailContainerLogs(...)]. *)
Definition start_forwarder (name setting url : string) (m : BotManager W) : BotManager W :=
  mkBotManager (bsys m) (Sessions m) (ChannelToServer m) (ChannelUpdatedAt m)
    (<[name := mkForwarderState (nextCtx m) setting url]> (ActiveForwarders m))
    (goroutines m ++ [mkTailer (nextCtx m) name setting url]) (cancelled m) (S (nextCtx m)).
End Setters.

(** * Strings *)

(** [strings.ReplaceAll] for a text to find that is not empty: [skip] counts the
    bytes of an occurrence still to be passed over. *)
Fixpoint replace_from (skip : nat) (s old new : string) : string :=
  match s with
  | "" => ""
  | String c s' =>
      match skip with
      | S k => replace_from k s' old new
      | 0 => if String.prefix old s then new +:+ replace_from (String.length old - 1) s' old new
             else String c (replace_from 0 s' old new)
      end
  end.

Definition ReplaceAll (s old new : string) : string := replace_from 0 s old new.

(** [token[len(token)-4:]], out of range on a shorter token. *)
Definition token_tail {S} (token : string) : Comp S string :=
  if decide (String.length token < 4) then panic "slice bounds out of range"
  else ret (String.substring (String.length token - 4) 4 token).

(** * Bots *)

(** What [SyncBots] reads off the configured servers, in the order it ranges over
    them: the server of each channel and the set of tokens. *)
Definition add_bot (kv : string * ServerConfig) (acc : gmap string string * gmap string bool)
    : gmap string string * gmap string bool :=
  let '(serverName, serverCfg) := kv in
  let '(channels, tokens) := acc in
  match Discord serverCfg with
  | None => acc
  | Some d =>
      (if decide (Channel d ≠ "") then <[Channel d := serverName]> channels else channels,
       if decide (Token d ≠ "") then <[Token d := true]> tokens else tokens)
  end.

Definition bots_of (servers : list (string * ServerConfig)) : gmap string string * gmap string bool :=
  foldl (λ acc kv, add_bot kv acc) (∅, ∅) servers.

(** [commands] of [registerCommands] *)
Definition bot_commands : list ApplicationCommand :=
  [mkApplicationCommand "action" "コンテナに対する操作（起動・停止・バックアップ等）を実行します"
     [mkApplicationCommandOption "type" "実行するアクションを選択" true
        ["start"; "stop"; "backup"; "restore"; "kill"; "remove"];
      mkApplicationCommandOption "generation" "復元するバックアップ世代（restore時は必須）" false []];
   mkApplicationCommand "backups" "バックアップ世代の一覧を表示します" [];
   mkApplicationCommand "cmd" "サーバーコンソールにコマンドを送信します"
     [mkApplicationCommandOption "text" "送信するコマンド文字列" true []]].

Section Bots.
Context {W : Type} `{!Docker W, !OS W, !MapRange W, !DiscordClient W}.

Definition on_sys {A} (m : Comp (Sys W) A) : Comp (BotManager W) A := zoom bsys set_bsys m.

Definition registerCommands (dg : Session) : Comp (Sys W) unit :=
  for_each (λ cmd,
    err <- dgo_Command dg cmd ;;
    match err with
    | Some err => Logf "External" "Discord" "コマンド登録失敗 (%s, session=%s): %v" [cmdName cmd; StateUserID dg; show_error err]
    | None => ret tt
    end) bot_commands.

(** The body of the loop that starts sessions. *)
Definition start_session (token : string) : Comp (BotManager W) unit :=
  sessions <- gets Sessions ;;
  let shouldStart := match sessions !! token with Some (Some _) => false | _ => true end in
  if negb shouldStart then ret tt
  else
    n <- on_sys (dgo_New ("Bot " +:+ token)) ;;
    match n with
    | inl err => on_sys (Logf "External" "Discord" "セッション作成失敗: %v" [show_error err])
    | inr dg =>
        err <- on_sys (dgo_Open dg) ;;
        match err with
        | Some err =>
            tail <- token_tail token ;;
            on_sys (Logf "External" "Discord" "接続オープン失敗 (token終端: ...%s): %v" [tail; show_error err]) ;;
            modify (λ m, set_Sessions (<[token := None]> (Sessions m)) m)
        | None =>
            on_sys (registerCommands dg) ;;
            modify (λ m, set_Sessions (<[token := Some dg]> (Sessions m)) m) ;;
            tail <- token_tail token ;;
            on_sys (Logf "Internal" "Discord" "Botを開始しました (token終端: ...%s)" [tail])
        end
    end.

(** The body of the loop that removes sessions. *)
Definition stop_session (active : gmap string bool) (kv : string * option Session) : Comp (BotManager W) unit :=
  let '(token, session) := kv in
  if default false (active !! token) then ret tt
  else
    match session with Some dg => on_sys (dgo_Close dg) | None => ret tt end ;;
    modify (λ m, set_Sessions (delete token (Sessions m)) m) ;;
    tail <- token_tail token ;;
    on_sys (Logf "Internal" "Discord" "Botを停止しました (token終端: ...%s)" [tail]).

Definition SyncBots : Comp (BotManager W) unit :=
  cfg <- on_sys Get ;;
  m <- gets (λ m, m) ;;
  let needsUpdate := bool_decide (ChannelUpdatedAt m < LastLoaded (loaded (bsys m)))%Z in
  if negb needsUpdate then ret tt
  else
    modify (λ m, set_ChannelUpdatedAt (LastLoaded (loaded (bsys m))) m) ;;
    servers <- on_sys (range_map (Servers cfg)) ;;
    let '(channels, active) := bots_of servers in
    modify (set_ChannelToServer channels) ;;
    tokens <- on_sys (range_map active) ;;
    for_each (λ kv, start_session kv.1) tokens ;;
    sessions <- gets Sessions ;;
    old <- on_sys (range_map sessions) ;;
    for_each (stop_session active) old.

(** [runBotManager] over a number of ticks. *)
Fixpoint runBotManager (ticks : nat) : Comp (BotManager W) unit :=
  match ticks with
  | 0 => SyncBots
  | S n => SyncBots ;; runBotManager n
  end.
End Bots.

(** * Slash commands *)

(** The fields of an interaction the handler reads; the options are given by
    their string values. *)
Record Interaction := mkInteraction {
  InteractionChannel : string;
  MemberUser : option string;
  DirectUser : option string;
  CommandName : string;
  Options : list string;
}.

Definition user_id (i : Interaction) : string :=
  match MemberUser i with
  | Some id => id
  | None => default "" (DirectUser i)
  end.

(** [Options[0].StringValue()] *)
Definition option0 {S} (i : Interaction) : Comp S string :=
  match Options i with
  | [] => panic "index out of range"
  | o :: _ => ret o
  end.

(** The loop over [cfg.Users]: it stops at the first user with the ID. *)
Fixpoint discord_allowed (userID serverName requiredPerm : string) (users : list (string * UserConfig)) : bool :=
  match users with
  | [] => false
  | (_, u) :: rest =>
      if decide (UserDiscord u = userID) then HasPermission u serverName requiredPerm
      else discord_allowed userID serverName requiredPerm rest
  end.

(** The package has its own copy of the function of [internal/api]. *)
Module Bot.
Definition containerToPerm (a : Action) : string :=
  if decide (a = ActionStart) then PermContainerStart
  else if decide (a = ActionStop) then PermContainerStop
  else if decide (a = ActionKill) then PermContainerKill
  else if decide (a = ActionBackup) then PermContainerBackup
  else if decide (a = ActionRemove) then PermContainerRemove
  else PermContainerExecute.
End Bot.

Definition colorError : Z := 16722217.
Definition colorSuccess : Z := 7258631.
Definition colorInfo : Z := 45311.

Definition interactionErrorEmbed (act : string) (err : error) : MessageEmbed :=
  mkMessageEmbed colorError (Sprintf "実行エラー: %s" [act]) (ErrorText err).

Definition interactionSuccessEmbed (act desc : string) : MessageEmbed :=
  mkMessageEmbed colorSuccess (Sprintf "実行成功: %s" [act]) desc.

(** The text of [/backups]: twenty generations, and how many more there are. *)
Fixpoint list_text (idx : nat) (total : nat) (generations : list string) : string :=
  match generations with
  | [] => ""
  | g :: gs =>
      if decide (20 ≤ idx) then
        newline +:+ Sprintf "...他 %d 件" [show_int (Z.of_nat total - 20)]
      else Sprintf "`%s`" [g] +:+ newline +:+ list_text (S idx) total gs
  end.

Section Commands.
Context {W : Type} `{!Docker W, !OS W, !MapRange W, !DiscordClient W}.

Definition required_perm (i : Interaction) : Comp (BotManager W) string :=
  if decide (CommandName i = "action") then
    act <- option0 i ;; ret (Bot.containerToPerm act)
  else if decide (CommandName i = "backups") then ret PermContainerRead
  else if decide (CommandName i = "cmd") then ret PermContainerWrite
  else ret PermContainerRead.

Definition action_command (i : Interaction) (userID serverName : string) : Comp (Sys W) unit :=
  act <- option0 i ;;
  Logf "Client" "Discord" "アクション実行: user=%s, action=%s, target=%s" [userID; act; serverName] ;;
  let generation := match Options i with _ :: g :: _ => g | _ => "" end in
  if decide (act = "restore" ∧ generation = "") then
    dgo_Edit (interactionErrorEmbed act
      (Errorf "世代の指定が必要です。/backups で一覧を確認してください" []))
  else
    actionErr <- (if decide (act = "restore") then Manager.Restore serverName generation
                  else Manager.ExecuteAction serverName act) ;;
    match actionErr with
    | Some err => dgo_Edit (interactionErrorEmbed act err)
    | None => dgo_Edit (interactionSuccessEmbed act "実行が完了しました")
    end.

Definition backups_command (serverName : string) : Comp (Sys W) unit :=
  g <- Manager.ListBackupGenerations serverName ;;
  match g with
  | inl err => dgo_Edit (interactionErrorEmbed "backups" err)
  | inr [] => dgo_Edit (interactionSuccessEmbed "backups" "バックアップが見つかりません")
  | inr generations =>
      dgo_Edit (mkMessageEmbed colorInfo (Sprintf "バックアップ一覧: %s" [serverName])
                  (list_text 0 (length generations) generations))
  end.

Definition cmd_command (i : Interaction) (userID serverName : string) : Comp (Sys W) unit :=
  text <- option0 i ;;
  Logf "Client" "Discord" "コマンド送信: user=%s, target=%s, text=%s" [userID; serverName; text] ;;
  err <- SendCommand serverName (text +:+ newline) ;;
  match err with
  | Some err => dgo_Edit (interactionErrorEmbed "command" err)
  | None => dgo_Edit (interactionSuccessEmbed "command" "コマンドを送信しました")
  end.

Definition onInteractionCreate (i : Interaction) : Comp (BotManager W) unit :=
  channels <- gets ChannelToServer ;;
  match channels !! InteractionChannel i with
  | None => ret tt
  | Some serverName =>
      cfg <- on_sys Get ;;
      let userID := user_id i in
      requiredPerm <- required_perm i ;;
      users <- on_sys (range_map (Users cfg)) ;;
      if negb (discord_allowed userID serverName requiredPerm users) then
        on_sys (Logf "Client" "Discord" "不正アクセス試行: user=%s, target=%s, perm=%s"
                  [userID; serverName; requiredPerm]) ;;
        on_sys (dgo_Respond (RespondEphemeral
          (Sprintf "あなたにはこのサーバーに対する %s 権限がありません。" [requiredPerm]))) ;;
        ret tt
      else
        err <- on_sys (dgo_Respond RespondDeferred) ;;
        match err with
        | Some err => on_sys (Logf "External" "Discord" "インタラクション応答失敗: %v" [show_error err])
        | None =>
            if decide (CommandName i = "action") then on_sys (action_command i userID serverName)
            else if decide (CommandName i = "backups") then on_sys (backups_command serverName)
            else if decide (CommandName i = "cmd") then on_sys (cmd_command i userID serverName)
            else ret tt
        end
  end.

(** * Chat bridge *)

(** The fields of a message the handler reads. *)
Record Message := mkMessage {
  AuthorBot : bool; AuthorID : string; AuthorName : string; MessageChannel : string; Content : string;
}.

Definition bridge_text (template : string) (msg : Message) : string :=
  ReplaceAll (ReplaceAll template "${user}" (AuthorName msg)) "${message}" (Content msg).

Definition onMessageCreate (dg : Session) (msg : Message) : Comp (BotManager W) unit :=
  if AuthorBot msg || bool_decide (AuthorID msg = StateUserID dg) then ret tt
  else
    channels <- gets ChannelToServer ;;
    match channels !! MessageChannel msg with
    | None => ret tt
    | Some serverName =>
        cfg <- on_sys Get ;;
        let serverCfg := default zero_ServerConfig (Servers cfg !! serverName) in
        match Config.Message (Commands serverCfg) with
        | None => ret tt
        | Some template =>
            if decide (template = "") then ret tt
            else on_sys (SendCommand serverName (bridge_text template msg +:+ newline)) ;; ret tt
        end
    end.
End Commands.
