(* ===== verification/DiscordSpec.v ===== *)
(** What the Discord integration promises: who may run a command, which sessions
    a synchronisation leaves, and what reaches a console through the chat. *)

From S2P Require Import Prelude GoStrings GoPath GoTime Config World TestBed ConfigLoad Docker Container Discord.

(** * Running a handler *)

Section OnSys.
Context {W : Type} `{!DockerClient W, !OS W, !MapRange W, !DiscordClient W}.
Implicit Types m : BotManager W.

Lemma wp_on_sys {A} (c : Comp (Sys W) A) (Q : Outcome A → BotManager W → Prop) m :
  wp c (λ o s', Q o (set_bsys s' m)) (bsys m) → wp (on_sys c) Q m.
Proof. unfold wp, on_sys, zoom. by destruct (c (bsys m)). Qed.

Lemma wp_bot_gets {A} (f : BotManager W → A) Q m : Q (Done (f m)) m → wp (gets f) Q m.
Proof. done. Qed.

Lemma wp_bot_modify (f : BotManager W → BotManager W) Q m : Q (Done tt) (f m) → wp (modify f) Q m.
Proof. done. Qed.

Lemma finishes_on_sys {A} (c : Comp (Sys W) A) : finishes c → finishes (on_sys c).
Proof. apply finishes_zoom. Qed.
End OnSys.

#[export] Hint Resolve finishes_on_sys : finishes.

(** One step of a handler under a postcondition. *)
Ltac bot_step :=
  lazymatch goal with
  | |- wp (on_sys _) _ _ => apply wp_on_sys
  | |- wp (gets _) _ _ => apply wp_bot_gets
  | |- wp (modify _) _ _ => apply wp_bot_modify
  | |- _ => wp_step
  end; cbn [bsys set_bsys Sessions ChannelToServer ChannelUpdatedAt ActiveForwarders] in *.

(** * Slash commands *)

(** The permission a command needs, as a function. *)
Definition perm_of (i : Interaction) : string :=
  if decide (CommandName i = "action") then Bot.containerToPerm (default "" (head (Options i)))
  else if decide (CommandName i = "backups") then PermContainerRead
  else if decide (CommandName i = "cmd") then PermContainerWrite
  else PermContainerRead.

(** Discord sends an interaction with the options the command was registered to
    require. *)
Definition well_formed (i : Interaction) : Prop :=
  ∀ c, c ∈ bot_commands → cmdName c = CommandName i →
    length (filter (λ o, Required o = true) (cmdOptions c)) ≤ length (Options i).

Lemma well_formed_options i :
  well_formed i → CommandName i = "action" ∨ CommandName i = "cmd" → Options i ≠ [].
Proof.
  intros Hw Hn Ho. unfold well_formed in Hw. rewrite Ho in Hw.
  destruct Hn as [Hn|Hn]; rewrite Hn in Hw.
  - pose proof (Hw _ ltac:(by left) eq_refl) as H. vm_compute in H. lia.
  - pose proof (Hw _ ltac:(by right; right; left) eq_refl) as H. vm_compute in H. lia.
Qed.

(** A call that is neither a reading of the configuration, nor a log line, nor the
    first answer to the interaction. *)
Definition effect (e : Event) : bool :=
  match e with EvRespond _ _ => false | _ => negb (quiet e) end.

Lemma quiet_no_effect t e : Forall (λ e, quiet e = true) t → e ∈ t → effect e = true → False.
Proof.
  intros H Hin He. apply (Forall_forall _ t) with e in H; [|done]. unfold effect in He.
  by destruct e; rewrite ?H in He.
Qed.

Lemma discord_allowed_sound id srv p users :
  discord_allowed id srv p users = true →
  ∃ n u, (n, u) ∈ users ∧ UserDiscord u = id ∧ HasPermission u srv p = true.
Proof.
  induction users as [|[n u] users IH]; simpl; [done|]. case_decide as Hid.
  - intros Hp. exists n, u. split; [by left|done].
  - intros H. destruct (IH H) as (n' & u' & ? & ?). exists n', u'. split; [by right|done].
Qed.

(** With one user per Discord ID the order of the users does not matter. *)
Lemma discord_allowed_complete id srv p users n u :
  (n, u) ∈ users → UserDiscord u = id → HasPermission u srv p = true →
  (∀ n' u', (n', u') ∈ users → UserDiscord u' = id → u' = u) →
  discord_allowed id srv p users = true.
Proof.
  intros Hin Hid Hp Huniq. induction users as [|[n' u'] users IH]; [by apply elem_of_nil in Hin|].
  simpl. case_decide as Hd.
  - by rewrite (Huniq n' u') by (try done; by left).
  - apply elem_of_cons in Hin as [[= -> ->]|Hin]; [done|]. apply IH; [done|].
    intros n1 u1 H1. apply (Huniq n1). by right.
Qed.

(** ** What is read off the configured servers *)

Definition has_bot (servers : list (string * ServerConfig)) (name : string) (d : DiscordConfig) : Prop :=
  ∃ srv, (name, srv) ∈ servers ∧ Discord srv = Some d.

Lemma has_bot_snoc servers kv name d :
  has_bot (servers ++ [kv]) name d ↔ has_bot servers name d ∨ kv.1 = name ∧ Discord kv.2 = Some d.
Proof.
  unfold has_bot. setoid_rewrite elem_of_app. setoid_rewrite list_elem_of_singleton. split.
  - intros (srv & [Hin| <-] & Hd); [left; by exists srv|by right].
  - intros [(srv & Hin & Hd)|[<- Hd]]; [exists srv; auto|]. exists kv.2. split; [right; by destruct kv|done].
Qed.

Lemma bots_of_spec servers :
  let '(channels, tokens) := bots_of servers in
  (∀ ch name, channels !! ch = Some name → ∃ d, has_bot servers name d ∧ Channel d = ch ∧ ch ≠ "") ∧
  (∀ name d, has_bot servers name d → Channel d ≠ "" → is_Some (channels !! Channel d)) ∧
  (∀ tok, default false (tokens !! tok) = true ↔ ∃ name d, has_bot servers name d ∧ Token d = tok ∧ tok ≠ "") ∧
  (∀ tok, is_Some (tokens !! tok) → default false (tokens !! tok) = true).
Proof.
  unfold bots_of. induction servers as [|[name srv] servers IH] using rev_ind.
  { simpl. split_and!.
    - intros ch n. by rewrite lookup_empty.
    - intros n d (srv & Hin & _). by apply elem_of_nil in Hin.
    - intros tok. rewrite lookup_empty. split; [done|]. intros (n & d & (srv & Hin & _) & _). by apply elem_of_nil in Hin.
    - intros tok. rewrite lookup_empty. by intros []. }
  rewrite foldl_app. destruct (foldl _ (∅, ∅) servers) as [channels tokens]. simpl.
  destruct IH as (H1 & H2 & H3 & H4). destruct (Discord srv) as [d|] eqn:Hd; setoid_rewrite has_bot_snoc; simpl.
  2: { split_and!; [| |intros tok; rewrite H3; split|exact H4].
       - intros ch n Hn. destruct (H1 ch n Hn) as (d & ? & ?). exists d. auto.
       - intros n d [Hb|[_ ?]]; [by apply (H2 n)|congruence].
       - intros (n & d & ? & ?). exists n, d. auto.
       - intros (n & d & [?|[_ ?]] & ?); [by exists n, d|congruence]. }
  split_and!.
  - intros ch n Hn. case_decide as Hc; [destruct (decide (Channel d = ch)) as [E|E]|].
    + rewrite E, lookup_insert_eq in Hn. injection Hn as <-. exists d. subst. auto.
    + rewrite lookup_insert_ne in Hn by done. destruct (H1 ch n Hn) as (d' & ? & ?). exists d'. auto.
    + destruct (H1 ch n Hn) as (d' & ? & ?). exists d'. auto.
  - intros n d' Hb Hne. destruct (decide (Channel d' = Channel d)) as [E|E].
    + rewrite E in *. rewrite decide_True by done. rewrite lookup_insert_eq. by eexists.
    + destruct Hb as [Hb|[_ Hd']]; [|congruence]. pose proof (H2 n d' Hb Hne) as Hs. case_decide; [|done].
      by rewrite lookup_insert_ne.
  - intros tok. case_decide as Ht; [destruct (decide (Token d = tok)) as [E|E]|].
    + rewrite E, lookup_insert_eq. split; [|done]. intros _. exists name, d. subst. auto.
    + rewrite lookup_insert_ne by done. rewrite H3. split.
      * intros (n & d' & ? & ?). exists n, d'. auto.
      * intros (n & d' & [?|[_ Hd']] & ? & ?); [by exists n, d'|congruence].
    + rewrite H3. split.
      * intros (n & d' & ? & ?). exists n, d'. auto.
      * intros (n & d' & [?|[_ Hd']] & <- & ?); [by exists n, d'|congruence].
  - intros tok Hs. case_decide as Ht; [|by apply H4]. destruct (decide (Token d = tok)) as [->|E].
    + by rewrite lookup_insert_eq.
    + rewrite lookup_insert_ne in * by done. by apply H4.
Qed.

Section DiscordSpec.
Context {W : Type} `{!DockerClient W, !OS W, !MapRange W, !DiscordClient W}.
Implicit Types m : BotManager W.

Lemma command_finishes i u srv :
  well_formed i →
  (CommandName i = "action" → finishes (action_command (W := W) i u srv)) ∧
  finishes (backups_command (W := W) srv) ∧
  (CommandName i = "cmd" → finishes (cmd_command (W := W) i u srv)).
Proof.
  intros Hw. split; [|split].
  - intros Hc. unfold action_command, option0. destruct (Options i) eqn:Eo; [by destruct (well_formed_options i Hw (or_introl Hc))|].
    solve_finishes.
  - unfold backups_command. solve_finishes.
  - intros Hc. unfold cmd_command, option0. destruct (Options i) eqn:Eo; [by destruct (well_formed_options i Hw (or_intror Hc))|].
    solve_finishes.
Qed.

Lemma command_appends i u srv :
  emits (W := W) (λ _, True) (action_command i u srv) ∧ emits (W := W) (λ _, True) (backups_command srv) ∧
  emits (W := W) (λ _, True) (cmd_command i u srv).
Proof.
  split; [|split].
  - unfold action_command, option0. solve_emits.
  - unfold backups_command. solve_emits.
  - unfold cmd_command, option0. solve_emits.
Qed.

Lemma wp_required_perm i m (Q : Outcome string → BotManager W → Prop) :
  well_formed i → Q (Done (perm_of i)) m → wp (required_perm i) Q m.
Proof.
  intros Hw HQ. unfold required_perm, perm_of, option0 in *. case_decide as Hc; [|by repeat case_decide].
  destruct (Options i) eqn:Eo; [by destruct (well_formed_options i Hw (or_introl Hc))|]. exact HQ.
Qed.

(** A command that ran to its end, whatever it did. *)
Lemma wp_command (c : Comp (Sys W) unit) (Q : Outcome unit → BotManager W → Prop) m :
  finishes c → emits (λ _, True) c →
  (∀ s t, events s = events (bsys m) ++ t → Q (Done tt) (set_bsys s m)) → wp (on_sys c) Q m.
Proof.
  intros Hf He HQ. apply wp_on_sys. destruct (Hf (bsys m)) as ([] & s & E).
  destruct (emits_run _ _ _ _ _ He E) as (t & Ht & _). eapply wp_run; [exact E|]. by eapply HQ.
Qed.

(** What follows the first answer, once the caller is let through. *)
Definition carry_out (i : Interaction) (srv : string) (err : option error) : Comp (BotManager W) unit :=
  match err with
  | Some err => on_sys (Logf "External" "Discord" "インタラクション応答失敗: %v" [show_error err])
  | None =>
      if decide (CommandName i = "action") then on_sys (action_command i (user_id i) srv)
      else if decide (CommandName i = "backups") then on_sys (backups_command srv)
      else if decide (CommandName i = "cmd") then on_sys (cmd_command i (user_id i) srv)
      else ret tt
  end.

Lemma carry_out_run i srv err m :
  well_formed i →
  wp (carry_out i srv err) (λ o m', o = Done tt ∧ ∃ t, events (bsys m') = events (bsys m) ++ t) m.
Proof.
  intros Hw. destruct (command_finishes i (user_id i) srv Hw) as (F1 & F2 & F3).
  destruct (command_appends i (user_id i) srv) as (E1 & E2 & E3). unfold carry_out.
  destruct err as [err|]; [|repeat case_decide];
    try (apply wp_command; [try done; auto; unfold Logf, Log; solve_finishes|try done; solve_emits|];
         intros s t Ht; split; [done|]; by exists t).
  bot_step. split; [done|]. exists []. by rewrite app_nil_r.
Qed.

(** Some configured user with the caller's Discord ID has the permission. *)
Definition permitted (cfg : Config) (i : Interaction) (srv : string) : Prop :=
  ∃ n u, Users cfg !! n = Some u ∧ UserDiscord u = user_id i ∧ HasPermission u srv (perm_of i) = true.

Definition unique_id (cfg : Config) (id : string) : Prop :=
  ∀ n n' u u', Users cfg !! n = Some u → Users cfg !! n' = Some u' →
    UserDiscord u = id → UserDiscord u' = id → u = u'.

(** C17: a slash command does nothing in a channel no server is bound to; and
    where a server is bound, it has an effect only if some configured user with
    the caller's Discord ID has the permission the command needs on that server.
    With one user per ID it is let through exactly then. *)
Theorem interaction_gate i m :
  well_formed i →
  ∃ o m', onInteractionCreate i m = (Done o, m') ∧ ∃ t, events (bsys m') = events (bsys m) ++ t ∧
    match ChannelToServer m !! InteractionChannel i with
    | None => t = []
    | Some srv =>
        let cfg := cfg_Config (get_outcome (bsys m)) in
        (∀ e, e ∈ t → effect e = true → permitted cfg i srv) ∧
        (unique_id cfg (user_id i) →
         permitted cfg i srv ↔ ∃ err, EvRespond RespondDeferred err ∈ t)
    end.
Proof.
  intros Hw. apply wp_exists. unfold onInteractionCreate. do 2 bot_step.
  destruct (ChannelToServer m !! InteractionChannel i) as [srv|] eqn:Hch.
  2: { bot_step. exists tt. split; [done|]. exists []. by rewrite app_nil_r. }
  do 2 bot_step. apply wp_Get_outcome. intros w t0 Ht0. cbv zeta. bot_step. apply wp_required_perm; [done|].
  do 2 bot_step. apply wp_range. intros users w1 Hp _.
  set (cfg := cfg_Config (get_outcome (bsys m))) in *.
  destruct (discord_allowed (user_id i) srv (perm_of i) users) eqn:Ha; cbn [negb].
  - assert (permitted cfg i srv) as Hperm.
    { destruct (discord_allowed_sound _ _ _ _ Ha) as (n & u & Hin & ? & ?). rewrite Hp in Hin.
      apply elem_of_map_to_list in Hin. by exists n, u. }
    do 2 bot_step. unfold dgo_Respond. apply wp_call. intros err w2 _.
    fold (carry_out i srv err). eapply wp_mono; [by apply carry_out_run|].
    intros o m' (-> & t & Ht). exists tt. split; [done|]. cbn [bsys set_bsys events] in Ht.
    rewrite Ht, <- !(assoc_L (++)). eexists. split; [reflexivity|]. split; [done|]. intros _.
    split; [|done]. intros _. exists err. in_record.
  - repeat bot_step. exists tt. split; [done|]. rewrite <- !(assoc_L (++)). eexists. split; [reflexivity|].
    split.
    + intros e He Heff. exfalso. repeat (apply elem_of_app in He as [He|He]);
        [by eapply (quiet_no_effect t0)|by eapply quiet_no_effect|].
      apply list_elem_of_singleton in He as ->. done.
    + intros Hu. split.
      * intros (n & u & Hn & Hid & Hh). exfalso.
        rewrite (discord_allowed_complete (user_id i) srv (perm_of i) users n u) in Ha; try done.
        -- rewrite Hp. by apply elem_of_map_to_list.
        -- intros n' u' Hin Hid'. rewrite Hp in Hin. apply elem_of_map_to_list in Hin. by eapply Hu.
      * intros (err & He). exfalso. repeat (apply elem_of_app in He as [He|He]).
        -- by apply (Forall_forall _ t0) with (EvRespond RespondDeferred err) in Ht0.
        -- by eapply Forall_forall in He; [|eassumption].
        -- apply list_elem_of_singleton in He. done.
Qed.

(** * Sessions *)

Lemma wp_sys (c : Comp (Sys W) unit) (Q : Outcome unit → BotManager W → Prop) m :
  finishes c → (∀ s, Q (Done tt) (set_bsys s m)) → wp (on_sys c) Q m.
Proof.
  intros Hf HQ. apply wp_on_sys. destruct (Hf (bsys m)) as ([] & s & E). eapply wp_run; [exact E|]. apply HQ.
Qed.

Lemma wp_bot_Log level service msg (Q : Outcome unit → BotManager W → Prop) m :
  (∀ s, Q (Done tt) (set_bsys s m)) → wp (on_sys (Log level service msg)) Q m.
Proof. apply wp_sys. unfold Log. solve_finishes. Qed.

Lemma wp_token_tail token (Q : Outcome string → BotManager W → Prop) m :
  4 ≤ String.length token →
  Q (Done (String.substring (String.length token - 4) 4 token)) m → wp (token_tail token) Q m.
Proof. intros Hl HQ. unfold token_tail. rewrite decide_False by lia. exact HQ. Qed.

(** The parts of the state [SyncBots] does not start or stop sessions in. *)
Definition same_bot m m' : Prop :=
  ChannelToServer m' = ChannelToServer m ∧ ChannelUpdatedAt m' = ChannelUpdatedAt m ∧
  ActiveForwarders m' = ActiveForwarders m.

Lemma start_session_run token m :
  4 ≤ String.length token →
  wp (start_session token)
     (λ o m', o = Done tt ∧ same_bot m m' ∧
        ∀ tok, (tok ≠ token → Sessions m' !! tok = Sessions m !! tok) ∧
               (∀ dg, Sessions m !! tok = Some (Some dg) → Sessions m' !! tok = Some (Some dg))) m.
Proof.
  intros Hl. unfold start_session. do 2 bot_step.
  destruct (match Sessions m !! token with Some (Some _) => false | _ => true end) eqn:Hs; cbn [negb].
  2: { bot_step. by split. }
  assert (∀ dg, Sessions m !! token ≠ Some (Some dg)) as Hno
    by (intros dg E; by rewrite E in Hs).
  do 3 bot_step. unfold dgo_New.
  assert (∀ (v : option Session) tok,
    (tok ≠ token → <[token := v]> (Sessions m) !! tok = Sessions m !! tok) ∧
    (∀ dg, Sessions m !! tok = Some (Some dg) → <[token := v]> (Sessions m) !! tok = Some (Some dg))) as Hins.
  { intros v tok. split; [intros; by rewrite lookup_insert_ne|]. intros dg E.
    rewrite lookup_insert_ne; [done|]. intros ->. by destruct (Hno dg). }
  repeat first [ apply wp_bot_Log; intros ? | apply wp_token_tail; [done|]
    | apply wp_sys; [unfold registerCommands; solve_finishes|intros ?] | bot_step ];
    (split; [done|]); (split; [done|]); try (intros tok; apply Hins); try done.
Qed.

Lemma stop_session_run active token session m :
  4 ≤ String.length token →
  wp (stop_session active (token, session))
     (λ o m', o = Done tt ∧ same_bot m m' ∧
        Sessions m' = if default false (active !! token) then Sessions m else delete token (Sessions m)) m.
Proof.
  intros Hl. unfold stop_session. destruct (default false (active !! token)).
  { bot_step. done. }
  bot_step. destruct session as [dg|];
    repeat first [ apply wp_bot_Log; intros ? | apply wp_token_tail; [done|] | bot_step ]; done.
Qed.

(** A configured bot token, and a server bound to a channel. *)
Definition bot_token (cfg : Config) (token : string) : Prop :=
  token ≠ "" ∧ ∃ name srv d, Servers cfg !! name = Some srv ∧ Discord srv = Some d ∧ Token d = token.
Definition bound (cfg : Config) (ch name : string) : Prop :=
  ch ≠ "" ∧ ∃ srv d, Servers cfg !! name = Some srv ∧ Discord srv = Some d ∧ Channel d = ch.

Lemma wp_on_sys_Get (Q : Outcome Config → BotManager W → Prop) m :
  (∀ s, loaded s = get_outcome (bsys m) →
     Q (Done (cfg_Config (get_outcome (bsys m)))) (set_bsys s m)) →
  wp (on_sys Get) Q m.
Proof. intros HQ. apply wp_on_sys, wp_Get_outcome. intros w t _. by apply HQ. Qed.

Lemma wp_on_sys_range {V} (mp : gmap string V) (Q : Outcome (list (string * V)) → BotManager W → Prop) m :
  (∀ l s, l ≡ₚ map_to_list mp → loaded s = loaded (bsys m) → Q (Done l) (set_bsys s m)) →
  wp (on_sys (range_map mp)) Q m.
Proof. intros HQ. apply wp_on_sys, wp_range. intros l w Hl _. by apply HQ. Qed.

Lemma start_sessions_run (tokens : list (string * bool)) m :
  (∀ kv, kv ∈ tokens → 4 ≤ String.length kv.1) →
  wp (for_each (λ kv, start_session kv.1) tokens)
     (λ o m', o = Done tt ∧ same_bot m m' ∧
        ∀ tok, (tok ∉ tokens.*1 → Sessions m' !! tok = Sessions m !! tok) ∧
               (∀ dg, Sessions m !! tok = Some (Some dg) → Sessions m' !! tok = Some (Some dg))) m.
Proof.
  revert m. induction tokens as [|[token b] tokens IH]; intros m Hl; simpl.
  { apply wp_ret. split; [done|]. by split. }
  apply wp_bind. eapply wp_mono; [apply start_session_run; apply (Hl (token, b)); by left|].
  intros o m1 (-> & (S1 & S2 & S3) & H1). eapply wp_mono; [apply IH; intros; apply Hl; by right|].
  intros o m2 (-> & (S4 & S5 & S6) & H2). split; [done|]. split; [split_and!; congruence|].
  intros tok. destruct (H1 tok) as [A1 A2]. destruct (H2 tok) as [B1 B2]. split; [|by eauto].
  intros [Hne Hin]%not_elem_of_cons. rewrite B1, A1 by done. done.
Qed.

Lemma stop_sessions_run active (old : list (string * option Session)) m :
  (∀ kv, kv ∈ old → 4 ≤ String.length kv.1) →
  wp (for_each (stop_session active) old)
     (λ o m', o = Done tt ∧ same_bot m m' ∧
        ∀ tok, Sessions m' !! tok =
          if decide (tok ∈ old.*1 ∧ default false (active !! tok) = false) then None else Sessions m !! tok) m.
Proof.
  revert m. induction old as [|[token session] old IH]; intros m Hl; cbn [for_each].
  { apply wp_ret. split; [done|]. split; [done|]. intros tok. case_decide as Hd; [|done].
    by destruct Hd as [?%elem_of_nil _]. }
  apply wp_bind. eapply wp_mono; [apply stop_session_run; apply (Hl (token, session)); by left|].
  intros o m1 (-> & (S1 & S2 & S3) & H1). eapply wp_mono; [apply IH; intros; apply Hl; by right|].
  intros o m2 (-> & (S4 & S5 & S6) & H2). split; [done|]. split; [split_and!; congruence|].
  intros tok. rewrite H2, H1. clear H1 H2. rewrite fmap_cons. cbn [fst].
  destruct (decide (tok = token)) as [->|Hne].
  - destruct (default false (active !! token)) eqn:Ha.
    + rewrite !decide_False by by intros [_ ?]. done.
    + rewrite (decide_True (P := token ∈ token :: _ ∧ _)) by (split; [by left|done]).
      case_decide; [done|]. by rewrite lookup_delete_eq.
  - assert ((if default false (active !! token) then Sessions m else delete token (Sessions m)) !! tok
      = Sessions m !! tok) as -> by (case_match; [done|]; by rewrite lookup_delete_ne).
    apply decide_ext. rewrite elem_of_cons. tauto.
Qed.

(** C18: after a reload of the configuration a synchronisation leaves exactly the
    configured channels bound, each to a server that names it, keeps no session
    of a token that is gone, and keeps every open session of a token that is
    still configured.  (A token shorter than four bytes is another matter.) *)
Theorem SyncBots_synchronises m :
  let cfg := cfg_Config (get_outcome (bsys m)) in
  (ChannelUpdatedAt m < LastLoaded (get_outcome (bsys m)))%Z →
  (∀ token, bot_token cfg token ∨ is_Some (Sessions m !! token) → 4 ≤ String.length token) →
  ∃ m', SyncBots m = (Done tt, m') ∧ ChannelUpdatedAt m' = LastLoaded (get_outcome (bsys m)) ∧
    (∀ ch name, ChannelToServer m' !! ch = Some name → bound cfg ch name) ∧
    (∀ ch name, bound cfg ch name → is_Some (ChannelToServer m' !! ch)) ∧
    (∀ token, is_Some (Sessions m' !! token) → bot_token cfg token) ∧
    (∀ token dg, bot_token cfg token → Sessions m !! token = Some (Some dg) →
       Sessions m' !! token = Some (Some dg)).
Proof.
  intros cfg Hlt Hlen.
  cut (∃ o m', SyncBots m = (Done o, m') ∧ ChannelUpdatedAt m' = LastLoaded (get_outcome (bsys m)) ∧
    (∀ ch name, ChannelToServer m' !! ch = Some name → bound cfg ch name) ∧
    (∀ ch name, bound cfg ch name → is_Some (ChannelToServer m' !! ch)) ∧
    (∀ token, is_Some (Sessions m' !! token) → bot_token cfg token) ∧
    (∀ token dg, bot_token cfg token → Sessions m !! token = Some (Some dg) →
       Sessions m' !! token = Some (Some dg))); [intros ([] & m' & ?); by exists m'|].
  apply wp_exists. unfold SyncBots. bot_step. apply wp_on_sys_Get. intros s Hs. fold cfg. do 2 bot_step.
  cbn [bsys set_bsys ChannelUpdatedAt]. rewrite Hs. rewrite bool_decide_true by done. cbn [negb].
  do 3 bot_step. apply wp_on_sys_range. intros servers s1 Hp Hs1.
  pose proof (bots_of_spec servers) as Hb. destruct (bots_of servers) as [channels active].
  destruct Hb as (B1 & B2 & B3 & B4).
  assert (∀ name d, has_bot servers name d ↔ ∃ srv, Servers cfg !! name = Some srv ∧ Discord srv = Some d) as Hhas.
  { intros name d. unfold has_bot. setoid_rewrite Hp. by setoid_rewrite elem_of_map_to_list. }
  assert (∀ tok, default false (active !! tok) = true ↔ bot_token cfg tok) as Hact.
  { intros tok. rewrite B3. unfold bot_token. setoid_rewrite Hhas. split; [|naive_solver].
    intros (n & d & (srv & ? & ?) & ? & ?). eauto 10. }
  do 3 bot_step. apply wp_on_sys_range. intros tokens s2 Htok _.
  assert (∀ tok, tok ∈ tokens.*1 → bot_token cfg tok) as Htb.
  { intros tok ([k b] & -> & Hin)%list_elem_of_fmap. rewrite Htok in Hin. apply elem_of_map_to_list in Hin.
    apply Hact, B4. simpl. by rewrite Hin. }
  bot_step. eapply wp_mono; [apply start_sessions_run|].
  { intros kv Hin. apply Hlen. left. apply Htb. by apply list_elem_of_fmap_2. }
  intros o m1 (-> & (C1 & C2 & C3) & H1). do 3 bot_step. apply wp_on_sys_range. intros old s3 Hold _.
  assert (∀ tok, tok ∈ old.*1 ↔ is_Some (Sessions m1 !! tok)) as Hin.
  { intros tok. rewrite list_elem_of_fmap. setoid_rewrite Hold. split.
    - intros ([k v] & -> & Hk). apply elem_of_map_to_list in Hk. by eexists.
    - intros [v Hv]. exists (tok, v). by rewrite elem_of_map_to_list. }
  eapply wp_mono; [apply stop_sessions_run|].
  { intros kv Hkv. apply Hlen. apply (list_elem_of_fmap_2 fst) in Hkv.
    destruct (decide (kv.1 ∈ tokens.*1)) as [Ht|Ht]; [left; by apply Htb|right].
    destruct (H1 kv.1) as [A _]. specialize (A Ht). change (Sessions m1 !! kv.1 = Sessions m !! kv.1) in A. rewrite <- A. by apply Hin. }
  intros o m2 (-> & (D1 & D2 & D3) & H2). exists tt. split; [done|].
  cbn [ChannelUpdatedAt ChannelToServer Sessions set_bsys set_ChannelToServer set_ChannelUpdatedAt] in *.
  rewrite D2, C2, D1, C1. split_and!.
  - by rewrite Hs.
  - intros ch name Hc. destruct (B1 ch name Hc) as (d & [srv [? ?]]%Hhas & ? & ?).
    split; [done|]. by exists srv, d.
  - intros ch name (Hne & srv & d & ? & ? & <-). apply (B2 name); [|done]. apply Hhas. by exists srv.
  - intros token Hsome. apply Hact. rewrite H2 in Hsome. case_decide as Hd; [by destruct Hsome|].
    destruct (default false (active !! token)) eqn:E; [done|]. exfalso. apply Hd. split; [|done]. by apply Hin.
  - intros token dg Hbt Hdg. rewrite H2. apply Hact in Hbt. rewrite decide_False by (intros [_ ?]; congruence).
    by apply H1.
Qed.

(** Until the configuration file changes again a synchronisation does
    nothing: a session that could not be opened is left as it is, however many
    ticks pass, though it was put aside to be tried again. *)
Theorem SyncBots_idle m :
  (LastLoaded (get_outcome (bsys m)) ≤ ChannelUpdatedAt m)%Z →
  ∃ m' t, SyncBots m = (Done tt, m') ∧ Sessions m' = Sessions m ∧ ChannelToServer m' = ChannelToServer m ∧
    events (bsys m') = events (bsys m) ++ t ∧ Forall (λ e, quiet e = true) t.
Proof.
  intros Hle. cut (∃ o m', SyncBots m = (Done o, m') ∧ Sessions m' = Sessions m ∧
    ChannelToServer m' = ChannelToServer m ∧
    ∃ t, events (bsys m') = events (bsys m) ++ t ∧ Forall (λ e, quiet e = true) t).
  { intros ([] & m' & ? & ? & ? & t & ? & ?). by exists m', t. }
  apply wp_exists. unfold SyncBots. do 2 bot_step. apply wp_Get_outcome. intros w t Ht. do 2 bot_step.
  cbn [loaded]. rewrite bool_decide_false by lia. cbn [negb]. bot_step. exists tt. split; [done|].
  split; [done|]. split; [done|]. by exists t.
Qed.
End DiscordSpec.

(** * Examples *)

(** A server with a bot, and one bound to a channel with a chat template. *)
Definition bot_config (token : string) : Config :=
  mkConfig "" "" (<["root" := root]> ∅)
    (<["mc1" := mkServerConfig "" (Some (image_of "mc:latest"))
       (mkCommandsConfig None [] (Some "say ${user}: ${message}"))
       (Some (mkDiscordConfig token "chan" "" ""))]> ∅).

Definition bot_state (token : string) : BotManager Toy :=
  mkBotManager (mkSys (mkToy (bot_config token) 100 (<["mc1" := container_of "mc1" true]> ∅) ∅ ∅)
    (mkLoadedConfig (bot_config token) 100) []) ∅ (<["chan" := "mc1"]> ∅) 0 ∅ [] ∅ 0.

(** A token shorter than four bytes panics the synchronisation, in a
    goroutine that nothing recovers, as soon as its session fails to open. *)
Theorem SyncBots_short_token :
  ∃ why m', SyncBots (bot_state "abc") = (Panic why, m') ∧
    ∃ err, EvDgOpen 9 (Some err) ∈ events (bsys m').
Proof. eexists _, _. split; [vm_compute; reflexivity|]. eexists. vm_compute. in_record. Qed.

(** A line break in a chat message ends the console line the template makes:
    anyone who may post in the channel sends a console command of choice. *)
Theorem onMessageCreate_injects :
  let msg := mkMessage false "77" "bob" "chan" ("hi" +:+ newline +:+ "op bob") in
  let '(o, m') := onMessageCreate 9 msg (bot_state "abc") in
  o = Done tt ∧
  EvWrite 1 ("say bob: hi" +:+ newline +:+ "op bob" +:+ newline) None ∈ events (bsys m').
Proof. vm_compute. split; [done|]. in_record. Qed.

(** * Witnesses *)

Definition slash (name : string) (options : list string) (caller : string) : Interaction :=
  mkInteraction "chan" (Some caller) None name options.

Lemma interaction_gate_witness :
  ∃ o m', onInteractionCreate (slash "action" ["stop"] "42") (bot_state "abc") = (Done o, m').
Proof.
  destruct (interaction_gate (slash "action" ["stop"] "42") (bot_state "abc")) as (o & m' & E & _).
  - intros c Hc Hn. repeat (apply elem_of_cons in Hc as [->|Hc]; [try done; vm_compute; lia|]).
    by apply elem_of_nil in Hc.
  - exists o, m'. exact E.
Defined.

Lemma SyncBots_synchronises_witness :
  ∃ m', SyncBots (bot_state "abcdefgh") = (Done tt, m') ∧
    ∀ ch name, ChannelToServer m' !! ch = Some name → bound (bot_config "abcdefgh") ch name.
Proof.
  destruct (SyncBots_synchronises (bot_state "abcdefgh")) as (m' & E & _ & H & _).
  - vm_compute. reflexivity.
  - intros token [(_ & name & srv & d & Hs & Hd & <-)|H].
    + change (Servers (bot_config "abcdefgh") !! name = Some srv) in Hs. unfold bot_config in Hs. cbn [Servers] in Hs.
      apply lookup_insert_Some in Hs as [[<- <-]|[_ Hs]]; [|by apply lookup_empty_Some in Hs].
      simpl in Hd. injection Hd as <-. simpl. lia.
    + exfalso. simpl in H. rewrite lookup_empty in H. by destruct H.
  - exists m'. split; [exact E|exact H].
Defined.

Lemma SyncBots_idle_witness :
  ∃ m' t, SyncBots (set_ChannelUpdatedAt 100 (bot_state "abc")) = (Done tt, m') ∧ Sessions m' = ∅ ∧
    Forall (λ e, quiet e = true) t.
Proof.
  destruct (SyncBots_idle (set_ChannelUpdatedAt 100 (bot_state "abc"))) as (m' & t & E & H & _ & _ & Ht).
  - vm_compute. intros H. discriminate H.
  - exists m', t. split; [exact E|]. split; [exact H|exact Ht].
Defined.
