(* ===== verification/Forwarder.v ===== *)
(** [internal/discord/forwarder.go]: keeping one goroutine per server whose logs
    are forwarded, the cache of log rules, and what is sent for a line. *)

From S2P Require Import Prelude GoStrings GoPath GoTime Config World ConfigLoad Docker Container Discord.

(** * Forwarders *)

(** The settings under which a server's logs are forwarded, if they are. *)
Definition forwarding (serverCfg : ServerConfig) : option (string * string) :=
  match Discord serverCfg with
  | None => None
  | Some d => if decide (LogSetting d = "" ∨ Webhook d = "") then None else Some (LogSetting d, Webhook d)
  end.

Section Forwarders.
Context {W : Type} `{!Docker W, !OS W, !MapRange W, !DiscordClient W}.

(** The body of the first loop; [activeServers] is carried along. *)
Definition sync_server (kv : string * ServerConfig) (activeServers : gmap string bool)
    : Comp (BotManager W) (gmap string bool) :=
  let '(serverName, serverCfg) := kv in
  match forwarding serverCfg with
  | None => ret activeServers
  | Some (setting, url) =>
      forwarders <- gets ActiveForwarders ;;
      exists_ <- match forwarders !! serverName with
                 | None => ret false
                 | Some state =>
                     if decide (logSetting state ≠ setting ∨ webhookURL state ≠ url) then
                       modify (cancel_ctx (cancel state)) ;;
                       modify (λ m, set_ActiveForwarders (delete serverName (ActiveForwarders m)) m) ;;
                       on_sys (Logf "Internal" "Discord"
                         "ログ転送の設定変更を検知しました。再起動します: %s" [serverName]) ;;
                       ret false
                     else ret true
                 end ;;
      (if negb exists_ then
         modify (start_forwarder serverName setting url) ;;
         on_sys (Logf "Internal" "Discord" "ログ転送を開始しました: %s" [serverName])
       else ret tt) ;;
      ret (<[serverName := true]> activeServers)
  end.

(** The body of the second loop. *)
Definition drop_server (activeServers : gmap string bool) (kv : string * forwarderState)
    : Comp (BotManager W) unit :=
  let '(serverName, state) := kv in
  if default false (activeServers !! serverName) then ret tt
  else
    modify (cancel_ctx (cancel state)) ;;
    modify (λ m, set_ActiveForwarders (delete serverName (ActiveForwarders m)) m) ;;
    on_sys (Logf "Internal" "Discord" "ログ転送を停止しました: %s" [serverName]).

Definition SyncLogForwarders : Comp (BotManager W) unit :=
  cfg <- on_sys Get ;;
  servers <- on_sys (range_map (Servers cfg)) ;;
  activeServers <- for_fold sync_server servers ∅ ;;
  forwarders <- gets ActiveForwarders ;;
  old <- on_sys (range_map forwarders) ;;
  for_each (drop_server activeServers) old.

(** [runLogForwarderManager] over a number of ticks. *)
Fixpoint runLogForwarderManager (ticks : nat) : Comp (BotManager W) unit :=
  match ticks with
  | 0 => SyncLogForwarders
  | S n => SyncLogForwarders ;; runLogForwarderManager n
  end.
End Forwarders.

(** * Log rules *)

(** Package [regexp]: compiling a pattern, and matching a line, with the captures. *)
Class Regexp := {
  regex : Type;
  Compile : string → error + regex;
  FindStringSubmatch : regex → string → option (list string);
}.

Section Rules.
Context `{!Regexp}.

Record LogRule := mkLogRule { Res : list regex; RuleWebhook : list Json }.

Record logRulesState := mkLogRulesState { rules : list LogRule; lastLoaded : Z }.

(** All patterns of a rule, or the first error. *)
Fixpoint compile_all (pats : list string) : error + list regex :=
  match pats with
  | [] => inr []
  | p :: ps =>
      match Compile p with
      | inl err => inl err
      | inr re => match compile_all ps with inl err => inl err | inr res => inr (re :: res) end
      end
  end.

Fixpoint compile_rules (raw : list RawRule) : error + list LogRule :=
  match raw with
  | [] => inr []
  | r :: rs =>
      match compile_all (RegexpSrc r) with
      | inl err => inl err
      | inr res =>
          match compile_rules rs with
          | inl err => inl err
          | inr rules => inr (mkLogRule res (WebhookBody r) :: rules)
          end
      end
  end.

Context {W : Type} `{!Docker W, !OS W, !MapRange W, !DiscordClient W}.

Definition loadLogRules (path : string) : Comp (Sys W) (error + list LogRule) :=
  f <- os_Open path ;;
  match f with
  | inl err => ret (inl err)
  | inr f =>
      d <- json_DecodeRules f ;;
      let res := match d with inl err => inl err | inr raw => compile_rules raw end in
      file_Close f ;;
      ret res
  end.

(** The process together with [logRulesCache]. *)
Record Rules := mkRules { rsys : Sys W; logRulesCache : gmap string logRulesState }.

Definition on_rsys {A} (m : Comp (Sys W) A) : Comp Rules A :=
  zoom rsys (λ s r, mkRules s (logRulesCache r)) m.

Definition zero_logRulesState : logRulesState := mkLogRulesState [] 0.

(** [None] is the nil slice [getLogRules] returns when the file is not there. *)
Definition getLogRules (path : string) : Comp Rules (option (list LogRule)) :=
  cache <- gets logRulesCache ;;
  (match cache !! path with
   | Some _ => ret tt
   | None => modify (λ r, mkRules (rsys r) (<[path := zero_logRulesState]> (logRulesCache r)))
   end) ;;
  info <- on_rsys (os_Stat path) ;;
  match info with
  | inl _ => ret None
  | inr info =>
      state <- gets (λ r, default zero_logRulesState (logRulesCache r !! path)) ;;
      if decide (lastLoaded state < FModTime info)%Z then
        l <- on_rsys (loadLogRules path) ;;
        match l with
        | inl err =>
            on_rsys (Logf "Internal" "Discord" "ログルールのパース失敗: %v" [show_error err]) ;;
            gets (λ r, Some (rules (default zero_logRulesState (logRulesCache r !! path))))
        | inr rs =>
            modify (λ r, mkRules (rsys r)
              (<[path := mkLogRulesState rs (FModTime info)]> (logRulesCache r))) ;;
            gets (λ r, Some (rules (default zero_logRulesState (logRulesCache r !! path))))
        end
      else gets (λ r, Some (rules (default zero_logRulesState (logRulesCache r !! path))))
  end.

(** * What is sent for a line *)

(** The replacements in one string: the server, then every capture in turn. *)
Fixpoint replace_captures (i : nat) (matches : list string) (v : string) : string :=
  match matches with
  | [] => v
  | m :: ms => replace_captures (S i) ms (ReplaceAll v ("$" +:+ show_int (Z.of_nat i)) m)
  end.

Definition replace_string (matches : list string) (serverName v : string) : string :=
  replace_captures 0 matches (ReplaceAll v "${server}" serverName).

Fixpoint replacePlaceholders (matches : list string) (serverName : string) (data : Json) : Json :=
  match data with
  | JString v => JString (replace_string matches serverName v)
  | JObject kvs => JObject ((λ '(k, v), (k, replacePlaceholders matches serverName v)) <$> kvs)
  | JArray l => JArray (replacePlaceholders matches serverName <$> l)
  | other => other
  end.

(** The captures of the first pattern of a rule that matches. *)
Fixpoint first_match (res : list regex) (line : string) : option (list string) :=
  match res with
  | [] => None
  | re :: res' =>
      match FindStringSubmatch re line with
      | Some matches => Some matches
      | None => first_match res' line
      end
  end.

(** The answer of [Do] is closed and otherwise not looked at. *)
Definition executeWebhook (webhook : string) (body : Json) : Comp Rules unit :=
  match MarshalError body with
  | Some err => on_rsys (Logf "Internal" "Discord" "Webhook JSON変換失敗: %v" [show_error err])
  | None =>
      match NewRequestError webhook with
      | Some _ => ret tt
      | None => on_rsys (post_Webhook webhook body)
      end
  end.

(** The body of the scanning loop of [tailContainerLogs] for one line. *)
Definition tail_line (logSettingPath serverName webhookURL line : string) : Comp Rules unit :=
  rs <- getLogRules logSettingPath ;;
  match rs with
  | None => ret tt
  | Some rs =>
      for_each (λ rule,
        match first_match (Res rule) line with
        | Some matches =>
            for_each (λ rawPayload,
              executeWebhook webhookURL (replacePlaceholders matches serverName rawPayload))
              (RuleWebhook rule)
        | None => ret tt
        end) rs
  end.
End Rules.
