(* ===== verification/ForwarderSpec.v ===== *)
(** What log forwarding promises: one goroutine per forwarded server, with the
    settings now configured; rules that survive a broken file; and what is
    posted for a line. *)

From S2P Require Import Prelude GoStrings GoPath GoTime Config World TestBed ConfigLoad Docker Container Discord DiscordSpec Forwarder.

(** * The goroutines *)

Lemma NoDup_fmap_inj {A B} (f : A → B) l x y :
  NoDup (f <$> l) → x ∈ l → y ∈ l → f x = f y → x = y.
Proof.
  intros Hn [i Hi]%list_elem_of_lookup [j Hj]%list_elem_of_lookup E.
  assert (i = j) as ->.
  { eapply NoDup_lookup; [exact Hn| |]; rewrite list_lookup_fmap; [by rewrite Hi|by rewrite Hj, E]. }
  by simplify_eq.
Qed.

(** The entries of [ActiveForwarders] are exactly the goroutines that were not
    cancelled, each with a context of its own. *)
Record forwarders_ok {W} (m : BotManager W) : Prop := {
  ok_ctx g : g ∈ goroutines m → ctx g < nextCtx m;
  ok_nodup : NoDup (ctx <$> goroutines m);
  ok_cancelled c : c ∈ cancelled m → c < nextCtx m;
  ok_live name c setting url :
    ActiveForwarders m !! name = Some (mkForwarderState c setting url) ↔
    mkTailer c name setting url ∈ goroutines m ∧ c ∉ cancelled m;
}.

Section ForwarderSpec.
Context {W : Type} `{!DockerClient W, !OS W, !MapRange W, !DiscordClient W}.
Implicit Types m : BotManager W.

Lemma ok_New (s : Sys W) : forwarders_ok (NewBotManager s).
Proof.
  split; simpl; [set_solver|constructor|set_solver|]. intros. rewrite lookup_empty. split; [done|].
  by intros [?%elem_of_nil _].
Qed.

Lemma ok_set_bsys s m : forwarders_ok m → forwarders_ok (set_bsys s m).
Proof. by intros [? ? ? ?]. Qed.

(** Stopping one. *)
Definition stop_forwarder (name : string) (st : forwarderState) m : BotManager W :=
  set_ActiveForwarders (delete name (ActiveForwarders m)) (cancel_ctx (cancel st) m).

Lemma ok_stop name st m :
  forwarders_ok m → ActiveForwarders m !! name = Some st → forwarders_ok (stop_forwarder name st m).
Proof.
  intros [Hctx Hnd Hc Hl] Hst. destruct st as [c0 s0 u0]. pose proof (proj1 (Hl _ _ _ _) Hst) as [Hin0 Hlive0].
  split; simpl; [done|done| |].
  - intros c [Hc0|Hin]%elem_of_union; [|by apply Hc]. apply elem_of_singleton in Hc0 as ->. apply (Hctx _ Hin0).
  - intros name' c s u. rewrite not_elem_of_union, not_elem_of_singleton.
    destruct (decide (name' = name)) as [->|Hne].
    + rewrite lookup_delete_eq. split; [done|]. intros (Hin & Hc0 & Hlive).
      pose proof (proj2 (Hl name c s u) (conj Hin Hlive)) as E. rewrite Hst in E. by injection E.
    + rewrite lookup_delete_ne, Hl by done. split; [|tauto]. intros [Hin Hlive]. split_and!; try done.
      intros ->. pose proof (NoDup_fmap_inj ctx _ _ _ Hnd Hin Hin0 eq_refl) as E. by injection E.
Qed.

(** Starting one. *)
Lemma ok_start name s u m :
  forwarders_ok m → ActiveForwarders m !! name = None → forwarders_ok (start_forwarder name s u m).
Proof.
  intros [Hctx Hnd Hc Hl] Hno. split; simpl.
  - intros g [Hin| ->%list_elem_of_singleton]%elem_of_app; [apply Hctx in Hin; lia|simpl; lia].
  - rewrite fmap_app. apply NoDup_app. split; [done|]. split; [|apply NoDup_singleton].
    intros c (g & -> & Hin)%list_elem_of_fmap H. apply list_elem_of_singleton in H. simpl in H.
    apply Hctx in Hin. lia.
  - intros c Hin. apply Hc in Hin. lia.
  - intros name' c s' u'. rewrite elem_of_app, list_elem_of_singleton.
    destruct (decide (name' = name)) as [->|Hne].
    + rewrite lookup_insert_eq. split.
      * intros [= <- <- <-]. split; [by right|]. intros Hin. apply Hc in Hin. lia.
      * intros [[Hin|[= -> -> ->]] Hlive]; [|done].
        pose proof (proj2 (Hl name c s' u') (conj Hin Hlive)) as E. by rewrite Hno in E.
    + rewrite lookup_insert_ne, Hl by done. split; [tauto|]. intros [[Hin|[= _ ? _ _]] Hlive]; [done|congruence].
Qed.

(** ** The loops *)

(** One configured server. *)
Lemma sync_server_run name srv active m :
  forwarders_ok m →
  wp (sync_server (name, srv) active)
     (λ o m', ∃ active', o = Done active' ∧ forwarders_ok m' ∧
        (∀ n, n ≠ name → ActiveForwarders m' !! n = ActiveForwarders m !! n ∧ active' !! n = active !! n) ∧
        match forwarding srv with
        | None => active' = active ∧ ActiveForwarders m' = ActiveForwarders m
        | Some (setting, url) => active' !! name = Some true ∧
            (∃ c, ActiveForwarders m' !! name = Some (mkForwarderState c setting url)) ∧
            (∀ c, ActiveForwarders m !! name = Some (mkForwarderState c setting url) →
               ActiveForwarders m' !! name = Some (mkForwarderState c setting url))
        end) m.
Proof.
  intros Hok. unfold sync_server. destruct (forwarding srv) as [[setting url]|].
  2: { bot_step. exists active. done. }
  assert (∀ m1, forwarders_ok m1 → ActiveForwarders m1 !! name = None →
    (∀ n, n ≠ name → ActiveForwarders m1 !! n = ActiveForwarders m !! n) →
    (∀ c, ActiveForwarders m !! name ≠ Some (mkForwarderState c setting url)) →
    wp ((modify (start_forwarder name setting url) ;;
         on_sys (Logf "Internal" "Discord" "ログ転送を開始しました: %s" [name])) ;;
        ret (<[name := true]> active))
     (λ o m', ∃ active', o = Done active' ∧ forwarders_ok m' ∧
        (∀ n, n ≠ name → ActiveForwarders m' !! n = ActiveForwarders m !! n ∧ active' !! n = active !! n) ∧
        active' !! name = Some true ∧
        (∃ c, ActiveForwarders m' !! name = Some (mkForwarderState c setting url)) ∧
        (∀ c, ActiveForwarders m !! name = Some (mkForwarderState c setting url) →
           ActiveForwarders m' !! name = Some (mkForwarderState c setting url))) m1) as Hstart.
  { intros m1 Hok1 Hno Hsame Hdiff. do 2 bot_step. bot_step. apply wp_bot_Log. intros s. bot_step.
    eexists. split; [reflexivity|]. split; [by apply ok_set_bsys, ok_start|]. split; [|split; [|split]].
    - intros n Hne. simpl. rewrite !lookup_insert_ne by done. split; [by apply Hsame|done].
    - by rewrite lookup_insert_eq.
    - simpl. rewrite lookup_insert_eq. by eexists.
    - intros c Hc. by destruct (Hdiff c). }
  do 2 bot_step. destruct (ActiveForwarders m !! name) as [st|] eqn:Hst; [case_decide as Hd|].
  - repeat first [apply wp_bind | apply wp_bot_modify]. apply wp_bot_Log. intros s. bot_step. cbn [negb].
    apply Hstart.
    + change (forwarders_ok (set_bsys s (stop_forwarder name st m))). by apply ok_set_bsys, ok_stop.
    + simpl. apply lookup_delete_eq.
    + intros n Hne. simpl. by rewrite lookup_delete_ne.
    + intros c [= ->]. simpl in Hd. by destruct Hd.
  - bot_step. bot_step. change (if negb true then _ else ret tt) with (ret (S := BotManager W) tt).
    repeat bot_step. eexists. split; [reflexivity|]. split; [done|]. split; [|split; [|split]].
    + intros n Hne. by rewrite lookup_insert_ne.
    + by rewrite lookup_insert_eq.
    + destruct st as [c s u]. simpl in Hd. exists c. rewrite ?Hst. do 2 f_equal; apply dec_stable; tauto.
    + intros c Hc. by rewrite ?Hst.
  - bot_step. cbn [negb]. by apply Hstart.
Qed.

(** All configured servers, each named once. *)
Lemma sync_servers_run servers active m :
  NoDup servers.*1 → forwarders_ok m → (∀ n, n ∈ servers.*1 → active !! n = None) →
  wp (for_fold sync_server servers active)
     (λ o m', ∃ active', o = Done active' ∧ forwarders_ok m' ∧
        (∀ n, n ∉ servers.*1 → ActiveForwarders m' !! n = ActiveForwarders m !! n ∧ active' !! n = active !! n) ∧
        ∀ name srv, (name, srv) ∈ servers →
          match forwarding srv with
          | None => active' !! name = None
          | Some (setting, url) => active' !! name = Some true ∧
              (∃ c, ActiveForwarders m' !! name = Some (mkForwarderState c setting url)) ∧
              (∀ c, ActiveForwarders m !! name = Some (mkForwarderState c setting url) →
                 ActiveForwarders m' !! name = Some (mkForwarderState c setting url))
          end) m.
Proof.
  revert active m. induction servers as [|[name srv] servers IH]; intros active m Hnd Hok Hno; cbn [for_fold].
  { apply wp_ret. exists active. split_and!; try done. by intros ? ? ?%elem_of_nil. }
  rewrite fmap_cons in Hnd. apply NoDup_cons in Hnd as [Hnot Hnd]. cbn [fst] in Hnot. rewrite fmap_cons in Hno.
  apply wp_bind. eapply wp_mono; [by apply sync_server_run|].
  intros o m1 (active1 & -> & Hok1 & Hsame1 & Hname).
  eapply wp_mono; [apply IH; [done|done|]|].
  { intros n Hn. destruct (Hsame1 n) as [_ ->]; [by intros ->|]. apply Hno. by right. }
  intros o m2 (active2 & -> & Hok2 & Hsame2 & Hrest). exists active2. split; [done|]. split; [done|].
  destruct (Hsame2 name Hnot) as [Ha Hb]. split.
  - intros n. rewrite fmap_cons, not_elem_of_cons. intros [Hne Hn]. destruct (Hsame2 n Hn) as [-> ->]. by apply Hsame1.
  - intros name' srv' [[= -> ->]|Hin]%elem_of_cons.
    + destruct (forwarding srv) as [[setting url]|].
      * rewrite Ha, Hb. exact Hname.
      * destruct Hname as [-> _]. rewrite Hb. apply Hno. by left.
    + specialize (Hrest _ _ Hin). destruct (forwarding srv') as [[setting url]|]; [|done].
      destruct Hrest as (H1 & H2 & H3). split_and!; try done. intros c Hc. apply H3.
      destruct (Hsame1 name') as [-> _]; [|done]. intros ->. apply Hnot.
      by apply (list_elem_of_fmap_2 fst) in Hin.
Qed.

Lemma drop_servers_run active old m :
  NoDup old.*1 → forwarders_ok m → (∀ n st, (n, st) ∈ old → ActiveForwarders m !! n = Some st) →
  wp (for_each (drop_server active) old)
     (λ o m', o = Done tt ∧ forwarders_ok m' ∧
        ∀ n, ActiveForwarders m' !! n =
          if decide (n ∈ old.*1 ∧ default false (active !! n) = false) then None
          else ActiveForwarders m !! n) m.
Proof.
  revert m. induction old as [|[name st] old IH]; intros m Hnd Hok Hold; cbn [for_each].
  { apply wp_ret. split; [done|]. split; [done|]. intros n. case_decide as Hd; [|done].
    by destruct Hd as [?%elem_of_nil _]. }
  rewrite fmap_cons in *. apply NoDup_cons in Hnd as [Hnot Hnd]. cbn [fst] in *.
  assert (∀ n st', (n, st') ∈ old → n ≠ name) as Hne
    by (intros n st' Hin ->; apply Hnot; by apply (list_elem_of_fmap_2 fst) in Hin).
  assert (wp (drop_server active (name, st)) (λ o m1, o = Done tt ∧ forwarders_ok m1 ∧
    ActiveForwarders m1 = if default false (active !! name) then ActiveForwarders m
                          else delete name (ActiveForwarders m)) m) as Hdrop.
  { unfold drop_server. destruct (default false (active !! name)); [by bot_step|].
    repeat first [apply wp_bind | apply wp_bot_modify]. apply wp_bot_Log. intros s. split; [done|]. split; [|done].
    change (forwarders_ok (set_bsys s (stop_forwarder name st m))). apply ok_set_bsys, ok_stop; [done|].
    apply Hold. by left. }
  apply wp_bind. eapply wp_mono; [exact Hdrop|]. intros o m1 (-> & Hok1 & Haf).
  eapply wp_mono; [apply IH; [done|done|]|].
  { intros n st' Hin. rewrite Haf. destruct (default false (active !! name)); [by apply Hold; right|].
    rewrite lookup_delete_ne by (by apply not_eq_sym, (Hne n st')). apply Hold. by right. }
  intros o m2 (-> & Hok2 & Hl). split; [done|]. split; [done|]. intros n. rewrite Hl, Haf.
  destruct (decide (n = name)) as [->|Hn].
  - rewrite decide_False by by intros [? _]. destruct (default false (active !! name)) eqn:Ha.
    + by rewrite decide_False by by intros [_ ?].
    + rewrite decide_True by (split; [by left|done]). apply lookup_delete_eq.
  - assert ((if default false (active !! name) then ActiveForwarders m else delete name (ActiveForwarders m)) !! n
      = ActiveForwarders m !! n) as -> by (case_match; [done|]; by rewrite lookup_delete_ne).
    apply decide_ext. rewrite elem_of_cons. tauto.
Qed.

(** C19: a synchronisation leaves exactly one goroutine, with a context that is
    not cancelled, for every server whose logs are to be forwarded, running with
    the settings now configured, and cancels all others; one whose settings did
    not change is not restarted. *)
Theorem SyncLogForwarders_synchronises m :
  forwarders_ok m →
  let cfg := cfg_Config (get_outcome (bsys m)) in
  let wanted name setting url :=
    ∃ srv, Servers cfg !! name = Some srv ∧ forwarding srv = Some (setting, url) in
  ∃ o m', SyncLogForwarders m = (Done o, m') ∧ forwarders_ok m' ∧
    (∀ name setting url, wanted name setting url ↔
       ∃ c, mkTailer c name setting url ∈ goroutines m' ∧ c ∉ cancelled m') ∧
    (∀ c name setting url, wanted name setting url →
       ActiveForwarders m !! name = Some (mkForwarderState c setting url) →
       ActiveForwarders m' !! name = Some (mkForwarderState c setting url)).
Proof.
  intros Hok cfg wanted. apply wp_exists. unfold SyncLogForwarders. bot_step. apply wp_on_sys_Get. intros s _.
  fold cfg. bot_step. apply wp_on_sys_range. intros servers s1 Hp _. bot_step.
  assert (NoDup servers.*1) as Hnd by (rewrite Hp; apply NoDup_fst_map_to_list).
  eapply wp_mono; [apply sync_servers_run; [done|by apply ok_set_bsys, ok_set_bsys|]|].
  { intros n _. apply lookup_empty. }
  intros o m1 (active & -> & Hok1 & Hout & Hin). do 3 bot_step. apply wp_on_sys_range. intros old s2 Hold _.
  eapply wp_mono; [apply drop_servers_run; [|by apply ok_set_bsys|]|].
  { rewrite Hold. apply NoDup_fst_map_to_list. }
  { intros n st Hn. rewrite Hold in Hn. by apply elem_of_map_to_list in Hn. }
  intros o m2 (-> & Hok2 & Hfin). exists tt. split; [done|]. split; [done|].
  assert (∀ name srv, Servers cfg !! name = Some srv ↔ (name, srv) ∈ servers) as Hs
    by (intros; by rewrite Hp, elem_of_map_to_list).
  assert (∀ name, is_Some (ActiveForwarders m1 !! name) ↔ name ∈ old.*1) as Ho.
  { intros name. rewrite list_elem_of_fmap. setoid_rewrite Hold. split.
    - intros [v Hv]. exists (name, v). by rewrite elem_of_map_to_list.
    - intros ([k v] & -> & Hk). apply elem_of_map_to_list in Hk. by eexists. }
  assert (∀ name st, ActiveForwarders m2 !! name = Some st ↔
    ActiveForwarders m1 !! name = Some st ∧ default false (active !! name) = true) as H2.
  { intros name st. rewrite Hfin. cbn [ActiveForwarders set_bsys]. case_decide as Hd.
    - destruct Hd as [_ Hd]. rewrite Hd. split; [done|by intros []].
    - split; [|by intros []]. intros E. split; [done|]. apply not_false_iff_true. intros Hd'. apply Hd.
      split; [|done]. apply Ho. by rewrite E. }
  assert (∀ name setting url c, ActiveForwarders m2 !! name = Some (mkForwarderState c setting url) →
    wanted name setting url) as Hwant.
  { intros name setting url c [E Ha]%H2. destruct (decide (name ∈ servers.*1)) as [Hn|Hn].
    - apply list_elem_of_fmap in Hn as ([k srv] & -> & Hn). pose proof (Hin _ _ Hn) as Hf. exists srv.
      apply Hs in Hn. split; [done|]. destruct (forwarding srv) as [[s' u']|].
      + destruct Hf as (_ & [c' E'] & _). simpl in E. rewrite E in E'. by injection E' as -> -> ->.
      + simpl in Ha. by rewrite Hf in Ha.
    - exfalso. destruct (Hout name Hn) as [_ Hn']. rewrite Hn', lookup_empty in Ha. done. }
  split.
  - intros name setting url. setoid_rewrite <- (ok_live _ Hok2). split.
    + intros (srv & Hsrv & Hf). apply Hs in Hsrv. pose proof (Hin _ _ Hsrv) as H. rewrite Hf in H.
      destruct H as (Ha & [c E] & _). exists c. apply H2. by rewrite Ha.
    + intros [c E]. by apply (Hwant _ _ _ c).
  - intros c name setting url (srv & Hsrv & Hf) E. apply Hs in Hsrv. pose proof (Hin _ _ Hsrv) as H.
    rewrite Hf in H. destruct H as (Ha & _ & Hst). apply H2. rewrite Ha. split; [|done]. by apply Hst.
Qed.
End ForwarderSpec.

(** * Rules and payloads *)

Definition dollar : ascii := "$"%char.

(** A text without the first byte of what is looked for stays as it is. *)
Lemma ReplaceAll_none s c old new : c ∉ bytes s → ReplaceAll s (String c old) new = s.
Proof.
  unfold ReplaceAll. induction s as [|a s IH]; [done|]. cbn [String.list_ascii_of_string].
  rewrite not_elem_of_cons. intros [Hne Hs]. cbn. destruct (ascii_dec c a); [done|]. by rewrite IH.
Qed.

Lemma replace_captures_literal i ms v : dollar ∉ bytes v → replace_captures i ms v = v.
Proof.
  revert i. induction ms as [|x ms IH]; intros i Hv; [done|]. simpl.
  change ("$" +:+ show_int (Z.of_nat i)) with (String dollar (show_int (Z.of_nat i))).
  rewrite ReplaceAll_none by done. by apply IH.
Qed.

(** The strings of a document. *)
Fixpoint json_strings (j : Json) : list string :=
  match j with
  | JString v => [v]
  | JArray l => l ≫= json_strings
  | JObject kvs => kvs ≫= λ '(_, v), json_strings v
  | _ => []
  end.

Section JsonInd.
Context (P : Json → Prop).
Context (Hnull : P JNull) (Hbool : ∀ b, P (JBool b)) (Hnum : ∀ n, P (JNumber n)) (Hstr : ∀ v, P (JString v)).
Context (Harr : ∀ l, Forall P l → P (JArray l)).
Context (Hobj : ∀ kvs, Forall (λ kv, P kv.2) kvs → P (JObject kvs)).

Fixpoint json_ind (j : Json) : P j :=
  match j with
  | JNull => Hnull
  | JBool b => Hbool b
  | JNumber n => Hnum n
  | JString v => Hstr v
  | JArray l =>
      Harr l ((fix go (l : list Json) : Forall P l :=
        match l with
        | [] => List.Forall_nil P
        | x :: l' => @List.Forall_cons _ P x l' (json_ind x) (go l')
        end) l)
  | JObject kvs =>
      Hobj kvs ((fix go (l : list (string * Json)) : Forall (λ kv, P kv.2) l :=
        match l with
        | [] => List.Forall_nil (λ kv, P kv.2)
        | x :: l' => @List.Forall_cons _ (λ kv, P kv.2) x l' (json_ind x.2) (go l')
        end) kvs)
  end.
End JsonInd.

Section RulesSpec.
Context `{RX : Regexp} {W : Type} `{!DockerClient W, !OS W, !MapRange W, !DiscordClient W}.

(** A payload without a dollar sign is sent as the rule has it, whatever the
    log line holds. *)
Theorem replacePlaceholders_literal matches serverName data :
  (∀ v, v ∈ json_strings data → dollar ∉ bytes v) →
  replacePlaceholders matches serverName data = data.
Proof.
  induction data as [| | |v|l IH|kvs IH] using json_ind; intros H; try done; simpl.
  - unfold replace_string. change "${server}" with (String dollar "{server}").
    assert (dollar ∉ bytes v) as Hv by (apply H; by left). by rewrite ReplaceAll_none, replace_captures_literal.
  - f_equal. simpl in H. induction IH as [|x l Hx _ IHl]; [done|]. simpl in *. f_equal.
    + apply Hx. intros v Hv. apply H. apply elem_of_app. by left.
    + apply IHl. intros v Hv. apply H. apply elem_of_app. by right.
  - f_equal. simpl in H. induction IH as [|[k x] l Hx _ IHl]; [done|]. simpl in *. f_equal.
    + f_equal. apply Hx. intros v Hv. apply H. apply elem_of_app. by left.
    + apply IHl. intros v Hv. apply H. apply elem_of_app. by right.
Qed.

(** The shape of a document: its nesting, keys, lengths and every value that is
    not a string. *)
Inductive same_shape : Json → Json → Prop :=
| shape_null : same_shape JNull JNull
| shape_bool b : same_shape (JBool b) (JBool b)
| shape_number n : same_shape (JNumber n) (JNumber n)
| shape_string v w : same_shape (JString v) (JString w)
| shape_array l l' : Forall2 same_shape l l' → same_shape (JArray l) (JArray l')
| shape_object kvs kvs' :
    Forall2 (λ kv kv', kv.1 = kv'.1 ∧ same_shape kv.2 kv'.2) kvs kvs' → same_shape (JObject kvs) (JObject kvs').

(** C26: whatever the log line and the captures hold, the payload sent has the
    shape of the rule's payload, and each of its strings is the rule's with the
    placeholders replaced: a line cannot add a field or turn a value into
    another kind. *)
Theorem replacePlaceholders_shape matches serverName data :
  same_shape data (replacePlaceholders matches serverName data) ∧
  json_strings (replacePlaceholders matches serverName data) =
    replace_string matches serverName <$> json_strings data.
Proof.
  induction data as [| | |v|l IH|kvs IH] using json_ind; simpl; try (by split; [constructor|]).
  - split.
    + constructor. induction IH as [|x l [Hx _] _ IHl]; [constructor|]. by constructor.
    + induction IH as [|x l [_ Hx] _ IHl]; [done|]. cbn. rewrite fmap_app. f_equal; [exact Hx|exact IHl].
  - split.
    + constructor. induction IH as [|[k x] l [Hx _] _ IHl]; [constructor|]. by constructor.
    + induction IH as [|[k x] l [_ Hx] _ IHl]; [done|]. cbn in *. rewrite fmap_app. f_equal; [exact Hx|exact IHl].
Qed.

(** The payloads due for a line: those of every rule of which a pattern matches,
    with the captures of the first one that does. *)
Definition payloads (rs : list LogRule) (line serverName : string) : list Json :=
  rs ≫= λ rule,
    match first_match (Res rule) line with
    | Some matches => replacePlaceholders matches serverName <$> RuleWebhook rule
    | None => []
    end.

Definition posted (e : Event) : option (string * Json) :=
  match e with EvWebhook url body => Some (url, body) | _ => None end.

Lemma wp_on_rsys {A} (c : Comp (Sys W) A) (Q : Outcome A → Rules → Prop) r :
  wp c (λ o s', Q o (mkRules s' (logRulesCache r))) (rsys r) → wp (on_rsys c) Q r.
Proof. unfold wp, on_rsys, zoom. by destruct (c (rsys r)). Qed.

Lemma wp_rget {A} (f : Rules → A) (Q : Outcome A → Rules (W := W) → Prop) r : Q (Done (f r)) r → wp (gets f) Q r.
Proof. done. Qed.

Lemma wp_rmodify (f : Rules → Rules) (Q : Outcome unit → Rules (W := W) → Prop) r :
  Q (Done tt) (f r) → wp (modify f) Q r.
Proof. done. Qed.

(** The first step of [getLogRules]: the path has an entry. *)
Lemma cache_entry path (r : Rules (W := W)) (Q : Outcome unit → Rules → Prop) :
  Q (Done tt) (mkRules (rsys r)
    (<[path := default zero_logRulesState (logRulesCache r !! path)]> (logRulesCache r))) →
  wp (match logRulesCache r !! path with
      | Some _ => ret tt
      | None => modify (λ r, mkRules (rsys r) (<[path := zero_logRulesState]> (logRulesCache r)))
      end) Q r.
Proof.
  destruct (logRulesCache r !! path) as [st|] eqn:E; simpl; intros H; [|done].
  rewrite insert_id in H by done. by destruct r.
Qed.

Lemma finishes_on_rsys {A} (c : Comp (Sys W) A) : finishes c → finishes (on_rsys c).
Proof. apply finishes_zoom. Qed.

Lemma getLogRules_finishes path : finishes (getLogRules (W := W) path).
Proof.
  unfold getLogRules, loadLogRules.
  repeat first [ progress solve_finishes | apply finishes_on_rsys
               | match goal with |- finishes (match ?x with _ => _ end) => destruct x end ].
Qed.

Lemma loadLogRules_run path (s : Sys W) :
  wp (loadLogRules path)
     (λ o s', ∃ res t, o = Done res ∧ events s' = events s ++ t ∧
        match res with
        | inl _ => ∀ f raw, EvDecodeRules f (inr raw) ∈ t → ∃ err, compile_rules raw = inl err
        | inr rs => ∃ f raw, EvDecodeRules f (inr raw) ∈ t ∧ compile_rules raw = inr rs
        end) s.
Proof.
  unfold loadLogRules. wp_step. wp_step. wp_step. destruct a as [err|f].
  { wp_step. exists (inl err), [EvOpen path (inl err)]. split_and!; try done.
    intros f raw [=]%list_elem_of_singleton. }
  repeat wp_step. rewrite <- !(assoc_L (++)).
  eexists _, _. split; [done|]. split; [done|]. destruct a as [err|raw].
  - intros f' raw. set_solver.
  - destruct (compile_rules raw) as [err|rs] eqn:E.
    + intros f' raw' Hin. exists err. assert (raw' = raw) as -> by set_solver. done.
    + exists f, raw. split; [set_solver|done].
Qed.

(** C33: the rules served are those cached, unless the file is newer and good: then
    they are its rules, compiled.  A file that cannot be read, decoded or
    compiled leaves the cached rules in force; one that is gone suspends
    forwarding.  Rules of other files are not touched. *)
Theorem getLogRules_correct path (r : Rules (W := W)) :
  let state := default zero_logRulesState (logRulesCache r !! path) in
  ∃ o r' ans t state',
    getLogRules path r = (Done o, r') ∧
    events (rsys r') = events (rsys r) ++ EvStat path ans :: t ∧
    logRulesCache r' = <[path := state']> (logRulesCache r) ∧
    match ans with
    | inl _ => o = None ∧ state' = state ∧ t = []
    | inr info =>
        o = Some (rules state') ∧
        if decide (lastLoaded state < FModTime info)%Z then
          (∃ f raw rs, EvDecodeRules f (inr raw) ∈ t ∧ compile_rules raw = inr rs ∧
             state' = mkLogRulesState rs (FModTime info)) ∨
          (state' = state ∧ ∀ f raw, EvDecodeRules f (inr raw) ∈ t → ∃ err, compile_rules raw = inl err)
        else state' = state ∧ t = []
    end.
Proof.
  intros state.
  assert (wp (getLogRules path) (λ o r', ∃ o', o = Done o' ∧ ∃ ans t state',
    events (rsys r') = events (rsys r) ++ EvStat path ans :: t ∧
    logRulesCache r' = <[path := state']> (logRulesCache r) ∧
    match ans with
    | inl _ => o' = None ∧ state' = state ∧ t = []
    | inr info =>
        o' = Some (rules state') ∧
        if decide (lastLoaded state < FModTime info)%Z then
          (∃ f raw rs, EvDecodeRules f (inr raw) ∈ t ∧ compile_rules raw = inr rs ∧
             state' = mkLogRulesState rs (FModTime info)) ∨
          (state' = state ∧ ∀ f raw, EvDecodeRules f (inr raw) ∈ t → ∃ err, compile_rules raw = inl err)
        else state' = state ∧ t = []
    end) r) as H.
  { unfold getLogRules. apply wp_bind, wp_rget, wp_bind.
    apply (cache_entry path r). fold state. apply wp_bind, wp_on_rsys. unfold os_Stat. apply wp_call.
    intros ans w _. destruct ans as [err|info].
    { apply wp_ret. eexists. split; [done|]. by exists (inl err), [], state. }
    apply wp_bind, wp_rget. simpl. rewrite lookup_insert_eq. simpl. case_decide as Hd.
    2: { apply wp_rget. simpl. rewrite lookup_insert_eq. eexists. split; [done|].
         exists (inr info), [], state. rewrite decide_False by done. done. }
    apply wp_bind, wp_on_rsys. eapply wp_mono; [apply loadLogRules_run|].
    intros o s1 (res & t & -> & Ht & Hres). destruct res as [err|rs].
    - apply wp_bind, wp_on_rsys. unfold Logf. apply wp_Log. intros w' t' Hq. apply wp_rget. simpl.
      rewrite lookup_insert_eq. eexists. split; [done|]. exists (inr info), (t ++ t'), state. simpl in Ht.
      rewrite Ht, <- !(assoc_L (++)). split; [done|]. split; [done|]. split; [done|].
      rewrite decide_True by done. right. split; [done|].
      intros f raw [Hin|Hin]%elem_of_app; [by apply (Hres f)|]. by apply (Forall_forall _ t') with (2 := Hin) in Hq.
    - apply wp_bind, wp_rmodify, wp_rget. simpl. rewrite lookup_insert_eq. eexists. split; [done|].
      exists (inr info), t, (mkLogRulesState rs (FModTime info)). simpl in Ht. rewrite Ht, <- !(assoc_L (++)).
      split; [done|]. rewrite insert_insert_eq. split; [done|]. split; [done|].
      rewrite decide_True by done. left. destruct Hres as (f & raw & ? & ?). by exists f, raw, rs. }
  destruct (wp_exists _ _ _ H) as (o & r' & Hrun & ans & t & state' & Hrest). by exists o, r', ans, t, state'.
Qed.

(** Whether a payload can be put into a request. *)
Definition sendable (url : string) (body : Json) : bool :=
  match MarshalError (W := W) body, NewRequestError (W := W) url with None, None => true | _, _ => false end.

Lemma post_run url bodies (r : Rules (W := W)) :
  wp (for_each (executeWebhook url) bodies)
     (λ o r', o = Done tt ∧ ∃ t, events (rsys r') = events (rsys r) ++ t ∧
        omap posted t = (url,.) <$> List.filter (sendable url) bodies) r.
Proof.
  revert r. induction bodies as [|b bodies IH]; intros r; simpl.
  { apply wp_ret. split; [done|]. exists []. by rewrite app_nil_r. }
  unfold executeWebhook at 1, sendable at 1. apply wp_bind. destruct (MarshalError b) as [err|].
  { apply wp_on_rsys. unfold Logf. apply wp_Log. intros w t0 Ht0. eapply wp_mono; [apply IH|].
    intros o r' (-> & t & Ht & Hp). split; [done|]. exists (t0 ++ t). rewrite Ht. simpl. rewrite (assoc_L (++)).
    split; [done|]. by rewrite omap_app, (quiet_omap posted t0) by (done || by intros []). }
  destruct (NewRequestError url) as [err|] eqn:Hu.
  { apply wp_ret. apply IH. }
  apply wp_on_rsys. unfold post_Webhook, tell. apply wp_call. intros [] w _.
  eapply wp_mono; [apply IH|]. intros o r' (-> & t & Ht & Hp). split; [done|].
  exists (EvWebhook url b :: t). rewrite Ht. simpl. rewrite <- (assoc_L (++)). split; [done|].
  change ((url, b) :: omap posted t = (url, b) :: ((url,.) <$> List.filter (sendable url) bodies)). by rewrite Hp.
Qed.

Lemma wp_for_each_fmap {S A B} (f : A → B) (body : B → Comp S unit) xs Q s :
  wp (for_each body (f <$> xs)) Q s → wp (for_each (λ x, body (f x)) xs) Q s.
Proof.
  enough (for_each (λ x, body (f x)) xs s = for_each body (f <$> xs) s) as E by (unfold wp; by rewrite E).
  revert s. induction xs as [|x xs IH]; intros s; [done|]. simpl. by apply bind_ext.
Qed.

(** The loop over the rules posts what is due. *)
Lemma rules_post url line serverName rs (r : Rules (W := W)) :
  wp (for_each (λ rule,
        match first_match (Res rule) line with
        | Some matches =>
            for_each (λ rawPayload, executeWebhook url (replacePlaceholders matches serverName rawPayload))
              (RuleWebhook rule)
        | None => ret tt
        end) rs)
     (λ o r', o = Done tt ∧ ∃ t, events (rsys r') = events (rsys r) ++ t ∧
        omap posted t = (url,.) <$> List.filter (sendable url) (payloads rs line serverName)) r.
Proof.
  revert r. induction rs as [|rule rs IH]; intros r; simpl.
  { apply wp_ret. split; [done|]. exists []. by rewrite app_nil_r. }
  apply wp_bind. unfold payloads. cbn [mbind list_bind]. destruct (first_match _ line) as [ms|].
  - apply (wp_for_each_fmap (replacePlaceholders ms serverName) (executeWebhook url)).
    eapply wp_mono; [apply post_run|]. intros o r1 (-> & t1 & Ht1 & Hp1).
    eapply wp_mono; [apply IH|]. intros o r2 (-> & t2 & Ht2 & Hp2). split; [done|].
    exists (t1 ++ t2). rewrite Ht2, Ht1, (assoc_L (++)). split; [done|].
    rewrite omap_app. by rewrite Hp1, List.filter_app, fmap_app, Hp2.
  - apply wp_ret, IH.
Qed.

(** C34: for every log line exactly the payloads due under the rules now in force
    are posted, to the webhook of the server, in the order of the rules; one that
    cannot be put into a request is passed over. *)
Theorem tail_line_posts path serverName url line (r : Rules (W := W)) :
  ∃ rs r1 r' t,
    getLogRules path r = (Done rs, r1) ∧
    tail_line path serverName url line r = (Done tt, r') ∧
    events (rsys r') = events (rsys r1) ++ t ∧
    omap posted t = (url,.) <$> List.filter (sendable url) (payloads (default [] rs) line serverName).
Proof.
  destruct (getLogRules_finishes path r) as (rs & r1 & Hrun). exists rs, r1.
  unfold tail_line. rewrite (bind_done _ _ _ _ _ Hrun). destruct rs as [rs|]; simpl.
  - pose proof (rules_post url line serverName rs r1) as H. unfold wp in H.
    destruct (for_each _ rs r1) as [o r'] eqn:E. simpl in H. destruct H as (-> & t & Ht & Hp).
    exists r', t. done.
  - exists r1, []. by rewrite app_nil_r.
Qed.
End RulesSpec.

(** * Captures *)

(** A placeholder with two digits never stands for its own capture: what is
    sent for [$10] is the first capture followed by a zero. *)
Theorem placeholder_10 m0 m1 ms serverName :
  dollar ∉ bytes m1 → replace_string (m0 :: m1 :: ms) serverName "$10" = m1 +:+ "0".
Proof.
  intros Hm. unfold replace_string. simpl.
  change (ReplaceAll (ReplaceAll (ReplaceAll "$10" "${server}" serverName) "$0" m0) "$1" m1) with (m1 +:+ "0").
  apply replace_captures_literal. rewrite bytes_app, elem_of_app. intros [?|Hin]; [done|].
  apply list_elem_of_singleton in Hin. by injection Hin.
Qed.

(** * At concrete inputs *)

(** Patterns that match the lines they are equal to. *)
#[export] Instance toy_regexp : Regexp := {
  regex := string;
  Compile p := if decide (p = "(") then inl (ErrExt false "missing closing )") else inr p;
  FindStringSubmatch p line := if decide (p = line) then Some [line] else None;
}.

Definition fwd_config : Config :=
  mkConfig "" "" ∅ (<["mc1" := mkServerConfig "" None (mkCommandsConfig None [] None)
    (Some (mkDiscordConfig "" "" "https://hook" "/etc/rules.json"))]> ∅).

Definition fwd_sys : Sys Toy := mkSys (mkToy fwd_config 100 ∅ (<["/etc/rules.json" := []]> ∅) ∅) zero_LoadedConfig [].

Lemma SyncLogForwarders_synchronises_witness :
  ∃ o m' c, SyncLogForwarders (NewBotManager fwd_sys) = (Done o, m') ∧
    mkTailer c "mc1" "/etc/rules.json" "https://hook" ∈ goroutines m' ∧ c ∉ cancelled m'.
Proof.
  destruct (SyncLogForwarders_synchronises (NewBotManager fwd_sys) (ok_New fwd_sys)) as (o & m' & E & _ & H & _).
  destruct (proj1 (H "mc1" "/etc/rules.json" "https://hook")) as (c & Hin & Hc).
  - eexists. split; vm_compute; reflexivity.
  - exists o, m', c. split; [exact E|]. split; [exact Hin|exact Hc].
Defined.

Lemma replacePlaceholders_literal_witness :
  replacePlaceholders ["joined"] "mc1" (JObject [("content", JString "hello")]) =
  JObject [("content", JString "hello")].
Proof.
  apply (replacePlaceholders_literal ["joined"] "mc1" (JObject [("content", JString "hello")])).
  intros v Hv. simpl in Hv. apply list_elem_of_singleton in Hv. subst v. decided.
Defined.

Lemma placeholder_10_witness : replace_string ["line"; "a"] "mc1" "$10" = "a0".
Proof. apply (placeholder_10 "line" "a" [] "mc1"). decided. Defined.

(** The rules are loaded for the first line, and the line is posted. *)
Example tail_line_joined :
  omap posted (events (rsys (tail_line "./config.json" "mc1" "https://hook" "joined"
    (mkRules toy_sys ∅)).2)) = [("https://hook", JString "joined")].
Proof. vm_compute. reflexivity. Qed.
