(* ===== verification/Tail.v ===== *)
(** [tailContainerLogs] of [internal/discord/forwarder.go]: the goroutine that
    follows the log of one container until its context is cancelled.  It is cut
    at the points where it waits or looks at the context; between two of its
    steps the rest of the program and the world go on. *)

From S2P Require Import Prelude GoStrings GoTime Config World ConfigLoad Discord Forwarder.

(** Where the goroutine is. *)
Inductive Point : Type :=
| Top
| Inspecting
| OpeningLogs
| Scanning (reader : Conn)
| GotLine (reader : Conn) (line : string)
| Forwarding (reader : Conn) (line : string)
| Closing (reader : Conn)
| Sleeping (d : Z)
| Returned.

#[export] Instance point_eq_dec : EqDecision Point.
Proof. solve_decision. Defined.

Definition seconds (n : Z) : Z := (n * 1000000000)%Z.

Section Tail.
Context `{!Regexp} {W : Type}
  `{!Docker W, !OS W, !MapRange W, !DiscordClient W, !LineReader W}.
Context (serverName logSettingPath webhookURL : string).

(** From one point to the next; [done] is what [ctx.Done()] says. *)
Definition tail_step (done : bool) (p : Point) : Comp (Rules (W := W)) Point :=
  match p with
  | Top => ret (if done then Returned else Inspecting)
  | Inspecting =>
      i <- on_rsys (dk_Inspect serverName) ;;
      match i with
      | inl _ => ret (Sleeping (seconds 30))
      | inr _ => ret OpeningLogs
      end
  | OpeningLogs =>
      l <- on_rsys (dk_Logs serverName true "0") ;;
      match l with
      | inl err =>
          on_rsys (Logf "Internal" "Discord" "ログ取得失敗 (%s): %v" [serverName; show_error err]) ;;
          ret (Sleeping (seconds 10))
      | inr reader => ret (Scanning reader)
      end
  | Scanning reader =>
      l <- on_rsys (scanner_Scan reader) ;;
      match l with
      | Some line => ret (GotLine reader line)
      | None => ret (Closing reader)
      end
  | GotLine reader line =>
      if done then on_rsys (dk_Close reader) ;; ret Returned
      else ret (Forwarding reader line)
  | Forwarding reader line =>
      tail_line logSettingPath serverName webhookURL line ;;
      ret (Scanning reader)
  | Closing reader =>
      on_rsys (dk_Close reader) ;;
      ret (Sleeping (seconds 5))
  | Sleeping d =>
      on_rsys (time_Sleep d) ;;
      ret Top
  | Returned => ret Returned
  end.

(** The goroutine with its context and the state it shares with the others. *)
Record Tailing := mkTailing {
  point : Point;
  cancelled_ctx : bool;
  shared : Rules (W := W);
}.

(** [go m.tailContainerLogs(...)] *)
Definition start_tail (r : Rules) : Tailing := mkTailing Top false r.

(** A step of the goroutine. *)
Inductive tail_runs (t : Tailing) : Tailing → Prop :=
| tail_runs_step p r : point t ≠ Returned →
    tail_step (cancelled_ctx t) (point t) (shared t) = (Done p, r) →
    tail_runs t (mkTailing p (cancelled_ctx t) r).

(** A step of the rest of the program and the world, which leave the record of
    this goroutine's calls alone, or the call of [cancel]. *)
Inductive others_run (t : Tailing) : Tailing → Prop :=
| others_step r : events (rsys r) = events (rsys (shared t)) →
    others_run t (mkTailing (point t) (cancelled_ctx t) r)
| cancel_called : others_run t (mkTailing (point t) true (shared t)).

Definition tail_move (t t' : Tailing) : Prop := tail_runs t t' ∨ others_run t t'.

(** A step of the goroutine after any number of others. *)
Definition tail_turn (t t' : Tailing) : Prop := ∃ u, rtc others_run t u ∧ tail_runs u t'.
End Tail.

Arguments mkTailing {_ _} _ _ _.
