(* ===== verification/TailSpec.v ===== *)
(** The goroutine that follows a log: it holds one stream at a time and gives it
    back, and when it is cancelled it forwards nothing more and ends. *)

From S2P Require Import Prelude GoStrings GoPath GoTime Config World TestBed ConfigLoad Discord DiscordSpec Forwarder ForwarderSpec Tail.

(** * Streams in a record *)

(** The stream held after the calls of a record, [None] when a stream was opened
    over another, or one was closed that was not held. *)
Definition hold (h : option Conn) (e : Event) : option (option Conn) :=
  match e with
  | EvLogs _ _ _ (inr c) => match h with None => Some (Some c) | Some _ => None end
  | EvClose c => if decide (h = Some c) then Some None else None
  | _ => Some h
  end.

Fixpoint holds (h : option Conn) (t : list Event) : option (option Conn) :=
  match t with
  | [] => Some h
  | e :: t' => match hold h e with Some h' => holds h' t' | None => None end
  end.

Lemma holds_app h t t' :
  holds h (t ++ t') = match holds h t with Some h' => holds h' t' | None => None end.
Proof. revert h. induction t as [|e t IH]; intros h; simpl; [done|]. destruct (hold h e); [apply IH|done]. Qed.

(** Calls that neither open nor close a stream. *)
Definition streamless (e : Event) : Prop := ∀ h, hold h e = Some h.

Lemma holds_streamless h t : Forall streamless t → holds h t = Some h.
Proof. induction 1 as [|e t He _ IH]; [done|]. simpl. by rewrite He. Qed.

Lemma quiet_streamless t : Forall (λ e, quiet e = true) t → Forall streamless t.
Proof. intros H. eapply Forall_impl; [exact H|]. by intros [] ? h0. Qed.

Lemma quiet_posts t : Forall (λ e, quiet e = true) t → omap posted t = [].
Proof. apply quiet_omap. by intros []. Qed.

(** The stream the goroutine holds where it is. *)
Definition held (p : Point) : option Conn :=
  match p with
  | Scanning c | GotLine c _ | Forwarding c _ | Closing c => Some c
  | _ => None
  end.

(** The steps of the goroutine that are left at most, once it is cancelled. *)
Definition points_left (p : Point) : nat :=
  match p with
  | Returned => 0
  | Top | GotLine _ _ => 1
  | Sleeping _ => 2
  | Closing _ => 3
  | Scanning _ => 4
  | Forwarding _ _ | OpeningLogs => 5
  | Inspecting => 6
  end.

Section TailSpec.
Context `{!Regexp} {W : Type}
  `{!DockerClient W, !OS W, !MapRange W, !DiscordClient W, !LineReader W}.
Context (serverName logSettingPath webhookURL : string).
Implicit Types r : Rules (W := W).

Abbreviation tail_step := (tail_step serverName logSettingPath webhookURL).
Abbreviation tail_runs := (tail_runs serverName logSettingPath webhookURL).
Abbreviation tail_move := (tail_move serverName logSettingPath webhookURL).
Abbreviation tail_turn := (tail_turn serverName logSettingPath webhookURL).

(** What the record gains. *)
Definition remits {A} (P : Event → Prop) (m : Comp Rules A) : Prop :=
  ∀ r, ∃ t, events (rsys (m r).2) = events (rsys r) ++ t ∧ Forall P t.

Lemma remits_ret {A} P (a : A) : remits P (ret a).
Proof. intros r. exists []. by rewrite app_nil_r. Qed.

Lemma remits_gets {A} P (f : Rules → A) : remits P (gets f).
Proof. intros r. exists []. by rewrite app_nil_r. Qed.

Lemma remits_on {A} P (m : Comp (Sys W) A) : emits P m → remits P (on_rsys m).
Proof. intros Hm r. unfold on_rsys, zoom. specialize (Hm (rsys r)). by destruct (m (rsys r)). Qed.

Lemma remits_cache P (f : Rules → gmap string logRulesState) :
  remits P (modify (λ r, mkRules (rsys r) (f r))).
Proof. intros r. exists []. by rewrite app_nil_r. Qed.

Lemma remits_bind {A B} P (m : Comp Rules A) (k : A → Comp Rules B) :
  remits P m → (∀ a, remits P (k a)) → remits P (bind m k).
Proof.
  intros Hm Hk r. destruct (Hm r) as (t & Ht & HP). unfold bind.
  destruct (m r) as [[a|e] r1]; simpl in *; [|eauto].
  destruct (Hk a r1) as (t' & Ht' & HP'). exists (t ++ t'). rewrite Ht', Ht, (assoc_L (++)).
  split; [done|]. by apply Forall_app.
Qed.

Lemma remits_for_each {A} P (body : A → Comp Rules unit) xs :
  (∀ x, remits P (body x)) → remits P (for_each body xs).
Proof. intros Hb. induction xs as [|x xs IH]; [apply remits_ret|]. by apply remits_bind. Qed.

Lemma tail_line_streamless line : remits streamless (tail_line logSettingPath serverName webhookURL line).
Proof.
  unfold tail_line, getLogRules, loadLogRules, executeWebhook.
  repeat lazymatch goal with
  | |- remits _ (bind _ _) => apply remits_bind; [|intros ?]
  | |- remits _ (for_each _ _) => apply remits_for_each; intros ?
  | |- remits _ (match ?x with _ => _ end) => destruct x
  | |- remits _ (ret _) => apply remits_ret
  | |- remits _ (gets _) => apply remits_gets
  | |- remits _ (modify _) => apply remits_cache
  | |- remits _ (on_rsys _) => apply remits_on; solve_emits
  end.
Qed.

Lemma wp_elim_any {A} (m : Comp Rules A) (Q : Outcome A → Rules (W := W) → Prop) r o r' :
  wp m Q r → m r = (o, r') → Q o r'.
Proof. unfold wp. intros Hw E. by rewrite E in Hw. Qed.

Lemma tail_line_finishes line : finishes (tail_line (W := W) logSettingPath serverName webhookURL line).
Proof.
  unfold tail_line, executeWebhook. apply finishes_bind; [apply getLogRules_finishes|]. intros rs.
  repeat first [ progress solve_finishes | apply finishes_on_rsys
               | match goal with |- finishes (match ?x with _ => _ end) => destruct x end ].
Qed.

(** One step: it does not panic, and what it does to the streams. *)
Lemma tail_step_run done p r : p ≠ Returned →
  wp (tail_step done p) (λ o r', ∃ p' t, o = Done p' ∧ events (rsys r') = events (rsys r) ++ t ∧
    holds (held p) t = Some (held p') ∧ (done = true → points_left p' < points_left p) ∧
    (omap posted t ≠ [] → ∃ c line, p = Forwarding c line)) r.
Proof.
  intros Hp. destruct p as [| | |c|c line|c line|c|d|]; [..|done]; simpl.
  6: { destruct (tail_line_finishes line r) as (u & r2 & E2). apply wp_bind, (wp_run _ _ _ _ _ E2).
    destruct (tail_line_streamless line r) as (t & Ht & Hs). rewrite E2 in Ht. simpl in Ht. apply wp_ret.
    eexists _, t. split_and!; [done..|by apply holds_streamless|simpl; lia|by do 2 eexists]. }
  all: repeat first [wp_step | apply wp_on_rsys].
  all: cbn [rsys events world loaded logRulesCache]; rewrite <- ?(assoc_L (++)).
  all: eexists _, _; split; [done|]; split; [first [reflexivity | symmetry; apply app_nil_r]|].
  all: repeat match goal with H : Forall (λ e, quiet e = true) ?t |- _ =>
         rewrite ?omap_app, ?holds_app; simpl;
         rewrite ?(holds_streamless _ t (quiet_streamless t H)), ?(quiet_posts t H); clear H end.
  all: simpl; rewrite ?decide_True by done; split_and!; try done; try lia; try by destruct done.
  all: intros ->; simpl; lia.
Qed.

(** ** Runs of the goroutine *)

Lemma tail_runs_run (t t' : Tailing (W := W)) : tail_runs t t' →
  ∃ l, events (rsys (shared t')) = events (rsys (shared t)) ++ l ∧
    holds (held (point t)) l = Some (held (point t')) ∧ cancelled_ctx t' = cancelled_ctx t ∧
    (cancelled_ctx t = true → points_left (point t') < points_left (point t)) ∧
    (omap posted l ≠ [] → ∃ c line, point t = Forwarding c line).
Proof.
  intros [p r Hp Hs].
  destruct (wp_elim_any _ _ _ _ _ (tail_step_run (cancelled_ctx t) (point t) (shared t) Hp) Hs)
    as (p' & l & [= ->] & ? & ? & ? & ?). by exists l.
Qed.

Lemma others_run_run (t t' : Tailing (W := W)) : others_run t t' →
  events (rsys (shared t')) = events (rsys (shared t)) ∧ point t' = point t ∧
  (cancelled_ctx t = true → cancelled_ctx t' = true).
Proof. by intros [r Hr|]. Qed.

Lemma tail_runs_can (t : Tailing (W := W)) : point t ≠ Returned → ∃ t', tail_runs t t'.
Proof.
  intros Hp. pose proof (tail_step_run (cancelled_ctx t) (point t) (shared t) Hp) as Hw.
  destruct (tail_step (cancelled_ctx t) (point t) (shared t)) as [o r] eqn:E.
  destruct (wp_elim_any _ _ _ _ _ Hw E) as (p' & l & -> & _). eexists. by econstructor.
Qed.

(** C36: wherever the rest of the program and the world go in between, the
    goroutine holds at most one log stream: it closes each stream it opened
    before it opens the next, closes nothing else, and holds none when it has
    returned. *)
Theorem tail_streams r (t : Tailing) : rtc tail_move (start_tail r) t →
  ∃ l, events (rsys (shared t)) = events (rsys r) ++ l ∧ holds None l = Some (held (point t)).
Proof.
  apply (rtc_invariant _ (λ t : Tailing, ∃ l, events (rsys (shared t)) = events (rsys r) ++ l ∧
    holds None l = Some (held (point t)))).
  - intros t1 t2 (l & Hl & Hh) [Hs|Hs].
    + destruct (tail_runs_run _ _ Hs) as (l' & Hl' & Hh' & _). exists (l ++ l').
      by rewrite Hl', Hl, (assoc_L (++)), holds_app, Hh.
    + destruct (others_run_run _ _ Hs) as (-> & -> & _). by exists l.
  - exists []. by rewrite app_nil_r.
Qed.

Lemma others_keep (t u : Tailing (W := W)) : rtc others_run t u →
  point u = point t ∧ (cancelled_ctx t = true → cancelled_ctx u = true).
Proof.
  apply (rtc_invariant _ (λ u : Tailing, point u = point t ∧ (cancelled_ctx t = true → cancelled_ctx u = true))); [|done].
  intros u1 v [Hp Hc] Hs. destruct (others_run_run _ _ Hs) as (_ & -> & Hk). auto.
Qed.

Lemma tail_turns n (t t' : Tailing (W := W)) : nsteps tail_turn n t t' → cancelled_ctx t = true →
  n + points_left (point t') ≤ points_left (point t).
Proof.
  induction 1 as [|n t u t' (v & Ho & Hr) _ IH]; intros Hc; [done|].
  destruct (others_keep _ _ Ho) as [Hp Hc']. destruct (tail_runs_run _ _ Hr) as (_ & _ & _ & Hk & Hlt & _).
  rewrite <- Hp. specialize (Hlt (Hc' Hc)). rewrite Hk in IH. specialize (IH (Hc' Hc)). lia.
Qed.

(** A cancelled goroutine does not begin to forward a line. *)
Lemma not_forwarding p r c line r' : tail_step true p r ≠ (Done (Forwarding c line), r').
Proof.
  intros Hs. assert (wp (tail_step true p) (λ o _, ∀ c line, o ≠ Done (Forwarding c line)) r) as Hw.
  { destruct p as [| | |c0|c0 line0|c0 line0|c0|d|]; simpl.
    6: { destruct (tail_line_finishes line0 r) as (u & r2 & E2). apply wp_bind, (wp_run _ _ _ _ _ E2). by apply wp_ret. }
    all: repeat first [wp_step | apply wp_on_rsys]; done. }
  unfold wp in Hw. rewrite Hs in Hw. by apply (Hw c line).
Qed.

(** C20: once it is cancelled, wherever it is and whatever goes on around it, the
    goroutine has at most six more steps, can always take the next until it has
    returned, and, unless it is in the middle of forwarding a line, sends
    nothing to the webhook any more. *)
Theorem tail_stops (t : Tailing (W := W)) : cancelled_ctx t = true →
  (∀ n t', nsteps tail_turn n t t' → n ≤ 6 ∧ (point t' ≠ Returned → ∃ t'', tail_runs t' t'')) ∧
  ((∀ c line, point t ≠ Forwarding c line) → ∀ t', rtc tail_move t t' →
     ∃ l, events (rsys (shared t')) = events (rsys (shared t)) ++ l ∧ omap posted l = []).
Proof.
  intros Hc. split.
  - intros n t' Hn. pose proof (tail_turns n t t' Hn Hc). split; [|apply tail_runs_can].
    assert (points_left (point t) ≤ 6) by (destruct (point t); simpl; lia). lia.
  - intros Hf t' Hr.
    enough (cancelled_ctx t' = true ∧ (∀ c line, point t' ≠ Forwarding c line) ∧
      ∃ l, events (rsys (shared t')) = events (rsys (shared t)) ++ l ∧ omap posted l = []) by tauto.
    revert t' Hr. intros t'. apply (rtc_invariant _ (λ t' : Tailing, cancelled_ctx t' = true ∧
      (∀ c line, point t' ≠ Forwarding c line) ∧
      ∃ l, events (rsys (shared t')) = events (rsys (shared t)) ++ l ∧ omap posted l = []));
      [|split_and!; [done..|exists []; by rewrite app_nil_r]].
    intros t1 t2 (Hc1 & Hf1 & l & Hl & Hp) [Hs|Hs].
    + pose proof (tail_runs_run _ _ Hs) as (l' & Hl' & _ & Hk & _ & Hpost). rewrite Hk, Hl', Hl.
      split; [done|]. split; [|exists (l ++ l'); rewrite (assoc_L (++)), omap_app, Hp; split; [done|]].
      * intros c line Heq. destruct Hs as [p r Hret Hs]. simpl in Heq. subst p. rewrite Hc1 in Hs.
        by apply (not_forwarding (point t1) (shared t1) c line r).
      * destruct (omap posted l') as [|x xs] eqn:E; [done|]. destruct Hpost as (c & line & H'); [done|]. by destruct (Hf1 c line).
    + destruct (others_run_run _ _ Hs) as (-> & -> & H'). split_and!; [auto..|by exists l].
Qed.
End TailSpec.

(** * At a concrete input *)

Definition toy_rules : Rules (W := Toy) := mkRules toy_sys ∅.

Abbreviation toy_move := (tail_move (W := Toy) "mc2" "./config.json" "https://hook").
Abbreviation toy_turn := (tail_turn (W := Toy) "mc2" "./config.json" "https://hook").

(** Three steps lead to the stream of the container. *)
Definition toy_step := tail_step (W := Toy) "mc2" "./config.json" "https://hook" false.
Definition toy_inspected : Rules (W := Toy) := (toy_step Inspecting toy_rules).2.
Definition toy_scanning : Tailing (W := Toy) := mkTailing (Scanning 3) false (toy_step OpeningLogs toy_inspected).2.

Lemma step_to p p' r : p ≠ Returned → (toy_step p r).1 = Done p' →
  toy_move (mkTailing p false r) (mkTailing p' false (toy_step p r).2).
Proof. intros Hp E. left. apply tail_runs_step; [done|]. change (tail_step _ _ _ _ _ _) with (toy_step p r). rewrite <- E. by destruct (toy_step p r). Qed.

Lemma toy_run_scanning : rtc toy_move (start_tail toy_rules) toy_scanning.
Proof.
  eapply rtc_l; [by apply (step_to Top Inspecting)|].
  eapply rtc_l; [apply (step_to Inspecting OpeningLogs); [done|by vm_compute]|].
  apply rtc_once, (step_to OpeningLogs (Scanning 3)); [done|by vm_compute].
Qed.

Lemma tail_streams_witness :
  held (point toy_scanning) = Some 3 ∧
  ∃ l, events (rsys (shared toy_scanning)) = events (rsys toy_rules) ++ l ∧ holds None l = Some (Some 3).
Proof. split; [done|]. exact (tail_streams "mc2" "./config.json" "https://hook" toy_rules toy_scanning toy_run_scanning). Defined.

(** Cancelled while the line is in its hands, it closes the stream and returns. *)
Definition toy_cancelled : Tailing (W := Toy) := mkTailing (GotLine 3 "steve joined") true toy_rules.

Definition toy_over : Tailing (W := Toy) :=
  mkTailing Returned true (tail_step (W := Toy) "mc2" "./config.json" "https://hook" true (GotLine 3 "steve joined") toy_rules).2.

Lemma toy_run_over : nsteps toy_turn 1 toy_cancelled toy_over.
Proof.
  eapply nsteps_l; [|apply nsteps_O]. exists toy_cancelled. split; [apply rtc_refl|].
  by apply tail_runs_step.
Qed.

Lemma tail_stops_witness : 1 ≤ 6 ∧ point toy_over = Returned.
Proof.
  split; [|reflexivity].
  exact (proj1 (proj1 (tail_stops "mc2" "./config.json" "https://hook" toy_cancelled eq_refl) 1 toy_over toy_run_over)).
Defined.
