(* ===== verification/Vfs.v ===== *)
(** [internal/vfs]: the virtual file tree of containers and their mounts, and
    how a virtual path is resolved to a path of the host. *)

From S2P Require Import Prelude GoStrings GoPath GoTime Config World TestBed ConfigLoad.

(** * FileInfo *)

(** What an [os.FileInfo] of the program is: one of package [os], or the
    program's own for the levels that exist on no disk. *)
Inductive Info : Type :=
| OsInfo (fi : FileInfo)
| VfsInfo (name : string) (isDir : bool).

Definition NewFileInfo (name : string) (isDir : bool) : Info := VfsInfo name isDir.

Definition InfoName (i : Info) : string :=
  match i with OsInfo fi => FName fi | VfsInfo name _ => name end.
Definition InfoIsDir (i : Info) : bool :=
  match i with OsInfo fi => FIsDir fi | VfsInfo _ isDir => isDir end.

(** [Size] and [Mode] of the program's own kind; [os.ModeDir] is bit 31. *)
Definition VfsSize (isDir : bool) : Z := 0.
Definition VfsMode (isDir : bool) : Z :=
  if isDir then Z.lor (Z.shiftl 1 31) 493 else 420.

(** * Handler *)

(** The configuration a handler points to is the shared one of the state. *)
Record Handler := mkHandler { Username : string }.

(** The loop over [inspect.Mounts]. *)
Fixpoint find_mount (targetSubPath : string) (ms : list MountPoint) : option MountPoint :=
  match ms with
  | [] => None
  | m :: ms' => if decide (Trim (Destination m) slash = targetSubPath) then Some m
                else find_mount targetSubPath ms'
  end.

Section Vfs.
Context {W : Type} `{!Docker W, !OS W}.

Definition MapPath (h : Handler) (path : string) : Comp (Sys W) (result string) :=
  let path := Clean path in
  let parts := Split (Trim path slash) slash in
  match parts with
  | [] => ret (inl ErrVfsRoot)
  | containerName :: rest =>
      if decide (rest = [] ∧ containerName = "") then ret (inl ErrVfsRoot)
      else
        cfg <- Get ;;
        match Users cfg !! Username h with
        | None => ret (inl ErrPermission)
        | Some user =>
            if negb (HasPermission user containerName PermContainerRead) then
              Logf "Client" "VFS" "アクセス拒否: user=%s, path=%s" [Username h; path] ;;
              ret (inl ErrPermission)
            else
              match Servers cfg !! containerName with
              | None => ret (inl ErrNotExist)
              | Some _ =>
                  match rest with
                  | [] => ret (inl ErrVfsContainerRoot)
                  | targetSubPath :: _ =>
                      r <- dk_Inspect containerName ;;
                      match r with
                      | inl err =>
                          Logf "Internal" "VFS" "コンテナ %s の詳細取得失敗: %v" [containerName; show_error err] ;;
                          ret (inl ErrNotExist)
                      | inr inspect =>
                          match find_mount targetSubPath (Mounts inspect) with
                          | Some m =>
                              let rel := default "" (Rel targetSubPath (Join rest slash)) in
                              ret (inr (JoinPath [Source m; rel]))
                          | None => ret (inl ErrNotExist)
                          end
                      end
                  end
              end
        end
  end.

(** * Lemmas *)

Lemma MapPath_emits P h path :
  (∀ e, read_only e = true → P e) → emits P (MapPath h path).
Proof.
  intros H. unfold MapPath.
  repeat emits_step; try (by apply H); apply Get_emits; intros e He; by apply H, quiet_read_only.
Qed.
End Vfs.

(** ** The parts of a cleaned path *)

Lemma Trim_render rooted es :
  Forall plain es → es ≠ [] → Trim (render rooted es) slash = Join es slash.
Proof.
  intros Hes Hne.
  assert (Trim (Join es slash) slash = Join es slash) as HT.
  { apply Trim_Join. eapply Forall_impl; [exact Hes|]. by intros e (? & ? & ?). }
  unfold render. destruct rooted; [by rewrite Trim_cons|]. by destruct (decide (es = [])).
Qed.

Lemma Clean_parts p :
  Split (Trim (Clean p) slash) slash =
  match elems (Clean p) with
  | [] => [if is_rooted p then "" else "."]
  | es => es
  end.
Proof.
  destruct (Clean_normal_form p) as (rooted & es & E & Hes).
  pose proof (normal_plain _ _ Hes) as Hpl.
  assert (is_rooted p = rooted) as ->
    by (by rewrite <- is_rooted_Clean, E, is_rooted_render).
  rewrite E, elems_render by done. destruct es as [|e es].
  - by destruct rooted.
  - rewrite Trim_render by done. by apply Split_plain.
Qed.

Lemma Clean_elems_normal p : normal (is_rooted p) (elems (Clean p)).
Proof.
  destruct (Clean_normal_form p) as (rooted & es & E & Hes).
  pose proof (normal_plain _ _ Hes) as Hpl.
  rewrite <- is_rooted_Clean, E, is_rooted_render, elems_render by done. done.
Qed.

(** ** Relative path below a mount *)

Lemma strip_common_app xs ys : strip_common xs (xs ++ ys) = ([], ys).
Proof.
  induction xs as [|x xs IH]; simpl; [by destruct ys|]. by rewrite decide_True.
Qed.

Lemma words_of_plain es : es ≠ [] → Forall plain es → words_of (Join es slash) = es.
Proof.
  intros Hne Hes. unfold words_of. rewrite is_rooted_Join by done.
  rewrite decide_False; [by apply Split_plain|].
  intros E. pose proof (Split_plain es Hne Hes) as Hs. rewrite E in Hs. simpl in Hs. subst es.
  by apply Forall_cons in Hes as [(? & _) _].
Qed.

Lemma Rel_below d ns :
  normal false (d :: ns) →
  Rel d (Join (d :: ns) slash) = Some (match ns with [] => "." | _ => Join ns slash end).
Proof.
  intros Hn. pose proof (normal_plain _ _ Hn) as Hp.
  assert (normal false [d]) as Hd.
  { destruct Hn as ([|n] & ms & E & Hms & Hdd & _); simplify_eq/=.
    - apply normal_names; [by apply Forall_cons in Hms as [? _]; constructor|].
      apply not_elem_of_cons in Hdd as [? _]. by apply not_elem_of_cons; split; [|apply not_elem_of_nil].
    - exists 1, []. split_and!; try done. apply not_elem_of_nil. }
  pose proof (normal_plain _ _ Hd) as Hpd.
  assert (Clean d = d) as Hcd by (by apply (Clean_Join_plain [d])).
  assert (is_rooted d = false) as Hrd by (by apply (is_rooted_Join [d])).
  assert (words_of d = [d]) as Hwd by (by apply (words_of_plain [d])).
  assert (d ≠ ".") as Hdot by (by apply Forall_cons in Hpd as [(_ & ? & _) _]).
  unfold Rel. rewrite (Clean_Join_plain (d :: ns)), Hcd by done.
  destruct ns as [|n ns]; [by rewrite decide_True|].
  rewrite decide_False.
  2: { intros E. apply (f_equal words_of) in E. by rewrite Hwd, words_of_plain in E. }
  rewrite (decide_False (P := d = ".")) by done.
  rewrite decide_False by (rewrite Hrd, is_rooted_Join by done; by intros []).
  rewrite Hwd, words_of_plain by done.
  change (d :: n :: ns) with ([d] ++ n :: ns). by rewrite strip_common_app.
Qed.

(** ** What a resolved path is *)

Lemma find_mount_Some t ms m :
  find_mount t ms = Some m → m ∈ ms ∧ Trim (Destination m) slash = t.
Proof.
  induction ms as [|m' ms IH]; simpl; [done|]. case_decide.
  - intros [= <-]. split; [by left|done].
  - intros H'. destruct (IH H') as [? ?]. split; [by right|done].
Qed.

(** The path of the host for the elements below a mount. *)
Definition host_path (m : MountPoint) (below : list string) : string :=
  JoinPath [Source m; match below with [] => "." | _ => Join below slash end].

Lemma host_path_within m below :
  Forall plain below → ".." ∉ below → within (Clean (Source m)) (host_path m below).
Proof.
  intros Hp Hd. unfold host_path. destruct below as [|e es]; [apply JoinPath_dot_within|].
  by apply JoinPath_within.
Qed.

(** A path resolved to [q] under the configuration [cfg], by an inspect answer
    found in the record [evs]. *)
Definition resolved (h : Handler) (path q : string) (cfg : Config) (evs : list Event) : Prop :=
  ∃ containerName target below u ins m,
    elems (Clean path) = containerName :: target :: below ∧
    Users cfg !! Username h = Some u ∧
    HasPermission u containerName PermContainerRead = true ∧
    is_Some (Servers cfg !! containerName) ∧
    EvInspect containerName (inr ins) ∈ evs ∧
    m ∈ Mounts ins ∧ Trim (Destination m) slash = target ∧
    q = host_path m below.

(** [q] lies in or below the source of a mount that an inspect of [c] in the
    record [t] answered. *)
Definition in_mount_of (c : string) (t : list Event) (q : string) : Prop :=
  ∃ ins m, EvInspect c (inr ins) ∈ t ∧ m ∈ Mounts ins ∧ within (Clean (Source m)) q.

Lemma in_mount_of_mono c t t' q : in_mount_of c t q → t ⊆ t' → in_mount_of c t' q.
Proof. intros (ins & m & ? & ? & ?) Hs. exists ins, m. eauto. Qed.

Section VfsFacts.
Context {W : Type} `{!DockerClient W, !OS W}.
Implicit Types s : Sys W.

(** The parts of a path that is not the root. *)
Lemma parts_cons p c rest :
  Split (Trim (Clean p) slash) slash = c :: rest → rest ≠ [] →
  elems (Clean p) = c :: rest.
Proof.
  rewrite Clean_parts. destruct (elems (Clean p)) as [|e es]; [|by intros ->].
  intros [= _ <-]. done.
Qed.

(** Continuing after [MapPath]: what it adds to the record, and by which answers
    a path it returns was resolved. *)
Lemma wp_MapPath h path (Q : Outcome (result string) → Sys W → Prop) s :
  (∀ r w lc t, Forall (λ e, looks e = true) t → in_force s t (cfg_Config lc) →
     (∀ q, r = inr q → resolved h path q (cfg_Config lc) t) →
     Q (Done r) (mkSys w lc (events s ++ t))) →
  wp (MapPath h path) Q s.
Proof.
  intros HQ.
  assert (∀ r w, (∀ q, r ≠ inr q) → Q (Done r) (mkSys w (loaded s) (events s)) ) as Hnil.
  { intros r w Hr. specialize (HQ r w (loaded s) []). rewrite app_nil_r in HQ.
    apply HQ; [done|by left|]. intros q ->. by destruct (Hr q). }
  destruct s as [w0 lc0 e0]. simpl in *. unfold MapPath.
  destruct (Split (Trim (Clean path) slash) slash) as [|c rest] eqn:Hparts.
  { wp_step. by apply Hnil. }
  case_decide; [wp_step; by apply Hnil|].
  wp_step. apply wp_Get. intros w lc t Ht Hfo.
  repeat wp_step; rewrite <- ?(assoc_L (++)); apply HQ;
    try solve_read_only; try done; try (by eapply in_force_mono; [exact Hfo|set_solver]);
    intros q Hq; simplify_eq.
  apply parts_cons in Hparts as Helems; [|done].
  pose proof (Clean_elems_normal path) as Hn. rewrite Helems in Hn.
  apply normal_tail, Rel_below in Hn. rewrite Hn. cbn [default].
  match goal with H : find_mount _ _ = Some _ |- _ => apply find_mount_Some in H as [? ?] end.
  unfold resolved. do 6 eexists. split_and!; eauto.
  - by destruct (HasPermission _ _ _).
  - apply elem_of_app. right. by left.
Qed.

(** A path resolved from a root, or whose first element is a name, lies in a
    mount of the container its first element names. *)
Lemma resolved_confined h path q cfg t :
  resolved h path q cfg t → is_rooted path = true ∨ head (elems (Clean path)) ≠ Some ".." →
  ∃ c rest u, elems (Clean path) = c :: rest ∧ rest ≠ [] ∧ Users cfg !! Username h = Some u ∧
    HasPermission u c PermContainerRead = true ∧ is_Some (Servers cfg !! c) ∧ in_mount_of c t q.
Proof.
  intros (c & d & below & u & ins & m & He & Hu & Hp & Hs & Hi & Hm & Ht & ->) Hor.
  exists c, (d :: below), u. split_and!; try done. exists ins, m. split_and!; try done.
  pose proof (Clean_elems_normal path) as Hn. rewrite He in Hn.
  assert (is_rooted path = true ∨ c ≠ "..") as Hc.
  { destruct Hor as [?|Hor]; [by left|right]. intros ->. by rewrite He in Hor. }
  pose proof (normal_no_dotdot _ _ _ Hn Hc) as Hdd. apply normal_plain in Hn.
  apply Forall_cons in Hn as [_ Hn]. apply Forall_cons in Hn as [_ Hn].
  apply not_elem_of_cons in Hdd as [_ Hdd]. by apply host_path_within.
Qed.

(** C2: whatever path a client sends, a path [MapPath] resolves lies in the
    directory of a mount of the container its first element names, or below
    it; the user may read that container and the container is configured.
    ([..] cannot be the name of a configured server for a relative path.) *)
Theorem MapPath_confined h path q s s' :
  MapPath h path s = (Done (inr q), s') →
  is_rooted path = true ∨ Servers (cfg_Config (loaded s')) !! ".." = None →
  ∃ t containerName rest u ins m,
    events s' = events s ++ t ∧
    elems (Clean path) = containerName :: rest ∧ rest ≠ [] ∧
    Users (cfg_Config (loaded s')) !! Username h = Some u ∧
    HasPermission u containerName PermContainerRead = true ∧
    is_Some (Servers (cfg_Config (loaded s')) !! containerName) ∧
    EvInspect containerName (inr ins) ∈ t ∧
    m ∈ Mounts ins ∧ within (Clean (Source m)) q.
Proof.
  intros H. set (o := Done (inr q)) in H. assert (o = Done (inr q)) as Ho by done.
  revert Ho. pattern o, s'. revert H. apply wp_elim, wp_MapPath.
  intros r w lc t _ _ Hr [= ->] Hor. simpl in *. specialize (Hr q eq_refl).
  assert (is_rooted path = true ∨ head (elems (Clean path)) ≠ Some "..") as Hor'.
  { destruct Hor as [?|Hor]; [by left|right]. destruct Hr as (c & d & b & u & ins & m & -> & _ & _ & [srv Hs] & _).
    intros [= ->]. by rewrite Hor in Hs. }
  destruct (resolved_confined _ _ _ _ _ Hr Hor')
    as (c & rest & u & ? & ? & ? & ? & ? & ins & m & ? & ? & ?).
  exists t, c, rest, u, ins, m. done.
Qed.

(** [MapPath] never panics and asks the world only for information: it
    reads the configuration file, inspects a container and writes log lines. *)
Theorem MapPath_harmless h path s :
  ∃ r s', MapPath h path s = (Done r, s') ∧ ∃ t, events s' = events s ++ t ∧
    Forall (λ e, read_only e = true) t.
Proof. apply wp_exists, wp_MapPath. intros r w lc t Ht%looks_read_onlys _ _. eauto. Qed.

Lemma parts_of_elems rooted es :
  normal rooted es → es ≠ [] → Split (Trim (Clean (render rooted es)) slash) slash = es.
Proof.
  intros Hn Hne. rewrite Clean_parts, Clean_render_id by done.
  rewrite elems_render by (by eapply normal_plain). by destruct es.
Qed.

(** C31: a mount whose destination is a single directory can be reached in all its
    depth: for a user who may read a configured container, the virtual path
    container/mount/names resolves to the names below the source directory of the
    first mount with that destination.  (A mount with a deeper destination is
    never found, so nothing below it is reachable.) *)
Theorem MapPath_resolves h s s1 cfg u c d names ins w1 m :
  Forall plain (c :: d :: names) → ".." ∉ c :: d :: names →
  Get s = (Done cfg, s1) →
  Users cfg !! Username h = Some u → HasPermission u c PermContainerRead = true →
  is_Some (Servers cfg !! c) →
  ContainerInspect c (world s1) = (inr ins, w1) → find_mount d (Mounts ins) = Some m →
  (MapPath h (render true (c :: d :: names)) s).1 = Done (inr (host_path m names)).
Proof.
  intros Hp Hdd HGet Hu Hperm [srv Hsrv] Hins Hm. unfold MapPath.
  rewrite parts_of_elems by (by try apply normal_names).
  rewrite decide_False by by intros [].
  rewrite (bind_done _ _ _ _ _ HGet). rewrite Hu, Hperm, Hsrv. cbv iota beta delta [negb].
  rewrite (bind_done _ _ _ _ _ (dk_Inspect_run _ _ _ _ Hins)), Hm. simpl.
  pose proof (Rel_below d names) as HR. simpl in HR. rewrite HR; [done|].
  apply Forall_cons in Hp as [_ Hp]. apply not_elem_of_cons in Hdd as [_ Hdd].
  by apply normal_names.
Qed.

(** A mount whose destination is deeper than one directory is out of
    reach, though the container's listing shows it: when the container
    inspected has only such mounts, no path into it resolves. *)
Theorem MapPath_nested_unreachable h path s :
  ∃ r s', MapPath h path s = (Done r, s') ∧ ∃ t, events s' = events s ++ t ∧
    ((∀ c ins m, EvInspect c (inr ins) ∈ t → m ∈ Mounts ins →
        slash ∈ bytes (Trim (Destination m) slash)) →
     ∃ err, r = inl err).
Proof.
  apply wp_exists, wp_MapPath. intros r w lc t _ _ Hr. exists r. split; [done|]. exists t.
  split; [done|]. intros Hdeep. destruct r as [err|q]; [by eexists|].
  destruct (Hr q eq_refl) as (c & d & below & u & ins & m & He & _ & _ & _ & Hi & Hm & Ht & _).
  pose proof (Hdeep _ _ _ Hi Hm) as Hs. rewrite Ht in Hs.
  pose proof (normal_plain _ _ (Clean_elems_normal path)) as Hp. rewrite He in Hp.
  apply Forall_cons in Hp as [_ Hp]. apply Forall_cons in Hp as [(_ & _ & Hd) _]. done.
Qed.

(** The empty path, which is what remains of [/dav/] once its prefix is
    stripped, is not the root: it is taken for a container named [.] and
    refused. *)
Theorem MapPath_empty h s s' o :
  MapPath h "" s = (o, s') →
  Servers (cfg_Config (loaded s')) !! "." = None →
  o = Done (inl ErrPermission) ∨ o = Done (inl ErrNotExist).
Proof.
  intros H. pattern o, s'. revert H. apply wp_elim. unfold MapPath.
  change (Split (Trim (Clean "") slash) slash) with ["."]. cbv iota.
  rewrite decide_False by by intros []. wp_step. apply wp_Get. intros w lc t _ _.
  repeat wp_step; eauto. intros. congruence.
Qed.
End VfsFacts.

(** * Witnesses *)

Lemma MapPath_confined_witness :
  (MapPath (mkHandler "alice") "/mc1/./data/a/../x" toy_boot).1 = Done (inr "/srv/mc1/data/x") ∧
  ∃ m, within (Clean (Source m)) "/srv/mc1/data/x".
Proof.
  split; [vm_compute; reflexivity|].
  destruct (MapPath_confined (mkHandler "alice") "/mc1/./data/a/../x" "/srv/mc1/data/x" toy_boot
    (MapPath (mkHandler "alice") "/mc1/./data/a/../x" toy_boot).2) as (t & c & rest & u & ins & m & Hm);
    [vm_compute; reflexivity|by left|].
  exists m. apply Hm.
Defined.

Lemma MapPath_resolves_witness :
  (MapPath (mkHandler "alice") "/mc1/data/world/level.dat" toy_boot).1
  = Done (inr "/srv/mc1/data/world/level.dat").
Proof.
  apply (MapPath_resolves (mkHandler "alice") toy_boot (Get toy_boot).2 toy_config alice "mc1" "data"
    ["world"; "level.dat"] (container_of "mc1" false)
    (ContainerInspect "mc1" (world (Get toy_boot).2)).2 (mkMountPoint "/srv/mc1/data" "/data")).
  - decided.
  - decided.
  - vm_compute; reflexivity.
  - vm_compute; reflexivity.
  - vm_compute; reflexivity.
  - by eexists.
  - vm_compute; reflexivity.
  - vm_compute; reflexivity.
Defined.

Lemma MapPath_empty_witness :
  (MapPath (mkHandler "root") "" toy_boot).1 = Done (inl ErrNotExist).
Proof.
  destruct (MapPath_empty (mkHandler "root") toy_boot (MapPath (mkHandler "root") "" toy_boot).2
    (MapPath (mkHandler "root") "" toy_boot).1) as [H|H].
  - apply surjective_pairing.
  - vm_compute; reflexivity.
  - exfalso. by vm_compute in H.
  - exact H.
Defined.
