(* ===== verification/Sftp.v ===== *)
(** [internal/sftp]: password authentication, the SFTP request handlers on top of
    the virtual file tree, and the paging of directory listings. *)

From S2P Require Import Prelude GoStrings GoPath GoTime Config World ConfigLoad Vfs.

(** * Requests *)

(** The fields of [sftp.Request] the handlers read. *)
Record Request := mkRequest { Method : string; Filepath : string; Target : string }.

(** Flags of [os.OpenFile] (Linux values). *)
Definition O_WRONLY : Z := 1.
Definition O_RDWR : Z := 2.
Definition O_CREATE : Z := 64.
Definition O_TRUNC : Z := 512.
Definition O_APPEND : Z := 1024.

(** [strings.Split(strings.Trim(p, "/"), "/")[0]]; [Split] is never empty. *)
Definition first_part (p : string) : string :=
  match Split (Trim p slash) slash with
  | [] => ""
  | w :: _ => w
  end.

(** * Paging *)

(** [listerAt]: a nil element stands for an entry whose [Info] failed. *)
Record listerAt := mkListerAt { items : list (option Info) }.

(** [ListAt(ls, offset)] on a buffer of [n] elements: the elements copied into it
    and the error.  A negative offset is out of the slice's range. *)
Definition ListAt (l : listerAt) (n : nat) (offset : Z) : Outcome (list (option Info) * option error) :=
  if decide (Z.of_nat (length (items l)) ≤ offset)%Z then Done ([], Some EOF)
  else if decide (offset < 0)%Z then Panic "slice bounds out of range"
  else
    let copied := take n (drop (Z.to_nat offset) (items l)) in
    if decide (length copied < n) then Done (copied, Some EOF) else Done (copied, None).

(** * SSH channel requests *)

(** The reply to a request on a session channel; [req.Payload[4:]] is out of
    range on a payload shorter than four bytes. *)
Definition subsystem_reply (reqType : string) (payload : string) : Outcome bool :=
  if decide (reqType = "subsystem") then
    if decide (String.length payload < 4) then Panic "slice bounds out of range"
    else Done (bool_decide (String.substring 4 (String.length payload - 4) payload = "sftp"))
  else Done false.

(** The mount names below a container. *)
Definition mount_items (ms : list MountPoint) : list Info :=
  (λ m, NewFileInfo (Trim (Destination m) slash) true) <$> ms.

(** The servers a user may read, of those ranged over. *)
Definition server_items (user : UserConfig) (servers : list (string * ServerConfig)) : list Info :=
  (λ kv, NewFileInfo kv.1 true) <$> filter (λ kv, HasPermission user kv.1 PermContainerRead = true) servers.

Section Sftp.
Context {W : Type} `{!Docker W, !OS W, !MapRange W}.

(** [authenticate]: on success the user recorded in the connection. *)
Definition authenticate (user addr pass : string) : Comp (Sys W) (result string) :=
  cfg <- Get ;;
  let ok := match Users cfg !! user with
            | Some u => bool_decide (Password u = pass)
            | None => false
            end in
  if negb ok then
    Logf "Client" "SFTP" "ログイン失敗: user=%s, addr=%s" [user; addr] ;;
    ret (inl (Errorf "authentication failed" []))
  else
    Logf "Client" "SFTP" "ログイン成功: user=%s, addr=%s" [user; addr] ;;
    ret (inr user).

(** [info, _ := f.Info()] for every entry. *)
Fixpoint entry_infos (dir : string) (entries : list DirEntry) : Comp (Sys W) (list (option Info)) :=
  match entries with
  | [] => ret []
  | e :: es =>
      r <- entry_Info dir e ;;
      rest <- entry_infos dir es ;;
      ret (match r with inr fi => Some (OsInfo fi) | inl _ => None end :: rest)
  end.

Definition Filelist (h : Handler) (r : Request) : Comp (Sys W) (result listerAt) :=
  m <- MapPath h (Filepath r) ;;
  Logf "Client" "SFTP" "ディレクトリ一覧取得: user=%s, path=%s" [Username h; Filepath r] ;;
  match m with
  | inl ErrVfsRoot =>
      cfg <- Get ;;
      servers <- range_map (Servers cfg) ;;
      ret (inr (mkListerAt (Some <$> server_items (user_at cfg (Username h)) servers)))
  | inl ErrVfsContainerRoot =>
      let containerName := Trim (Filepath r) slash in
      i <- dk_Inspect containerName ;;
      match i with
      | inr inspect => ret (inr (mkListerAt (Some <$> mount_items (Mounts inspect))))
      | inl err =>
          Logf "Internal" "SFTP" "コンテナ %s のマウント一覧取得失敗: %v" [containerName; show_error err] ;;
          ret (inr (mkListerAt []))
      end
  | inl err => ret (inl err)
  | inr fullPath =>
      files <- os_ReadDir fullPath ;;
      match files with
      | inl err => ret (inl err)
      | inr files =>
          infos <- entry_infos fullPath files ;;
          ret (inr (mkListerAt infos))
      end
  end.

Definition Fileread (h : Handler) (r : Request) : Comp (Sys W) (result File) :=
  m <- MapPath h (Filepath r) ;;
  match m with
  | inl err => ret (inl err)
  | inr fullPath =>
      Logf "Client" "SFTP" "ファイル読込: user=%s, path=%s" [Username h; Filepath r] ;;
      os_Open fullPath
  end.

Definition Filewrite (h : Handler) (r : Request) : Comp (Sys W) (result File) :=
  let containerName := first_part (Filepath r) in
  cfg <- Get ;;
  if negb (HasPermission (user_at cfg (Username h)) containerName PermFileWrite) then
    ret (inl ErrPermission)
  else
    m <- MapPath h (Filepath r) ;;
    match m with
    | inl err => ret (inl err)
    | inr fullPath =>
        Logf "Client" "SFTP" "ファイル書込: user=%s, path=%s" [Username h; Filepath r] ;;
        os_OpenFile fullPath (Z.lor (Z.lor O_WRONLY O_CREATE) O_TRUNC) 420
    end.

Definition Filecmd (h : Handler) (r : Request) : Comp (Sys W) (option error) :=
  let containerName := first_part (Filepath r) in
  cfg <- Get ;;
  if negb (HasPermission (user_at cfg (Username h)) containerName PermFileWrite) then
    ret (Some ErrPermission)
  else
    m <- MapPath h (Filepath r) ;;
    match m with
    | inl err => ret (Some err)
    | inr fullPath =>
        Logf "Client" "SFTP" "構成変更操作 (%s): user=%s, path=%s" [Method r; Username h; Filepath r] ;;
        if decide (Method r = "Setstat") then ret None
        else if decide (Method r = "Rename") then
          t <- MapPath h (Target r) ;;
          match t with
          | inl err => ret (Some err)
          | inr targetPath =>
              Logf "Client" "SFTP" "リネーム対象: %s -> %s (user=%s)" [Filepath r; Target r; Username h] ;;
              os_Rename fullPath targetPath
          end
        else if decide (Method r = "Rmdir") then os_RemoveAll fullPath
        else if decide (Method r = "Mkdir") then os_MkdirAll fullPath 493
        else if decide (Method r = "Remove") then os_Remove fullPath
        else if decide (Method r = "Symlink") then
          err <- ClientError "SFTP" "シンボリックリンクの作成は許可されていません" [] ;;
          ret (Some err)
        else ret None
    end.
End Sftp.
