(* ===== verification/Access.v ===== *)
(** When a change of the host's disk, or a look at it, is permitted: the notions
    the file servers are judged by, and the lemmas that relate them to
    [MapPath].  Both servers check the first part of the path as it was sent,
    while [MapPath] resolves the cleaned path. *)

From S2P Require Import Prelude GoStrings GoPath GoTime Config World ConfigLoad Vfs Sftp.

Section Access.
Context {W : Type}.
Implicit Types s : Sys W.

(** The path names a container whose files the user may write under a
    configuration in force, and [q] is in one of its mounts. *)
Definition write_guarded s (h : Handler) (path : string) (t : list Event) (q : string) : Prop :=
  ∃ c rest cfg, elems (Clean path) = c :: rest ∧ in_force s t cfg ∧
    HasPermission (user_at cfg (Username h)) c PermFileWrite = true ∧ in_mount_of c t q.

(** The path names a configured container the user may read under a
    configuration in force, and [q] is in one of its mounts. *)
Definition read_guarded s (h : Handler) (path : string) (t : list Event) (q : string) : Prop :=
  ∃ c rest cfg, elems (Clean path) = c :: rest ∧ in_force s t cfg ∧
    HasPermission (user_at cfg (Username h)) c PermContainerRead = true ∧
    is_Some (Servers cfg !! c) ∧ in_mount_of c t q.

(** No part of the path leads upwards, and it does not start with [.]. *)
Definition safe_name (p : string) : Prop := (".." ∉ Split p slash) ∧ first_part p ≠ ".".

#[export] Instance safe_name_dec p : Decision (safe_name p).
Proof. unfold safe_name. apply _. Defined.

Lemma safe_head p : safe_name p → head (elems (Clean p)) ≠ Some "..".
Proof.
  intros [Hd _] H. apply head_Some_elem_of in H. rewrite elems_Clean_no_dotdot in H by done.
  by apply list_elem_of_filter in H as [_ ?].
Qed.

Lemma first_part_in p : first_part p ≠ "" → first_part p ≠ "." →
  head (elems p) = Some (first_part p).
Proof.
  unfold first_part. rewrite elems_Trim. destruct (Split (Trim p slash) slash) as [|w ws]; [done|].
  intros H1 H2. by rewrite filter_cons_True.
Qed.

(** On a safe path the check and the resolution agree about the container. *)
Lemma first_part_safe p c rest :
  safe_name p → first_part p ≠ "" → elems (Clean p) = c :: rest → first_part p = c.
Proof.
  intros [Hd Hf] Hne He. rewrite elems_Clean_no_dotdot in He by done.
  pose proof (first_part_in p Hne Hf) as H. rewrite He in H. by injection H.
Qed.

(** So do they on a clean path from the root. *)
Lemma clean_safe p : is_rooted p = true → Clean p = p → first_part p ≠ "" → safe_name p.
Proof.
  intros Hr Hc Hne. destruct (Clean_rooted_no_dotdot p Hr) as [_ Hd]. rewrite Hc in Hd. split.
  - intros Hin. apply Hd. unfold elems. by apply list_elem_of_filter.
  - intros Hf. pose proof (Clean_parts p) as H. rewrite Hc in H. unfold first_part in *.
    rewrite H in Hf. rewrite Hr in Hf. unfold elems in Hf.
    destruct (filter _ (Split p slash)) as [|e es] eqn:E; [done|]. subst e.
    assert ("." ∈ filter (λ e, e ≠ "" ∧ e ≠ ".") (Split p slash)) as Hin by (rewrite E; by left).
    by apply list_elem_of_filter in Hin as [[_ ?] _].
Qed.

Lemma write_guarded_mono s h path t t' q :
  write_guarded s h path t q → t ⊆ t' → write_guarded s h path t' q.
Proof.
  intros (c & rest & cfg & ? & ? & ? & ?) Hs. exists c, rest, cfg.
  eauto 10 using in_mount_of_mono, in_force_mono.
Qed.

Lemma read_guarded_mono s h path t t' q :
  read_guarded s h path t q → t ⊆ t' → read_guarded s h path t' q.
Proof.
  intros (c & rest & cfg & ? & ? & ? & ? & ?) Hs. exists c, rest, cfg.
  eauto 10 using in_mount_of_mono, in_force_mono.
Qed.

(** What is permitted later in a run is permitted seen from its start. *)
Lemma write_guarded_after s s1 h path t t1 q :
  in_force s t (cfg_Config (loaded s1)) → write_guarded s1 h path t1 q → write_guarded s h path (t ++ t1) q.
Proof.
  intros Hf (c & rest & cfg & ? & ? & ? & ?). exists c, rest, cfg. split_and!; try done.
  - eapply in_force_trans; [exact Hf|done|set_solver..].
  - eapply in_mount_of_mono; [done|set_solver].
Qed.

Lemma read_guarded_after s s1 h path t t1 q :
  in_force s t (cfg_Config (loaded s1)) → read_guarded s1 h path t1 q → read_guarded s h path (t ++ t1) q.
Proof.
  intros Hf (c & rest & cfg & ? & ? & ? & ? & ?). exists c, rest, cfg. split_and!; try done.
  - eapply in_force_trans; [exact Hf|done|set_solver..].
  - eapply in_mount_of_mono; [done|set_solver].
Qed.

Lemma resolved_read_guarded s h path q cfg t t' :
  resolved h path q cfg t → is_rooted path = true ∨ safe_name path →
  in_force s t' cfg → t ⊆ t' → read_guarded s h path t' q.
Proof.
  intros Hr Hp Hf Ht.
  destruct (resolved_confined _ _ _ _ _ Hr) as (c & rest & u & ? & _ & Hu & ? & ? & ?).
  { destruct Hp; [by left|right; by apply safe_head]. }
  exists c, rest, cfg. unfold user_at. rewrite Hu. eauto 10 using in_mount_of_mono.
Qed.

Lemma resolved_write_guarded s h path q cfg cfg' t t' :
  resolved h path q cfg' t → safe_name path → first_part path ≠ "" → in_force s t' cfg →
  HasPermission (user_at cfg (Username h)) (first_part path) PermFileWrite = true →
  t ⊆ t' → write_guarded s h path t' q.
Proof.
  intros Hr Hp Hne Hf Hw Ht.
  destruct (resolved_confined _ _ _ _ _ Hr (or_intror (safe_head _ Hp)))
    as (c & rest & u & He & _ & _ & _ & _ & Hm).
  exists c, rest, cfg. rewrite <- (first_part_safe _ _ _ Hp Hne He).
  split_and!; try done; [by rewrite (first_part_safe _ _ _ Hp Hne He)|].
  rewrite (first_part_safe _ _ _ Hp Hne He). by eapply in_mount_of_mono.
Qed.

(** The empty first part belongs to no path that resolves. *)
Lemma resolved_first_part h path q cfg t :
  resolved h path q cfg t → is_rooted path = true → Clean path = path → first_part path ≠ "".
Proof.
  intros (c & d & b & _ & _ & _ & He & _) Hr Hc Hf. pose proof (Clean_parts path) as H.
  rewrite He, Hc in H. unfold first_part in Hf. rewrite H in Hf. subst c.
  pose proof (Clean_elems_normal path) as Hn. rewrite He in Hn. apply normal_plain in Hn.
  by apply Forall_cons in Hn as [(? & _) _].
Qed.

Lemma resolved_write_guarded_clean s h path q cfg cfg' t t' :
  resolved h path q cfg' t → is_rooted path = true → Clean path = path → in_force s t' cfg →
  HasPermission (user_at cfg (Username h)) (first_part path) PermFileWrite = true →
  t ⊆ t' → write_guarded s h path t' q.
Proof.
  intros Hr Hp Hc. pose proof (resolved_first_part _ _ _ _ _ Hr Hp Hc).
  eapply resolved_write_guarded; eauto using clean_safe.
Qed.
End Access.

(** The paths of the host a call looks at, but for the configuration file. *)
Definition host_reads (e : Event) : list string :=
  match e with
  | EvOpen path _ => if decide (path = config_path) then [] else [path]
  | EvOpenFile path _ _ _ | EvReadDir path _ | EvEntryInfo path _ _ => [path]
  | _ => []
  end.

(** The call changes only what the user may write under [path], or moves
    something to where the user may read under [target], and looks only at what
    the user may read under [path]. *)
Record within_rights {W} (s : Sys W) (h : Handler) (path target : string) (t : list Event) (e : Event) : Prop := {
  changes_within q : q ∈ changed_paths e →
    write_guarded s h path t q ∨ (∃ old err, e = EvRename old q err) ∧ read_guarded s h target t q;
  reads_within q : q ∈ host_reads e → read_guarded s h path t q;
}.

Lemma within_rights_mono {W} (s : Sys W) h path target t t' e :
  within_rights s h path target t e → t ⊆ t' → within_rights s h path target t' e.
Proof.
  intros [Hc Hr] Ht. split; intros q Hq; [|eauto using read_guarded_mono].
  destruct (Hc q Hq) as [?|[? ?]]; eauto using write_guarded_mono, read_guarded_mono.
Qed.

Lemma within_rights_after {W} (s s1 : Sys W) h path target t t1 e :
  in_force s t (cfg_Config (loaded s1)) → within_rights s1 h path target t1 e →
  within_rights s h path target (t ++ t1) e.
Proof.
  intros Hf [Hc Hr]. split; intros q Hq; [|eauto using read_guarded_after].
  destruct (Hc q Hq) as [?|[? ?]]; eauto using write_guarded_after, read_guarded_after.
Qed.

Lemma looks_within {W} (s : Sys W) h path target t t' e :
  Forall (λ e, looks e = true) t' → e ∈ t' → within_rights s h path target t e.
Proof.
  intros Ht He. apply (Forall_forall _ t') with e in Ht; [|done].
  split; intros q Hq; exfalso; destruct e; try done; try by apply elem_of_nil in Hq.
  simpl in *. apply bool_decide_eq_true in Ht. rewrite decide_True in Hq by done. by apply elem_of_nil in Hq.
Qed.

(** Splits the membership of a call in a record written out in pieces, up to the
    calls that may matter. *)
Ltac rights_cases :=
  repeat match goal with
  | H : _ ∈ _ ++ _ |- _ => apply elem_of_app in H as [H|H]
  | H : _ ∈ _ :: _ |- _ => apply elem_of_cons in H as [H|H]
  | H : _ ∈ [] |- _ => by apply elem_of_nil in H
  | Ht : Forall (λ e, looks e = true) ?t, H : ?e ∈ ?t |- within_rights _ _ _ _ _ ?e =>
      exact (looks_within _ _ _ _ _ t e Ht H)
  | Ht : Forall (λ e, quiet e = true) ?t, H : ?e ∈ ?t |- within_rights _ _ _ _ _ ?e =>
      exact (looks_within _ _ _ _ _ t e (quiet_lookss t Ht) H)
  end.

(** Splits the membership of a changing call in a record written out in pieces. *)
Ltac changed_cases :=
  repeat match goal with
  | H : _ ∈ _ ++ _ |- _ => apply elem_of_app in H as [H|H]
  | H : _ ∈ _ :: _ |- _ => apply elem_of_cons in H as [H|H]
  | H : _ ∈ [] |- _ => by apply elem_of_nil in H
  | Ht : Forall (λ e, read_only e = true) ?t, H : ?e ∈ ?t, Hq : ?q ∈ changed_paths ?e |- _ =>
      exfalso; exact (read_only_changes_nothing t Ht e q H Hq)
  | Ht : Forall (λ e, looks e = true) ?t, H : ?e ∈ ?t, Hq : ?q ∈ changed_paths ?e |- _ =>
      exfalso; exact (read_only_changes_nothing t (looks_read_onlys t Ht) e q H Hq)
  | Ht : Forall (λ e, quiet e = true) ?t, H : ?e ∈ ?t, Hq : ?q ∈ changed_paths ?e |- _ =>
      exfalso; exact (read_only_changes_nothing t (quiet_read_onlys t Ht) e q H Hq)
  end.

(** The servers listed for a user. *)
Lemma server_items_spec user (servers : gmap string ServerConfig) l :
  l ≡ₚ map_to_list servers →
  NoDup (InfoName <$> server_items user l) ∧
  (∀ i, i ∈ server_items user l → InfoIsDir i = true) ∧
  ∀ n, n ∈ InfoName <$> server_items user l ↔
    is_Some (servers !! n) ∧ HasPermission user n PermContainerRead = true.
Proof.
  intros Hl. unfold server_items. rewrite <- list_fmap_compose.
  assert (NoDup (fst <$> l)) as Hnd by (rewrite Hl; apply NoDup_fst_map_to_list).
  split_and!.
  - change (InfoName ∘ _) with (@fst string ServerConfig).
    eapply sublist_NoDup; [exact Hnd|]. apply fmap_sublist, sublist_filter.
  - by intros i (kv & -> & _)%list_elem_of_fmap.
  - intros n. rewrite list_elem_of_fmap. setoid_rewrite list_elem_of_filter. setoid_rewrite Hl. split.
    + intros ([k v] & -> & Hp & Hin). apply elem_of_map_to_list in Hin. simpl in *. by rewrite Hin.
    + intros [[v Hv] Hp]. exists (n, v). by rewrite elem_of_map_to_list.
Qed.
