(* ===== verification/SftpSpec.v ===== *)
(** What the SFTP server promises: whom it lets in, that a client reads its
    listings whole, and that what it reads and changes on the host lies in the
    mounts of containers its user has the permission for. *)

From S2P Require Import Prelude GoStrings GoPath GoTime Config World TestBed ConfigLoad Vfs Sftp Access.

(** * Paging *)

(** A client's loop over [ListAt] with a buffer of [n] elements: it goes on at the
    end of what it got until it is told [EOF]. *)
Fixpoint read_pages (l : listerAt) (n fuel : nat) (offset : Z) : option (list (option Info)) :=
  match fuel with
  | 0 => None
  | S fuel =>
      match ListAt l n offset with
      | Done (page, Some _) => Some page
      | Done (page, None) =>
          (λ rest, page ++ rest) <$> read_pages l n fuel (offset + Z.of_nat (length page))
      | Panic _ => None
      end
  end.

(** One call inside the list. *)
Lemma ListAt_inside l n off :
  off < length (items l) →
  ListAt l n (Z.of_nat off) =
    Done (take n (drop off (items l)),
          if decide (length (items l) - off < n) then Some EOF else None).
Proof.
  intros H. unfold ListAt. rewrite decide_False by lia. rewrite decide_False by lia.
  rewrite Nat2Z.id, length_take, length_drop.
  destruct (decide (length (items l) - off < n)); [rewrite decide_True by lia|rewrite decide_False by lia]; done.
Qed.

Lemma read_pages_from l n fuel off :
  0 < n → off ≤ length (items l) → length (items l) - off < fuel →
  read_pages l n fuel (Z.of_nat off) = Some (drop off (items l)).
Proof.
  revert off. induction fuel as [|fuel IH]; intros off Hn Hoff Hf; [lia|]. simpl.
  destruct (decide (off = length (items l))) as [->|Hne].
  { unfold ListAt. rewrite decide_True by lia. by rewrite drop_all. }
  rewrite ListAt_inside by lia. case_decide as Hlast.
  - f_equal. apply take_ge. rewrite length_drop. lia.
  - rewrite length_take, length_drop, Nat.min_l, <- Nat2Z.inj_add by lia.
    rewrite IH by lia. simpl. f_equal. by rewrite <- drop_drop, take_drop.
Qed.

(** C32: whatever the size of its buffer, a client that reads a listing page by
    page until [EOF] gets every entry once, in order, in at most one call more
    than there are entries. *)
Theorem ListAt_pages l n :
  0 < n → read_pages l n (S (length (items l))) 0 = Some (items l).
Proof. intros Hn. apply (read_pages_from l n _ 0); [done|lia|lia]. Qed.

(** A subsystem request with a payload shorter than four bytes panics, and
    otherwise only the subsystem sftp is accepted. *)
Theorem subsystem_reply_spec reqType payload :
  match subsystem_reply reqType payload with
  | Panic _ => reqType = "subsystem" ∧ String.length payload < 4
  | Done ok => ok = true → reqType = "subsystem" ∧
                 ∃ len, String.length len = 4 ∧ payload = len +:+ "sftp"
  end.
Proof.
  unfold subsystem_reply. case_decide as Ht; [|done]. case_decide as Hl; [done|].
  intros Hs%bool_decide_eq_true. split; [done|]. exists (String.substring 0 4 payload).
  split; [apply substring_take_length; lia|]. rewrite <- Hs. by rewrite substring_split.
Qed.

Section SftpSpec.
Context {W : Type} `{!DockerClient W, !OS W, !MapRange W}.
Implicit Types s : Sys W.

(** A run of a handler on [r] for the user of [h]. *)
Definition handler_run {A} s (h : Handler) (r : Request) (o : Outcome A) (s' : Sys W) : Prop :=
  ∃ a, o = Done a ∧ ∃ t, events s' = events s ++ t ∧ in_force s t (cfg_Config (loaded s')) ∧
    ∀ e, e ∈ t → within_rights s h (Filepath r) (Target r) t e.

(** Paths as the request server hands them over: rooted and clean. *)
Definition request_ok (r : Request) : Prop :=
  is_rooted (Filepath r) = true ∧ Clean (Filepath r) = Filepath r ∧ is_rooted (Target r) = true.

(** Closes a run: the record is written out, and of the calls that matter the
    kind is known. *)
Ltac handler_done :=
  eexists; (split; [reflexivity|]); rewrite <- ?(assoc_L (++));
  eexists; (split; [first [reflexivity | symmetry; apply app_nil_r]|]);
  (split; [eapply in_force_mono; [eassumption|set_solver]|]);
  intros ?e ?He; rights_cases; try subst;
  (split; intros ?q ?Hq; simpl in Hq; try by apply elem_of_nil in Hq).

Ltac one_path := match goal with H : _ ∈ [_] |- _ => apply list_elem_of_singleton in H as -> end.
Ltac write_ok := left; eapply resolved_write_guarded_clean; eauto;
  [by eapply in_force_mono; [eassumption|set_solver]|set_solver].
Ltac read_ok := eapply resolved_read_guarded; eauto; [by eapply in_force_mono; [eassumption|set_solver]|set_solver].

Lemma Filewrite_run h r s : request_ok r → wp (Filewrite h r) (handler_run s h r) s.
Proof.
  intros (Hr & Hc & _). unfold Filewrite. wp_step. apply wp_Get. intros w lc0 t0 Ht0 Hf0.
  destruct (HasPermission _ _ PermFileWrite) eqn:Hw; cbn [negb]; [|wp_step; handler_done].
  wp_step. apply wp_MapPath. intros o w1 lc t1 Ht1 Hf1 Hres. in_force_step Hf0 Hf1.
  repeat wp_step; handler_done; one_path; [write_ok|read_ok].
Qed.

Lemma Filecmd_run h r s : request_ok r → wp (Filecmd h r) (handler_run s h r) s.
Proof.
  intros (Hr & Hc & Hrt). unfold Filecmd. wp_step. apply wp_Get. intros w lc0 t0 Ht0 Hf0.
  destruct (HasPermission _ _ PermFileWrite) eqn:Hw; cbn [negb]; [|wp_step; handler_done].
  wp_step. apply wp_MapPath. intros o w1 lc t1 Ht1 Hf1 Hres. in_force_step Hf0 Hf1.
  repeat (wp_step || (apply wp_MapPath; intros ? ? ? ? ? Hf2 Hres'; in_force_step Hf1 Hf2));
    unfold ClientError; repeat wp_step; handler_done; try (one_path; write_ok).
  apply elem_of_cons in Hq as [->|Hq]; [write_ok|].
  one_path. right. split; [by do 2 eexists|]. read_ok.
Qed.

Lemma Fileread_run h r s : request_ok r → wp (Fileread h r) (handler_run s h r) s.
Proof.
  intros (Hr & _). unfold Fileread. wp_step. apply wp_MapPath. intros m w lc t1 Ht1 Hf1 Hres.
  repeat wp_step; handler_done. case_decide; [by apply elem_of_nil in Hq|]. one_path. read_ok.
Qed.

Lemma entry_infos_run dir es s :
  wp (entry_infos dir es) (λ o s', (∃ l, o = Done l) ∧ ∃ t, events s' = events s ++ t ∧
    loaded s' = loaded s ∧ ∀ e, e ∈ t → ∃ n i, e = EvEntryInfo dir n i) s.
Proof.
  revert s. induction es as [|e es IH]; intros s; simpl.
  - wp_step. split; [by eexists|]. exists []. rewrite app_nil_r. split_and!; try done. by intros e ?%elem_of_nil.
  - do 3 wp_step. eapply wp_bind, wp_mono; [apply IH|]. simpl. intros o s' ((l & ->) & t & Ht & Hl & He).
    wp_step. split; [by eexists|]. rewrite Ht, <- (assoc_L (++)). eexists. split; [reflexivity|]. split; [done|].
    intros x [->%list_elem_of_singleton|Hx]%elem_of_app; eauto.
Qed.

Lemma Filelist_run h r s : request_ok r → wp (Filelist h r) (handler_run s h r) s.
Proof.
  intros (Hr & _). unfold Filelist. wp_step. apply wp_MapPath. intros m w lc t1 Ht1 Hf1 Hres.
  repeat first
    [ wp_step | apply wp_Get; intros ? ? ? ? Hf2; in_force_step Hf1 Hf2 | apply wp_range; intros ].
  all: try (handler_done; done).
  all: try (handler_done; one_path; read_ok).
  eapply wp_mono; [apply entry_infos_run|]. simpl. intros o s' ((l' & ->) & t2 & Ht2 & Hl & He2). wp_step.
  eexists; split; [reflexivity|]. rewrite Ht2, Hl. rewrite <- ?(assoc_L (++)). eexists; split; [reflexivity|].
  split; [eapply in_force_mono; [eassumption|set_solver]|].
  intros e He; rights_cases; [|destruct (He2 e He) as (n & i & ->)]; subst;
    split; intros q Hq; simpl in Hq; try (by apply elem_of_nil in Hq); one_path; read_ok.
Qed.

(** An upload touches the host only at a path in a mount of the container
    the request names, and only when the user has the file-write permission on
    that container. *)
Theorem Filewrite_guarded h r s :
  is_rooted (Filepath r) = true → Clean (Filepath r) = Filepath r →
  ∃ o s', Filewrite h r s = (Done o, s') ∧ ∃ t, events s' = events s ++ t ∧
    ∀ e q, e ∈ t → q ∈ changed_paths e →
      write_guarded s h (Filepath r) t q.
Proof.
  intros Hr Hc. apply wp_exists. unfold Filewrite. wp_step. apply wp_Get. intros w lc0 t0 Ht0 Hf0.
  destruct (HasPermission _ _ PermFileWrite) eqn:Hw; cbn [negb].
  2: { wp_step. eexists. split; [done|]. exists t0. split; [done|]. intros. changed_cases. }
  wp_step. apply wp_MapPath. intros o w1 lc t1 Ht1 Hf1 Hres. in_force_step Hf0 Hf1.
  repeat wp_step; eexists; (split; [reflexivity|]); rewrite <- ?(assoc_L (++)); eexists;
    (split; [reflexivity|]); intros e' q He Hq; changed_cases.
  subst e'. simpl in Hq. apply list_elem_of_singleton in Hq as ->.
  eapply resolved_write_guarded_clean; eauto; [by eapply in_force_mono; [eassumption|set_solver]|set_solver].
Qed.

(** Every other change asked for over SFTP (mkdir, remove, rmdir, rename)
    touches only paths in a mount of the container the request names, with the
    file-write permission on it; the new path of a rename lies in a mount of a
    container the user may read. *)
Theorem Filecmd_guarded h r s :
  is_rooted (Filepath r) = true → Clean (Filepath r) = Filepath r → is_rooted (Target r) = true →
  ∃ o s', Filecmd h r s = (Done o, s') ∧ ∃ t, events s' = events s ++ t ∧
    ∀ e q, e ∈ t → q ∈ changed_paths e →
      write_guarded s h (Filepath r) t q ∨
      (∃ old err, e = EvRename old q err) ∧ read_guarded s h (Target r) t q.
Proof.
  intros Hr Hc Ht. destruct (Filecmd h r s) as [o s'] eqn:E.
  destruct (wp_elim _ _ _ _ _ (Filecmd_run h r s (conj Hr (conj Hc Ht))) E) as (a & -> & t & Hs & _ & Hw).
  exists a, s'. split; [done|]. exists t. split; [done|]. intros e q He. by apply Hw.
Qed.

(** A download opens a file only in a mount of the container the request
    names, and only when the user may read that container. *)
Theorem Fileread_guarded h r s f s' :
  is_rooted (Filepath r) = true →
  Fileread h r s = (Done (inr f), s') →
  ∃ t q, events s' = events s ++ t ∧ EvOpen q (inr f) ∈ t ∧ read_guarded s h (Filepath r) t q.
Proof.
  intros Hr H. set (o := Done (inr f)) in H. assert (o = Done (inr f)) as Ho by done.
  revert Ho. pattern o, s'. revert H. apply wp_elim. unfold Fileread. wp_step.
  apply wp_MapPath. intros m w lc t1 Ht1 Hf1 Hres. repeat wp_step; try done. intros [= ->].
  rewrite <- ?(assoc_L (++)). do 2 eexists. split; [reflexivity|]. split; [in_record|].
  eapply resolved_read_guarded; eauto; [by eapply in_force_mono; [eassumption|set_solver]|set_solver].
Qed.

(** The listing of the root holds exactly the configured servers the user
    may read, each once. *)
Theorem Filelist_root h r s :
  Clean (Filepath r) = "/" →
  ∃ l s', Filelist h r s = (Done (inr (mkListerAt (Some <$> l))), s') ∧
    NoDup (InfoName <$> l) ∧ (∀ i, i ∈ l → InfoIsDir i = true) ∧
    ∀ n, n ∈ InfoName <$> l ↔
      is_Some (Servers (cfg_Config (loaded s')) !! n) ∧
      HasPermission (user_at (cfg_Config (loaded s')) (Username h)) n PermContainerRead = true.
Proof.
  intros Hc.
  cut (wp (Filelist h r) (λ o s', ∃ l, o = Done (inr (mkListerAt (Some <$> l))) ∧
    NoDup (InfoName <$> l) ∧ (∀ i, i ∈ l → InfoIsDir i = true) ∧
    ∀ n, n ∈ InfoName <$> l ↔ is_Some (Servers (cfg_Config (loaded s')) !! n) ∧
      HasPermission (user_at (cfg_Config (loaded s')) (Username h)) n PermContainerRead = true) s).
  { unfold wp. destruct (Filelist h r s) as [o s']. simpl. intros (l & -> & H). by exists l, s'. }
  unfold Filelist, MapPath. rewrite Hc. change (Split (Trim "/" slash) slash) with [""]. cbv iota.
  rewrite decide_True by done. repeat wp_step. apply wp_Get. intros w2 lc t2 _ _.
  wp_step. apply wp_range. intros l w3 Hl _. repeat wp_step. eexists. split; [reflexivity|].
  by apply server_items_spec.
Qed.

(** C35: a client is let in exactly when the user is configured with the
    password it gives, under its own name; whatever it gives, nothing but the
    log changes. *)
Theorem authenticate_correct user addr pass s :
  ∃ o s', authenticate user addr pass s = (Done o, s') ∧
    (∀ name, o = inr name ↔ name = user ∧
       ∃ u, Users (cfg_Config (get_outcome s)) !! user = Some u ∧ Password u = pass) ∧
    ∃ t, events s' = events s ++ t ∧ Forall (λ e, quiet e = true) t.
Proof.
  apply wp_exists. unfold authenticate. wp_step. apply wp_Get_outcome. intros w t Ht.
  destruct (match Users _ !! user with Some _ => _ | None => _ end) eqn:Hok; cbn [negb];
    repeat wp_step; eexists; (split; [reflexivity|]).
  - split.
    + intros name. split; [intros [= <-]; split; [done|]|by intros [-> _]].
      destruct (Users _ !! user) as [u|]; [|done]. apply bool_decide_eq_true in Hok. by exists u.
    + rewrite <- (assoc_L (++)). eexists. split; [reflexivity|]. by apply Forall_app.
  - split.
    + intros name. split; [done|]. intros (_ & u & Hu & Hp). rewrite Hu in Hok.
      by apply bool_decide_eq_false in Hok.
    + rewrite <- (assoc_L (++)). eexists. split; [reflexivity|]. by apply Forall_app.
Qed.
End SftpSpec.

(** The new path of a rename is not checked for the file-write permission: a
    user who may only read [mc2] moves a file into it. *)
Theorem Filecmd_rename_crosses :
  HasPermission alice "mc2" PermFileWrite = false ∧
  let '(o, s') := Filecmd (mkHandler "alice") (mkRequest "Rename" "/mc1/data/x" "/mc2/data/y") toy_sys in
  o = Done None ∧ EvRename "/srv/mc1/data/x" "/srv/mc2/data/y" None ∈ events s'.
Proof. split; [by vm_compute|]. vm_compute. split; [done|]. in_record. Qed.

(** The file-read permission is never asked for: a user without it downloads
    a file of a container that user may read. *)
Theorem Fileread_without_file_read :
  HasPermission alice "mc2" PermFileRead = false ∧
  let '(o, s') := Fileread (mkHandler "alice") (mkRequest "Get" "/mc2/data/secret" "") toy_sys in
  o = Done (inr 7) ∧ EvOpen "/srv/mc2/data/secret" (inr 7) ∈ events s'.
Proof. split; [by vm_compute|]. vm_compute. split; [done|]. in_record. Qed.

(** * Witnesses *)

Lemma ListAt_pages_witness :
  read_pages (mkListerAt [Some (VfsInfo "a" true); None; Some (VfsInfo "b" true)]) 2 4 0
  = Some [Some (VfsInfo "a" true); None; Some (VfsInfo "b" true)].
Proof. apply (ListAt_pages (mkListerAt [Some (VfsInfo "a" true); None; Some (VfsInfo "b" true)]) 2). lia. Defined.

Lemma Filewrite_guarded_witness :
  ∃ t, events (Filewrite (mkHandler "alice") (mkRequest "Put" "/mc1/data/x" "") toy_sys).2 = t ∧
    EvOpenFile "/srv/mc1/data/x" 577 420 (inr 8) ∈ t ∧
    write_guarded toy_sys (mkHandler "alice") "/mc1/data/x" t "/srv/mc1/data/x".
Proof.
  destruct (Filewrite_guarded (mkHandler "alice") (mkRequest "Put" "/mc1/data/x" "") toy_sys)
    as (o & s' & E & t & Ht & H); [by vm_compute|by vm_compute|].
  exists t. split; [rewrite E; exact Ht|].
  assert (EvOpenFile "/srv/mc1/data/x" 577 420 (inr 8) ∈ t) as Hin.
  { change t with (events toy_sys ++ t). rewrite <- Ht. apply (f_equal snd) in E. simpl in E. subst s'.
    vm_compute. in_record. }
  split; [exact Hin|]. apply (H _ "/srv/mc1/data/x" Hin). vm_compute. left.
Defined.

Lemma Filecmd_guarded_witness :
  ∃ t, events (Filecmd (mkHandler "alice") (mkRequest "Rmdir" "/mc1/data/old" "/") toy_sys).2 = t ∧
    EvRemoveAll "/srv/mc1/data/old" None ∈ t ∧
    write_guarded toy_sys (mkHandler "alice") "/mc1/data/old" t "/srv/mc1/data/old".
Proof.
  destruct (Filecmd_guarded (mkHandler "alice") (mkRequest "Rmdir" "/mc1/data/old" "/") toy_sys)
    as (o & s' & E & t & Ht & H); [by vm_compute|by vm_compute|by vm_compute|].
  exists t. split; [rewrite E; exact Ht|].
  assert (EvRemoveAll "/srv/mc1/data/old" None ∈ t) as Hin.
  { change t with (events toy_sys ++ t). rewrite <- Ht. apply (f_equal snd) in E. simpl in E. subst s'.
    vm_compute. in_record. }
  split; [exact Hin|].
  destruct (H _ "/srv/mc1/data/old" Hin) as [Hw|[(old & err & He) _]]; [vm_compute; left|exact Hw|discriminate He].
Defined.

Lemma Fileread_guarded_witness :
  ∃ t q, events (Fileread (mkHandler "alice") (mkRequest "Get" "/mc2/data/x" "") toy_sys).2 = t ∧
    EvOpen q (inr 7) ∈ t ∧ read_guarded toy_sys (mkHandler "alice") "/mc2/data/x" t q.
Proof.
  destruct (Fileread_guarded (mkHandler "alice") (mkRequest "Get" "/mc2/data/x" "") toy_sys 7
    (Fileread (mkHandler "alice") (mkRequest "Get" "/mc2/data/x" "") toy_sys).2)
    as (t & q & Ht & H); [by vm_compute|vm_compute; reflexivity|].
  exists t, q. split; [exact Ht|exact H].
Defined.

Lemma Filelist_root_witness :
  ∃ l s', Filelist (mkHandler "alice") (mkRequest "List" "/" "") toy_boot =
    (Done (inr (mkListerAt (Some <$> l))), s') ∧ NoDup (InfoName <$> l).
Proof.
  destruct (Filelist_root (mkHandler "alice") (mkRequest "List" "/" "") toy_boot) as (l & s' & E & Hnd & _);
    [by vm_compute|].
  exists l, s'. split; [exact E|exact Hnd].
Defined.
