(* ===== verification/SftpServer.v ===== *)
(** The connections of [internal/sftp]: the host key, the listener, the SSH
    handshake and the channels of a connection.  The SSH and SFTP libraries are
    an interface: they call back what they were given, in an order of their own. *)

From S2P Require Import Prelude GoStrings GoPath GoTime Config World ConfigLoad Vfs Sftp.

(** * What the libraries hand over *)

Record NewChannel := mkNewChannel { ChannelID : nat; ChannelType : string }.
Record SshRequest := mkSshRequest { ReqType : string; Payload : string }.

(** [sConn]: the extension [user] of its [Permissions] is what the code reads. *)
Record SshConn := mkSshConn { ConnID : nat; ExtensionUser : string }.

(** A call of the request server to one of the four handlers, and the answer. *)
Inductive SftpCall : Type :=
| FileGet (r : Request) | FilePut (r : Request) | FileCmd (r : Request) | FileList (r : Request).

Definition request_of (c : SftpCall) : Request :=
  match c with FileGet r | FilePut r | FileCmd r | FileList r => r end.

Inductive SftpAnswer : Type :=
| AnswerFile (f : result File)
| AnswerErr (err : option error)
| AnswerList (l : result listerAt).

Abbreviation PrivateKey := nat.

(** [errors.Is(err, io.EOF)] *)
Fixpoint IsEOF (e : error) : bool :=
  match e with
  | EOF => true
  | ErrWrap _ inner => IsEOF inner
  | _ => false
  end.

Class SshLib (W : Type) := {
  ParsePrivateKey : string → result PrivateKey;
  (** [ssh.NewServerConn] with the password callback and the host keys *)
  NewServerConn : nat → (string → string → string → Comp (Sys W) (result string)) →
    list PrivateKey → Comp (Sys W) (result SshConn);
  (** the channels the client opens until it leaves *)
  Channels : SshConn → W → list NewChannel * W;
  (** the requests the client sends on an accepted channel *)
  AcceptChannel : NewChannel → W → result (list SshRequest) * W;
  RejectChannel : NewChannel → W → W;
  ReplyRequest : bool → W → W;
  CloseConn : SshConn → W → W;
  (** [sftp.NewRequestServer(channel, handlers).Serve()] *)
  Serve : NewChannel → (SftpCall → Comp (Sys W) SftpAnswer) → Comp (Sys W) (option error);
}.

Section SftpServer.
Context {W : Type} `{!Docker W, !OS W, !MapRange W, !Boot W, !SshLib W}.

Definition ssh_Channels c := ask (Channels c).
Definition ssh_Accept ch := ask (AcceptChannel ch).
Definition ssh_Reject ch := tell (RejectChannel ch) (EvReject (ChannelID ch)).
Definition ssh_Reply ok := tell (ReplyRequest ok) (EvReply ok).
Definition ssh_Close c := tell (CloseConn c) (EvSshClose (ConnID c)).

(** * Starting *)

(** [Server]: the fields of its [sshConfig]. *)
Record Server := mkServer {
  PasswordCallback : string → string → string → Comp (Sys W) (result string);
  HostKeys : list PrivateKey;
}.

Definition keyPath : string := "sftp_host_key".

Definition generateHostKey (path : string) : Comp (Sys W) unit :=
  err <- cmd_Run "ssh-keygen" ["-f"; path; "-N"; ""; "-t"; "ed25519"] ;;
  match err with
  | Some err => Logf "Internal" "SFTP" "ホストキーの生成に失敗しました: %v" [show_error err]
  | None => ret tt
  end.

Definition NewServer : Comp (Sys W) Server :=
  st <- os_Stat keyPath ;;
  match st with
  | inl err =>
      if IsNotFound err then
        Log "Internal" "SFTP" "新規ホストキーを生成しています..." ;;
        generateHostKey keyPath
      else ret tt
  | inr _ => ret tt
  end ;;
  b <- os_ReadFile keyPath ;;
  keys <- match b with
          | inr keyBytes =>
              match ParsePrivateKey keyBytes with
              | inr private => ret [private]
              | inl err =>
                  Logf "Internal" "SFTP" "ホストキーのパース失敗: %v" [show_error err] ;;
                  ret []
              end
          | inl err =>
              Logf "Internal" "SFTP" "ホストキーの読み込み失敗: %v" [show_error err] ;;
              ret []
          end ;;
  ret (mkServer authenticate keys).

(** The connections a goroutine is started for, of what [Accept] returns; the
    loop itself never ends. *)
Definition accept_loop (accepted : list (result nat)) : list nat :=
  omap (λ r, match r with inr c => Some c | inl _ => None end) accepted.

Definition dquote : string := chr (byte 34).

Definition Start (accepted : list (result nat)) : Comp (Sys W) (list nat) :=
  cfg <- Get ;;
  let listen := SFTPListen cfg in
  if decide (listen = "") then
    Log "Internal" "SFTP" "SFTPサーバーは無効です（sftpListenが未設定）" ;;
    ret []
  else
    err <- net_Listen listen ;;
    match err with
    | Some err =>
        Logf "Internal" "SFTP" "ポート %s のリスニング失敗: %v" [listen; show_error err] ;;
        ret []
    | None =>
        Logf "Internal" "SFTP" ("SFTPサーバーが開始されました: " +:+ dquote +:+ "%s" +:+ dquote) [listen] ;;
        ret (accept_loop accepted)
    end.

(** * One connection *)

(** [sftpHandler]: the four handlers on the tree of one user. *)
Definition sftpHandler (h : Handler) (c : SftpCall) : Comp (Sys W) SftpAnswer :=
  match c with
  | FileGet r => f <- Fileread h r ;; ret (AnswerFile f)
  | FilePut r => f <- Filewrite h r ;; ret (AnswerFile f)
  | FileCmd r => err <- Filecmd h r ;; ret (AnswerErr err)
  | FileList r => l <- Filelist h r ;; ret (AnswerList l)
  end.

(** The goroutine that answers the requests of a channel.  Its replies are put
    before the work of the request server; a panic in it ends the process. *)
Definition reply_requests (requests : list SshRequest) : Comp (Sys W) unit :=
  for_each (λ req,
    match subsystem_reply (ReqType req) (Payload req) with
    | Done ok => ssh_Reply ok
    | Panic why => panic why
    end) requests.

Definition channel_step (username : string) (newChannel : NewChannel) : Comp (Sys W) unit :=
  if decide (ChannelType newChannel ≠ "session") then ssh_Reject newChannel
  else
    a <- ssh_Accept newChannel ;;
    match a with
    | inl _ => ret tt
    | inr requests =>
        reply_requests requests ;;
        err <- Serve newChannel (sftpHandler (mkHandler username)) ;;
        match err with
        | Some err =>
            if IsEOF err then ret tt
            else Logf "Internal" "SFTP" "セッション異常終了 (user=%s): %v" [username; show_error err]
        | None => ret tt
        end
    end.

(** After the handshake: the loop over the channels, then the deferred close. *)
Definition serve_conn (sConn : SshConn) : Comp (Sys W) unit :=
  chans <- ssh_Channels sConn ;;
  for_each (channel_step (ExtensionUser sConn)) chans ;;
  ssh_Close sConn.

Definition handleConn (srv : Server) (nConn : nat) : Comp (Sys W) unit :=
  r <- NewServerConn nConn (PasswordCallback srv) (HostKeys srv) ;;
  match r with
  | inl _ => ret tt
  | inr sConn => serve_conn sConn
  end.
End SftpServer.

#[export] Hint Unfold ssh_Channels ssh_Accept ssh_Reject ssh_Reply ssh_Close : calls.
