(* ===== verification/SftpServerSpec.v ===== *)
(** What an SFTP connection does to the host: it acts with the rights of one
    user, who gave the configured password, and only inside the mounts that user
    may reach; and when the server has a host key and a listener. *)

From S2P Require Import Prelude GoStrings GoPath GoTime Config World TestBed ConfigLoad Vfs Sftp Access SftpSpec SftpServer.

(** * The libraries' contract

    A library changes the state only by calling back what it was given, apart
    from the world, which goes its own way. *)

Section Contract.
Context {W : Type}.

Inductive lib_step {I A} (body : I → Comp (Sys W) A) (ok : I → Prop) : relation (Sys W) :=
| own_step s w : lib_step body ok s (mkSys w (loaded s) (events s))
| call_back i s : ok i → lib_step body ok s (body i s).2.

(** A password callback, as one function. *)
Definition asked (cb : string → string → string → Comp (Sys W) (result string))
    (x : string * string * string) : Comp (Sys W) (result string) := cb x.1.1 x.1.2 x.2.

(** A handshake under way: any number of calls of the password callback. *)
Definition handshake (cb : string → string → string → Comp (Sys W) (result string)) : relation (Sys W) :=
  rtc (lib_step (asked cb) (λ _, True)).

(** The documented behaviour the server relies on: the request server calls the
    handlers, on clean paths from the root; the handshake calls the password
    callback, lets nobody in whom it did not accept, and hands over the
    permissions of the call that did. *)
Class SshLaws `{!SshLib W} : Prop := {
  serve_calls_back ch handler s :
    rtc (lib_step handler (λ c, request_ok (request_of c))) s (Serve ch handler s).2;
  conn_calls_back nc cb keys s : handshake cb s (NewServerConn nc cb keys s).2;
  conn_user nc cb keys s c :
    (NewServerConn nc cb keys s).1 = Done (inr c) →
    ∃ x s1, handshake cb s s1 ∧ (asked cb x s1).1 = Done (inr (ExtensionUser c)) ∧
      handshake cb (asked cb x s1).2 (NewServerConn nc cb keys s).2;
}.
End Contract.

Create HintDb serves.

Section Connection.
Context {W : Type} `{!DockerClient W, !OS W, !MapRange W, !Boot W, !SshLib W, !SshLaws}.
Implicit Types s : Sys W.

(** Between the two states only calls within the rights of the user were made. *)
Definition served (h : Handler) : relation (Sys W) := λ s s',
  ∃ t, events s' = events s ++ t ∧ in_force s t (cfg_Config (loaded s')) ∧
    ∀ e, e ∈ t → ∃ path target, within_rights s h path target t e.

#[local] Instance served_preorder h : PreOrder (served h).
Proof.
  split.
  - intros s. exists []. rewrite app_nil_r. split_and!; [done|by left|by intros e ?%elem_of_nil].
  - intros s s1 s2 (t & Ht & Hf & He) (t1 & Ht1 & Hf1 & He1). exists (t ++ t1).
    split_and!; [by rewrite Ht1, Ht, (assoc_L (++))|eapply in_force_trans; [done..|set_solver|set_solver]|].
    intros e [Hin|Hin]%elem_of_app.
    + destruct (He e Hin) as (p & g & ?). exists p, g. eapply within_rights_mono; [done|set_solver].
    + destruct (He1 e Hin) as (p & g & ?). exists p, g. by eapply within_rights_after.
Qed.

Lemma served_prefix h s s' : served h s s' → events s `prefix_of` events s'.
Proof. intros (t & -> & _). by eexists. Qed.

(** A computation that stays within the rights of the user, from any state. *)
Definition serves {A} (h : Handler) (m : Comp (Sys W) A) : Prop := ∀ s, served h s (m s).2.

Lemma serves_same {A} h (m : Comp (Sys W) A) :
  (∀ s, events (m s).2 = events s ∧ loaded (m s).2 = loaded s) → serves h m.
Proof.
  intros Hm s. destruct (Hm s) as [He Hl]. exists []. rewrite He, Hl, app_nil_r.
  split_and!; [done|by left|by intros e ?%elem_of_nil].
Qed.

Lemma serves_ret {A} h (a : A) : serves h (ret a).
Proof. by apply serves_same. Qed.

Lemma serves_panic {A} h why : serves h (panic (A := A) why).
Proof. by apply serves_same. Qed.

Lemma serves_ask {A} h (f : W → A * W) : serves h (ask f).
Proof. apply serves_same. intros s. unfold ask. by destruct (f (world s)). Qed.

Lemma serves_call {A} h (f : W → A * W) ev :
  (∀ a, changed_paths (ev a) = [] ∧ host_reads (ev a) = []) → serves h (call f ev).
Proof.
  intros Hev s. unfold call. destruct (f (world s)) as [a w]. exists [ev a]. split_and!; [done|by left|].
  intros e ->%list_elem_of_singleton. destruct (Hev a) as [Hc Hr]. exists "", "".
  split; intros q Hq; [rewrite Hc in Hq|rewrite Hr in Hq]; by apply elem_of_nil in Hq.
Qed.

Lemma serves_bind {A B} h (m : Comp (Sys W) A) (k : A → Comp (Sys W) B) :
  serves h m → (∀ a, serves h (k a)) → serves h (bind m k).
Proof.
  intros Hm Hk s. specialize (Hm s). unfold bind. destruct (m s) as [[a|e] s1]; [|done].
  etrans; [exact Hm|apply Hk].
Qed.

Lemma serves_for_each {A} h (body : A → Comp (Sys W) unit) xs :
  (∀ x, serves h (body x)) → serves h (for_each body xs).
Proof. intros Hb. induction xs as [|x xs IH]; [apply serves_ret|]. by apply serves_bind. Qed.

Lemma serves_wp {A} h (m : Comp (Sys W) A) : (∀ s, wp m (λ _ s', served h s s') s) → serves h m.
Proof. intros Hm s. exact (Hm s). Qed.

Lemma serves_Get h : serves h Get.
Proof.
  apply serves_wp. intros s. apply wp_Get. intros w lc t Ht Hf. exists t. split_and!; [done..|].
  intros e He. exists "", "". eapply looks_within; [by apply quiet_lookss|done].
Qed.

Lemma serves_handler {A} h r (m : Comp (Sys W) A) :
  (∀ s, wp m (handler_run s h r) s) → serves h m.
Proof.
  intros Hm. apply serves_wp. intros s. eapply wp_mono; [apply Hm|].
  intros o s' (a & _ & t & Ht & Hf & He). exists t. split_and!; [done..|]. eauto.
Qed.

Lemma serves_rtc {I A} h (body : I → Comp (Sys W) A) ok s s' :
  (∀ i, ok i → serves h (body i)) → rtc (lib_step body ok) s s' → served h s s'.
Proof.
  intros Hb. apply (rtc_invariant _ (λ s', served h s s')); [|reflexivity].
  intros s1 s2 H1 Hs. etrans; [exact H1|]. destruct Hs as [s2 w|i s2 Hi]; [|by apply Hb].
  apply (serves_same h (λ s, (Done tt, mkSys w (loaded s) (events s)))); done.
Qed.

#[local] Hint Resolve serves_ret serves_panic serves_ask serves_Get : serves.

Ltac solve_serves :=
  repeat lazymatch goal with
  | |- serves _ (bind _ _) => apply serves_bind; [|intros ?]
  | |- serves _ (for_each _ _) => apply serves_for_each; intros ?
  | |- serves _ (match ?x with _ => _ end) => destruct x eqn:?
  | |- serves _ (call _ _) => apply serves_call; intros ?; by split
  | |- serves _ (Log _ _ _) => unfold Log
  | |- serves _ _ => first [solve [auto with serves] | progress autounfold with calls]
  end.

Lemma serves_sftpHandler h c : request_ok (request_of c) → serves h (sftpHandler h c).
Proof.
  intros Hr. destruct c as [r|r|r|r]; simpl in *.
  all: apply serves_bind; [apply (serves_handler h r); intros s|by intros; apply serves_ret].
  - by apply Fileread_run.
  - by apply Filewrite_run.
  - by apply Filecmd_run.
  - by apply Filelist_run.
Qed.

Lemma serves_authenticate h u a p : serves h (authenticate u a p).
Proof. unfold authenticate. solve_serves. Qed.

Lemma serves_channel user ch : serves (mkHandler user) (channel_step user ch).
Proof.
  unfold channel_step, reply_requests. solve_serves.
  intros s. eapply serves_rtc; [|apply serve_calls_back]. intros c. apply serves_sftpHandler.
Qed.

Lemma serves_conn c : serves (mkHandler (ExtensionUser c)) (serve_conn c).
Proof. unfold serve_conn. solve_serves. apply serves_channel. Qed.

(** A login that succeeds was made with the password configured then. *)
Lemma authenticate_login u a p s name :
  (authenticate u a p s).1 = Done (inr name) →
  name = u ∧ ∃ t cfg user, events (authenticate u a p s).2 = events s ++ t ∧ in_force s t cfg ∧
    Users cfg !! u = Some user ∧ Password user = p.
Proof.
  apply (wp_elim (authenticate u a p) (λ o s', o = Done (inr name) →
    name = u ∧ ∃ t cfg user, events s' = events s ++ t ∧ in_force s t cfg ∧
      Users cfg !! u = Some user ∧ Password user = p) s); [|apply surjective_pairing].
  unfold authenticate. wp_step. apply wp_Get. intros w lc t Ht Hf. cbv zeta.
  destruct (Users (cfg_Config lc) !! u) as [user|] eqn:Hu; [destruct (decide (Password user = p)) as [Hp|Hp]|].
  - rewrite bool_decide_true by done. cbn [negb]. repeat wp_step. intros [= <-]. split; [done|].
    rewrite <- (assoc_L (++)). eexists _, (cfg_Config lc), user. split; [reflexivity|].
    split; [eapply in_force_mono; [exact Hf|set_solver]|done].
  - rewrite bool_decide_false by done. cbn [negb]. by repeat wp_step.
  - cbn [negb]. by repeat wp_step.
Qed.

Lemma rtc_handshake_quiet h cb s s' :
  (∀ x, serves h (asked cb x)) → rtc (lib_step (asked cb) (λ _, True)) s s' → served h s s'.
Proof. intros Hcb. by apply serves_rtc. Qed.

(** Where a connection ends. *)
Lemma handleConn_end srv nc s : PasswordCallback srv = authenticate →
  (handleConn srv nc s).2 =
    match NewServerConn nc authenticate (HostKeys srv) s with
    | (Done (inr c), s2) => (serve_conn c s2).2
    | (_, s2) => s2
    end.
Proof.
  intros Hcb. unfold handleConn, bind. rewrite Hcb. by destruct (NewServerConn _ _ _ _) as [[[err|c]|why] s2].
Qed.


(** C38: starting the server runs ssh-keygen exactly when the key file is missing,
    so a host key is never replaced; the server has a host key exactly when the
    file could then be read and parsed; and its password callback is
    [authenticate]. *)
Theorem NewServer_host_key s :
  ∃ srv s', NewServer s = (Done srv, s') ∧ PasswordCallback srv = authenticate ∧
  ∃ t, events s' = events s ++ t ∧
    (∀ c args err, EvRunSilent c args err ∈ t →
       c = "ssh-keygen" ∧ args = ["-f"; keyPath; "-N"; ""; "-t"; "ed25519"]) ∧
    ((∃ c args err, EvRunSilent c args err ∈ t) ↔
       ∃ missing, (Stat keyPath (world s)).1 = inl missing ∧ IsNotFound missing = true) ∧
    ∀ key, key ∈ HostKeys srv ↔
      ∃ bytes, EvReadFile keyPath (inr bytes) ∈ t ∧ ParsePrivateKey bytes = inr key.
Proof.
  apply wp_exists. unfold NewServer, generateHostKey. repeat wp_step; eexists; (split; [reflexivity|]).
  all: split; [done|]; rewrite <- ?(assoc_L (++)); eexists; (split; [first [reflexivity | symmetry; apply app_nil_r]|]).
  all: match goal with H : Stat _ _ = _ |- _ => rewrite H end; cbn [fst HostKeys].
  all: split; [intros ? ? ? ?; by record_cases|]; split.
  all: try (split; [intros (? & ? & ? & ?); try (by record_cases); eauto
                   |intros (? & [= <-] & ?); try congruence; do 3 eexists; in_record]).
  all: intros key; split; [intros Hk; first [by record_cases | record_cases; eexists; (split; [in_record|done])]|].
  all: intros (bytes & Hin & Hp); record_cases; simplify_eq; rewrite Hp in *; simplify_eq; by left.
Qed.

(** Without an address in the configuration the server opens no port and
    serves nobody; otherwise it listens on that address, and once it does it
    serves every connection that is accepted, and those only, in their order. *)
Theorem Start_serves accepted s :
  ∃ conns s', Start accepted s = (Done conns, s') ∧ ∃ t, events s' = events s ++ t ∧
    let listen := SFTPListen (cfg_Config (get_outcome s)) in
    (∀ addr err, EvListen addr err ∈ t → addr = listen ∧ listen ≠ "") ∧
    (∀ c, c ∈ conns → inr c ∈ accepted ∧ EvListen listen None ∈ t) ∧
    (EvListen listen None ∈ t → conns = omap (λ r, match r with inr c => Some c | inl _ => None end) accepted).
Proof.
  apply wp_exists. unfold Start. wp_step. apply wp_Get_outcome. intros w t Ht.
  repeat wp_step; eexists; (split; [reflexivity|]); rewrite <- ?(assoc_L (++)); eexists; (split; [reflexivity|]).
  all: split; [intros ? ? ?; by record_cases|]; split; try (intros ? ?; by record_cases); try done.
  1, 2: intros ?; by record_cases.
  intros c (r & Hin & Hr)%list_elem_of_omap. destruct r; simplify_eq. split; [done|in_record].
Qed.
End Connection.

(** * At a concrete input *)

(** A client that logs in as [alice], opens one session, uploads one file and
    removes another. *)
#[export] Instance toy_ssh : SshLib Toy := {
  ParsePrivateKey _ := inr 5;
  NewServerConn nc cb keys :=
    match keys with
    | [] => ret (inl (ErrExt false "ssh: server has no host keys"))
    | _ => u <- cb "alice" "192.0.2.7" "wonder" ;;
           ret (match u with inr user => inr (mkSshConn nc user) | inl err => inl err end)
    end;
  Channels _ w := ([mkNewChannel 0 "x11"; mkNewChannel 1 "session"], w);
  AcceptChannel _ w := (inr [mkSshRequest "env" ""; mkSshRequest "subsystem" "....sftp"], w);
  RejectChannel _ w := w;
  ReplyRequest _ w := w;
  CloseConn _ w := w;
  Serve _ handler :=
    handler (FilePut (mkRequest "Put" "/mc1/data/x" "/")) ;;
    handler (FileCmd (mkRequest "Remove" "/mc1/data/y" "/")) ;;
    ret (Some EOF);
}.

Lemma lib_bind {I A B C} (body : I → Comp (Sys Toy) A) ok (m : Comp (Sys Toy) B) (k : B → Comp (Sys Toy) C) s :
  rtc (lib_step body ok) s (m s).2 → (∀ b s', rtc (lib_step body ok) s' (k b s').2) →
  rtc (lib_step body ok) s (bind m k s).2.
Proof. intros Hm Hk. unfold bind. destruct (m s) as [[b|e] s']; [|done]. etrans; [exact Hm|apply Hk]. Qed.

#[export] Instance toy_ssh_laws : SshLaws (W := Toy).
Proof.
  split.
  - intros ch handler s. apply lib_bind; [|intros _ s1; apply lib_bind; [|intros _ s2; apply rtc_refl]];
      apply rtc_once; [apply (call_back handler _ (FilePut _))|apply (call_back handler _ (FileCmd _))]; by vm_compute.
  - intros nc cb [|key keys] s; [apply rtc_refl|]. apply lib_bind; [|intros; apply rtc_refl].
    apply rtc_once. by apply (call_back (asked cb) _ ("alice", "192.0.2.7", "wonder")).
  - intros nc cb [|key keys] s c; [done|]. cbn [NewServerConn toy_ssh]. unfold bind. intros Hc.
    exists ("alice", "192.0.2.7", "wonder"), s. unfold asked. cbn [fst snd].
    destruct (cb "alice" "192.0.2.7" "wonder" s) as [[[err|u]|why] s1]; try done. cbn in Hc. injection Hc as <-.
    split_and!; [apply rtc_refl|done|apply rtc_refl].
Qed.

Definition toy_server : Server (W := Toy) := mkServer authenticate [5].

