(* ===== verification/Webdav.v ===== *)
(** [internal/webdav]: basic authentication in front of the WebDAV handler, the
    file-system adapter on top of the virtual file tree, and its virtual
    directories. *)

From S2P Require Import Prelude GoStrings GoPath GoTime Config World ConfigLoad Vfs Sftp.

(** * Virtual directories *)

Record vfsWebdavFile := mkVfsWebdavFile {
  handler : Handler;
  isRoot : bool;
  containerName : string;
  offset : Z;
}.

(** An open file: one of the host, or a virtual directory. *)
Inductive DavFile : Type :=
| HostFile (f : File)
| VirtualDir (f : vfsWebdavFile).

Definition vfsRead (f : vfsWebdavFile) : Z * option error := (0%Z, Some ErrInvalid).
Definition vfsSeek (f : vfsWebdavFile) (off whence : Z) : Z * option error := (0%Z, Some ErrInvalid).
Definition vfsWrite (f : vfsWebdavFile) (p : string) : Z * option error := (0%Z, Some ErrPermission).
Definition vfsClose (f : vfsWebdavFile) : option error := None.

Definition vfsStat (f : vfsWebdavFile) : Info :=
  if isRoot f then NewFileInfo "" true else NewFileInfo (containerName f) true.

(** 64-bit signed arithmetic. *)
Definition wrap64 (z : Z) : Z := ((z + 2 ^ 63) mod 2 ^ 64 - 2 ^ 63)%Z.

(** The end of [Readdir]: the window of [items] it returns and the new offset. *)
Definition readdir_window {A} (off count : Z) (items : list A) : Outcome (list A * Z) :=
  let len := Z.of_nat (length items) in
  if decide (len ≤ off)%Z then Done ([], off)
  else
    let start := off in
    let stop := if decide (0 < count ∧ wrap64 (start + count) < len)%Z
                then wrap64 (start + count) else len in
    if decide (0 ≤ start ≤ stop)%Z
    then Done (take (Z.to_nat (stop - start)) (drop (Z.to_nat start) items), stop)
    else Panic "slice bounds out of range".

(** * The adapter *)

(** The flags that make [OpenFile] ask for the write permission. *)
Definition write_flags : Z := Z.lor (Z.lor (Z.lor (Z.lor O_WRONLY O_RDWR) O_APPEND) O_CREATE) O_TRUNC.

Module vfsWebdavAdapter.
Section Adapter.
Context {W : Type} `{!Docker W, !OS W}.

Definition checkWritePerm (h : Handler) (path : string) : Comp (Sys W) (option error) :=
  let parts := Split (Trim path slash) slash in
  match parts with
  | [] => ret (Some ErrPermission)
  | containerName :: _ =>
      if decide (containerName = "") then ret (Some ErrPermission)
      else
        cfg <- Get ;;
        if negb (HasPermission (user_at cfg (Username h)) containerName PermFileWrite)
        then ret (Some ErrPermission) else ret None
  end.

Definition Mkdir (h : Handler) (name : string) (perm : Z) : Comp (Sys W) (option error) :=
  e <- checkWritePerm h name ;;
  match e with
  | Some err => ret (Some err)
  | None =>
      m <- MapPath h name ;;
      match m with
      | inl err => ret (Some err)
      | inr fullPath =>
          Logf "Client" "WebDAV" "ディレクトリ作成: user=%s, path=%s" [Username h; name] ;;
          os_MkdirAll fullPath perm
      end
  end.

Definition OpenFile (h : Handler) (name : string) (flag perm : Z) : Comp (Sys W) (result DavFile) :=
  let writing := bool_decide (Z.land flag write_flags ≠ 0%Z) in
  e <- (if writing then checkWritePerm h name else ret None) ;;
  match e with
  | Some err => ret (inl err)
  | None =>
      m <- MapPath h name ;;
      match m with
      | inl ErrVfsRoot => ret (inr (VirtualDir (mkVfsWebdavFile h true "" 0)))
      | inl ErrVfsContainerRoot =>
          ret (inr (VirtualDir (mkVfsWebdavFile h false (Trim name slash) 0)))
      | inl err => ret (inl err)
      | inr fullPath =>
          f <- os_OpenFile fullPath flag perm ;;
          match f with
          | inl err => ret (inl err)
          | inr f =>
              (if writing then
                 Logf "Client" "WebDAV" "ファイル書込オープン: user=%s, path=%s" [Username h; name]
               else ret tt) ;;
              ret (inr (HostFile f))
          end
      end
  end.

Definition RemoveAll (h : Handler) (name : string) : Comp (Sys W) (option error) :=
  e <- checkWritePerm h name ;;
  match e with
  | Some err => ret (Some err)
  | None =>
      m <- MapPath h name ;;
      match m with
      | inl err => ret (Some err)
      | inr fullPath =>
          Logf "Client" "WebDAV" "削除操作: user=%s, path=%s" [Username h; name] ;;
          os_RemoveAll fullPath
      end
  end.

Definition Rename (h : Handler) (oldName newName : string) : Comp (Sys W) (option error) :=
  e <- checkWritePerm h oldName ;;
  match e with
  | Some err => ret (Some err)
  | None =>
      e <- checkWritePerm h newName ;;
      match e with
      | Some err => ret (Some err)
      | None =>
          o <- MapPath h oldName ;;
          match o with
          | inl err => ret (Some err)
          | inr oldPath =>
              n <- MapPath h newName ;;
              match n with
              | inl err => ret (Some err)
              | inr newPath =>
                  Logf "Client" "WebDAV" "リネーム: user=%s, %s -> %s" [Username h; oldName; newName] ;;
                  os_Rename oldPath newPath
              end
          end
      end
  end.

Definition Stat (h : Handler) (name : string) : Comp (Sys W) (result Info) :=
  m <- MapPath h name ;;
  match m with
  | inl ErrVfsRoot => ret (inr (NewFileInfo "" true))
  | inl ErrVfsContainerRoot => ret (inr (NewFileInfo (Trim name slash) true))
  | inl err => ret (inl err)
  | inr fullPath =>
      r <- os_Stat fullPath ;;
      match r with
      | inl err => ret (inl err)
      | inr fi => ret (inr (OsInfo fi))
      end
  end.

End Adapter.
End vfsWebdavAdapter.

Section Readdir.
Context {W : Type} `{!Docker W, !OS W, !MapRange W}.

(** [Readdir(count)]: the entries returned and the file with its new offset. *)
Definition Readdir (f : vfsWebdavFile) (count : Z) : Comp (Sys W) (list Info * vfsWebdavFile) :=
  cfg <- Get ;;
  let user := user_at cfg (Username (handler f)) in
  items <- (if isRoot f then
              servers <- range_map (Servers cfg) ;;
              ret (server_items user servers)
            else
              i <- dk_Inspect (containerName f) ;;
              ret (match i with inr inspect => mount_items (Mounts inspect) | inl _ => [] end)) ;;
  match readdir_window (offset f) count items with
  | Done (page, off) => ret (page, mkVfsWebdavFile (handler f) (isRoot f) (containerName f) off)
  | Panic why => panic why
  end.

End Readdir.

(** * Handler *)

Module Server.
(** What [Handler] does with a request: refuse it, or pass the rest of the path
    on in the name of the user.  [http.StripPrefix] answers 404 unless the path
    has the prefix both decoded and as it was sent ([raw]). *)
Inductive DavReply : Type :=
| Unauthorized401
| NotFound404
| Serve (user path : string).

Definition strip_prefix (pre path : string) : option string :=
  if String.prefix pre path
  then Some (String.substring (String.length pre) (String.length path - String.length pre) path)
  else None.

Section Server.
Context {W : Type} `{!OS W}.

(** [auth] is what [r.BasicAuth()] finds in the request. *)
Definition Handler (auth : option (string * string)) (path raw addr : string) : Comp (Sys W) DavReply :=
  let username := default "" (fst <$> auth) in
  let password := default "" (snd <$> auth) in
  cfg <- Get ;;
  let ok := match auth, Users cfg !! username with
            | Some _, Some user => bool_decide (Password user = password)
            | _, _ => false
            end in
  if negb ok then
    Logf "Client" "WebDAV" "ログイン失敗: user=%s, addr=%s" [username; addr] ;;
    ret Unauthorized401
  else ret (match strip_prefix "/dav/" path, strip_prefix "/dav/" raw with
            | Some rest, Some _ => Serve username rest
            | _, _ => NotFound404
            end).
End Server.
End Server.
