(* ===== verification/WebdavSpec.v ===== *)
(** What the WebDAV server promises: who gets in, which changes of the host a
    request can make, and what a virtual directory lists. *)

From S2P Require Import Prelude GoStrings GoPath GoTime Config World TestBed ConfigLoad Vfs Sftp Access Webdav.

(** * The operations of the adapter, as data *)

Inductive DavOp : Type :=
| OpMkdir (name : string) (perm : Z)
| OpOpenFile (name : string) (flag perm : Z)
| OpRemoveAll (name : string)
| OpRename (oldName newName : string)
| OpStat (name : string).

Definition op_names (op : DavOp) : list string :=
  match op with
  | OpMkdir name _ | OpOpenFile name _ _ | OpRemoveAll name | OpStat name => [name]
  | OpRename oldName newName => [oldName; newName]
  end.

Section WebdavSpec.
Context {W : Type} `{!DockerClient W, !OS W, !MapRange W}.
Implicit Types s : Sys W.
Import vfsWebdavAdapter.

Definition run_op (h : Handler) (op : DavOp) : Comp (Sys W) unit :=
  match op with
  | OpMkdir name perm => Mkdir h name perm ;; ret tt
  | OpOpenFile name flag perm => OpenFile h name flag perm ;; ret tt
  | OpRemoveAll name => RemoveAll h name ;; ret tt
  | OpRename oldName newName => Rename h oldName newName ;; ret tt
  | OpStat name => Stat h name ;; ret tt
  end.

(** A write permission found by the check, under a configuration in force. *)
Definition may_write s (h : Handler) (path : string) (t : list Event) : Prop :=
  first_part path ≠ "" ∧ ∃ cfg, in_force s t cfg ∧
    HasPermission (user_at cfg (Username h)) (first_part path) PermFileWrite = true.

Lemma may_write_mono s h path t t' : may_write s h path t → t ⊆ t' → may_write s h path t'.
Proof. intros (? & cfg & ? & ?) Ht. split; [done|]. exists cfg. eauto using in_force_mono. Qed.

Lemma may_write_trans s s1 h path t t1 t' :
  in_force s t (cfg_Config (loaded s1)) → may_write s1 h path t1 → t ⊆ t' → t1 ⊆ t' →
  may_write s h path t'.
Proof. intros ? (? & cfg & ? & ?) ? ?. split; [done|]. exists cfg. eauto using in_force_trans. Qed.

Lemma wp_checkWritePerm h path (Q : Outcome (option error) → Sys W → Prop) s :
  (∀ r w lc t, Forall (λ e, quiet e = true) t → in_force s t (cfg_Config lc) →
     (r = None → may_write s h path t) → Q (Done r) (mkSys w lc (events s ++ t))) →
  wp (checkWritePerm h path) Q s.
Proof.
  intros HQ. assert (∀ w, Q (Done (Some ErrPermission)) (mkSys w (loaded s) (events s))) as Hnil.
  { intros w. specialize (HQ (Some ErrPermission) w (loaded s) []). rewrite app_nil_r in HQ.
    apply HQ; [done|by left|done]. }
  destruct s as [w0 lc0 e0]. unfold checkWritePerm.
  destruct (Split (Trim path slash) slash) as [|c rest] eqn:Hs; [wp_step; apply Hnil|].
  case_decide as Hc; [wp_step; apply Hnil|]. wp_step. apply wp_Get. intros w lc t Ht Hf.
  assert (first_part path = c) as Hfp by (unfold first_part; by rewrite Hs).
  destruct (HasPermission _ c PermFileWrite) eqn:Hp; repeat wp_step; apply HQ; try done.
  intros _. split; [by rewrite Hfp|]. exists (cfg_Config lc). by rewrite Hfp.
Qed.

(** A path resolved after a successful check. *)
Lemma may_write_guarded s h path q cfg t t' :
  may_write s h path t' → resolved h path q cfg t → safe_name path → t ⊆ t' →
  write_guarded s h path t' q.
Proof. intros (? & cfg' & ? & ?) ? ? ?. eapply resolved_write_guarded; eauto. Qed.

(** What is to hold of a run of an operation on [names]. *)
Definition guarded_run {A} s (h : Handler) (names : list string) (o : Outcome A) (s' : Sys W) : Prop :=
  ∃ r, o = Done r ∧ ∃ t, events s' = events s ++ t ∧
    ∀ e q, e ∈ t → q ∈ changed_paths e → ∃ name, name ∈ names ∧ write_guarded s h name t q.

(** Runs through an operation, noting what the checks and resolutions found. *)
Ltac dav_run :=
  repeat first
    [ wp_step
    | apply wp_checkWritePerm; intros ? ? ? ? ? ? ?Hmay
    | apply wp_MapPath; intros ? ? ? ? ? ? ?Hres ];
  eexists; (split; [reflexivity|]); rewrite <- ?(assoc_L (++));
  eexists; (split; [first [reflexivity | symmetry; apply app_nil_r]|]);
  intros ?e ?q ?He ?Hq; changed_cases.

(** The path changed was resolved from [name] after its check. *)
Ltac dav_guarded name :=
  exists name; split; [set_solver|];
  eapply may_write_guarded; eauto; [|set_solver];
  eapply may_write_mono; [eauto|set_solver].

Lemma Mkdir_guarded h name perm s :
  safe_name name → wp (Mkdir h name perm) (guarded_run s h [name]) s.
Proof.
  intros Hn. unfold Mkdir. dav_run. subst. simpl in Hq. apply list_elem_of_singleton in Hq as ->.
  dav_guarded name.
Qed.

Lemma RemoveAll_guarded h name s :
  safe_name name → wp (RemoveAll h name) (guarded_run s h [name]) s.
Proof.
  intros Hn. unfold RemoveAll. dav_run. subst. simpl in Hq. apply list_elem_of_singleton in Hq as ->.
  dav_guarded name.
Qed.

Lemma Rename_guarded h oldName newName s :
  safe_name oldName → safe_name newName →
  wp (Rename h oldName newName) (guarded_run s h [oldName; newName]) s.
Proof.
  intros Ho Hn. unfold Rename. wp_step. apply wp_checkWritePerm. intros r w lc t Ht Hf Hold.
  destruct r as [err|].
  { wp_step. eexists. split; [done|]. exists t. split; [done|]. intros. changed_cases. }
  wp_step. apply wp_checkWritePerm. intros r1 w1 lc1 t1 Ht1 Hf1 Hnew.
  assert (r1 = None → may_write s h newName (t ++ t1)) as Hnew'.
  { intros Hr. eapply (may_write_trans s (mkSys w lc (events s ++ t)) h newName t); [exact Hf|by apply Hnew|set_solver..]. }
  clear Hnew. dav_run. subst. simpl in Hq. apply elem_of_cons in Hq as [->|Hq]; [dav_guarded oldName|].
  apply list_elem_of_singleton in Hq as ->. dav_guarded newName.
Qed.

Lemma OpenFile_guarded h name flag perm s :
  safe_name name → wp (OpenFile h name flag perm) (guarded_run s h [name]) s.
Proof.
  intros Hn. unfold OpenFile.
  destruct (bool_decide (Z.land flag write_flags ≠ 0%Z)) eqn:Hw; dav_run; subst; simpl in Hq;
    change (opens_for_writing flag) with (bool_decide (Z.land flag write_flags ≠ 0%Z)) in Hq;
    rewrite Hw in Hq; try (by apply elem_of_nil in Hq);
    apply list_elem_of_singleton in Hq as ->; dav_guarded name.
Qed.

Lemma Stat_guarded h name s : wp (Stat h name) (guarded_run s h [name]) s.
Proof. unfold Stat. dav_run; subst; by apply elem_of_nil in Hq. Qed.

Lemma guarded_run_ret {A} (m : Comp (Sys W) A) s h names :
  wp m (guarded_run s h names) s → wp (m ;; ret tt) (guarded_run s h names) s.
Proof.
  intros H. wp_step. eapply wp_mono; [exact H|]. intros o s' (r & -> & H'). wp_step.
  exists tt. split; [done|exact H'].
Qed.

(** C16: for names without dot-dot parts, every change of the host's disk made
    for a WebDAV request lies in a mount of a container named by the request,
    on which the user has the file-write permission. *)
Theorem dav_changes_guarded h op s :
  Forall safe_name (op_names op) →
  ∃ r s', run_op h op s = (Done r, s') ∧ ∃ t, events s' = events s ++ t ∧
    ∀ e q, e ∈ t → q ∈ changed_paths e →
      ∃ name, name ∈ op_names op ∧ write_guarded s h name t q.
Proof.
  intros Hsafe. apply wp_exists. change (wp (run_op h op) (guarded_run s h (op_names op)) s).
  destruct op; simpl in *; rewrite ?Forall_cons in Hsafe; destruct_and?; apply guarded_run_ret.
  - by apply Mkdir_guarded.
  - by apply OpenFile_guarded.
  - by apply RemoveAll_guarded.
  - by apply Rename_guarded.
  - apply Stat_guarded.
Qed.

(** The container a path below [/dav] names. *)
Lemma dav_elems rest :
  ".." ∉ Split rest slash → head (elems (Clean ("/dav/" +:+ rest))) = Some "dav".
Proof.
  intros Hd. change ("/dav/" +:+ rest) with ("/dav" +:+ String slash rest).
  rewrite elems_Clean_no_dotdot.
  - unfold elems. by rewrite Split_app_gen, filter_app.
  - rewrite Split_app_gen. by intros [H|H]%elem_of_app; [vm_compute in H; set_solver|].
Qed.

(** A rename to a name that still carries the [/dav] of its URL, as the
    destination of a WebDAV move does, fails without touching the disk, unless
    a server is called dav. *)
Theorem dav_rename_with_prefix h oldName rest s :
  ".." ∉ Split rest slash →
  ∃ o s', Rename h oldName ("/dav/" +:+ rest) s = (Done o, s') ∧ ∃ t, events s' = events s ++ t ∧
    ((∀ cfg, in_force s t cfg → Servers cfg !! "dav" = None) →
     o ≠ None ∧ ∀ e q, e ∈ t → q ∉ changed_paths e).
Proof.
  intros Hd. apply wp_exists. pose proof (dav_elems rest Hd) as He.
  generalize dependent ("/dav/" +:+ rest). intros newName He. unfold Rename.
  wp_step. apply wp_checkWritePerm. intros r w lc t Ht Hf _. destruct r as [err|].
  { wp_step. eexists. split; [done|]. exists t. split; [done|]. intros _. split; [done|].
    intros e q ? ?. changed_cases. }
  wp_step. apply wp_checkWritePerm. intros r w1 lc1 t1 Ht1 Hf1 _. in_force_step Hf Hf1.
  destruct r as [err|].
  { wp_step. eexists. split; [done|]. rewrite <- (assoc_L (++)). eexists. split; [done|].
    intros _. split; [done|]. intros e q ? ?. changed_cases. }
  wp_step. apply wp_MapPath. intros r w2 lc2 t2 Ht2 Hf2 _. in_force_step Hf1 Hf2.
  destruct r as [err|oldPath].
  { wp_step. eexists. split; [done|]. rewrite <- !(assoc_L (++)). eexists. split; [done|].
    intros _. split; [done|]. intros e q ? ?. changed_cases. }
  wp_step. apply wp_MapPath. intros r w3 lc3 t3 Ht3 Hf3 Hres. in_force_step Hf2 Hf3.
  destruct r as [err|newPath].
  { wp_step. eexists. split; [done|]. rewrite <- !(assoc_L (++)). eexists. split; [done|].
    intros _. split; [done|]. intros e q ? ?. changed_cases. }
  repeat wp_step. eexists. split; [done|]. rewrite <- !(assoc_L (++)). eexists. split; [done|].
  intros Hnone. exfalso. destruct (Hres newPath eq_refl) as (c & d & b & u & ins & m & Hc & _ & _ & [srv Hs] & _).
  rewrite Hc in He. injection He as ->. rewrite Hnone in Hs; [done|].
  eapply in_force_mono; [exact Hf3|set_solver].
Qed.

(** The listing of the virtual root holds, after one call without a limit,
    exactly the configured servers the user may read, each once, and the offset
    is then behind the last of them. *)
Theorem Readdir_root f count s :
  isRoot f = true → offset f = 0%Z → (count ≤ 0)%Z →
  ∃ l f' s', Readdir f count s = (Done (l, f'), s') ∧
    NoDup (InfoName <$> l) ∧ offset f' = Z.of_nat (length l) ∧
    ∀ n, n ∈ InfoName <$> l ↔
      is_Some (Servers (cfg_Config (loaded s')) !! n) ∧
      HasPermission (user_at (cfg_Config (loaded s')) (Username (handler f))) n PermContainerRead = true.
Proof.
  intros Hr Ho Hc.
  cut (wp (Readdir f count) (λ o s', ∃ l f', o = Done (l, f') ∧
    NoDup (InfoName <$> l) ∧ offset f' = Z.of_nat (length l) ∧
    ∀ n, n ∈ InfoName <$> l ↔ is_Some (Servers (cfg_Config (loaded s')) !! n) ∧
      HasPermission (user_at (cfg_Config (loaded s')) (Username (handler f))) n PermContainerRead = true) s).
  { unfold wp. destruct (Readdir f count s) as [o s']. simpl. intros (l & f' & -> & H). by exists l, f', s'. }
  unfold Readdir. rewrite Hr, Ho. wp_step. apply wp_Get. intros w lc t _ _. do 2 wp_step.
  apply wp_range. intros l w1 Hl _. wp_step. unfold readdir_window.
  destruct (server_items_spec (user_at (cfg_Config lc) (Username (handler f))) _ l Hl) as (Hnd & _ & Hiff).
  set (its := server_items _ l) in *. case_decide as Hlen.
  - wp_step. exists [], (mkVfsWebdavFile (handler f) true (containerName f) 0). split; [done|].
    assert (its = []) as Hnil by (destruct its; [done|simpl in Hlen; lia]). rewrite Hnil in Hiff.
    split_and!; [constructor|done|exact Hiff].
  - rewrite (decide_False (P := (0 < count ∧ _)%Z)) by lia. rewrite decide_True by lia. wp_step.
    exists its, (mkVfsWebdavFile (handler f) true (containerName f) (Z.of_nat (length its))).
    assert (take (Z.to_nat (Z.of_nat (length its) - 0)) (drop (Z.to_nat 0) its) = its) as ->.
    { change (drop (Z.to_nat 0) its) with its. apply take_ge. lia. }
    done.
Qed.
End WebdavSpec.

(** C40: the window a virtual directory returns: everything left without a limit,
    the next [count] entries with one; and only a limit so large that the end of
    the window overflows a 64-bit integer makes it panic. *)
Theorem readdir_window_spec {A} off count (items : list A) :
  (0 ≤ off < 2 ^ 63)%Z → (Z.of_nat (length items) < 2 ^ 63)%Z → (- 2 ^ 63 ≤ count < 2 ^ 63)%Z →
  readdir_window off count items =
    if decide (Z.of_nat (length items) ≤ off)%Z then Done ([], off)
    else if decide (count ≤ 0)%Z then Done (drop (Z.to_nat off) items, Z.of_nat (length items))
    else if decide (off + count < 2 ^ 63)%Z then
      Done (take (Z.to_nat count) (drop (Z.to_nat off) items),
            Z.min (off + count) (Z.of_nat (length items)))
    else Panic "slice bounds out of range".
Proof.
  intros Ho Hl Hc. unfold readdir_window. cbv zeta.
  case_decide as H1; [done|]. destruct (decide (count ≤ 0)%Z) as [H2|H2].
  { rewrite (decide_False (P := (0 < count ∧ _)%Z)) by lia. rewrite decide_True by lia.
    do 2 f_equal. apply take_ge. rewrite length_drop. lia. }
  destruct (decide (off + count < 2 ^ 63)%Z) as [H3|H3].
  - assert (wrap64 (off + count) = (off + count)%Z) as -> by (unfold wrap64; rewrite Z.mod_small; lia).
    destruct (decide (off + count < Z.of_nat (length items))%Z) as [H4|H4].
    + rewrite (decide_True (P := (0 < count ∧ _)%Z)) by lia. rewrite decide_True by lia.
      rewrite Z.min_l by lia. do 3 f_equal. lia.
    + rewrite (decide_False (P := (0 < count ∧ _)%Z)) by lia. rewrite decide_True by lia.
      rewrite Z.min_r by lia. do 2 f_equal.
      rewrite !take_ge; [done|rewrite length_drop; lia..].
  - assert (wrap64 (off + count) = (off + count - 2 ^ 64)%Z) as ->.
    { unfold wrap64. replace (off + count + 2 ^ 63)%Z with (off + count - 2 ^ 63 + 1 * 2 ^ 64)%Z by lia.
      rewrite Z.mod_add, Z.mod_small by lia. lia. }
    rewrite (decide_True (P := (0 < count ∧ _)%Z)) by lia. by rewrite decide_False by lia.
Qed.

(** ** Authentication *)

Section Login.
Context {W : Type} `{!OS W}.
Implicit Types s : Sys W.
Import Server.

Lemma strip_prefix_app pre rest : strip_prefix pre (pre +:+ rest) = Some rest.
Proof.
  unfold strip_prefix. rewrite string_prefix_app. f_equal. rewrite string_length_app.
  rewrite Nat.add_sub_swap, Nat.sub_diag by lia. simpl Nat.add. apply substring_drop_app.
Qed.

(** The WebDAV file system is reached exactly with a configured user's name
    and password, in that user's name and with the rest of the path; every
    request without them is answered 401, and nothing but the log changes. *)
Theorem Handler_auth auth rest rawRest addr s :
  ∃ o s', Server.Handler auth ("/dav/" +:+ rest) ("/dav/" +:+ rawRest) addr s = (Done o, s') ∧
    (o = Serve (default "" (fst <$> auth)) rest ∧
       (∃ u user pass, auth = Some (user, pass) ∧
          Users (cfg_Config (get_outcome s)) !! user = Some u ∧ Password u = pass)
     ∨ o = Unauthorized401 ∧
       ¬ (∃ u user pass, auth = Some (user, pass) ∧
          Users (cfg_Config (get_outcome s)) !! user = Some u ∧ Password u = pass)) ∧
    ∃ t, events s' = events s ++ t ∧ Forall (λ e, quiet e = true) t.
Proof.
  apply wp_exists. unfold Server.Handler. wp_step. apply wp_Get_outcome. intros w t Ht.
  rewrite !strip_prefix_app. destruct auth as [[user pass]|]; simpl.
  - destruct (Users _ !! user) as [u|] eqn:Hu.
    + destruct (bool_decide (Password u = pass)) eqn:Hp; cbn [negb]; repeat wp_step;
        eexists; (split; [reflexivity|]).
      * apply bool_decide_eq_true in Hp. split; [left; split; [done|]; by exists u, user, pass|].
        by exists t.
      * apply bool_decide_eq_false in Hp. split.
        { right. split; [done|]. intros (u' & ? & ? & [= <- <-] & Hu' & Hp'). congruence. }
        rewrite <- (assoc_L (++)). eexists. split; [reflexivity|]. by apply Forall_app.
    + cbn [negb]. repeat wp_step. eexists. split; [reflexivity|]. split.
      { right. split; [done|]. intros (u' & ? & ? & [= <- <-] & Hu' & _). congruence. }
      rewrite <- (assoc_L (++)). eexists. split; [reflexivity|]. by apply Forall_app.
  - repeat wp_step. eexists. split; [reflexivity|]. split.
    { right. split; [done|]. by intros (? & ? & ? & ? & _). }
    rewrite <- (assoc_L (++)). eexists. split; [reflexivity|]. by apply Forall_app.
Qed.
End Login.

(** The check reads the container off the name as it was sent, the resolution
    off the cleaned name: with a dot-dot part a user creates a directory in a
    container on which that user has no file-write permission. *)
Theorem Mkdir_dotdot_crosses :
  HasPermission alice "mc2" PermFileWrite = false ∧
  let '(o, s') := vfsWebdavAdapter.Mkdir (mkHandler "alice") "mc1/../mc2/data/x" 511 toy_sys in
  o = Done None ∧ EvMkdirAll "/srv/mc2/data/x" 511 None ∈ events s'.
Proof. split; [by vm_compute|]. vm_compute. split; [done|]. in_record. Qed.

(** * Witnesses *)

Lemma dav_changes_guarded_witness :
  ∃ t name, events (run_op (mkHandler "alice") (OpRemoveAll "mc1/data/old") toy_sys).2 = t ∧
    EvRemoveAll "/srv/mc1/data/old" None ∈ t ∧
    write_guarded toy_sys (mkHandler "alice") name t "/srv/mc1/data/old".
Proof.
  destruct (dav_changes_guarded (mkHandler "alice") (OpRemoveAll "mc1/data/old") toy_sys)
    as (r & s' & E & t & Ht & H); [decided|].
  assert (EvRemoveAll "/srv/mc1/data/old" None ∈ t) as Hin.
  { change t with (events toy_sys ++ t). rewrite <- Ht. apply (f_equal snd) in E. simpl in E. subst s'.
    vm_compute. in_record. }
  destruct (H _ "/srv/mc1/data/old" Hin) as (name & _ & Hw); [vm_compute; left|].
  exists t, name. split; [rewrite E; exact Ht|]. split; [exact Hin|exact Hw].
Defined.

Lemma dav_rename_with_prefix_witness :
  ∃ o s', vfsWebdavAdapter.Rename (mkHandler "root") "mc1/data/a" "/dav/mc1/data/b" toy_sys = (Done o, s').
Proof.
  destruct (dav_rename_with_prefix (mkHandler "root") "mc1/data/a" "mc1/data/b" toy_sys)
    as (o & s' & E & _); [decided|].
  exists o, s'. exact E.
Defined.

Lemma Readdir_root_witness :
  ∃ l f' s', Readdir (mkVfsWebdavFile (mkHandler "alice") true "" 0) 0 toy_boot = (Done (l, f'), s') ∧
    NoDup (InfoName <$> l).
Proof.
  destruct (Readdir_root (mkVfsWebdavFile (mkHandler "alice") true "" 0) 0 toy_boot)
    as (l & f' & s' & E & Hnd & _); [done|done|done|].
  exists l, f', s'. split; [exact E|exact Hnd].
Defined.

Lemma readdir_window_spec_witness :
  readdir_window 1 (2 ^ 63 - 1) [true; false] = Panic "slice bounds out of range".
Proof. rewrite (readdir_window_spec 1 (2 ^ 63 - 1) [true; false]); [by vm_compute|lia|simpl; lia|lia]. Defined.

(** * The two file servers agree *)

Section Agree.
Context {W : Type} `{!DockerClient W, !OS W, !MapRange W}.
Import vfsWebdavAdapter.

(** What is left of an upload over SFTP after its check. *)
Definition upload (h : Handler) (r : Request) : Comp (Sys W) (result File) :=
  m <- MapPath h (Filepath r) ;;
  match m with
  | inl err => ret (inl err)
  | inr fullPath =>
      Logf "Client" "SFTP" "ファイル書込: user=%s, path=%s" [Username h; Filepath r] ;;
      os_OpenFile fullPath (Z.lor (Z.lor O_WRONLY O_CREATE) O_TRUNC) 420
  end.

(** C25: the check written out in the SFTP handlers is the one the WebDAV adapter
    has in [checkWritePerm]: on a path that names a container an upload over SFTP
    is the adapter's check followed by the resolution of the path, call for call
    and state for state. *)
Theorem Filewrite_checks_like_dav h r (s : Sys W) :
  first_part (Filepath r) ≠ "" →
  Filewrite h r s =
    (e <- checkWritePerm h (Filepath r) ;;
     match e with Some err => ret (inl err) | None => upload h r end) s.
Proof.
  unfold Filewrite, checkWritePerm, first_part. destruct (Split _ slash) as [|c rest] eqn:E; [done|]. intros Hc.
  rewrite decide_False by done. rewrite bind_assoc. apply bind_ext; [done|]. intros cfg s1.
  by destruct (HasPermission _ c PermFileWrite).
Qed.
End Agree.

Lemma Filewrite_checks_like_dav_witness :
  Filewrite (mkHandler "alice") (mkRequest "Put" "/mc1/data/x" "") toy_sys =
    (e <- vfsWebdavAdapter.checkWritePerm (mkHandler "alice") "/mc1/data/x" ;;
     match e with Some err => ret (inl err) | None => upload (mkHandler "alice") (mkRequest "Put" "/mc1/data/x" "") end) toy_sys.
Proof. apply (Filewrite_checks_like_dav (mkHandler "alice") (mkRequest "Put" "/mc1/data/x" "") toy_sys). by vm_compute. Defined.
