(* ===== verification/Terminal.v ===== *)
(** The terminal session of [internal/api/handlers_ws.go]: the goroutine that copies
    the container's stream to the WebSocket, the one that copies the client's
    messages to the stream, and the handler that waits for either to end.  A
    session is a labelled transition system whose labels are the atomic steps of
    the goroutines; their order is arbitrary. *)

From S2P Require Import Prelude.

(** * State *)

(** The stream the request's mode opened: the connection of an exec, the reader of
    the logs behind [ReadNullWriteCloser], or none at all, which is what the
    handler's [switch] leaves for every other mode. *)
Inductive Mode : Type := ModeExec | ModeLogs | ModeOther.

(** Where a copying goroutine is: about to read, about to write what it read, in
    its deferred [cleanup], or at its end. *)
Inductive Copier : Type :=
| CReading
| CWriting (data : string)
| CCleanup
| CDone.

(** [cleanups] counts the runs of the body of [cleanup], which closes [done]; the
    last four fields record what has passed. *)
Record Term := mkTerm {
  mode : Mode;
  stream_open : bool;
  ws_open : bool;
  cleanups : nat;
  out : Copier;
  inp : Copier;
  returned : bool;
  crashed : bool;
  from_container : list string;
  to_client : list string;
  from_client : list string;
  to_container : list string;
}.

(** Right after the upgrade, with both goroutines started. *)
Definition start_terminal (m : Mode) : Term :=
  mkTerm m true true 0 CReading CReading false false [] [] [] [].

Definition set_out (c : Copier) (t : Term) : Term :=
  mkTerm (mode t) (stream_open t) (ws_open t) (cleanups t) c (inp t) (returned t) (crashed t)
    (from_container t) (to_client t) (from_client t) (to_container t).
Definition set_inp (c : Copier) (t : Term) : Term :=
  mkTerm (mode t) (stream_open t) (ws_open t) (cleanups t) (out t) c (returned t) (crashed t)
    (from_container t) (to_client t) (from_client t) (to_container t).
Definition close_both (n : nat) (r : bool) (t : Term) : Term :=
  mkTerm (mode t) false false n (out t) (inp t) r (crashed t)
    (from_container t) (to_client t) (from_client t) (to_container t).
Definition crash (t : Term) : Term :=
  mkTerm (mode t) (stream_open t) (ws_open t) (cleanups t) (out t) (inp t) (returned t) true
    (from_container t) (to_client t) (from_client t) (to_container t).
Definition record (a b c d : list string) (t : Term) : Term :=
  mkTerm (mode t) (stream_open t) (ws_open t) (cleanups t) (out t) (inp t) (returned t) (crashed t)
    (from_container t ++ a) (to_client t ++ b) (from_client t ++ c) (to_container t ++ d).

(** [once.Do]: the body closes [done], the stream and the WebSocket; a second
    close of [done] would panic. *)
Definition cleanup (t : Term) : Term :=
  match cleanups t with
  | 0 => close_both 1 (returned t) t
  | _ => t
  end.

(** * Steps *)

(** One atomic step of one of the goroutines.  A closed stream or WebSocket gives
    nothing to read and takes no message; reading may end at any time.  A message
    is written as a whole or counts as not written, and the error of a write to
    the stream is not looked at.  A goroutine that calls a method of
    the stream when there is none panics, and nothing recovers it. *)
Inductive move (t : Term) : Term → Prop :=
| stream_chunk c : out t = CReading → mode t ≠ ModeOther → stream_open t = true →
    move t (set_out (CWriting c) (record [c] [] [] [] t))
| stream_ends : out t = CReading → mode t ≠ ModeOther → move t (set_out CCleanup t)
| no_stream_to_read : out t = CReading → mode t = ModeOther → move t (crash t)
| client_gets c : out t = CWriting c → ws_open t = true → move t (set_out CReading (record [] [c] [] [] t))
| client_unreachable c : out t = CWriting c → move t (set_out CCleanup t)
| client_sends d : inp t = CReading → ws_open t = true → move t (set_inp (CWriting d) (record [] [] [d] [] t))
| client_leaves : inp t = CReading → move t (set_inp CCleanup t)
| forwarded d : inp t = CWriting d → mode t = ModeExec → stream_open t = true →
    move t (set_inp CReading (record [] [] [] [d] t))
| not_forwarded d : inp t = CWriting d → mode t = ModeExec → move t (set_inp CReading t)
| discarded d : inp t = CWriting d → mode t = ModeLogs → move t (set_inp CReading t)
| no_stream_to_write d : inp t = CWriting d → mode t = ModeOther → move t (crash t)
| out_cleanup : out t = CCleanup → move t (set_out CDone (cleanup t))
| inp_cleanup : inp t = CCleanup → move t (set_inp CDone (cleanup t))
| handler_returns : cleanups t ≠ 0 → returned t = false → move t (close_both (cleanups t) true t).

(** The process is alive, and one goroutine moves. *)
Definition step (t t' : Term) : Prop := crashed t = false ∧ move t t'.

(** * The invariant *)

(** What a goroutine holds in its hands. *)
Definition pending (c : Copier) : list string := match c with CWriting d => [d] | _ => [] end.

Definition running (c : Copier) : bool := match c with CReading | CWriting _ => true | _ => false end.

Record session_ok (m : Mode) (t : Term) : Prop := {
  ok_mode : mode t = m;
  ok_alive : crashed t = false;
  (** the body of [cleanup] runs once at most, and not before a goroutine ends *)
  ok_cleanups :
    cleanups t = 0 ∧ out t ≠ CDone ∧ inp t ≠ CDone ∧ stream_open t = true ∧ ws_open t = true ∧ returned t = false ∨
    cleanups t = 1 ∧ stream_open t = false ∧ ws_open t = false;
  (** nothing is lost, doubled or reordered on the way to the client, except that
      what is in hand when the session ends may be dropped *)
  ok_out : running (out t) = true → from_container t = to_client t ++ pending (out t);
  ok_out_prefix : to_client t `prefix_of` from_container t;
  (** what reaches the container was sent by the client, in that order *)
  ok_inp : ∃ handled, from_client t = handled ++ pending (inp t) ∧
    to_container t `sublist_of` handled ∧ (m = ModeLogs → to_container t = []);
}.

Lemma start_ok m : session_ok m (start_terminal m).
Proof. split; simpl; try done; [by left|]. by exists []. Qed.

Lemma cleanup_cleanups t : cleanups t = 0 ∨ cleanups t = 1 → cleanups (cleanup t) = 1.
Proof. unfold cleanup. by intros [E|E]; rewrite E. Qed.

Lemma cleanup_ok m t : session_ok m t →
  mode (cleanup t) = m ∧ crashed (cleanup t) = false ∧ out (cleanup t) = out t ∧ inp (cleanup t) = inp t ∧
  cleanups (cleanup t) = 1 ∧ stream_open (cleanup t) = false ∧ ws_open (cleanup t) = false ∧
  from_container (cleanup t) = from_container t ∧ to_client (cleanup t) = to_client t ∧
  from_client (cleanup t) = from_client t ∧ to_container (cleanup t) = to_container t.
Proof.
  intros [Hm Ha Hc _ _ _]. unfold cleanup.
  destruct Hc as [(E & _)|(E & ? & ?)]; rewrite E; simpl; by split_and!.
Qed.

Lemma step_ok m t t' : m ≠ ModeOther → session_ok m t → step t t' → session_ok m t'.
Proof.
  intros Hm Hok [_ Hs]. pose proof (cleanup_ok m t Hok) as (K1 & K2 & K3 & K4 & K5 & K6 & K7 & K8 & K9 & K10 & K11).
  destruct Hok as [Hmode Halive Hc Ho Hp (handled & Hi1 & Hi2 & Hi3)].
  assert (∀ d, inp t = CWriting d → from_client t = handled ++ [d]) as Hd by (intros d E; by rewrite E in Hi1).
  assert (inp t = CReading ∨ inp t = CCleanup → from_client t = handled) as Hn
    by (intros [E|E]; rewrite E in Hi1; simpl in Hi1; by rewrite app_nil_r in Hi1).
  destruct Hs; (split; simpl; rewrite ?K1, ?K2, ?K3, ?K4, ?K5, ?K6, ?K7, ?K8, ?K9, ?K10, ?K11, ?app_nil_r;
    try done; try congruence; try (by right)).
  all: try (destruct Hc as [(?&?&?&?&?&?)|(?&?&?)]; [left|right]; split_and!; (done || congruence)).
  all: try (intros _; rewrite Ho by (match goal with H : out _ = _ |- _ => by rewrite H end);
    match goal with H : out _ = _ |- _ => rewrite H end; simpl; by rewrite ?app_nil_r, <- ?(assoc_L (++))).
  all: try (rewrite Hn by auto; exists handled; by rewrite ?app_nil_r).
  all: try (erewrite Hd by eassumption; eexists; split; [by rewrite app_nil_r|]; split;
    [first [by apply sublist_app | by apply sublist_inserts_r]|intros E; try congruence; by apply Hi3]).
  all: try (by exists handled).
  - by apply prefix_app_r.
  - rewrite Ho by by rewrite H. by rewrite H.
Qed.

#[local] Hint Resolve start_ok : core.

Lemma reachable_ok m t : m ≠ ModeOther → rtc step (start_terminal m) t → session_ok m t.
Proof.
  intros Hm. apply rtc_invariant; [|done]. eauto using step_ok.
Qed.

(** C11: whatever the order of the steps, in an exec or logs session the process
    does not panic; [cleanup] runs at most once, so [done] is closed once; when
    the handler has returned the stream and the WebSocket are closed; what the
    client gets is a prefix of what the container wrote, in that order; the
    container gets only messages of the client, in their order, and in a logs
    session it gets none. *)
Theorem session_safe m t : m ≠ ModeOther → rtc step (start_terminal m) t →
  crashed t = false ∧ cleanups t ≤ 1 ∧
  (returned t = true → stream_open t = false ∧ ws_open t = false) ∧
  to_client t `prefix_of` from_container t ∧
  to_container t `sublist_of` from_client t ∧
  (m = ModeLogs → to_container t = []).
Proof.
  intros Hm Hr. destruct (reachable_ok m t Hm Hr) as [_ Ha Hc _ Hp (h & -> & Hs & Hl)].
  split_and!; [done|lia| |done|by apply sublist_inserts_r|done].
  intros E. destruct Hc as [(_ & _ & _ & _ & _ & F)|(_ & ? & ?)]; [congruence|done].
Qed.

(** * The end of a session *)

(** The steps a goroutine has left once both ends are closed. *)
Definition left_out (c : Copier) : nat := match c with CDone => 0 | CCleanup => 1 | _ => 2 end.
Definition left_inp (c : Copier) : nat :=
  match c with CDone => 0 | CCleanup => 1 | CReading => 2 | CWriting _ => 3 end.
Definition steps_left (t : Term) : nat :=
  left_out (out t) + left_inp (inp t) + (if returned t then 0 else 1).

Lemma steps_left_bound t : steps_left t ≤ 6.
Proof. unfold steps_left. destruct (out t), (inp t), (returned t); simpl; lia. Qed.

Lemma closed_step m t t' : m ≠ ModeOther → session_ok m t → cleanups t ≠ 0 → step t t' →
  cleanups t' ≠ 0 ∧ steps_left t' < steps_left t.
Proof.
  intros Hm [Hmode _ Hc _ _ _] Hn [_ Hs].
  destruct Hc as [[? _]|(Hc1 & Hc2 & Hc3)]; [congruence|].
  assert (cleanup t = t) as Hid by (unfold cleanup; by rewrite Hc1).
  unfold steps_left. destruct Hs; try congruence; simpl; rewrite ?Hid; (split; [congruence|]);
    repeat match goal with H : ?f t = _ |- _ => rewrite H end; simpl; lia.
Qed.

Lemma closed_runs m n t t' : m ≠ ModeOther → session_ok m t → cleanups t ≠ 0 → nsteps step n t t' →
  n + steps_left t' ≤ steps_left t ∧ cleanups t' ≠ 0.
Proof.
  intros Hm Hok Hc Hn. induction Hn as [|n t u t' Hs _ IH]; [done|].
  destruct (closed_step m t u Hm Hok Hc Hs) as [Hc' Hlt].
  destruct (IH (step_ok m t u Hm Hok Hs) Hc') as [? ?]. split; [lia|done].
Qed.

(** The goroutine of [io.Copy] can always move until it is done, and so can the
    one that reads messages; the handler can once [done] is closed. *)
Lemma stuck_is_over t : mode t ≠ ModeOther → crashed t = false → nf step t →
  out t = CDone ∧ inp t = CDone ∧ (cleanups t ≠ 0 → returned t = true).
Proof.
  intros Hm Ha Hnf. assert (∀ t', ¬ move t t') as Hno by (intros t' ?; apply Hnf; by exists t').
  split_and!.
  - destruct (out t) eqn:E; [..|done]; exfalso; eapply Hno; by econstructor.
  - destruct (inp t) as [|d| |] eqn:E; [..|done]; exfalso; eapply Hno;
      [by apply client_leaves| |by apply inp_cleanup].
    destruct (mode t) eqn:F; [by eapply not_forwarded|by eapply discarded|done].
  - intros Hc. destruct (returned t) eqn:E; [done|]. exfalso. by eapply Hno, handler_returns.
Qed.

(** C12: an exec or logs session ends.  Before [cleanup] it can always move; once
    [cleanup] has run, whatever the order of the steps, at most six more are
    taken, and when none can be taken both goroutines are done, the handler has
    returned, and the stream and the WebSocket are closed.  So no goroutine and
    no connection is left behind. *)
Theorem session_ends m t : m ≠ ModeOther → rtc step (start_terminal m) t →
  (cleanups t = 0 → red step t) ∧
  (cleanups t ≠ 0 → ∀ n t', nsteps step n t t' →
     n ≤ 6 ∧
     (nf step t' → out t' = CDone ∧ inp t' = CDone ∧ returned t' = true ∧
                   stream_open t' = false ∧ ws_open t' = false)).
Proof.
  intros Hm Hr. pose proof (reachable_ok m t Hm Hr) as Hok. split.
  - intros Hc. destruct Hok as [Hmode Ha [(_ & Ho & Hi & _ & _ & _)|[? _]] _ _ _]; [|congruence].
    destruct (out t) eqn:E; [..|done]; eexists; (split; [done|]); [|eapply client_unreachable|eapply out_cleanup]; [|done..].
    apply stream_ends; [done|congruence].
  - intros Hc n t' Hn. destruct (closed_runs m n t t' Hm Hok Hc Hn) as [Hle Hc'].
    pose proof (steps_left_bound t). split; [lia|]. intros Hnf.
    assert (session_ok m t') as [Hmode' Ha' Hcl _ _ _]
      by (apply reachable_ok; [done|]; etrans; [done|]; by eapply rtc_nsteps_2).
    destruct (stuck_is_over t') as (? & ? & ?); [congruence|done..|].
    destruct Hcl as [[? _]|(_ & ? & ?)]; [congruence|]. auto.
Qed.

(** In a session whose mode is neither exec nor logs the goroutine that copies
    the container's output calls a method of a nil stream: whatever else happens
    first, nothing ever reaches the client, the panic stays possible until it
    happens, and the session cannot come to rest without it.  The panic is in a goroutine of its own,
    so it ends the whole process. *)
Theorem unknown_mode_crashes t : rtc step (start_terminal ModeOther) t →
  to_client t = [] ∧ (crashed t = false → step t (crash t)) ∧ (nf step t → crashed t = true).
Proof.
  intros Hr.
  assert (mode t = ModeOther ∧ out t = CReading ∧ to_client t = []) as (Hm & Ho & Hc).
  { revert Hr. apply (rtc_invariant _ (λ t, mode t = ModeOther ∧ out t = CReading ∧ to_client t = [])); [|done].
    intros u u' (Hm & Ho & Hc) [_ Hs].
    destruct Hs; simpl; rewrite ?Hc; try congruence; try (by split_and!).
    unfold cleanup. destruct (cleanups u); by split_and!. }
  assert (crashed t = false → step t (crash t)) by (intros; split; [done|]; by apply no_stream_to_read).
  split_and!; [done..|]. intros Hnf. destruct (crashed t) eqn:E; [done|].
  exfalso. apply Hnf. eexists. by eauto.
Qed.

(** A client sends a line, the shell answers, and the client leaves with the next
    output in hand. *)
Definition exec_before : Term :=
  mkTerm ModeExec true true 0 (CWriting "bye") CCleanup false false ["hi"; "bye"] ["hi"] ["echo hi"] ["echo hi"].
Definition exec_closed : Term :=
  mkTerm ModeExec false false 1 (CWriting "bye") CDone false false ["hi"; "bye"] ["hi"] ["echo hi"] ["echo hi"].
Definition exec_over : Term :=
  mkTerm ModeExec false false 1 CDone CDone true false ["hi"; "bye"] ["hi"] ["echo hi"] ["echo hi"].

(** Takes one step of a concrete run by the given constructor. *)
Ltac run_step c := eapply rtc_l; [split; [reflexivity|by eapply c]|]; cbn.

Lemma exec_run : rtc step (start_terminal ModeExec) exec_closed.
Proof.
  run_step (client_sends (start_terminal ModeExec) "echo hi"). run_step forwarded.
  eapply rtc_l; [split; [reflexivity|by apply (stream_chunk _ "hi")]|]; cbn.
  run_step client_gets. run_step client_leaves.
  eapply rtc_l; [split; [reflexivity|by apply (stream_chunk _ "bye")]|]; cbn.
  run_step inp_cleanup. apply rtc_refl.
Qed.

Lemma exec_rest : nsteps step 3 exec_closed exec_over.
Proof.
  eapply nsteps_l; [split; [reflexivity|by eapply client_unreachable]|].
  eapply nsteps_l; [split; [reflexivity|by eapply out_cleanup]|].
  eapply nsteps_l; [split; [reflexivity|by eapply handler_returns]|]. apply nsteps_O.
Qed.

Lemma exec_over_nf : nf step exec_over.
Proof. intros [t [_ Hs]]. by inversion Hs. Qed.

Lemma session_safe_witness :
  to_client exec_closed = ["hi"] ∧ to_client exec_closed `prefix_of` from_container exec_closed ∧
  to_container exec_closed `sublist_of` from_client exec_closed ∧ cleanups exec_closed ≤ 1.
Proof.
  destruct (session_safe ModeExec exec_closed ltac:(done) exec_run) as (_ & H1 & _ & H2 & H3 & _). by split_and!.
Defined.

Lemma session_ends_witness : 3 ≤ 6 ∧ out exec_over = CDone ∧ returned exec_over = true ∧ ws_open exec_over = false.
Proof.
  destruct (session_ends ModeExec exec_closed ltac:(done) exec_run) as [_ H].
  destruct (H ltac:(done) 3 exec_over exec_rest) as [Hle Hend].
  destruct (Hend exec_over_nf) as (? & _ & ? & _ & ?). by split_and!.
Defined.

(** The client of a session without a stream leaves at once. *)
Lemma unknown_mode_run :
  rtc step (start_terminal ModeOther) (crash (start_terminal ModeOther)).
Proof. run_step no_stream_to_read. apply rtc_refl. Qed.

Lemma unknown_mode_crashes_witness :
  to_client (crash (start_terminal ModeOther)) = [] ∧
  step (start_terminal ModeOther) (crash (start_terminal ModeOther)).
Proof.
  split; [apply (unknown_mode_crashes _ unknown_mode_run)|].
  by apply (unknown_mode_crashes (start_terminal ModeOther) ltac:(apply rtc_refl)).
Defined.
