(* ===== verification/Stats.v ===== *)
(** The sampling loop of [StatsHandler] in [internal/api/handlers_ws.go]: what is
    sent to the WebSocket for every sample of the engine, and when it ends. *)

From S2P Require Import Prelude GoStrings GoTime Config World.

(** Unsigned 64-bit arithmetic. *)
Definition wrap_u64 (z : Z) : Z := (z mod 2 ^ 64)%Z.

(** [osStats] *)
Definition os_stats (v : VirtualMemoryStat) (c : list string) : Json :=
  JObject
    [("memory_used_percent", JNumber (UsedPercent v));
     ("memory_total", JNumber (show_int (Total v)));
     ("memory_used", JNumber (show_int (wrap_u64 (Total v - Available v))));
     ("cpu_percent", JNumber (match c with [] => "0" | x :: _ => x end))].

Section Stats.
Context {W : Type} `{!OS W, !HostStats W}.

(** One turn of the loop; the answer says whether it goes on.  A pointer that is
    nil and a map that is nil panic when they are used. *)
Definition stats_turn (stream : Conn) : Comp (Sys W) bool :=
  d <- stats_Decode stream ;;
  match d with
  | inl err =>
      if decide (err = EOF) then ret false
      else Logf "Internal" "API" "Docker統計デコード失敗: %v" [show_error err] ;; ret false
  | inr dockerStats =>
      v <- mem_VirtualMemory ;;
      c <- cpu_Percent ;;
      match v with
      | None => panic nil_pointer
      | Some v =>
          match dockerStats with
          | None => panic "assignment to entry in nil map"
          | Some dockerStats =>
              err <- ws_WriteJSON (<["os_stats" := os_stats v c]> dockerStats) ;;
              ret (match err with Some _ => false | None => true end)
          end
      end
  end.

(** The loop for a number of turns at most; the answer says whether it ended. *)
Fixpoint stats_loop (stream : Conn) (turns : nat) : Comp (Sys W) bool :=
  match turns with
  | 0 => ret false
  | S n => go_on <- stats_turn stream ;; if go_on : bool then stats_loop stream n else ret true
  end.

(** * Properties *)

(** A turn that sends a document: the sample with the statistics of the host that
    were read in this turn. *)
Definition sent_turn (stream : Conn) (err : option error) (t : list Event) : Prop :=
  ∃ m v c, t = [EvSample stream (inr (Some m)); EvVirtualMemory (Some v); EvCpuPercent c;
                EvWsJson (<["os_stats" := os_stats v c]> m) err].

(** A turn in which no sample can be decoded; only the end of the stream is not
    logged. *)
Definition no_sample (stream : Conn) (t : list Event) : Prop :=
  ∃ err log, t = EvSample stream (inl err) :: log ∧ Forall (λ e, quiet e = true) log ∧ (err = EOF → log = []).

(** A turn cut short by a nil pointer or a nil map. *)
Definition nil_turn (stream : Conn) (t : list Event) : Prop :=
  ∃ m v c, t = [EvSample stream (inr m); EvVirtualMemory v; EvCpuPercent c] ∧ (v = None ∨ m = None).

Lemma stats_turn_run stream (s : Sys W) :
  wp (stats_turn stream) (λ o s', ∃ t, events s' = events s ++ t ∧
    match o with
    | Done true => sent_turn stream None t
    | Done false => (∃ err, sent_turn stream (Some err) t) ∨ no_sample stream t
    | Panic _ => nil_turn stream t
    end) s.
Proof.
  unfold stats_turn, sent_turn, no_sample, nil_turn. repeat wp_step; simplify_eq/=; rewrite <- ?(assoc_L (++));
    (eexists; (split; [reflexivity|])).
  - right. by exists EOF, [].
  - right. eexists _, _. split; [reflexivity|]. by split.
  - destruct a2 as [err|]; [left; exists err|]; by do 3 eexists.
  - do 3 eexists. split; [reflexivity|]. by right.
  - do 3 eexists. split; [reflexivity|]. by left.
Qed.

Lemma stats_loop_run stream turns (s : Sys W) :
  wp (stats_loop stream turns) (λ o s', ∃ sent last, events s' = events s ++ concat sent ++ last ∧
    Forall (sent_turn stream None) sent ∧ length sent ≤ turns ∧
    match o with
    | Done false => last = [] ∧ length sent = turns
    | Done true => (∃ err, sent_turn stream (Some err) last) ∨ no_sample stream last
    | Panic _ => nil_turn stream last
    end) s.
Proof.
  revert s. induction turns as [|n IH]; intros s; cbn [stats_loop].
  { wp_step. exists [], []. rewrite app_nil_r. split_and!; [done|constructor|simpl; lia|done|done]. }
  apply wp_bind. eapply wp_mono; [apply stats_turn_run|]. simpl. intros o s1 (t & Ht & Ho).
  destruct o as [[]|why].
  - eapply wp_mono; [apply IH|]. simpl. intros o s2 (sent & last & Ht2 & Hs & Hlen & Hend).
    exists (t :: sent), last. rewrite Ht2, Ht. simpl. rewrite <- !(assoc_L (++)).
    split_and!; [done|by constructor|lia|]. destruct o as [[]|why]; [done| |done].
    destruct Hend as [-> ->]. done.
  - wp_step. exists [], t. split_and!; [done|constructor|simpl; lia|done].
  - exists [], t. split_and!; [done|constructor|simpl; lia|done].
Qed.

(** C39: in every turn of the loop the next sample of the engine is taken, the
    host's memory and processor statistics are read, and one document is sent: the
    sample with those statistics under os_stats and every other entry as it was.
    The loop goes on as long as that succeeds; it ends when a document cannot be
    sent or no sample can be decoded, which is logged unless the stream ended.  A
    panic comes of a missing statistic or a null sample, before the document. *)
Theorem stats_loop_sends stream turns (s : Sys W) :
  ∃ o s', stats_loop stream turns s = (o, s') ∧ ∃ sent last, events s' = events s ++ concat sent ++ last ∧
    Forall (sent_turn stream None) sent ∧ length sent ≤ turns ∧
    match o with
    | Done false => last = [] ∧ length sent = turns
    | Done true => (∃ err, sent_turn stream (Some err) last) ∨ no_sample stream last
    | Panic _ => nil_turn stream last
    end.
Proof.
  pose proof (stats_loop_run stream turns s) as H. unfold wp in H.
  destruct (stats_loop stream turns s) as [o s']. by exists o, s'.
Qed.
End Stats.

(** The memory reported as used is at most the total exactly when the host
    reports no more available than there is in total; otherwise the subtraction
    of unsigned integers wraps around. *)
Theorem memory_used_wraps v :
  (0 ≤ Total v < 2 ^ 64)%Z → (0 ≤ Available v < 2 ^ 64)%Z →
  (wrap_u64 (Total v - Available v) ≤ Total v ↔ Available v ≤ Total v)%Z ∧
  (Available v ≤ Total v → wrap_u64 (Total v - Available v) = Total v - Available v)%Z.
Proof.
  intros Ht Ha. unfold wrap_u64. split.
  - split.
    + intros H. destruct (decide (Available v ≤ Total v)%Z); [done|exfalso]. revert H.
      rewrite <- (Z_mod_plus_full _ 1), Z.mod_small by lia. lia.
    + intros H. rewrite Z.mod_small; lia.
  - intros H. rewrite Z.mod_small; lia.
Qed.

Lemma memory_used_wraps_witness :
  (wrap_u64 (8 - 3) = 8 - 3)%Z ∧ ¬ (wrap_u64 (8 - 9) ≤ 8)%Z.
Proof.
  split.
  - apply (memory_used_wraps (mkVirtualMemoryStat "62.5" 8 3)); simpl; lia.
  - intros H. destruct (memory_used_wraps (mkVirtualMemoryStat "0" 8 9)) as [[H1 _] _]; [by vm_compute..|].
    by destruct (H1 H).
Defined.
