(* ===== verification/Api.v ===== *)
(** [internal/api]: sessions, the authentication middleware, the container
    handlers, the opening of the WebSocket streams and the routes. *)

From S2P Require Import Prelude GoStrings GoPath GoTime Config World ConfigLoad Docker Container Vfs Webdav.

(** * Requests and responses *)

(** The parts of [http.Request] the handlers read.  [EscapedPath] is the path as
    it was sent; [Query] holds the first value of each parameter; a body is
    given by what decoding it as JSON yields. *)
Record HttpRequest := mkHttpRequest {
  EscapedPath : string;
  Authorization : string;
  Query : gmap string string;
  CredsBody : result (string * string);
  CommandBody : result string;
  BasicAuth : option (string * string);
  RemoteAddr : string;
}.

(** [url.PathUnescape]: [None] for a malformed escape. *)
Definition hex_value (c : ascii) : option nat :=
  let n := nat_of_ascii c in
  if decide (48 ≤ n ≤ 57) then Some (n - 48)
  else if decide (97 ≤ n ≤ 102) then Some (n - 87)
  else if decide (65 ≤ n ≤ 70) then Some (n - 55)
  else None.

Fixpoint PathUnescape (s : string) : option string :=
  match s with
  | "" => Some ""
  | String c rest =>
      if decide (c = "%"%char) then
        match rest with
        | String a (String b rest') =>
            match hex_value a, hex_value b with
            | Some x, Some y => String (byte (16 * x + y)) <$> PathUnescape rest'
            | _, _ => None
            end
        | _ => None
        end
      else String c <$> PathUnescape rest
  end.

(** [r.URL.Query().Get(key)] *)
Definition query (r : HttpRequest) (key : string) : string := default "" (Query r !! key).

Record ContainerListItem := mkContainerListItem {
  ItemID : string;
  ItemNames : list string;
  ItemState : string;
  ItemActions : list string;
  ItemPermissions : list string;
}.

(** What a handler writes: [http.Error], a bare status, a JSON document, a log
    stream, a file below the working directory, the hand-over to WebDAV, or
    nothing more once the connection is a WebSocket ([UpgradeRefused]: the
    library answered the request itself).  [GoPanic] is the end of a handler one
    of whose goroutines is panicking. *)
Inductive Response : Type :=
| HttpError (code : Z) (message : string)
| WriteHeader (code : Z)
| JsonToken (token : string)
| JsonContainers (l : list ContainerListItem)
| JsonInspect (i : InspectResponse)
| JsonGenerations (l : list string)
| LogText (tty : bool) (stream : Conn)
| StaticFile (path : string)
| RedirectTo (path : string)
| Dav (reply : Server.DavReply)
| Terminal (tty : bool) (stream : Conn)
| StatsStream (stream : Conn)
| UpgradeRefused (err : error)
| Hijacked
| GoPanic (why : string).

(** * State *)

Record Api (W : Type) := mkApi { sys : Sys W; WebSessions : gmap string string }.
Arguments mkApi {W} _ _.
Arguments sys {W} _.
Arguments WebSessions {W} _.

(** [NewServer]: no session. *)
Definition NewServer {W} (s : Sys W) : Api W := mkApi s ∅.

(** ** encoding/hex *)

Definition hex_digit (n : nat) : ascii :=
  if decide (n < 10) then byte (48 + n) else byte (87 + n).

Fixpoint EncodeToString (bs : list ascii) : string :=
  match bs with
  | [] => ""
  | b :: bs' =>
      let n := nat_of_ascii b in
      String (hex_digit (n / 16)) (String (hex_digit (n mod 16)) (EncodeToString bs'))
  end.

(** * Permissions of actions *)

Definition containerToPerm (a : Action) : string :=
  if decide (a = ActionStart) then PermContainerStart
  else if decide (a = ActionStop) then PermContainerStop
  else if decide (a = ActionKill) then PermContainerKill
  else if decide (a = ActionBackup) then PermContainerBackup
  else if decide (a = ActionRemove) then PermContainerRemove
  else PermContainerExecute.

Definition calculateActions (user : UserConfig) (name : string) (cfg : ServerConfig) : list string :=
  if negb (HasPermission user name PermContainerExecute) then []
  else
    (match Compose cfg with
     | Some compose => if decide (Image compose ≠ "") then ["start"] else []
     | None => []
     end)
    ++ (match Stop (Commands cfg) with Some _ => ["stop"; "kill"] | None => [] end)
    ++ (if decide (0 < length (Backup (Commands cfg))) then ["backup"; "restore"] else [])
    ++ ["remove"].

(** [s[1:]], out of range on the empty string. *)
Definition tail1 {S} (s : string) : Comp S string :=
  match s with
  | "" => panic "slice bounds out of range"
  | String _ s' => ret s'
  end.

Section Api.
Context {W : Type} `{!Docker W, !OS W, !MapRange W, !WebSocket W}.

Definition lift {A} (m : Comp (Sys W) A) : Comp (Api W) A :=
  zoom sys (λ s a, mkApi s (WebSessions a)) m.

Definition token_of (r : HttpRequest) : string :=
  if decide (Authorization r = "") then query r "token" else Authorization r.

(** [s.WebSessions[token]] used as a value. *)
Definition session_user (r : HttpRequest) : Comp (Api W) string :=
  gets (λ a, default "" (WebSessions a !! token_of r)).

(** * Login *)

Definition Login (r : HttpRequest) : Comp (Api W) Response :=
  match CredsBody r with
  | inl err =>
      lift (Logf "Client" "Auth" "ログインリクエストのパース失敗: %v" [show_error err]) ;;
      ret (HttpError 400 "Invalid request format")
  | inr (username, password) =>
      cfg <- lift Get ;;
      let ok := match Users cfg !! username with
                | Some user => bool_decide (Password user = password)
                | None => false
                end in
      if negb ok then
        lift (Logf "Client" "Auth" "認証失敗: user=%s" [username]) ;;
        ret (HttpError 401 "Unauthorized")
      else
        b <- lift (rand_Read 16) ;;
        match b with
        | inl err =>
            lift (Logf "Internal" "Auth" "トークン生成用乱数取得失敗: %v" [show_error err]) ;;
            ret (HttpError 500 "Internal Server Error")
        | inr tokenBytes =>
            let token := EncodeToString tokenBytes in
            modify (λ a, mkApi (sys a) (<[token := username]> (WebSessions a))) ;;
            lift (Logf "Internal" "Auth" "ログイン成功: user=%s" [username]) ;;
            ret (JsonToken token)
        end
  end.

(** * Auth *)

(** The name a container reference is checked under. *)
Definition real_name (serverName : string) : Comp (Sys W) string :=
  i <- dk_Inspect serverName ;;
  match i with
  | inr inspect => tail1 (InspectName inspect)
  | inl _ => ret serverName
  end.

Definition Auth (next : HttpRequest → Comp (Api W) Response) (r : HttpRequest) : Comp (Api W) Response :=
  sessions <- gets WebSessions ;;
  match sessions !! token_of r with
  | None => ret (HttpError 401 "Authentication required")
  | Some username =>
      if decide (query r "id" = "") then next r
      else
        cfg <- lift Get ;;
        let user := user_at cfg username in
        realName <- lift (real_name (query r "id")) ;;
        if negb (HasPermission user realName PermContainerRead) then
          lift (Logf "Client" "Auth" "操作拒否: user=%s, target=%s" [username; realName]) ;;
          ret (HttpError 403 "Operation not allowed for this container")
        else next r
  end.

(** * ListContainers *)

(** The names of one container, entered in [dockerMap]. *)
Definition add_names (c : Summary) (m : gmap string Summary) : Comp (Sys W) (gmap string Summary) :=
  for_fold (λ name m, n <- tail1 name ;; ret (<[n := c]> m)) (Names c) m.

Definition list_permissions (user : UserConfig) (name execute : string) : list string :=
  (if HasPermission user name PermContainerRead then [PermContainerRead] else [])
  ++ (if HasPermission user name PermContainerWrite then [PermContainerWrite] else [])
  ++ (if HasPermission user name PermContainerExecute then [execute] else []).

(** The item of a configured server. *)
Definition server_item (user : UserConfig) (dockerMap : gmap string Summary)
    (serverName : string) (serverCfg : ServerConfig) : ContainerListItem :=
  mkContainerListItem serverName ["/" +:+ serverName]
    (match dockerMap !! serverName with Some c => State c | None => "missing" end)
    (calculateActions user serverName serverCfg)
    (list_permissions user serverName PermContainerExecute).

(** The first loop: the items and [processedDockerNames]. *)
Definition configured_items (user : UserConfig) (dockerMap : gmap string Summary)
    (servers : list (string * ServerConfig)) : list ContainerListItem * gset string :=
  let readable := filter (λ kv, HasPermission user kv.1 PermContainerRead = true) servers in
  ((λ kv, server_item user dockerMap kv.1 kv.2) <$> readable,
   list_to_set (filter (λ n, is_Some (dockerMap !! n)) (fst <$> readable))).

(** The second loop: containers of the engine that are not configured. *)
Definition engine_item (user : UserConfig) (processed : gset string) (c : Summary)
    (result : list ContainerListItem) : Comp (Sys W) (list ContainerListItem) :=
  match Names c with
  | [] => ret result
  | n :: _ =>
      name <- tail1 n ;;
      if decide (name ∈ processed) then ret result
      else if negb (HasPermission user name PermContainerRead) then ret result
      else ret (result ++ [mkContainerListItem (ID c) (Names c) (State c) []
                             (list_permissions user name "execute")])
  end.

Definition list_for (user : UserConfig) (containers : list Summary) (cfg : Config)
    (dockerMap : gmap string Summary) : Comp (Sys W) (list ContainerListItem) :=
  servers <- range_map (Servers cfg) ;;
  let '(result, processed) := configured_items user dockerMap servers in
  for_fold (engine_item user processed) containers result.

Definition ListContainers (r : HttpRequest) : Comp (Api W) Response :=
  l <- lift dk_List ;;
  match l with
  | inl err =>
      lift (Logf "Internal" "API" "コンテナリストの取得に失敗: %v" [show_error err]) ;;
      ret (HttpError 500 "Internal Server Error")
  | inr containers =>
      dockerMap <- lift (for_fold add_names containers ∅) ;;
      username <- session_user r ;;
      cfg <- lift Get ;;
      result <- lift (list_for (user_at cfg username) containers cfg dockerMap) ;;
      ret (JsonContainers result)
  end.

(** * The other container handlers *)

Definition InspectContainer (r : HttpRequest) : Comp (Api W) Response :=
  let serverName := query r "id" in
  i <- lift (dk_Inspect serverName) ;;
  match i with
  | inl err =>
      lift (Logf "Client" "API" "コンテナ %s の詳細取得失敗: %v" [serverName; show_error err]) ;;
      ret (HttpError 404 "Container Not Found")
  | inr inspect => ret (JsonInspect inspect)
  end.

Definition Action (action : string) (r : HttpRequest) : Comp (Api W) Response :=
  let serverName := query r "id" in
  username <- session_user r ;;
  cfg <- lift Get ;;
  if negb (HasPermission (user_at cfg username) serverName (containerToPerm action)) then
    lift (Logf "Client" "API" "Action拒否: user=%s, target=%s" [username; serverName]) ;;
    ret (HttpError 403 "Execute permission required")
  else
    err <- lift (Manager.ExecuteAction serverName action) ;;
    match err with
    | Some err =>
        lift (Logf "Internal" "API" "コンテナ %s へのアクション %s 実行失敗: %v"
                [serverName; action; show_error err]) ;;
        ret (HttpError 500 (ErrorText err))
    | None =>
        lift (Logf "Internal" "API" "アクション実行成功: container=%s, action=%s" [serverName; action]) ;;
        ret (WriteHeader 200)
    end.

Definition ListBackups (r : HttpRequest) : Comp (Api W) Response :=
  let serverName := query r "id" in
  g <- lift (Manager.ListBackupGenerations serverName) ;;
  match g with
  | inl err =>
      lift (Logf "Internal" "API" "バックアップ世代一覧取得失敗: container=%s, err=%v"
              [serverName; show_error err]) ;;
      ret (HttpError 500 (ErrorText err))
  | inr generations => ret (JsonGenerations generations)
  end.

Definition RestoreAction (r : HttpRequest) : Comp (Api W) Response :=
  let serverName := query r "id" in
  let generation := query r "generation" in
  username <- session_user r ;;
  cfg <- lift Get ;;
  if negb (HasPermission (user_at cfg username) serverName PermContainerRestore) then
    lift (Logf "Client" "API" "Restore拒否: user=%s, target=%s" [username; serverName]) ;;
    ret (HttpError 403 "Execute permission required")
  else
    err <- lift (Manager.Restore serverName generation) ;;
    match err with
    | Some err =>
        lift (Logf "Internal" "API" "コンテナ %s のリストア失敗 (generation=%s): %v"
                [serverName; generation; show_error err]) ;;
        ret (HttpError 500 (ErrorText err))
    | None =>
        lift (Logf "Internal" "API" "リストア成功: container=%s, generation=%s" [serverName; generation]) ;;
        ret (WriteHeader 200)
    end.

Definition CmdContainer (r : HttpRequest) : Comp (Api W) Response :=
  let serverName := query r "id" in
  username <- session_user r ;;
  cfg <- lift Get ;;
  if negb (HasPermission (user_at cfg username) serverName PermContainerWrite) then
    lift (Logf "Client" "API" "Cmd拒否: user=%s, target=%s" [username; serverName]) ;;
    ret (HttpError 403 "Write permission required")
  else
    match CommandBody r with
    | inl err =>
        lift (Logf "Client" "API" "コマンドのデコードに失敗: %v" [show_error err]) ;;
        ret (HttpError 400 "Invalid Request Body")
    | inr command =>
        err <- lift (SendCommand serverName command) ;;
        match err with
        | Some err =>
            lift (Logf "Internal" "API" "コンテナ %s へのコマンド送信失敗: %v" [serverName; show_error err]) ;;
            ret (HttpError 500 (ErrorText err))
        | None =>
            lift (Logf "Internal" "API" "コマンド送信成功: container=%s, cmd_len=%d"
                    [serverName; show_int (Z.of_nat (String.length command))]) ;;
            ret (WriteHeader 200)
        end
    end.

Definition GetContainerLogs (r : HttpRequest) : Comp (Api W) Response :=
  let serverName := query r "id" in
  let tail := if decide (query r "tail" = "") then "100" else query r "tail" in
  l <- lift (dk_Logs serverName false tail) ;;
  match l with
  | inl err =>
      lift (Logf "Internal" "API" "過去ログの取得に失敗: container=%s, err=%v" [serverName; show_error err]) ;;
      ret (HttpError 500 "Failed to get logs")
  | inr logs =>
      i <- lift (dk_Inspect serverName) ;;
      let tty := match i with inr inspect => Tty inspect | inl _ => false end in
      lift (dk_Drain logs) ;;
      lift (dk_Close logs) ;;
      ret (LogText tty logs)
  end.

(** * WebSocket handlers *)

(** The stream a terminal session starts from: a response that ends the
    request, or the stream and whether it is a terminal.  A mode that is
    neither [exec] nor [logs] opens no stream. *)
Definition open_stream (r : HttpRequest) (user : UserConfig) (username : string) (isTty : bool)
    : Comp (Sys W) (Response + (bool * option Conn)) :=
  let id := query r "id" in
  let mode := query r "mode" in
  if decide (mode = "exec") then
    if negb (HasPermission user id PermContainerWrite) then
      Logf "Client" "API" "WS Exec拒否: user=%s, target=%s" [username; id] ;;
      ret (inl (HttpError 403 "Write permission required"))
    else
      c <- dk_ExecCreate id (mkExecOptions true true true true ["TERM=xterm-256color"] ["/bin/sh"]) ;;
      match c with
      | inl err =>
          Logf "Internal" "API" "Exec作成失敗: container=%s, err=%v" [id; show_error err] ;;
          ret (inl (WriteHeader 200))
      | inr exec =>
          a <- dk_ExecAttach exec true ;;
          match a with
          | inl err =>
              Logf "Internal" "API" "Execアタッチ失敗: container=%s, err=%v" [id; show_error err] ;;
              ret (inl (WriteHeader 200))
          | inr conn =>
              Logf "Internal" "API" "Exec接続を開始しました: container=%s" [id] ;;
              ret (inr (true, Some conn))
          end
      end
  else if decide (mode = "logs") then
    if negb (HasPermission user id PermContainerRead) then
      Logf "Client" "API" "WS Logs拒否: user=%s, target=%s" [username; id] ;;
      ret (inl (HttpError 403 "Read permission required"))
    else
      let tail := if decide (query r "tail" = "") then "all" else query r "tail" in
      l <- dk_Logs id true tail ;;
      match l with
      | inl err =>
          Logf "Internal" "API" "ログ取得失敗: container=%s, err=%v" [id; show_error err] ;;
          ret (inl (HttpError 500 "Failed to get logs"))
      | inr logs =>
          Logf "Internal" "API" "ログストリーミングを開始しました: container=%s, tail=%s" [id; tail] ;;
          ret (inr (isTty, Some logs))
      end
  else ret (inr (isTty, None)).

(** The goroutine that copies the stream to the WebSocket, then the clean-up and
    the deferred closes of the handler: the schedule in which the engine ends the
    session; [Terminal] has every schedule. *)
Definition copy_stream (r : HttpRequest) (conn : Conn) : Comp (Sys W) unit :=
  dk_Drain conn ;;
  dk_Close conn ;;
  ws_Close ;;
  Logf "Internal" "API" "WebSocket接続が切断されました: container=%s, mode=%s" [query r "id"; query r "mode"] ;;
  ws_Close ;;
  dk_Close conn.

(** The same goroutine without a stream: reading from the nil interface panics,
    which runs its deferred clean-up; then the panic goes on, and nothing
    recovers it.  The clean-up has let the handler return meanwhile. *)
Definition copy_nothing (r : HttpRequest) : Comp (Sys W) unit :=
  ws_Close ;;
  Logf "Internal" "API" "WebSocket接続が切断されました: container=%s, mode=%s" [query r "id"; query r "mode"] ;;
  ws_Close.

Definition TerminalHandler (r : HttpRequest) : Comp (Api W) Response :=
  i <- lift (dk_Inspect (query r "id")) ;;
  let isTty := match i with inr inspect => Tty inspect | inl _ => false end in
  username <- session_user r ;;
  if decide (username = "") then ret (HttpError 401 "Unauthorized")
  else
    cfg <- lift Get ;;
    o <- lift (open_stream r (user_at cfg username) username isTty) ;;
    match o with
    | inl response => ret response
    | inr (tty, stream) =>
        err <- lift ws_Upgrade ;;
        match err with
        | Some err =>
            lift (Logf "Internal" "API" "WebSocketアップグレード失敗: %v" [show_error err]) ;;
            match stream with Some conn => lift (dk_Close conn) | None => ret tt end ;;
            ret (UpgradeRefused err)
        | None =>
            match stream with
            | Some conn => lift (copy_stream r conn) ;; ret (Terminal tty conn)
            | None => lift (copy_nothing r) ;; ret (GoPanic nil_pointer)
            end
        end
    end.

(** [StatsHandler].  The loop that forwards the samples is the reading of the
    stream to its end here, and [Stats.stats_loop] turn by turn. *)
Definition StatsHandler (r : HttpRequest) : Comp (Api W) Response :=
  let id := query r "id" in
  username <- session_user r ;;
  cfg <- lift Get ;;
  if negb (HasPermission (user_at cfg username) id PermContainerRead) then
    ret (HttpError 403 "Read permission required")
  else
    err <- lift ws_Upgrade ;;
    match err with
    | Some err =>
        lift (Logf "Internal" "API" "Stats WebSocketアップグレード失敗: %v" [show_error err]) ;;
        ret (UpgradeRefused err)
    | None =>
        st <- lift (dk_Stats id) ;;
        match st with
        | inl err =>
            lift (Logf "Internal" "API" "統計情報取得失敗: container=%s, err=%v" [id; show_error err]) ;;
            lift ws_Close ;;
            ret Hijacked
        | inr stream =>
            lift (dk_Drain stream) ;;
            lift (dk_Close stream) ;;
            lift ws_Close ;;
            ret (StatsStream stream)
        end
    end.

(** * Routes *)

(** The exact paths and their handlers. *)
Definition api_routes : list (string * (HttpRequest → Comp (Api W) Response)) :=
  [("/api/login", Login);
   ("/api/containers", Auth ListContainers);
   ("/api/container/inspect", Auth InspectContainer);
   ("/api/container/start", Auth (Action "start"));
   ("/api/container/stop", Auth (Action "stop"));
   ("/api/container/kill", Auth (Action "kill"));
   ("/api/container/backup", Auth (Action "backup"));
   ("/api/container/backups", Auth ListBackups);
   ("/api/container/restore", Auth RestoreAction);
   ("/api/container/remove", Auth (Action "remove"));
   ("/api/container/cmd", Auth CmdContainer);
   ("/api/container/logs", Auth GetContainerLogs);
   ("/ws/terminal", Auth TerminalHandler);
   ("/ws/stats", Auth StatsHandler)].

(** The pattern without wildcards that has these segments. *)
Fixpoint find_route {A} (segments : list string) (routes : list (string * A)) : option A :=
  match routes with
  | [] => None
  | (p, a) :: rest =>
      if decide (Split p slash = "" :: segments) then Some a else find_route segments rest
  end.

(** [http.FileServer(http.Dir("./"))]: the file a path names. *)
Definition static_path (path : string) : string := JoinPath ["./"; Clean ("/" +:+ path)].

(** [cleanPath] of the multiplexer. *)
Definition clean_url (p : string) : string :=
  let p := if is_rooted p then p else String slash p in
  let np := Clean p in
  if bool_decide (String.substring (String.length p - 1) 1 p = "/") && negb (bool_decide (np = "/"))
  then np +:+ "/" else np.

(** The segments a path is matched by, each decoded on its own. *)
Definition segments (path : string) : list string :=
  (λ seg, default seg (PathUnescape seg)) <$> drop 1 (Split path slash).

(** The multiplexer of [Routes].  It cleans and matches the path as it was
    sent; a path that is not clean is redirected.  The handlers see the decoded
    path, whose dot-dot parts, if they were sent escaped, are still there.  A
    path that cannot be decoded is refused before. *)
Definition mux (r : HttpRequest) : Comp (Api W) Response :=
  match PathUnescape (EscapedPath r) with
  | None => ret (HttpError 400 "Bad Request")
  | Some urlPath =>
      let path := clean_url (EscapedPath r) in
      if decide (segments path = ["dav"]) then ret (RedirectTo "/dav/")
      else if decide (path ≠ EscapedPath r) then ret (RedirectTo path)
      else
        match find_route (segments path) api_routes with
        | Some handler => handler r
        | None =>
            match segments path with
            | "dav" :: _ :: _ =>
                reply <- lift (Server.Handler (BasicAuth r) urlPath (EscapedPath r) (RemoteAddr r)) ;;
                ret (Dav reply)
            | _ => ret (StaticFile (static_path urlPath))
            end
        end
  end.
End Api.
