(* ===== verification/ApiSpec.v ===== *)
(** What the HTTP interface promises: no request without a session reaches a
    container, a session is given only for a password, an action is executed only
    with its permission, and the lists show what their user may see. *)

From S2P Require Import Prelude GoStrings GoPath GoTime Config World TestBed ConfigLoad Docker Container Vfs Webdav Api.

(** * Running a handler *)

Section Lift.
Context {W : Type} `{!DockerClient W, !OS W, !MapRange W, !WebSocket W}.
Implicit Types a : Api W.

Lemma lift_run {A} (m : Comp (Sys W) A) a o s' :
  m (sys a) = (o, s') → lift m a = (o, mkApi s' (WebSessions a)).
Proof. unfold lift, zoom. by intros ->. Qed.

Lemma wp_lift {A} (m : Comp (Sys W) A) (Q : Outcome A → Api W → Prop) a :
  wp m (λ o s', Q o (mkApi s' (WebSessions a))) (sys a) → wp (lift m) Q a.
Proof. unfold wp, lift, zoom. by destruct (m (sys a)). Qed.

Lemma wp_gets_api {A} (f : Api W → A) Q a : Q (Done (f a)) a → wp (gets f) Q a.
Proof. done. Qed.

Lemma wp_modify_api (f : Api W → Api W) Q a : Q (Done tt) (f a) → wp (modify f) Q a.
Proof. done. Qed.

Lemma finishes_lift {A} (m : Comp (Sys W) A) : finishes m → finishes (lift (W := W) m).
Proof. apply finishes_zoom. Qed.
End Lift.

#[export] Hint Resolve finishes_lift : finishes.

(** One step of a handler under a postcondition. *)
Ltac api_step :=
  lazymatch goal with
  | |- wp (lift _) _ _ => apply wp_lift
  | |- wp (gets _) _ _ => apply wp_gets_api
  | |- wp (modify _) _ _ => apply wp_modify_api
  | |- wp (session_user _) _ _ => unfold session_user
  | |- _ => wp_step
  end; cbn [sys WebSessions] in *.

Section ApiSpec.
Context {W : Type} `{!DockerClient W, !OS W, !MapRange W, !WebSocket W}.
Implicit Types a : Api W.

(** * Sessions *)

Lemma Auth_refuses next r a :
  WebSessions a !! token_of r = None →
  Auth next r a = (Done (HttpError 401 "Authentication required"), a).
Proof. intros H. unfold Auth. rewrite bind_gets. by rewrite H. Qed.

(** Every route but the login is behind [Auth]. *)
Lemma routes_behind_auth segs h :
  find_route segs api_routes = Some h → segs ≠ ["api"; "login"] →
  ∃ next : HttpRequest → Comp (Api W) Response, h = Auth next.
Proof.
  intros H Hne. unfold api_routes in H.
  cbn [find_route] in H. destruct (decide (Split "/api/login" slash = "" :: segs)) as [E|_].
  { vm_compute in E. by injection E as <-. }
  repeat (case_decide; [injection H as <-; by eexists|]). done.
Qed.

Lemma mux_refuses r a h :
  is_Some (PathUnescape (EscapedPath r)) → clean_url (EscapedPath r) = EscapedPath r →
  find_route (segments (EscapedPath r)) (api_routes (W := W)) = Some h →
  segments (EscapedPath r) ≠ ["api"; "login"] →
  WebSessions a !! token_of r = None →
  mux r a = (Done (HttpError 401 "Authentication required"), a).
Proof.
  intros [urlPath Hp] Hc Hr Hl Hs. unfold mux. rewrite Hp, Hc.
  rewrite decide_False by (intros E; rewrite E in Hr; by vm_compute in Hr).
  rewrite decide_False by (intros Hn; by apply Hn). rewrite Hr.
  destruct (routes_behind_auth _ _ Hr Hl) as [next ->]. by apply Auth_refuses.
Qed.

(** C8: without a session only four kinds of request are answered otherwise than
    by a plain refusal: the login, a redirect to the clean path, the static files
    of the working directory, and WebDAV, which asks for a password of its own.
    Every request for another API route or a WebSocket is answered 401, and a path
    that cannot be decoded 400; nothing is asked of Docker, the disk or the log
    for these, and the sessions stay. *)
Theorem mux_requires_session r a :
  WebSessions a !! token_of r = None →
  let path := clean_url (EscapedPath r) in
  match PathUnescape (EscapedPath r) with
  | None => mux r a = (Done (HttpError 400 "Bad Request"), a)
  | Some urlPath =>
      (∃ target, mux r a = (Done (RedirectTo target), a)) ∨
      segments path = ["api"; "login"] ∧ mux r a = Login r a ∨
      mux r a = (Done (HttpError 401 "Authentication required"), a) ∧
        is_Some (find_route (segments path) (api_routes (W := W))) ∨
      find_route (segments path) (api_routes (W := W)) = None ∧
        (mux r a = (Done (StaticFile (static_path urlPath)), a) ∨
         ∃ rest, segments path = "dav" :: rest ∧
           mux r a = bind (lift (Server.Handler (BasicAuth r) urlPath (EscapedPath r) (RemoteAddr r)))
                       (λ reply, ret (Dav reply)) a)
  end.
Proof.
  intros Hs path. destruct (PathUnescape (EscapedPath r)) as [urlPath|] eqn:Hp; [|unfold mux; by rewrite Hp].
  unfold mux. rewrite Hp. fold path. case_decide as Hd; [left; by eexists|].
  case_decide as Hc; [left; by eexists|]. right.
  destruct (find_route (segments path) api_routes) as [h|] eqn:Hr.
  - destruct (decide (segments path = ["api"; "login"])) as [E|E].
    + left. split; [done|]. rewrite E in Hr. by injection Hr as <-.
    + right. left. split; [|done]. destruct (routes_behind_auth _ _ Hr E) as [next ->]. by apply Auth_refuses.
  - right. right. split; [done|]. destruct (segments path) as [|x [|y ys]]; try (by left; repeat case_match).
    destruct (decide (x = "dav")) as [->|Hx]; [right; by eexists|]. left.
    destruct x as [|c1 [|c2 [|c3 [|]]]]; repeat (done || case_match).
Qed.

Lemma Login_run r a :
  ∃ response a', Login r a = (Done response, a') ∧ ∃ t, events (sys a') = events (sys a) ++ t ∧
    match response with
    | JsonToken token =>
        ∃ user pass u, CredsBody r = inr (user, pass) ∧
          Users (cfg_Config (get_outcome (sys a))) !! user = Some u ∧ Password u = pass ∧
          WebSessions a' = <[token := user]> (WebSessions a) ∧
          ∃ bs, EvRand 16 (inr bs) ∈ t ∧ token = EncodeToString bs
    | HttpError code _ =>
        WebSessions a' = WebSessions a ∧
        (code = 400%Z ∧ (∃ err, CredsBody r = inl err) ∨
         code = 401%Z ∧ (∀ user pass u, CredsBody r = inr (user, pass) →
            Users (cfg_Config (get_outcome (sys a))) !! user = Some u → Password u ≠ pass) ∨
         code = 500%Z ∧ ∃ err, EvRand 16 (inl err) ∈ t)
    | _ => False
    end.
Proof.
  apply wp_exists. unfold Login. destruct (CredsBody r) as [err|[user pass]] eqn:Hb.
  { repeat api_step. eexists. split; [reflexivity|]. eexists. split; [reflexivity|].
    split; [done|]. left. eauto. }
  do 2 api_step. apply wp_Get_outcome. intros w t Ht.
  destruct (match Users _ !! user with Some _ => _ | None => _ end) eqn:Hok; cbn [negb].
  - destruct (Users _ !! user) as [u|] eqn:Hu; [|done]. apply bool_decide_eq_true in Hok.
    repeat api_step; (eexists; split; [reflexivity|]); rewrite <- !(assoc_L (++));
      (eexists; split; [reflexivity|]).
    + split; [done|]. right. right. split; [done|]. eexists. in_record.
    + exists user, pass, u. split_and!; try done. eexists. split; [|done]. in_record.
  - repeat api_step. eexists. split; [reflexivity|]. rewrite <- !(assoc_L (++)). eexists. split; [reflexivity|].
    split; [done|]. right. left. split; [done|].
    intros user' pass' u [= <- <-] Hu. rewrite Hu in Hok. by apply bool_decide_eq_false in Hok.
Qed.


(** * Permissions of the handlers *)

(** The user of the session a request belongs to, and the configuration the next
    [Get] answers. *)
Definition session_name (r : HttpRequest) a : string := default "" (WebSessions a !! token_of r).
Definition config_at a : Config := cfg_Config (get_outcome (sys a)).

(** A request is refused: nothing but the configuration is read, and the log
    written. *)
Definition refused (message : string) a (response : Response) a' : Prop :=
  response = HttpError 403 message ∧ WebSessions a' = WebSessions a ∧
  ∃ t, events (sys a') = events (sys a) ++ t ∧ Forall (λ e, quiet e = true) t.

(** A request is carried out by [m], run right after the configuration was read. *)
Definition carried_out (m : Comp (Sys W) (option error)) a (response : Response) a' : Prop :=
  ∃ s1 err s2, Get (sys a) = (Done (config_at a), s1) ∧ m s1 = (Done err, s2) ∧
    response = match err with None => WriteHeader 200 | Some e => HttpError 500 (ErrorText e) end ∧
    WebSessions a' = WebSessions a ∧
    ∃ t, events (sys a') = events s2 ++ t ∧ Forall (λ e, quiet e = true) t.

Lemma Get_run_at a :
  ∃ s1 t, Get (sys a) = (Done (config_at a), s1) ∧ events s1 = events (sys a) ++ t ∧
    Forall (λ e, quiet e = true) t.
Proof.
  destruct (Get (sys a)) as [o s1] eqn:E. destruct (Get_inv _ _ _ E) as [-> Hl].
  destruct (emits_run _ _ _ _ _ (Get_emits _ (λ e He, He)) E) as (t & Ht & HP).
  exists s1, t. unfold config_at. by rewrite <- Hl.
Qed.

(** Continuing a handler after [lift Get], keeping the run. *)
Lemma wp_lift_Get (Q : Outcome Config → Api W → Prop) a :
  (∀ s1 t, Get (sys a) = (Done (config_at a), s1) → events s1 = events (sys a) ++ t →
     Forall (λ e, quiet e = true) t → Q (Done (config_at a)) (mkApi s1 (WebSessions a))) →
  wp (lift Get) Q a.
Proof.
  intros HQ. destruct (Get_run_at a) as (s1 & t & E & Ht & HP). unfold wp.
  rewrite (lift_run _ _ _ _ E). by eapply HQ.
Qed.

(** Continuing a handler after a computation that does not panic. *)
Lemma wp_lift_finishes {A} (m : Comp (Sys W) A) (Q : Outcome A → Api W → Prop) a :
  finishes m →
  (∀ x s', m (sys a) = (Done x, s') → Q (Done x) (mkApi s' (WebSessions a))) → wp (lift m) Q a.
Proof.
  intros Hf HQ. destruct (Hf (sys a)) as (x & s' & E). unfold wp. rewrite (lift_run _ _ _ _ E). by apply HQ.
Qed.

(** The answers of a handler after it carried out its computation, and after it
    refused to. *)
Ltac carried_out_done s1 s2 E2 :=
  case_match; repeat api_step; (eexists; split; [reflexivity|]);
  eexists s1, _, s2; (split_and!; [done|exact E2|done|done|]); eexists; split; done.

Ltac refused_done Ht :=
  repeat api_step; eexists; (split; [reflexivity|]); (split_and!; [done|done|]); cbn [events sys];
  rewrite Ht, <- (assoc_L (++)); eexists; (split; [reflexivity|]); by apply Forall_app.

(** C14: an action is carried out exactly when the user of the session has its
    permission on the server; the answer is 200 when it succeeded and 500 with
    its error when not, and without the permission 403, with nothing done. *)
Theorem Action_gate action r a :
  ∃ response a', Action action r a = (Done response, a') ∧
    if HasPermission (user_at (config_at a) (session_name r a)) (query r "id") (containerToPerm action)
    then carried_out (Manager.ExecuteAction (query r "id") action) a response a'
    else refused "Execute permission required" a response a'.
Proof.
  apply wp_exists. unfold Action. do 3 api_step. fold (session_name r a). api_step.
  apply wp_lift_Get. intros s1 t E Ht HP.
  destruct (HasPermission _ _ (containerToPerm action)); cbn [negb].
  - api_step. apply wp_lift_finishes; [auto with finishes|]. cbn [sys WebSessions]. intros err s2 E2.
    carried_out_done s1 s2 E2.
  - refused_done Ht.
Qed.

(** A restore is carried out exactly when the user of the session has the
    restore permission on the server. *)
Theorem RestoreAction_gate r a :
  ∃ response a', RestoreAction r a = (Done response, a') ∧
    if HasPermission (user_at (config_at a) (session_name r a)) (query r "id") PermContainerRestore
    then carried_out (Manager.Restore (query r "id") (query r "generation")) a response a'
    else refused "Execute permission required" a response a'.
Proof.
  apply wp_exists. unfold RestoreAction. do 3 api_step. fold (session_name r a). api_step.
  apply wp_lift_Get. intros s1 t E Ht HP.
  destruct (HasPermission _ _ PermContainerRestore); cbn [negb].
  - api_step. apply wp_lift_finishes; [auto with finishes|]. cbn [sys WebSessions]. intros err s2 E2.
    carried_out_done s1 s2 E2.
  - refused_done Ht.
Qed.

(** A command reaches the standard input of a container exactly when the
    user of the session may write to that container and the request holds one. *)
Theorem CmdContainer_gate r a :
  ∃ response a', CmdContainer r a = (Done response, a') ∧
    if HasPermission (user_at (config_at a) (session_name r a)) (query r "id") PermContainerWrite
    then match CommandBody r with
         | inr command => carried_out (SendCommand (query r "id") command) a response a'
         | inl _ => response = HttpError 400 "Invalid Request Body"
         end
    else refused "Write permission required" a response a'.
Proof.
  apply wp_exists. unfold CmdContainer. do 3 api_step. fold (session_name r a). api_step.
  apply wp_lift_Get. intros s1 t E Ht HP.
  destruct (HasPermission _ _ PermContainerWrite); cbn [negb].
  - destruct (CommandBody r) as [err|command]; [repeat api_step; by eexists|].
    api_step. apply wp_lift_finishes; [auto with finishes|]. cbn [sys WebSessions]. intros err s2 E2.
    carried_out_done s1 s2 E2.
  - refused_done Ht.
Qed.

(** * The list of containers *)

(** The name without its leading slash. *)
Definition bare (n : string) : string := match n with "" => "" | String _ s => s end.

Definition named (c : Summary) : Prop := Forall (λ n, n ≠ "") (Names c).

(** [dockerMap] after the containers of a list. *)
Definition enter (m : gmap string Summary) (c : Summary) : gmap string Summary :=
  foldl (λ m n, <[bare n := c]> m) m (Names c).
Definition docker_map (cs : list Summary) : gmap string Summary := foldl enter ∅ cs.

Lemma for_fold_pure {S A L} (body : A → L → Comp S L) (f : L → A → L) xs l s :
  (∀ x l s, x ∈ xs → body x l s = (Done (f l x), s)) →
  for_fold body xs l s = (Done (foldl f l xs), s).
Proof.
  revert l. induction xs as [|x xs IH]; intros l H; [done|]. simpl.
  rewrite (bind_done _ _ _ _ _ (H x l s ltac:(by left))). apply IH. intros. apply H. by right.
Qed.

Lemma add_names_run c m (s : Sys W) : named c → add_names c m s = (Done (enter m c), s).
Proof.
  intros Hn. unfold add_names. apply for_fold_pure. intros n m' s' Hin.
  eapply Forall_forall in Hn; [|exact Hin]. by destruct n.
Qed.

(** An entry of [dockerMap] comes from a container with that name, and every
    name of a container has one. *)
Definition names_of (cs : list Summary) (name : string) (c : Summary) : Prop :=
  c ∈ cs ∧ name ∈ (bare <$> Names c).

Lemma enter_lookup m c name :
  enter m c !! name = if decide (name ∈ (bare <$> Names c)) then Some c else m !! name.
Proof.
  unfold enter. revert m. induction (Names c) as [|n ns IH]; intros m; simpl; [done|].
  rewrite IH. destruct (decide (name ∈ (bare <$> ns))) as [H|H].
  - by rewrite decide_True by by right.
  - destruct (decide (name = bare n)) as [->|Hne].
    + rewrite lookup_insert_eq. by rewrite decide_True by by left.
    + rewrite lookup_insert_ne by done. rewrite decide_False; [done|].
      by intros [?|?]%elem_of_cons.
Qed.

Lemma docker_map_lookup cs name :
  match docker_map cs !! name with
  | Some c => names_of cs name c
  | None => ∀ c, ¬ names_of cs name c
  end.
Proof.
  unfold docker_map. induction cs as [|c cs IH] using rev_ind; [simpl; rewrite lookup_empty; by intros c [?%elem_of_nil _]|].
  rewrite foldl_app. simpl. rewrite enter_lookup. case_decide as Hn.
  - split; [|done]. apply elem_of_app. right. by left.
  - destruct (foldl enter ∅ cs !! name) as [c'|].
    + destruct IH as [? ?]. split; [|done]. apply elem_of_app. by left.
    + intros c' [[Hc| ->%list_elem_of_singleton]%elem_of_app Hn']; [by destruct (IH c')|done].
Qed.

(** What the second loop adds for one container. *)
Definition unmanaged (user : UserConfig) (processed : gset string) (c : Summary) : option ContainerListItem :=
  match Names c with
  | [] => None
  | n :: _ =>
      if decide (bare n ∈ processed) then None
      else if HasPermission user (bare n) PermContainerRead
      then Some (mkContainerListItem (ID c) (Names c) (State c) [] (list_permissions user (bare n) "execute"))
      else None
  end.

Lemma engine_item_run user processed c result (s : Sys W) :
  named c → engine_item user processed c result s =
    (Done (result ++ option_list (unmanaged user processed c)), s).
Proof.
  intros Hn. unfold engine_item, unmanaged. unfold named in Hn. destruct (Names c) as [|n ns]; simpl.
  { by rewrite app_nil_r. }
  apply Forall_cons in Hn as [Hn _]. destruct n as [|ch n]; [done|]. simpl tail1. rewrite bind_ret_l. simpl.
  case_decide; [by rewrite app_nil_r|]. by destruct (HasPermission _ _ _); rewrite ?app_nil_r.
Qed.

Lemma list_for_run user cs cfg (s : Sys W) :
  Forall named cs →
  ∃ servers s', servers ≡ₚ map_to_list (Servers cfg) ∧ loaded s' = loaded s ∧ events s' = events s ∧
    let '(result, processed) := configured_items user (docker_map cs) servers in
    list_for user cs cfg (docker_map cs) s = (Done (result ++ omap (unmanaged user processed) cs), s').
Proof.
  intros Hn. unfold list_for, range_map. pose proof (map_range_perm (Servers cfg) (world s)) as Hp.
  destruct (map_range (Servers cfg) (world s)) as [servers w] eqn:E.
  exists servers, (mkSys w (loaded s) (events s)). split_and!; [exact Hp|done|done|].
  destruct (configured_items user (docker_map cs) servers) as [result processed] eqn:Ec.
  unfold bind at 1. rewrite E. cbv beta iota. rewrite Ec.
  rewrite (for_fold_pure _ (λ result c, result ++ option_list (unmanaged user processed c))).
  2: { intros c l s' Hc. apply engine_item_run. by eapply Forall_forall in Hn. }
  do 2 f_equal. clear. revert result. induction cs as [|c cs IH]; intros result; simpl; [by rewrite app_nil_r|].
  rewrite IH. cbn. destruct (unmanaged user processed c); simpl; by rewrite <- (assoc_L (++)), ?app_nil_l.
Qed.

(** What the items of an answer are to be, for a user, a configuration and the
    containers the engine listed. *)
Record list_ok (user : UserConfig) (cfg : Config) (cs : list Summary) (items : list ContainerListItem) : Prop := {
  (** nothing is shown that the user may not read *)
  list_readable item : item ∈ items → ∃ name,
    HasPermission user name PermContainerRead = true ∧
    ((∃ srv, Servers cfg !! name = Some srv ∧ ItemID item = name ∧ ItemNames item = ["/" +:+ name] ∧
        ItemActions item = calculateActions user name srv) ∨
     ItemActions item = [] ∧ ∃ c ns n, c ∈ cs ∧ ItemID item = ID c ∧ ItemNames item = Names c ∧
       Names c = n :: ns ∧ bare n = name);
  (** every configured server the user may read is shown, with its state *)
  list_servers name srv :
    Servers cfg !! name = Some srv → HasPermission user name PermContainerRead = true →
    ∃ item, item ∈ items ∧ ItemID item = name ∧ ItemActions item = calculateActions user name srv ∧
      ((∃ c, names_of cs name c ∧ ItemState item = State c) ∨
       (∀ c, ¬ names_of cs name c) ∧ ItemState item = "missing");
  (** and every container of the engine the user may read *)
  list_containers c n ns :
    c ∈ cs → Names c = n :: ns → HasPermission user (bare n) PermContainerRead = true →
    ∃ item, item ∈ items ∧
      (ItemNames item = Names c ∧ ItemState item = State c ∨ ItemNames item = ["/" +:+ bare n]);
}.

Lemma list_items_ok user cfg cs servers :
  servers ≡ₚ map_to_list (Servers cfg) →
  let '(result, processed) := configured_items user (docker_map cs) servers in
  list_ok user cfg cs (result ++ omap (unmanaged user processed) cs).
Proof.
  intros Hp. unfold configured_items.
  set (readable := filter (λ kv, HasPermission user kv.1 PermContainerRead = true) servers).
  set (processed := list_to_set _).
  assert (∀ name srv, (name, srv) ∈ readable ↔
    Servers cfg !! name = Some srv ∧ HasPermission user name PermContainerRead = true) as Hr.
  { intros name srv. unfold readable. rewrite list_elem_of_filter, Hp, elem_of_map_to_list. tauto. }
  split.
  - intros item [Hin|Hin]%elem_of_app.
    + apply list_elem_of_fmap in Hin as ([name srv] & -> & [Hs Hh]%Hr). exists name. split; [done|].
      left. by exists srv.
    + apply list_elem_of_omap in Hin as (c & Hc & Hu). unfold unmanaged in Hu.
      destruct (Names c) as [|n ns] eqn:Hns; [done|]. case_decide; [done|].
      destruct (HasPermission user (bare n) PermContainerRead) eqn:Hh; [|done]. simplify_eq.
      exists (bare n). split; [done|]. right. split; [done|]. exists c, ns, n. by rewrite Hns.
  - intros name srv Hs Hh. exists (server_item user (docker_map cs) name srv). split.
    { apply elem_of_app. left. apply list_elem_of_fmap. exists (name, srv). by rewrite Hr. }
    split_and!; [done|done|]. unfold server_item. simpl. pose proof (docker_map_lookup cs name) as Hd.
    destruct (docker_map cs !! name) as [c|]; [left; by exists c|by right].
  - intros c n ns Hc Hns Hh. destruct (decide (bare n ∈ processed)) as [Hin|Hin].
    + unfold processed in Hin. apply elem_of_list_to_set, list_elem_of_filter in Hin as [_ Hin].
      apply list_elem_of_fmap in Hin as ([name srv] & Hname & Hin). simpl in Hname. subst name.
      exists (server_item user (docker_map cs) (bare n) srv). split; [|by right].
      apply elem_of_app. left. apply list_elem_of_fmap. by exists (bare n, srv).
    + eexists. split; [|left; split; [|shelve]].
      * apply elem_of_app. right. apply list_elem_of_omap. exists c. split; [done|]. unfold unmanaged.
        rewrite Hns, decide_False, Hh by done. reflexivity.
      * by rewrite Hns.
      Unshelve. done.
Qed.


(** * Actions shown *)

(** The permission each action needs at its endpoint. *)
Definition action_perm (action : string) : string :=
  if decide (action = "restore") then PermContainerRestore else containerToPerm action.

(** Every action shown to a user is one the user is permitted at its
    endpoint, and one the server's configuration provides for. *)
Theorem calculateActions_permitted user name srv action :
  action ∈ calculateActions user name srv →
  HasPermission user name (action_perm action) = true ∧
  (action = "start" → ∃ compose, Compose srv = Some compose ∧ Image compose ≠ "") ∧
  (action = "backup" ∨ action = "restore" → Backup (Commands srv) ≠ []).
Proof.
  unfold calculateActions. destruct (HasPermission user name PermContainerExecute) eqn:Hp; simpl;
    [|by intros ?%elem_of_nil].
  assert (∀ b, HasPermission user name ("container.execute" +:+ String dot b) = true) as Hall
    by (intros b; by apply HasPermission_wildcard).
  rewrite !elem_of_app. intros [H|[H|[H|H]]].
  - destruct (Compose srv) as [compose|] eqn:Hc; [|by apply elem_of_nil in H].
    case_decide as Hi; [|by apply elem_of_nil in H]. apply list_elem_of_singleton in H as ->.
    split; [exact (Hall "start")|]. split; [by exists compose|by intros [?|?]].
  - destruct (Stop (Commands srv)); [|by apply elem_of_nil in H].
    apply elem_of_cons in H as [->|H]; [|apply list_elem_of_singleton in H as ->];
      (split; [first [exact (Hall "stop")|exact (Hall "kill")]|]; split; [done|by intros [?|?]]).
  - case_decide as Hl; [|by apply elem_of_nil in H].
    assert (Backup (Commands srv) ≠ []) as Hb by (by destruct (Backup (Commands srv)); simpl in Hl; [lia|]).
    apply elem_of_cons in H as [->|H]; [|apply list_elem_of_singleton in H as ->];
      (split; [first [exact (Hall "backup")|exact (Hall "restore")]|]; by split).
  - apply list_elem_of_singleton in H as ->.
    split; [exact (Hall "remove")|]. split; [done|by intros [?|?]].
Qed.

(** * Static files *)

(** Whatever path is asked for, the static file server names a file in the
    working directory or below. *)
Theorem static_path_confined path : within (Clean "./") (static_path path).
Proof.
  unfold static_path. destruct (Clean_rooted_no_dotdot ("/" +:+ path)) as [Hr Hd]; [done|].
  set (x := Clean ("/" +:+ path)) in *.
  assert (JoinPath ["./"; x] = Clean ("./" +:+ String slash x)) as -> by done.
  assert (".." ∉ Split ("./" +:+ String slash x) slash) as Hnd.
  { rewrite Split_app_gen. intros [H|H]%elem_of_app; [vm_compute in H; set_solver|].
    apply Hd. unfold elems. by apply list_elem_of_filter. }
  split; [by rewrite is_rooted_Clean|]. exists (elems (Clean ("./" +:+ String slash x))). split; [done|].
  rewrite elems_Clean_no_dotdot by done. unfold elems. by intros [_ ?]%list_elem_of_filter.
Qed.

(** The static file server answers anyone with the configuration file, which
    holds every password: no session is asked for. *)
Theorem static_serves_config r a :
  EscapedPath r = "/config.json" →
  mux r a = (Done (StaticFile (Clean config_path)), a).
Proof. intros H. unfold mux. rewrite H. reflexivity. Qed.
End ApiSpec.

(** A user with all six execute permissions by name may run every action, but
    is shown none: only the execute wildcard makes the list appear. *)
Theorem calculateActions_hides :
  calculateActions oper "mc1" mc1_config = [] ∧
  Forall (λ action, HasPermission oper "mc1" (action_perm action) = true)
    ["start"; "stop"; "kill"; "backup"; "restore"; "remove"].
Proof. split; [by vm_compute|]. decided. Qed.

(** * Witnesses and examples *)

Definition toy_api : Api Toy := mkApi toy_sys (<["aabb" := "alice"]> (<["ccdd" := "oper"]> ∅)).

Definition get_request (path token id mode : string) : HttpRequest :=
  mkHttpRequest path token (<["id" := id]> (<["mode" := mode]> ∅)) (inl EOF) (inl EOF) None "192.0.2.1".

(** A terminal request in a mode that is neither exec nor logs, from a user with
    a session who needs no permission, panics in a goroutine that nothing
    recovers. *)
Theorem TerminalHandler_unknown_mode :
  ∃ a', mux (get_request "/ws/terminal" "aabb" "" "x") toy_api = (Done (GoPanic nil_pointer), a').
Proof. eexists. vm_compute. reflexivity. Qed.

Lemma mux_requires_session_witness :
  mux (get_request "/api/container/remove" "0000" "mc1" "") toy_api
  = (Done (HttpError 401 "Authentication required"), toy_api).
Proof.
  pose proof (mux_requires_session (get_request "/api/container/remove" "0000" "mc1" "") toy_api ltac:(by vm_compute))
    as H. cbv zeta in H.
  assert (∀ o s, mux (get_request "/api/container/remove" "0000" "mc1" "") toy_api = (o, s) →
    o = Done (HttpError 401 "Authentication required")) as Ho by (intros o s E; vm_compute in E; congruence).
  revert H. destruct (PathUnescape _) as [u|] eqn:E; [|intros H; by apply Ho in H].
  intros [[target H]|[[H _]|[[H _]|[H _]]]]; [by apply Ho in H|by vm_compute in H|exact H|by vm_compute in H].
Defined.


Lemma calculateActions_permitted_witness :
  HasPermission root "mc1" PermContainerRestore = true.
Proof.
  destruct (calculateActions_permitted root "mc1" mc1_config "restore") as [H _]; [decided|]. exact H.
Defined.

Lemma static_serves_config_witness :
  mux (get_request "/config.json" "" "" "") toy_api = (Done (StaticFile "config.json"), toy_api).
Proof. apply (static_serves_config (get_request "/config.json" "" "" "") toy_api). reflexivity. Defined.
