(* ===== verification/AccessLog.v ===== *)
(** [internal/api/middleware.go] and [Start] of [internal/api/server.go]: the
    writer that remembers the status, the access log around every request, the
    writer to a WebSocket, and the serving of requests. *)

From S2P Require Import Prelude GoStrings GoPath GoTime Config World ConfigLoad Docker Container Vfs Webdav Api.

(** * Writing a response *)

(** What a handler does to its [http.ResponseWriter]. *)
Inductive WriterOp : Type :=
| OpWriteHeader (code : Z)
| OpWrite
| OpHijack.

(** The writer of net/http: the status line once it is sent, whether the
    connection can be taken over, and whether it was. *)
Record ResponseWriter := mkResponseWriter { Sent : option Z; Hijacker : bool; TakenOver : bool }.

(** The first call decides, but for the informational statuses; nothing is sent
    on a connection that was taken over. *)
Definition base_WriteHeader (code : Z) (w : ResponseWriter) : ResponseWriter :=
  if TakenOver w then w
  else if decide (100 ≤ code < 200 ∧ code ≠ 101)%Z then w
  else match Sent w with
       | Some _ => w
       | None => mkResponseWriter (Some code) (Hijacker w) (TakenOver w)
       end.

Definition base_Write (w : ResponseWriter) : ResponseWriter := base_WriteHeader 200 w.
Definition base_Hijack (w : ResponseWriter) : ResponseWriter := mkResponseWriter (Sent w) (Hijacker w) true.

(** The status the client sees: 200 when the handler wrote nothing. *)
Definition wire_status (w : ResponseWriter) : Z := default 200%Z (Sent w).

Record loggingResponseWriter := mkLoggingResponseWriter { inner : ResponseWriter; statusCode : Z }.

Definition lrw_WriteHeader (code : Z) (l : loggingResponseWriter) : loggingResponseWriter :=
  mkLoggingResponseWriter (base_WriteHeader code (inner l)) code.

(** [Write] is the embedded writer's, and so is a [Hijack] that is possible. *)
Definition lrw_op (op : WriterOp) (l : loggingResponseWriter) : loggingResponseWriter :=
  match op with
  | OpWriteHeader code => lrw_WriteHeader code l
  | OpWrite => mkLoggingResponseWriter (base_Write (inner l)) (statusCode l)
  | OpHijack =>
      if Hijacker (inner l) then mkLoggingResponseWriter (base_Hijack (inner l)) (statusCode l) else l
  end.

Definition lrw_run (ops : list WriterOp) (l : loggingResponseWriter) : loggingResponseWriter :=
  foldl (λ l op, lrw_op op l) l ops.

(** [&loggingResponseWriter{w, http.StatusOK}] on a fresh writer. *)
Definition new_lrw : loggingResponseWriter :=
  mkLoggingResponseWriter (mkResponseWriter None true false) 200.

(** A request as the middleware sees it. *)
Record FullRequest := mkFullRequest { HttpMethod : string; RequestURI : string; Req : HttpRequest }.

Section AccessLog.
Context {W : Type} `{!Docker W, !OS W, !MapRange W, !WebSocket W, !Boot W}.

(** The error of a writer that cannot be taken over. *)
Definition Hijack (l : loggingResponseWriter) : Comp (Sys W) (result loggingResponseWriter) :=
  if negb (Hijacker (inner l)) then
    err <- InternalError "API" "ResponseWriter does not implement http.Hijacker" [] ;;
    ret (inl err)
  else ret (inr (lrw_op OpHijack l)).

(** What net/http, the file server, WebDAV and gorilla write for the responses
    they make themselves. *)
Context (library_ops : Response → list WriterOp).

Definition response_ops (r : Response) : list WriterOp :=
  match r with
  | HttpError code _ => [OpWriteHeader code; OpWrite]
  | WriteHeader code => [OpWriteHeader code]
  | JsonToken _ | JsonContainers _ | JsonInspect _ | JsonGenerations _ | LogText _ _ => [OpWrite]
  | Terminal _ _ | StatsStream _ | Hijacked | GoPanic _ => [OpHijack]
  | StaticFile _ | RedirectTo _ | Dav _ | UpgradeRefused _ => library_ops r
  end.

Definition access_message (r : FullRequest) (status d : Z) : string :=
  Sprintf "%s %s %s %d %v"
    [HttpMethod r; RequestURI r; RemoteAddr (Req r); show_int status; show_duration d].

Definition WithLogging (next : HttpRequest → Comp (Api W) Response) (r : FullRequest) : Comp (Api W) Response :=
  start <- lift time_Now ;;
  resp <- next (Req r) ;;
  let lrw := lrw_run (response_ops resp) new_lrw in
  d <- lift (time_Since start) ;;
  lift (Log "Internal" "Access" (access_message r (statusCode lrw) d)) ;;
  ret resp.

(** [wsBinaryWriter.Write] *)
Definition wsBinaryWriter_Write (conn : option nat) (p : string) : Comp (Sys W) (nat * option error) :=
  match conn with
  | None => ret (0, Some ErrInvalid)
  | Some _ =>
      err <- ws_WriteMessage p ;;
      ret (String.length p, err)
  end.

(** * Serving *)

(** The handler of [Routes]. *)
Definition Routes : FullRequest → Comp (Api W) Response := WithLogging mux.

(** net/http recovers a panic of a handler and goes on with the next request.  A
    panic in a goroutine the handler started is recovered by nobody: it ends the
    process. *)
Definition serve_one (r : FullRequest) : Comp (Api W) unit :=
  λ a, let '(o, a') := Routes r a in
       (match o with
        | Done (GoPanic why) => Panic why
        | Done _ | Panic _ => Done tt
        end, a').

(** [err] of [http.ListenAndServe] *)
Definition Start_failed {A} (err : error) : Comp (Api W) A :=
  lift (Logf "Internal" "API" "HTTPサーバーが予期せず終了しました: %v" [show_error err]) ;;
  panic (ErrorText err).

(** The beginning of [Start], until [http.ListenAndServe] has its port: whether
    it goes on to serve. *)
Definition Start_listening : Comp (Api W) bool :=
  cfg <- lift Get ;;
  let addr := HTTPListen cfg in
  if decide (addr = "") then
    lift (Log "Internal" "API" "HTTPサーバーは無効です（httpListenが未設定）") ;;
    ret false
  else
    lift (Logf "Internal" "API" ("HTTPサーバーが開始されました: " +:+ chr (byte 34) +:+ "%s" +:+ chr (byte 34)) [addr]) ;;
    err <- lift (net_Listen addr) ;;
    match err with
    | Some err => Start_failed err
    | None => ret true
    end.

(** Its end, when [http.ListenAndServe] stops serving; it never does without an error. *)
Definition Start_ending {A} : Comp (Api W) A :=
  err <- lift http_ServeEnd ;;
  Start_failed err.

(** [Start] with the requests served one after the other; [Main] has them beside
    everything else the process does. *)
Definition Start (requests : list FullRequest) : Comp (Api W) unit :=
  serving <- Start_listening ;;
  if serving : bool then for_each serve_one requests ;; Start_ending
  else ret tt.
End AccessLog.
