(* ===== verification/AccessLogSpec.v ===== *)
(** The access log: one line for every request that is answered, none for one
    whose handler panics, what the status in it means, and that it holds the
    address asked for with the session token in it. *)

From S2P Require Import Prelude GoStrings GoPath GoTime Config World TestBed ConfigLoad Docker Container Vfs Webdav Api ApiSpec AccessLog.

(** * The status *)

(** A final status, or the one that ends the informational ones. *)
Definition final_status (code : Z) : Prop := ¬ (100 ≤ code < 200 ∧ code ≠ 101)%Z.

(** Once the status line is sent, later writes leave it and the remembered
    status; only a further [WriteHeader] changes the latter. *)
Lemma lrw_run_sent ops l c :
  Sent (inner l) = Some c → (∀ code, OpWriteHeader code ∉ ops) → OpHijack ∉ ops →
  Sent (inner (lrw_run ops l)) = Some c ∧ statusCode (lrw_run ops l) = statusCode l.
Proof.
  revert l. induction ops as [|op ops IH]; intros l Hs Hh Hj; [done|].
  destruct op as [code| |]; [by destruct (Hh code); left| |by destruct Hj; left].
  change (lrw_run (OpWrite :: ops) l) with (lrw_run ops (lrw_op OpWrite l)).
  destruct (IH (lrw_op OpWrite l)) as [-> ->]; [|by intros code ?; apply (Hh code); right|by intros ?; apply Hj; right|done].
  simpl. unfold base_Write, base_WriteHeader. destruct (TakenOver _); [done|]. case_decide; [done|]. by rewrite Hs.
Qed.

(** When a handler sets the status at most once and before it writes, and
    does not take the connection over, the status in the access log is the one
    the client was sent. *)
Theorem logged_status_sent op ops :
  (∀ code, op = OpWriteHeader code → final_status code) → op ≠ OpHijack →
  (∀ code, OpWriteHeader code ∉ ops) → OpHijack ∉ ops →
  statusCode (lrw_run (op :: ops) new_lrw) = wire_status (inner (lrw_run (op :: ops) new_lrw)).
Proof.
  intros Hf Hh Hn Hj. unfold wire_status.
  change (lrw_run (op :: ops) new_lrw) with (lrw_run ops (lrw_op op new_lrw)).
  assert (∃ c, Sent (inner (lrw_op op new_lrw)) = Some c ∧ statusCode (lrw_op op new_lrw) = c) as (c & H1 & H2).
  { destruct op as [code| |]; [|by eexists|done].
    exists code. split; [|done]. simpl. unfold base_WriteHeader. simpl.
    rewrite decide_False by (by apply Hf). done. }
  destruct (lrw_run_sent ops _ c H1 Hn Hj) as [-> ->]. by rewrite H2.
Qed.

(** A connection that becomes a WebSocket is logged with status 200, although the
    client was sent 101 on the connection taken over. *)
Example hijacked_status : statusCode (lrw_run [OpHijack] new_lrw) = 200%Z.
Proof. done. Qed.

Section AccessLogSpec.
Context {W : Type} `{!DockerClient W, !OS W, !MapRange W, !WebSocket W, !Boot W}.
Context (library_ops : Response → list WriterOp).
Implicit Types a : Api W.

(** C37: the middleware hands the handler's answer through and adds one line to
    the log, after everything the handler did: method, address with its query,
    client, status and duration.  When the handler panics there is no line. *)
Theorem WithLogging_logs next (r : FullRequest) a :
  let a0 := (lift time_Now a).2 in
  match next (Req r) a0 with
  | (Done resp, a1) =>
      ∃ a2 d now, WithLogging library_ops next r a = (Done resp, a2) ∧
        WebSessions a2 = WebSessions a1 ∧ loaded (sys a2) = loaded (sys a1) ∧
        events (sys a2) = events (sys a1) ++
          [EvSince d; EvNow now;
           EvPrint (log_line now "Internal" "Access"
             (HttpMethod r +:+ " " +:+ RequestURI r +:+ " " +:+ RemoteAddr (Req r) +:+ " " +:+
              show_int (statusCode (lrw_run (response_ops library_ops resp) new_lrw)) +:+ " " +:+
              show_duration d))]
  | (Panic why, a1) => WithLogging library_ops next r a = (Panic why, a1)
  end.
Proof.
  intros a0. unfold WithLogging.
  assert (∃ start, lift time_Now a = (Done start, a0)) as [start Hstart].
  { unfold a0, lift, zoom, time_Now, call. destruct (Now (world (sys a))) as [start w]. by eexists. }
  rewrite (bind_done _ _ _ _ _ Hstart).
  destruct (next (Req r) a0) as [[resp|why] a1] eqn:Hnext; [|unfold bind at 1; by rewrite Hnext].
  rewrite (bind_done _ _ _ _ _ Hnext). unfold Log, time_Since, time_Now, tell, lift, zoom, bind, call, access_message.
  destruct (Since start (world (sys a1))) as [d w1]. cbn [world sys loaded events WebSessions].
  destruct (Now w1) as [now w2]. cbn [world sys loaded events WebSessions].
  do 3 eexists. split; [reflexivity|]. split; [done|]. split; [done|].
  cbn [sys events]. rewrite <- !(assoc_L (++)). simpl. by rewrite string_app_nil_r.
Qed.

(** ** Serving *)

(** The server gets to serving exactly when an address is configured and it can
    listen there; without an address it returns and has done nothing, and when it
    cannot listen it panics. *)
Lemma Start_listening_run a :
  wp Start_listening (λ o a', WebSessions a' = WebSessions a ∧ loaded (sys a') = get_outcome (sys a) ∧
    ∃ t, events (sys a') = events (sys a) ++ t ∧
    let addr := HTTPListen (cfg_Config (get_outcome (sys a))) in
    match o with
    | Done false => addr = "" ∧ Forall (λ e, quiet e = true) t
    | Done true => addr ≠ "" ∧ EvListen addr None ∈ t
    | Panic why => addr ≠ "" ∧ ∃ err, EvListen addr (Some err) ∈ t ∧ why = ErrorText err
    end) a.
Proof.
  unfold Start_listening, Start_failed. apply wp_bind, wp_lift. apply wp_Get_outcome. intros w t Ht.
  case_decide as He; apply wp_bind, wp_lift, wp_Log; intros w1 t1 Ht1.
  - apply wp_ret. simpl. do 2 (split; [done|]). exists (t ++ t1). split; [by rewrite (assoc_L (++))|]. split; [done|by apply Forall_app].
  - apply wp_bind, wp_lift. unfold net_Listen. apply wp_call. intros err w2 _.
    destruct err as [err|].
    + apply wp_bind, wp_lift, wp_Log. intros w3 t3 Ht3. apply wp_panic. simpl. do 2 (split; [done|]).
      eexists. split; [by rewrite <- !(assoc_L (++))|]. split; [done|]. exists err. split; [in_record|done].
    + apply wp_ret. simpl. do 2 (split; [done|]). eexists. split; [by rewrite <- !(assoc_L (++))|]. split; [done|in_record].
Qed.

(** Serving ends with a panic, with the error the accept loop ended with. *)
Lemma Start_ending_run {A} a :
  wp (Start_ending (A := A)) (λ o a', WebSessions a' = WebSessions a ∧
    ∃ t err, events (sys a') = events (sys a) ++ t ∧ o = Panic (ErrorText err) ∧ EvServeEnd err ∈ t) a.
Proof.
  unfold Start_ending, Start_failed. apply wp_bind, wp_lift. unfold http_ServeEnd. apply wp_call. intros err w _.
  apply wp_bind, wp_lift, wp_Log. intros w1 t1 Ht1. apply wp_panic. simpl. split; [done|].
  eexists _, err. split; [by rewrite <- !(assoc_L (++))|]. split; [done|in_record].
Qed.

(** A request ends the process exactly when a goroutine of its handler panics:
    what the handler itself panics with is recovered. *)
Lemma serve_one_run r a :
  (serve_one library_ops r a).2 = (Routes library_ops r a).2 ∧
  ∀ why, (serve_one library_ops r a).1 = Panic why ↔ (Routes library_ops r a).1 = Done (GoPanic why).
Proof.
  unfold serve_one. destruct (Routes library_ops r a) as [o a']. split; [done|]. intros why. simpl.
  destruct o as [[]|]; split; congruence.
Qed.

(** Without an address [Start] returns at once, having served nothing. *)
Lemma Start_disabled requests a :
  HTTPListen (cfg_Config (get_outcome (sys a))) = "" →
  wp (AccessLog.Start library_ops requests) (λ o a', o = Done tt ∧ WebSessions a' = WebSessions a ∧
    ∃ t, events (sys a') = events (sys a) ++ t ∧ Forall (λ e, quiet e = true) t) a.
Proof.
  intros He. unfold AccessLog.Start. apply wp_bind. eapply wp_mono; [apply Start_listening_run|].
  intros o a' (Hs & _ & t & Ht & Ho). destruct o as [[]|why]; [by destruct Ho|by apply wp_ret; destruct Ho; eauto|by destruct Ho].
Qed.
End AccessLogSpec.

(** * At a concrete input *)

Lemma logged_status_sent_witness :
  statusCode (lrw_run [OpWriteHeader 403; OpWrite; OpWrite] new_lrw) = 403%Z ∧
  statusCode (lrw_run [OpWriteHeader 403; OpWrite; OpWrite] new_lrw) =
    wire_status (inner (lrw_run [OpWriteHeader 403; OpWrite; OpWrite] new_lrw)).
Proof.
  split; [reflexivity|]. apply logged_status_sent; [by intros code [= <-] [[? ?] ?]|done| |].
  - intros code Hin. repeat (apply elem_of_cons in Hin as [Hin|Hin]; [done|]). by apply elem_of_nil in Hin.
  - intros Hin. repeat (apply elem_of_cons in Hin as [Hin|Hin]; [done|]). by apply elem_of_nil in Hin.
Defined.

(** A WebSocket passes its session token in the address, so the token stands in
    the log, where whoever reads it can use the session. *)
Example access_log_holds_token :
  let r := mkFullRequest "GET" "/ws/stats?id=mc2&token=abcd"
             (mkHttpRequest "/ws/stats" "" (<["id" := "mc2"]> (<["token" := "abcd"]> ∅))
                (inl EOF) (inl EOF) None "192.0.2.1") in
  EvPrint (log_line (mkDateTime 2025 3 9 4 5 6) "Internal" "Access"
    "GET /ws/stats?id=mc2&token=abcd 192.0.2.1 200 1.5ms")
  ∈ events (sys (Routes (λ _, []) r (mkApi toy_sys (<["abcd" := "root"]> ∅))).2).
Proof. vm_compute. in_record. Qed.
