(* ===== verification/Sessions.v ===== *)
(** Histories of HTTP requests: where sessions come from and how long they last.
    The requests of a history are served one after the other; a handler that
    panics leaves the state it reached. *)

From S2P Require Import Prelude GoStrings GoPath GoTime Config World TestBed ConfigLoad Docker Container Vfs Webdav Api ApiSpec.

(** * Handlers that leave the sessions as they are *)

Section KeepsSessions.
Context {W : Type} `{!DockerClient W, !OS W, !MapRange W, !WebSocket W}.

Definition keeps_sessions {A} (m : Comp (Api W) A) : Prop := ∀ a, WebSessions (m a).2 = WebSessions a.

Lemma keeps_sessions_ret {A} (x : A) : keeps_sessions (ret x).
Proof. done. Qed.

Lemma keeps_sessions_gets {A} (f : Api W → A) : keeps_sessions (gets f).
Proof. done. Qed.

Lemma keeps_sessions_lift {A} (m : Comp (Sys W) A) : keeps_sessions (lift m).
Proof. intros a. unfold lift, zoom. by destruct (m (sys a)). Qed.

Lemma keeps_sessions_bind {A B} (m : Comp (Api W) A) (k : A → Comp (Api W) B) :
  keeps_sessions m → (∀ x, keeps_sessions (k x)) → keeps_sessions (bind m k).
Proof.
  intros Hm Hk a. specialize (Hm a). unfold bind. destruct (m a) as [[x|e] a1]; [|done].
  simpl in Hm. by rewrite (Hk x a1).
Qed.
End KeepsSessions.

Create HintDb sessions.
#[export] Hint Resolve keeps_sessions_ret keeps_sessions_gets keeps_sessions_lift : sessions.

Ltac solve_sessions :=
  repeat lazymatch goal with
  | |- keeps_sessions (bind _ _) => apply keeps_sessions_bind; [|intros ?]
  | |- keeps_sessions (match ?x with _ => _ end) => destruct x
  | |- keeps_sessions _ => progress auto with sessions
  end.

Section Handlers.
Context {W : Type} `{!DockerClient W, !OS W, !MapRange W, !WebSocket W}.
Implicit Types a : Api W.

Lemma Auth_keeps (next : HttpRequest → Comp (Api W) Response) r :
  keeps_sessions (next r) → keeps_sessions (Auth next r).
Proof. intros Hn. unfold Auth. solve_sessions. Qed.

Lemma ListContainers_keeps r : keeps_sessions (ListContainers (W := W) r).
Proof. unfold ListContainers, session_user. solve_sessions. Qed.

Lemma InspectContainer_keeps r : keeps_sessions (InspectContainer (W := W) r).
Proof. unfold InspectContainer, session_user. solve_sessions. Qed.

Lemma ListBackups_keeps r : keeps_sessions (ListBackups (W := W) r).
Proof. unfold ListBackups, session_user. solve_sessions. Qed.

Lemma RestoreAction_keeps r : keeps_sessions (RestoreAction (W := W) r).
Proof. unfold RestoreAction, session_user. solve_sessions. Qed.

Lemma CmdContainer_keeps r : keeps_sessions (CmdContainer (W := W) r).
Proof. unfold CmdContainer, session_user. solve_sessions. Qed.

Lemma GetContainerLogs_keeps r : keeps_sessions (GetContainerLogs (W := W) r).
Proof. unfold GetContainerLogs, session_user. solve_sessions. Qed.

Lemma TerminalHandler_keeps r : keeps_sessions (TerminalHandler (W := W) r).
Proof. unfold TerminalHandler, session_user. solve_sessions. Qed.

Lemma StatsHandler_keeps r : keeps_sessions (StatsHandler (W := W) r).
Proof. unfold StatsHandler, session_user. solve_sessions. Qed.

Lemma Action_keeps action r : keeps_sessions (Action (W := W) action r).
Proof. unfold Action, session_user. solve_sessions. Qed.

Lemma find_route_in {A} segs (routes : list (string * A)) x :
  find_route segs routes = Some x → ∃ p, (p, x) ∈ routes ∧ Split p slash = "" :: segs.
Proof.
  induction routes as [|[p y] routes IH]; [done|]. cbn [find_route]. case_decide as Hp.
  - intros [= ->]. exists p. split; [by left|done].
  - intros H. destruct (IH H) as (q & ? & ?). exists q. split; [by right|done].
Qed.

Lemma routes_keep segs (h : HttpRequest → Comp (Api W) Response) r :
  find_route segs api_routes = Some h → segs ≠ ["api"; "login"] → keeps_sessions (h r).
Proof.
  intros (p & Hin & Hp)%find_route_in Hne. revert p h Hin Hp.
  assert (Forall (λ kv : string * (HttpRequest → Comp (Api W) Response),
    Split kv.1 slash = "" :: segs → keeps_sessions (kv.2 r)) api_routes) as H.
  { apply Forall_cons. split; [intros E; exfalso; vm_compute in E; injection E as <-; by apply Hne|].
    unfold api_routes. repeat (apply Forall_cons; split; [intros _; cbn [snd]; apply Auth_keeps|]).
    all: try apply Forall_nil_2.
    - apply ListContainers_keeps.
    - apply InspectContainer_keeps.
    - apply Action_keeps.
    - apply Action_keeps.
    - apply Action_keeps.
    - apply Action_keeps.
    - apply ListBackups_keeps.
    - apply RestoreAction_keeps.
    - apply Action_keeps.
    - apply CmdContainer_keeps.
    - apply GetContainerLogs_keeps.
    - apply TerminalHandler_keeps.
    - apply StatsHandler_keeps. }
  intros p h Hin. by apply (proj1 (Forall_forall _ _) H (p, h)).
Qed.

Lemma login_route : find_route ["api"; "login"] (api_routes (W := W)) = Some Login.
Proof. reflexivity. Qed.

(** Whatever the request, the sessions stay, or it is a login that succeeds. *)
Lemma mux_sessions r a :
  WebSessions (mux r a).2 = WebSessions a ∨
  ∃ token user u, (mux r a).1 = Done (JsonToken token) ∧
    WebSessions (mux r a).2 = <[token := user]> (WebSessions a) ∧
    Users (config_at a) !! user = Some u ∧ CredsBody r = inr (user, Password u).
Proof.
  unfold mux. destruct (PathUnescape (EscapedPath r)) as [urlPath|]; [|by left].
  case_decide; [by left|]. case_decide; [by left|].
  destruct (find_route _ api_routes) as [h|] eqn:Hr.
  - destruct (decide (segments (clean_url (EscapedPath r)) = ["api"; "login"])) as [E|E].
    2: { left. by eapply routes_keep. }
    rewrite E, login_route in Hr. injection Hr as <-.
    destruct (Login_run r a) as (response & a' & -> & t & _ & Hl). simpl.
    destruct response; try done; [left; by destruct Hl|]. right.
    destruct Hl as (user & pass & u & Hc & Hu & <- & Hs & _). exists token, user, u. done.
  - left. assert (∀ m : Comp (Api W) Response, keeps_sessions m → WebSessions (m a).2 = WebSessions a) as Hk
      by (intros m Hm; apply Hm). repeat case_match; apply Hk; solve_sessions.
Qed.

(** ** Histories *)

(** The requests of [rs] one after the other. *)
Fixpoint serve (rs : list HttpRequest) a : Api W :=
  match rs with
  | [] => a
  | r :: rs' => serve rs' (mux r a).2
  end.

Lemma serve_app rs rs' a : serve (rs ++ rs') a = serve rs' (serve rs a).
Proof. revert a. induction rs as [|r rs IH]; intros a; [done|]. apply IH. Qed.

(** In the history [rs] from [a], [token] was issued for the password [user] had. *)
Definition issued rs a token user : Prop :=
  ∃ pre r post u, rs = pre ++ r :: post ∧
    (mux r (serve pre a)).1 = Done (JsonToken token) ∧
    Users (config_at (serve pre a)) !! user = Some u ∧ CredsBody r = inr (user, Password u).

Lemma issued_snoc rs r a token user : issued rs a token user → issued (rs ++ [r]) a token user.
Proof.
  intros (pre & r' & post & u & -> & H). exists pre, r', (post ++ [r]), u.
  by rewrite <- (assoc_L (++)).
Qed.

Lemma sessions_issued rs a token user :
  WebSessions (serve rs a) !! token = Some user →
  WebSessions a !! token = Some user ∨ issued rs a token user.
Proof.
  revert token user. induction rs as [|r rs IH] using rev_ind; intros token user; [by left|].
  rewrite serve_app. simpl. intros H.
  destruct (mux_sessions r (serve rs a)) as [E|(tok & usr & u & Hr & E & Hu & Hc)]; rewrite E in H.
  - destruct (IH _ _ H) as [?|Hi]; [by left|]. right. by apply issued_snoc.
  - destruct (decide (tok = token)) as [->|Hne].
    + rewrite lookup_insert_eq in H. injection H as ->. right. by exists rs, r, [], u.
    + rewrite lookup_insert_ne in H by done. destruct (IH _ _ H) as [?|Hi]; [by left|]. right. by apply issued_snoc.
Qed.

(** The routes but the login. *)
Definition protected (r : HttpRequest) : Prop :=
  is_Some (PathUnescape (EscapedPath r)) ∧ clean_url (EscapedPath r) = EscapedPath r ∧
  is_Some (find_route (segments (EscapedPath r)) (api_routes (W := W))) ∧
  segments (EscapedPath r) ≠ ["api"; "login"].

(** C9: in any history of a freshly started server, a request for a protected
    route that is not answered 401 carries a token that an earlier login of the
    same history was answered with, for the name and the password a user then
    had; and every token so issued keeps its session for the rest of the
    history. *)
Theorem sessions_from_logins rs r (s : Sys W) :
  protected r →
  (mux r (serve rs (NewServer s))).1 ≠ Done (HttpError 401 "Authentication required") →
  (∃ user, issued rs (NewServer s) (token_of r) user) ∧
  ∀ rs' token, is_Some (WebSessions (serve rs (NewServer s)) !! token) →
    is_Some (WebSessions (serve rs' (serve rs (NewServer s))) !! token).
Proof.
  intros (Hp & Hc & [h Hr] & Hl) Hne. set (a := serve rs (NewServer s)) in *. split.
  - destruct (WebSessions a !! token_of r) as [user|] eqn:Hs.
    + exists user. destruct (sessions_issued _ _ _ _ Hs) as [H|H]; [|done].
      change ((∅ : gmap string string) !! token_of r = Some user) in H. by rewrite lookup_empty in H.
    + exfalso. apply Hne. by rewrite (mux_refuses r a h).
  - intros rs'. generalize a. clear. induction rs' as [|r rs' IH]; intros a token H; [done|].
    simpl. apply IH. destruct (mux_sessions r a) as [->|(tok & usr & u & _ & -> & _)]; [done|].
    destruct (decide (tok = token)) as [->|]; [by rewrite lookup_insert_eq|by rewrite lookup_insert_ne].
Qed.
End Handlers.

(** * At a concrete input *)

Definition login_request (user pass : string) : HttpRequest :=
  mkHttpRequest "/api/login" "" ∅ (inr (user, pass)) (inl EOF) None "192.0.2.1".

Definition toy_token : string := EncodeToString (replicate 16 (Ascii.ascii_of_nat 171)).

Lemma sessions_from_logins_witness :
  ∃ user, issued [login_request "alice" "wonder"] (NewServer toy_sys) toy_token user.
Proof.
  destruct (sessions_from_logins [login_request "alice" "wonder"]
    (get_request "/api/containers" toy_token "" "") toy_sys) as [H _].
  - split; [by eexists|]. split; [by vm_compute|]. split; [by eexists|by vm_compute].
  - intros H. vm_compute in H. discriminate H.
  - exact H.
Defined.
