(* ===== verification/Crashes.v ===== *)
(** What makes a goroutine of the program panic: the causes, one component after
    the other.  A panic of a goroutine that nothing recovers ends the process
    ([Main]). *)

From S2P Require Import Prelude GoStrings GoPath GoTime Config World ConfigLoad Docker Container Discord DiscordSpec Forwarder ForwarderSpec Tail TailSpec Vfs Sftp Access SftpSpec SftpServer SftpServerSpec Webdav Api ApiSpec AccessLog AccessLogSpec Sessions.

(** * Causes

    [panics_only P m]: whatever the state, [m] panics only if [P] holds. *)

Definition panics_only {S A} (P : Prop) (m : Comp S A) : Prop := ∀ s why s', m s = (Panic why, s') → P.

Section Causes.
Context {S : Type}.

Lemma panics_finishes {A} P (m : Comp S A) : finishes m → panics_only P m.
Proof. intros Hf s why s' E. destruct (Hf s) as (a & s1 & E1). congruence. Qed.

Lemma panics_bind {A B} P (R : A → Prop) (m : Comp S A) (k : A → Comp S B) :
  panics_only P m → returns R m → (∀ a, R a → panics_only P (k a)) → panics_only P (bind m k).
Proof.
  intros Hm Hr Hk s why s' E. unfold bind in E. destruct (m s) as [[a|w] s1] eqn:E1.
  - by eapply Hk, E; eapply Hr.
  - by eapply Hm.
Qed.

(** When nothing is known of the value. *)
Lemma panics_then {A B} P (m : Comp S A) (k : A → Comp S B) :
  panics_only P m → (∀ a, panics_only P (k a)) → panics_only P (bind m k).
Proof. intros Hm Hk. by apply (panics_bind _ (λ _, True)); auto using returns_any. Qed.

Lemma panics_for_each {A} P (body : A → Comp S unit) xs :
  (∀ x, x ∈ xs → panics_only P (body x)) → panics_only P (for_each body xs).
Proof.
  induction xs as [|x xs IH]; intros Hb; [apply panics_finishes, finishes_ret|].
  apply panics_then; [apply Hb; by left|]. intros _. apply IH. intros y Hy. apply Hb. by right.
Qed.

Lemma panics_mono {A} (P P' : Prop) (m : Comp S A) : panics_only P m → (P → P') → panics_only P' m.
Proof. intros Hm HP s why s' E. by eapply HP, Hm. Qed.

(** A computation on a part of the state that never panics. *)
Lemma wp_zoom_finishes {T A} (get : T → S) (put : S → T → T) (P : A → Prop) (m : Comp S A) Q t :
  finishes m → returns P m → (∀ a s, P a → Q (Done a) (put s t)) → wp (zoom get put m) Q t.
Proof.
  intros Hf Hr HQ. unfold wp, zoom. destruct (Hf (get t)) as (a & s & E). rewrite E. simpl. apply HQ. by eapply Hr.
Qed.

(** And one that may. *)
Lemma wp_zoom {T A} (get : T → S) (put : S → T → T) (m : Comp S A) Q t :
  wp m (λ o s, Q o (put s t)) (get t) → wp (zoom get put m) Q t.
Proof. unfold wp, zoom. by destruct (m (get t)). Qed.

Lemma panics_zoom {T A} P (get : T → S) (put : S → T → T) (m : Comp S A) :
  panics_only P m → panics_only P (zoom get put m).
Proof. intros Hm t why t'. unfold zoom. destruct (m (get t)) as [o s'] eqn:E. intros [= -> _]. by eapply Hm. Qed.
End Causes.

(** * Parts of the state a computation leaves as they are *)

Definition keeps {S A X} (f : S → X) (m : Comp S A) : Prop := ∀ s, f (m s).2 = f s.

Section Keeps.
Context {S X : Type} (f : S → X).

Lemma keeps_bind {A B} (m : Comp S A) (k : A → Comp S B) :
  keeps f m → (∀ a, keeps f (k a)) → keeps f (bind m k).
Proof.
  intros Hm Hk s. specialize (Hm s). unfold bind. destruct (m s) as [[a|e] s1]; [|done].
  simpl in Hm. by rewrite (Hk a s1).
Qed.

Lemma keeps_for_each {A} (body : A → Comp S unit) xs : (∀ x, keeps f (body x)) → keeps f (for_each body xs).
Proof. intros Hb. induction xs as [|x xs IH]; [done|]. by apply keeps_bind. Qed.

Lemma keeps_for_fold {A L} (body : A → L → Comp S L) xs l :
  (∀ x l, keeps f (body x l)) → keeps f (for_fold body xs l).
Proof. intros Hb. revert l. induction xs as [|x xs IH]; intros l; [done|]. by apply keeps_bind. Qed.
End Keeps.

Lemma keeps_on_sys {W X A} (f : BotManager W → X) (m : Comp (Sys W) A) :
  (∀ s b, f (set_bsys s b) = f b) → keeps f (on_sys m).
Proof. intros Hf b. unfold on_sys, zoom. destruct (m (bsys b)). apply Hf. Qed.

Ltac solve_keeps :=
  repeat lazymatch goal with
  | |- keeps _ (bind _ _) => apply keeps_bind; [|intros ?]
  | |- keeps _ (for_each _ _) => apply keeps_for_each; intros ?
  | |- keeps _ (for_fold _ _ _) => apply keeps_for_fold; intros ? ?
  | |- keeps _ (match ?x with _ => _ end) => destruct x
  | |- keeps _ (on_sys _) => by apply keeps_on_sys
  | |- keeps _ _ => done
  end.

(** * Bot tokens *)

Section Tokens.
Context {W : Type} `{!DockerClient W, !OS W, !MapRange W, !DiscordClient W}.
Implicit Types m : BotManager W.

(** Every token with a session, nil or not, has the four bytes the log shows. *)
Definition long_tokens m : Prop := ∀ token, is_Some (Sessions m !! token) → 4 ≤ String.length token.

Lemma start_session_token token m : long_tokens m →
  wp (start_session token)
     (λ o m', match o with Done _ => long_tokens m' | Panic _ => String.length token < 4 end) m.
Proof.
  intros Hm. destruct (decide (4 ≤ String.length token)) as [Hl|Hl].
  - eapply wp_mono; [by apply start_session_run|]. intros o m' (-> & _ & Hs) tok [v Hv].
    destruct (decide (tok = token)) as [->|Hne]; [done|]. destruct (Hs tok) as [E _]. rewrite E in Hv by done.
    apply Hm. by eexists.
  - unfold start_session, token_tail. repeat first [apply wp_bot_Log; intros ?
      | apply wp_sys; [unfold registerCommands; solve_finishes|intros ?] | case_decide; [|lia] | bot_step]; simpl; try lia; try done.
Qed.

Lemma start_sessions_tokens (tokens : list (string * bool)) m : long_tokens m →
  wp (for_each (λ kv, start_session kv.1) tokens)
     (λ o m', match o with
              | Done _ => long_tokens m'
              | Panic _ => ∃ token, token ∈ tokens.*1 ∧ String.length token < 4
              end) m.
Proof.
  revert m. induction tokens as [|[token b] tokens IH]; intros m Hm; [done|]. cbn [for_each].
  apply wp_bind. eapply wp_mono; [by apply start_session_token|]. intros [[]|why] m1 H1.
  - eapply wp_mono; [by apply IH|]. intros [[]|why] m2; [done|]. intros (tok & ? & ?). exists tok. split; [by right|done].
  - exists token. split; [by left|done].
Qed.

(** A synchronisation panics only over a configured token of fewer than four
    bytes. *)
Lemma SyncBots_token m : long_tokens m →
  wp SyncBots (λ o m', match o with
    | Done _ => long_tokens m'
    | Panic _ => ∃ token, bot_token (cfg_Config (get_outcome (bsys m))) token ∧ String.length token < 4
    end) m.
Proof.
  intros Hm. unfold SyncBots. bot_step. apply wp_on_sys_Get. intros s Hs. do 2 bot_step.
  destruct (bool_decide _); cbn [negb]; [|by bot_step].
  do 3 bot_step. apply wp_on_sys_range. intros servers s1 Hp _.
  pose proof (bots_of_spec servers) as Hb. destruct (bots_of servers) as [channels active].
  destruct Hb as (_ & _ & B3 & B4).
  do 3 bot_step. apply wp_on_sys_range. intros tokens s2 Htok _.
  bot_step. eapply wp_mono; [by apply start_sessions_tokens|]. intros [[]|why] m1.
  - intros H1. do 3 bot_step. apply wp_on_sys_range. intros old s3 Hold _.
    assert (∀ tok, tok ∈ old.*1 → is_Some (Sessions m1 !! tok)) as Hin.
    { intros tok ([k v] & -> & Hk)%list_elem_of_fmap. rewrite Hold in Hk. apply elem_of_map_to_list in Hk. by eexists. }
    eapply wp_mono; [apply stop_sessions_run|].
    + intros kv Hkv. apply H1, Hin. by apply list_elem_of_fmap_2.
    + intros o m2 (-> & _ & H2) tok. rewrite H2. case_decide; [by intros []|]. apply H1.
  - intros (tok & ([k b] & -> & Hk)%list_elem_of_fmap & Hlt). exists k. split; [|done].
    rewrite Htok in Hk. apply elem_of_map_to_list in Hk.
    destruct (proj1 (B3 k)) as (name & d & (srv & Hsrv & Hd) & <- & Hne); [apply B4; by eexists|].
    split; [done|]. rewrite Hp in Hsrv. apply elem_of_map_to_list in Hsrv. by exists name, srv, d.
Qed.
End Tokens.

(** * Interactions, messages and forwarded logs *)

Section KeepSessions.
Context {W : Type} `{!Docker W, !OS W, !MapRange W, !DiscordClient W}.

Lemma SyncLogForwarders_keeps : keeps Sessions (SyncLogForwarders (W := W)).
Proof. unfold SyncLogForwarders, sync_server, drop_server. solve_keeps. Qed.

Lemma onInteractionCreate_keeps i : keeps Sessions (onInteractionCreate (W := W) i).
Proof. unfold onInteractionCreate, required_perm, option0. solve_keeps. Qed.

Lemma onMessageCreate_keeps dg msg : keeps Sessions (onMessageCreate (W := W) dg msg).
Proof. unfold onMessageCreate. solve_keeps. Qed.
End KeepSessions.

Section WithClient.
Context {W : Type} `{!DockerClient W, !OS W, !MapRange W, !DiscordClient W}.

(** With a client an interaction panics only if it lacks an option its command
    requires. *)
Lemma onInteractionCreate_finishes i : well_formed i → finishes (onInteractionCreate (W := W) i).
Proof.
  intros Hw.
  assert (finishes (required_perm (W := W) i)) as Hp.
  { intros m. pose proof (wp_required_perm i m (λ o _, o = Done (perm_of i)) Hw eq_refl) as H.
    unfold wp in H. destruct (required_perm i m) as [o m']. simpl in H. subst o. eauto. }
  unfold onInteractionCreate. repeat first [exact Hp | progress solve_finishes].
  all: destruct (command_finishes i (user_id i) s Hw) as (F1 & F2 & F3); auto using finishes_on_sys.
Qed.

Lemma onMessageCreate_finishes dg msg : finishes (onMessageCreate (W := W) dg msg).
Proof. unfold onMessageCreate. solve_finishes. Qed.

Lemma SyncLogForwarders_finishes : finishes (SyncLogForwarders (W := W)).
Proof. unfold SyncLogForwarders, sync_server, drop_server, Logf. solve_finishes. Qed.
End WithClient.


Section Tailers.
Context `{!Regexp} {W : Type} `{!DockerClient W, !OS W, !MapRange W, !DiscordClient W, !LineReader W}.

Lemma tail_step_finishes srv path url done p : p ≠ Tail.Returned →
  finishes (tail_step (W := W) srv path url done p).
Proof.
  intros Hp r. pose proof (tail_step_run srv path url done p r Hp) as Hr. unfold wp in Hr.
  destruct (tail_step srv path url done p r) as [o r']. destruct Hr as (p' & _ & Ho & _). simpl in Ho. subst o. eauto.
Qed.
End Tailers.

(** * SFTP connections *)

(** The libraries do not panic of their own, only when a callback does. *)
Class SshCalm {W : Type} `{!SshLib W} : Prop := {
  serve_finishes ch handler :
    (∀ c, request_ok (request_of c) → finishes (handler c)) → finishes (Serve (W := W) ch handler);
  conn_finishes nc cb keys :
    (∀ u a p, finishes (cb u a p)) → finishes (NewServerConn (W := W) nc cb keys);
}.

(** A client asks for a subsystem in a request without the four bytes its name
    has for its length. *)
Definition short_subsystem `{!SshLib W} (ch : NewChannel) : Prop :=
  ∃ w requests req, (AcceptChannel ch w).1 = inr requests ∧ req ∈ requests ∧
    ReqType req = "subsystem" ∧ String.length (Payload req) < 4.

Section Connections.
Context {W : Type} `{!DockerClient W, !OS W, !MapRange W, !Boot W, !SshLib W, !SshCalm}.
Implicit Types s : Sys W.

Lemma handler_finishes {A} h r (m : Comp (Sys W) A) : (∀ s, wp m (handler_run s h r) s) → finishes m.
Proof.
  intros Hm s. specialize (Hm s). unfold wp, handler_run in Hm. destruct (m s) as [o s'].
  destruct Hm as (a & Ho & _). simpl in Ho. subst o. eauto.
Qed.

Lemma sftpHandler_finishes h c : request_ok (request_of c) → finishes (sftpHandler (W := W) h c).
Proof.
  intros Hr. destruct c as [r|r|r|r]; simpl in *; (apply finishes_bind; [apply (handler_finishes h r); intros s|intros; apply finishes_ret]).
  - by apply Fileread_run.
  - by apply Filewrite_run.
  - by apply Filecmd_run.
  - by apply Filelist_run.
Qed.

Lemma authenticate_finishes u a p : finishes (authenticate (W := W) u a p).
Proof. unfold authenticate. solve_finishes. Qed.

(** Replies panic only over a request that is too short. *)
Lemma reply_requests_short requests :
  panics_only (∃ req, req ∈ requests ∧ ReqType req = "subsystem" ∧ String.length (Payload req) < 4)
    (reply_requests (W := W) requests).
Proof.
  apply panics_for_each. intros req Hin. unfold subsystem_reply.
  repeat case_decide; try (apply panics_finishes, finishes_call). intros s why s' _. by exists req.
Qed.

Lemma channel_step_short user ch : panics_only (short_subsystem (W := W) ch) (channel_step user ch).
Proof.
  unfold channel_step. case_decide; [apply panics_finishes, finishes_call|].
  apply (panics_bind _ (λ a, ∃ w, (AcceptChannel ch w).1 = a)).
  - apply panics_finishes. intros s. unfold ssh_Accept, ask. destruct (AcceptChannel ch (world s)). eauto.
  - intros s a s'. unfold ssh_Accept, ask. destruct (AcceptChannel ch (world s)) as [x w] eqn:E.
    intros [= <- _]. exists (world s). by rewrite E.
  - intros a [w Hw]. destruct a as [err|requests]; [apply panics_finishes, finishes_ret|].
    apply panics_then; [|intros _; apply panics_finishes, finishes_bind].
    + eapply panics_mono; [apply reply_requests_short|]. intros (req & ? & ? & ?). by exists w, requests, req.
    + apply serve_finishes. intros c. apply sftpHandler_finishes.
    + intros err. unfold Logf. solve_finishes.
Qed.

(** With a client a connection panics only over such a channel. *)
Lemma handleConn_short srv nc : PasswordCallback srv = authenticate →
  panics_only (∃ ch, short_subsystem (W := W) ch) (handleConn srv nc).
Proof.
  intros Hcb. unfold handleConn, serve_conn. rewrite Hcb.
  apply panics_then; [apply panics_finishes, conn_finishes, authenticate_finishes|].
  intros [err|c]; [apply panics_finishes, finishes_ret|].
  apply panics_then; [apply panics_finishes|intros chans; apply panics_then].
  - intros s. unfold ssh_Channels, ask. destruct (Channels c (world s)). eauto.
  - apply panics_for_each. intros ch _. eapply panics_mono; [apply channel_step_short|]. by exists ch.
  - intros _. apply panics_finishes, finishes_call.
Qed.
End Connections.

(** * HTTP requests *)

Section Requests.
Context {W : Type} `{!Docker W, !OS W, !MapRange W, !WebSocket W, !Boot W}.

(** An answer that is no panic of a goroutine of the handler. *)
Definition orderly (resp : Response) : Prop := match resp with GoPanic _ => False | _ => True end.

(** A terminal request in a mode that is neither exec nor logs. *)
Definition unknown_mode (r : HttpRequest) : Prop := query r "mode" ≠ "exec" ∧ query r "mode" ≠ "logs".

Ltac solve_returns :=
  repeat lazymatch goal with
  | |- returns _ (bind _ _) => eapply returns_bind; [apply returns_any|intros ? _]
  | |- returns _ (match ?x with _ => _ end) => destruct x
  | |- returns _ (ret _) => by apply returns_ret
  end.

Lemma open_stream_returns r user username tty :
  returns (λ o, match o with inl resp => orderly resp | inr (_, None) => unknown_mode r | _ => True end)
    (open_stream (W := W) r user username tty).
Proof.
  unfold open_stream. destruct (decide (query r "mode" = "exec")); [solve_returns|].
  destruct (decide (query r "mode" = "logs")); [solve_returns|]. by apply returns_ret.
Qed.

Lemma TerminalHandler_returns r :
  returns (λ resp, match resp with GoPanic why => why = nil_pointer ∧ unknown_mode r | _ => True end)
    (TerminalHandler (W := W) r).
Proof.
  unfold TerminalHandler. do 2 (eapply returns_bind; [apply returns_any|intros ? _]).
  case_decide; [by apply returns_ret|]. eapply returns_bind; [apply returns_any|intros cfg _].
  eapply returns_bind.
  { intros b o b' E. unfold lift, zoom in E. destruct (open_stream _ _ _ _ _) as [x s'] eqn:Ho. injection E as -> _.
    exact (open_stream_returns _ _ _ _ _ _ _ Ho). }
  intros [resp|[tty [conn|]]] Hresp; [apply returns_ret; by destruct resp|solve_returns|solve_returns].
Qed.

Lemma Auth_returns (P : Response → Prop) next r a resp a' :
  P (HttpError 401 "Authentication required") → P (HttpError 403 "Operation not allowed for this container") →
  returns P (next r) → Auth (W := W) next r a = (Done resp, a') →
  P resp ∧ (is_Some (WebSessions a !! token_of r) ∨ resp = HttpError 401 "Authentication required").
Proof.
  intros H401 H403 Hn. unfold Auth. rewrite bind_gets.
  destruct (WebSessions a !! token_of r) as [username|] eqn:Hs; [|intros [= <- _]; auto].
  intros E. split; [|by left; eexists]. revert E.
  match goal with |- ?m a = _ → _ => enough (returns P m) as H by apply H end.
  case_decide; [done|]. do 2 (eapply returns_bind; [apply returns_any|intros ? _]).
  case_match; [|done]. eapply returns_bind; [apply returns_any|intros ? _]. by apply returns_ret.
Qed.

Lemma Auth_orderly next r : returns orderly (next r) → returns orderly (Auth (W := W) next r).
Proof. intros Hn a resp a' E. by apply (Auth_returns orderly next r a resp a' I I Hn). Qed.

Lemma terminal_route : find_route ["ws"; "terminal"] (api_routes (W := W)) = Some (Auth TerminalHandler).
Proof. reflexivity. Qed.

(** What it takes for a request to end the process. *)
Definition fatal_request (sessions : gmap string string) (r : HttpRequest) : Prop :=
  segments (clean_url (EscapedPath r)) = ["ws"; "terminal"] ∧ unknown_mode r ∧ is_Some (sessions !! token_of r).

(** The handlers but the terminal's answer in an orderly way. *)
Lemma routes_orderly segs (h : HttpRequest → Comp (Api W) Response) r :
  find_route segs api_routes = Some h → segs ≠ ["ws"; "terminal"] → returns orderly (h r).
Proof.
  intros (p & Hin & Hp)%find_route_in Hne. revert p h Hin Hp.
  assert (Forall (λ kv : string * (HttpRequest → Comp (Api W) Response),
    Split kv.1 GoStrings.slash = "" :: segs → returns orderly (kv.2 r)) api_routes) as H.
  { unfold api_routes. repeat (apply Forall_cons; split; [intros Hs; cbn [fst snd] in *|]); try apply Forall_nil_2.
    1: unfold Login; solve_returns.
    12: exfalso; vm_compute in Hs; injection Hs as <-; by apply Hne.
    all: apply Auth_orderly; unfold ListContainers, InspectContainer, Action, ListBackups, RestoreAction,
      CmdContainer, GetContainerLogs, StatsHandler; solve_returns. }
  intros p h Hin. by apply (proj1 (Forall_forall _ _) H (p, h)).
Qed.

Lemma mux_fatal r a why a' :
  mux (W := W) r a = (Done (GoPanic why), a') → why = nil_pointer ∧ fatal_request (WebSessions a) r.
Proof.
  unfold mux. destruct (PathUnescape (EscapedPath r)) as [urlPath|]; [|done].
  case_decide; [done|]. case_decide; [done|].
  destruct (find_route _ api_routes) as [h|] eqn:Hr.
  - destruct (decide (segments (clean_url (EscapedPath r)) = ["ws"; "terminal"])) as [E|E];
      [|by intros Ho%(routes_orderly _ _ r Hr E)].
    rewrite E, terminal_route in Hr. injection Hr as <-. intros Ha.
    apply (Auth_returns _ _ _ _ _ _ I I (TerminalHandler_returns r)) in Ha as [[Hw Hm] [Hs|?]]; [|done].
    by split.
  - intros E. exfalso. revert E.
    match goal with |- ?m a = _ → _ => enough (returns orderly m) as Ho by exact (Ho a _ a') end.
    repeat case_match; solve_returns.
Qed.

Lemma serve_one_fatal library_ops r a why a' :
  serve_one (W := W) library_ops r a = (Panic why, a') → why = nil_pointer ∧ fatal_request (WebSessions a) (Req r).
Proof.
  unfold serve_one. destruct (Routes library_ops r a) as [o a1] eqn:E. intros [= Ho _].
  destruct o as [[]|]; try done. injection Ho as ->. unfold Routes, WithLogging in E.
  apply bind_inv in E as (start & a2 & E2 & (resp & a3 & E3 & E)%bind_inv).
  repeat (apply bind_inv in E as (? & ? & ? & E)). injection E as -> _. apply mux_fatal in E3.
  unfold lift, zoom in E2. destruct (time_Now (sys a)). by injection E2 as _ <-.
Qed.
End Requests.
