(* ===== verification/Main.v ===== *)
(** [main.go]: how the process is put together, the goroutines that then run in
    it side by side, and how it ends. *)

From S2P Require Import Prelude GoStrings GoPath GoTime Config World TestBed ConfigLoad Docker Container Discord DiscordSpec Forwarder ForwarderSpec Tail Vfs Sftp SftpSpec SftpServer SftpServerSpec Webdav Api ApiSpec AccessLog AccessLogSpec Sessions Crashes.

(** * The process *)

Section Process.
Context {W : Type} `{!Regexp}.

(** Where the main goroutine is, with the variables it still needs. *)
Inductive MainPoint : Type :=
| Initialising
| StartingSftp (ss : SftpServer.Server (W := W))
| StartingHttp
| Serving
| MainReturned.

(** What the goroutines share, and which of them are there: [client] is
    [docker.Client]; [bots] the [BotManager], with the world and the loaded
    configuration, and [webSessions] what the API server keeps; [ruleCache] is
    [logRulesCache]; [points] says where the goroutine of [tailContainerLogs]
    with a context is; [bots_going] that the two loops of [BotManager.Start] are
    running, [sftp_going] that [go ss.Start()] has still to begin, and [accepted]
    holds the connections whose [handleConn] has. *)
Record Process := mkProcess {
  client : option (DockerClient W);
  bots : BotManager W;
  webSessions : gmap string string;
  ruleCache : gmap string logRulesState;
  points : gmap nat Point;
  main_at : MainPoint;
  bots_going : bool;
  sftp_going : option (SftpServer.Server (W := W));
  accepted : list (SftpServer.Server (W := W) * nat);
}.

Definition psys (p : Process) : Sys W := bsys (bots p).

Definition set_client v (p : Process) : Process :=
  mkProcess v (bots p) (webSessions p) (ruleCache p) (points p) (main_at p) (bots_going p) (sftp_going p) (accepted p).
Definition set_bots v (p : Process) : Process :=
  mkProcess (client p) v (webSessions p) (ruleCache p) (points p) (main_at p) (bots_going p) (sftp_going p) (accepted p).
Definition set_webSessions v (p : Process) : Process :=
  mkProcess (client p) (bots p) v (ruleCache p) (points p) (main_at p) (bots_going p) (sftp_going p) (accepted p).
Definition set_ruleCache v (p : Process) : Process :=
  mkProcess (client p) (bots p) (webSessions p) v (points p) (main_at p) (bots_going p) (sftp_going p) (accepted p).
Definition set_points v (p : Process) : Process :=
  mkProcess (client p) (bots p) (webSessions p) (ruleCache p) v (main_at p) (bots_going p) (sftp_going p) (accepted p).
Definition set_main v (p : Process) : Process :=
  mkProcess (client p) (bots p) (webSessions p) (ruleCache p) (points p) v (bots_going p) (sftp_going p) (accepted p).
Definition start_bots (p : Process) : Process :=
  mkProcess (client p) (bots p) (webSessions p) (ruleCache p) (points p) (main_at p) true (sftp_going p) (accepted p).
Definition set_sftp v (p : Process) : Process :=
  mkProcess (client p) (bots p) (webSessions p) (ruleCache p) (points p) (main_at p) (bots_going p) v (accepted p).
Definition set_accepted v (p : Process) : Process :=
  mkProcess (client p) (bots p) (webSessions p) (ruleCache p) (points p) (main_at p) (bots_going p) (sftp_going p) v.

(** The parts of the process a component sees. *)
Definition on_bots {A} : Comp (BotManager W) A → Comp Process A := zoom bots set_bots.
Definition on_psys {A} : Comp (Sys W) A → Comp Process A :=
  zoom psys (λ s p, set_bots (set_bsys s (bots p)) p).
Definition on_api {A} : Comp (Api W) A → Comp Process A :=
  zoom (λ p, mkApi (psys p) (webSessions p))
       (λ a p, set_webSessions (WebSessions a) (set_bots (set_bsys (sys a) (bots p)) p)).
Definition on_rules {A} : Comp (Rules (W := W)) A → Comp Process A :=
  zoom (λ p, mkRules (psys p) (ruleCache p))
       (λ r p, set_ruleCache (logRulesCache r) (set_bots (set_bsys (rsys r) (bots p)) p)).

(** When [main] is called. *)
Definition start_process (w : W) : Process :=
  mkProcess None (NewBotManager (mkSys w zero_LoadedConfig [])) ∅ ∅ ∅ Initialising false None [].
End Process.

Section Main.
Context {W : Type} `{!Regexp}.
Context `{!OS W, !MapRange W, !WebSocket W, !DiscordClient W, !Boot W, !SshLib W, !LineReader W}.
Context (library_ops : Response → list WriterOp).
Implicit Types p : Process (W := W).

(** * The main goroutine *)

Definition main_step (pt : MainPoint) : Comp (Process (W := W)) MainPoint :=
  match pt with
  | Initialising =>
      on_psys (modify (set_loaded zero_LoadedConfig)) ;;
      on_psys Reload ;;
      on_psys (Log "Internal" "System" "Dockerクライアントを初期化しています...") ;;
      i <- on_psys Init ;;
      let '(Client, err) := i in
      modify (set_client Client) ;;
      on_psys (match err with Some _ => LogError "System" err | None => ret tt end) ;;
      on_psys (Log "Internal" "System" "Dockerクライアントが準備完了しました") ;;
      modify (λ p, set_bots (NewBotManager (psys p)) p) ;;
      modify (λ p, set_webSessions (WebSessions (Api.NewServer (psys p))) p) ;;
      ss <- on_psys SftpServer.NewServer ;;
      on_psys (Log "Internal" "Discord" "Discord連携サービスを開始しています...") ;;
      modify start_bots ;;
      ret (StartingSftp ss)
  | StartingSftp ss =>
      on_psys (Log "Internal" "SFTP" "SFTPサーバーを開始しています...") ;;
      modify (set_sftp (Some ss)) ;;
      ret StartingHttp
  | StartingHttp =>
      on_psys (Log "Internal" "API" "Webサーバーを開始しています...") ;;
      serving <- on_api Start_listening ;;
      ret (if serving : bool then Serving else MainReturned)
  | Serving => on_api Start_ending
  | MainReturned => ret MainReturned
  end.

(** * All goroutines *)

(** A turn of one of them, up to the next place where it waits; the events of a
    Discord session and the requests of HTTP clients are handled in goroutines of
    their own. *)
Inductive Act : Type :=
| MainGoes
| BotsTick
| ForwardersTick
| TailGoes (t : Tailer)
| InteractionCreated (dg : Session) (i : Interaction)
| MessageCreated (dg : Session) (msg : Message)
| SftpStarts (incoming : list (result nat))
| ConnHandled (ss : SftpServer.Server (W := W)) (nConn : nat)
| Requested (r : FullRequest).

(** A session that was opened may deliver events, also after it was closed. *)
Definition enabled (a : Act) (p : Process) : Prop :=
  match a with
  | MainGoes => main_at p ≠ MainReturned
  | BotsTick | ForwardersTick => bots_going p = true
  | TailGoes t => t ∈ goroutines (bots p) ∧ default Top (points p !! ctx t) ≠ Tail.Returned
  | InteractionCreated dg _ | MessageCreated dg _ => EvDgOpen dg None ∈ events (psys p)
  | SftpStarts _ => is_Some (sftp_going p)
  | ConnHandled ss nConn => (ss, nConn) ∈ accepted p
  | Requested _ => main_at p = Serving
  end.

(** Removes one connection from those to be handled. *)
Definition take_conn (nConn : nat) (p : Process) : Process :=
  set_accepted (filter (λ c : SftpServer.Server (W := W) * nat, c.2 ≠ nConn) (accepted p)) p.

Definition act (a : Act) : Comp (Process (W := W)) unit :=
  docker <- gets client ;;
  match a with
  | MainGoes => pt <- gets main_at ;; pt' <- main_step pt ;; modify (set_main pt')
  | BotsTick => on_bots SyncBots
  | ForwardersTick => on_bots SyncLogForwarders
  | TailGoes t =>
      pt <- gets (λ p, default Top (points p !! ctx t)) ;;
      done <- gets (λ p, bool_decide (ctx t ∈ cancelled (bots p))) ;;
      pt' <- on_rules (@tail_step _ W docker _ _ _ (tailServer t) (tailSetting t) (tailWebhook t) done pt) ;;
      modify (λ p, set_points (<[ctx t := pt']> (points p)) p)
  | InteractionCreated dg i => on_bots (@onInteractionCreate W docker _ _ _ i)
  | MessageCreated dg msg => on_bots (@onMessageCreate W docker _ _ dg msg)
  | SftpStarts incoming =>
      going <- gets sftp_going ;;
      modify (set_sftp None) ;;
      match going with
      | Some ss =>
          conns <- on_psys (SftpServer.Start incoming) ;;
          modify (λ p, set_accepted (accepted p ++ ((λ c, (ss, c)) <$> conns)) p)
      | None => ret tt
      end
  | ConnHandled ss nConn =>
      modify (take_conn nConn) ;;
      on_psys (@handleConn W docker _ _ _ ss nConn)
  | Requested r => on_api (@serve_one W docker _ _ _ _ library_ops r)
  end.

(** How the process ends: [main] returns, or a goroutine panics. *)
Inductive Ending : Type := Exited | Died (a : Act) (why : string).

Inductive proc_step (p : Process) : option Ending → Process → Prop :=
| goes a p' : enabled a p → act a p = (Done tt, p') → main_at p' ≠ MainReturned → proc_step p None p'
| exits p' : enabled MainGoes p → act MainGoes p = (Done tt, p') → main_at p' = MainReturned →
    proc_step p (Some Exited) p'
| dies a p' why : enabled a p → act a p = (Panic why, p') → proc_step p (Some (Died a why)) p'.

(** The process runs on. *)
Definition lives (p p' : Process) : Prop := proc_step p None p'.

(** * Why it ends *)

(** What a panic of the goroutine behind [a] comes from, when the process was in
    [p] before and [p'] after. *)
Definition cause (p : Process (W := W)) (a : Act) (why : string) (p' : Process (W := W)) : Prop :=
  match a with
  | MainGoes => ∃ t err, events (psys p') = events (psys p) ++ t ∧ why = ErrorText err ∧
      (main_at p = StartingHttp ∧ HTTPListen (cfg_Config (loaded (psys p'))) ≠ "" ∧
         EvListen (HTTPListen (cfg_Config (loaded (psys p')))) (Some err) ∈ t ∨
       main_at p = Serving ∧ EvServeEnd err ∈ t)
  | BotsTick => ∃ token, bot_token (cfg_Config (get_outcome (psys p))) token ∧ String.length token < 4
  | ForwardersTick | SftpStarts _ => False
  | TailGoes _ | MessageCreated _ _ => client p = None
  | InteractionCreated _ i => client p = None ∨ ¬ well_formed i
  | ConnHandled _ _ => client p = None ∨ ∃ ch, short_subsystem (W := W) ch
  | Requested r => why = nil_pointer ∧ fatal_request (webSessions p) (Req r)
  end.

Definition checks_passwords (ss : SftpServer.Server (W := W)) : Prop := PasswordCallback ss = authenticate.

Record proc_ok (p : Process (W := W)) : Prop := {
  ok_tokens : long_tokens (bots p);
  ok_main ss : main_at p = StartingSftp ss → checks_passwords ss;
  ok_going ss : sftp_going p = Some ss → checks_passwords ss;
  ok_accepted c : c ∈ accepted p → checks_passwords c.1;
}.

(** What every turn keeps or, if it panics, comes from. *)
Definition turn (a : Act) (p : Process (W := W)) (o : Outcome unit) (p' : Process (W := W)) : Prop :=
  match o with
  | Done _ => proc_ok p' ∧ (a ≠ MainGoes → main_at p' = main_at p)
  | Panic why => cause p a why p'
  end.

Lemma NewServer_checks : finishes (SftpServer.NewServer (W := W)) ∧ returns checks_passwords SftpServer.NewServer.
Proof.
  split; unfold SftpServer.NewServer, generateHostKey; [solve_finishes|].
  repeat (eapply returns_bind; [apply returns_any|intros ? _]). by apply returns_ret.
Qed.

Lemma wp_on_psys {A} (m : Comp (Sys W) A) Q p :
  finishes m → (∀ a s, Q (Done a) (set_bots (set_bsys s (bots p)) p)) → wp (on_psys m) Q p.
Proof. intros Hf HQ. by apply (wp_zoom_finishes _ _ (λ _, True)); [|apply returns_any|auto]. Qed.

(** ** The main goroutine *)

Lemma boot_run p : proc_ok p → main_at p = Initialising →
  wp (main_step Initialising) (λ o p', ∃ ss, o = Done (StartingSftp ss) ∧ checks_passwords ss ∧ proc_ok p') p.
Proof.
  intros [Ht Hm Hg Ha] Hp. destruct NewServer_checks as [Hf Hr]. unfold main_step.
  repeat first [ apply wp_bind | apply wp_modify
    | apply (wp_zoom_finishes _ _ _ _ _ _ Hf Hr); intros ? ? ?
    | apply wp_on_psys; [first [unfold Reload, reload_from, store_Config, store_LastLoaded, Init; solve_finishes
        | case_match; unfold LogError, Internal; solve_finishes]|intros ? ?]
    | match goal with |- context [let '(_, _) := ?x in _] => destruct x as [? ?] end ].
  apply wp_ret. eexists. split; [done|]. split; [done|]. split; simpl; [|congruence|done|done].
  intros token. simpl. rewrite lookup_empty. by intros [].
Qed.

Lemma main_run p : proc_ok p → main_at p ≠ MainReturned →
  wp (main_step (main_at p)) (λ o p',
    match o with
    | Done pt => proc_ok (set_main pt p') ∧
        (pt = MainReturned → main_at p = StartingHttp ∧ HTTPListen (cfg_Config (loaded (psys p'))) = "")
    | Panic why => cause p MainGoes why p'
    end) p.
Proof.
  intros Hok Hp. destruct (main_at p) as [|ss| | |] eqn:Hpt; [..|done].
  - eapply wp_mono; [by apply boot_run|]. intros o p' (ss & -> & Hss & [Ht _ Hg Ha]). split; [|done].
    split; simpl; [done| |done|done]. by intros ? [= <-].
  - destruct Hok as [Ht Hm Hg Ha]. apply wp_bind, wp_on_psys; [solve_finishes|intros _ s].
    apply wp_bind, wp_modify. apply wp_ret. split; [|done]. split; simpl; [done|done| |done].
    intros ? [= <-]. by apply Hm.
  - apply wp_bind, wp_zoom, wp_Log. intros w t Ht. apply wp_bind, wp_zoom. cbn [psys].
    eapply wp_mono; [apply Start_listening_run|]. intros o a (_ & Hl & t' & Ht' & Ho). destruct Hok as [Hto _ Hg Ha].
    destruct o as [serving|why].
    + apply wp_ret. split; [split; simpl; [done|by destruct serving|done|done]|].
      destruct serving; [done|]. intros _. split; [done|]. cbn [psys bsys bots set_webSessions set_bots set_bsys].
      rewrite Hl. by destruct Ho.
    + destruct Ho as (Hne & err & Hin & ->). exists (t ++ t'), err. unfold psys in *. simpl in *.
      rewrite Ht', Hl. split; [by rewrite (assoc_L (++))|]. split; [done|]. left.
      split; [done|]. split; [done|]. apply elem_of_app. by right.
  - apply wp_zoom. eapply wp_mono; [apply Start_ending_run|]. intros o a (_ & t & err & Ht & -> & Hin).
    exists t, err. unfold psys in *. simpl in *. split; [done|]. split; [done|]. by right.
Qed.

(** ** The others *)

(** A turn that leaves the sessions of the bots and the servers as they are. *)
Lemma turn_kept a p p' :
  proc_ok p → Sessions (bots p') = Sessions (bots p) → main_at p' = main_at p →
  sftp_going p' = sftp_going p → accepted p' = accepted p → turn a p (Done tt) p'.
Proof.
  intros [Ht Hm Hg Ha] Hs E1 E2 E3. split; [|done]. split; rewrite ?E1, ?E2, ?E3; try done.
  intros token. rewrite Hs. apply Ht.
Qed.

(** A computation of the bot manager that keeps its sessions. *)
Lemma turn_bots a (m : Comp (BotManager W) unit) p :
  proc_ok p → keeps Sessions m → (∀ why b, m (bots p) = (Panic why, b) → cause p a why (set_bots b p)) →
  wp (on_bots m) (turn a p) p.
Proof.
  intros Hok Hk Hc. apply wp_zoom. specialize (Hk (bots p)). unfold wp.
  destruct (m (bots p)) as [[[]|why] b]; [by apply turn_kept|by apply Hc].
Qed.

(** One of the parts of the process that do not touch the bots. *)
Lemma turn_psys a (m : Comp (Sys W) unit) p :
  proc_ok p → (∀ why s, m (psys p) = (Panic why, s) → cause p a why (set_bots (set_bsys s (bots p)) p)) →
  wp (on_psys m) (turn a p) p.
Proof.
  intros Hok Hc. apply wp_zoom. unfold wp.
  destruct (m (psys p)) as [[[]|why] s]; [by apply turn_kept|by apply Hc].
Qed.

(** With a client, or the cause is that there is none. *)
Lemma no_panic_with_client {S A} (m : Docker W → Comp S A) (docker : option (DockerClient W)) s why s' :
  (∀ c : DockerClient W, finishes (m (made_client c))) → m docker s = (Panic why, s') → docker = None.
Proof. destruct docker as [c|]; [|done]. intros Hf E. destruct (Hf c s) as (x & s1 & E1). unfold made_client in E1. congruence. Qed.

Context `{!SshCalm}.

Lemma conn_run ss nConn p : proc_ok p → (ss, nConn) ∈ accepted p →
  wp (act (ConnHandled ss nConn)) (turn (ConnHandled ss nConn) p) p.
Proof.
  intros Hok Hin. pose proof (ok_accepted p Hok _ Hin) as Hss. unfold act. do 2 (apply wp_bind; apply wp_gets || apply wp_modify).
  assert (proc_ok (take_conn nConn p)) as Hok'.
  { destruct Hok as [Ht Hm Hg Ha]. split; [done..|]. intros c [_ Hc]%list_elem_of_filter. by apply Ha. }
  eapply wp_mono; [apply (turn_psys (ConnHandled ss nConn) _ _ Hok')|].
  - intros why s E. simpl. destruct (client p) as [c|]; [|by left]. right.
    exact (handleConn_short ss nConn Hss _ _ _ E).
  - intros [[]|why] p'; [|done]. by intros [? H2].
Qed.

Lemma tail_run t p : proc_ok p → enabled (TailGoes t) p → wp (act (TailGoes t)) (turn (TailGoes t) p) p.
Proof.
  intros Hok [_ Hpt]. unfold act. do 3 (apply wp_bind, wp_gets). apply wp_bind, wp_zoom. unfold wp.
  destruct (tail_step _ _ _ _ _ _) as [[pt|why] r] eqn:E.
  - apply wp_modify. by apply turn_kept.
  - revert E. apply (no_panic_with_client (λ docker, @tail_step _ W docker _ _ _ _ _ _ _ _)).
    intros c. by apply tail_step_finishes.
Qed.

Lemma sftp_run incoming p : proc_ok p → wp (act (SftpStarts incoming)) (turn (SftpStarts incoming) p) p.
Proof.
  intros [Ht Hm Hg Ha]. unfold act. do 2 (apply wp_bind, wp_gets). apply wp_bind, wp_modify.
  destruct (sftp_going p) as [ss|] eqn:Hgo; [|by split].
  apply wp_bind, wp_on_psys; [unfold SftpServer.Start; solve_finishes|]. intros conns s. apply wp_modify.
  split; [|done]. split; simpl; [done|done|done|].
  intros c [Hc|(n & -> & _)%list_elem_of_fmap]%elem_of_app; [by apply Ha|by apply Hg].
Qed.

Lemma request_run r p : proc_ok p → wp (act (Requested r)) (turn (Requested r) p) p.
Proof.
  intros Hok. unfold act. apply wp_bind, wp_gets. apply wp_zoom. unfold wp.
  destruct (serve_one _ _ _) as [[[]|why] a] eqn:E; [by apply turn_kept|].
  by apply serve_one_fatal in E.
Qed.

(** Every turn keeps the process in order, or panics for one of the causes. *)
Lemma act_run a p : proc_ok p → enabled a p → a ≠ MainGoes → wp (act a) (turn a p) p.
Proof.
  intros Hok He Ha. destruct a as [| | |t|dg i|dg msg|incoming|ss nConn|r]; [done|..].
  - unfold act. apply wp_bind, wp_gets, wp_zoom. eapply wp_mono; [apply SyncBots_token, Hok|].
    intros [[]|why] b; [|done]. destruct Hok as [Ht Hm Hg Hac]. by split.
  - apply wp_bind, wp_gets, turn_bots; [done|apply SyncLogForwarders_keeps|].
    intros why b E. destruct (SyncLogForwarders_finishes (bots p)) as (u & b' & E'). congruence.
  - by apply tail_run.
  - apply wp_bind, wp_gets, turn_bots; [done|apply onInteractionCreate_keeps|].
    intros why b E. simpl. destruct (decide (client p = None)) as [|Hc]; [by left|right; intros Hw; apply Hc].
    revert E. apply (no_panic_with_client (λ docker, @onInteractionCreate W docker _ _ _ i)).
    intros c. by apply onInteractionCreate_finishes.
  - apply wp_bind, wp_gets, turn_bots; [done|apply onMessageCreate_keeps|].
    intros why b. apply (no_panic_with_client (λ docker, @onMessageCreate W docker _ _ dg msg)).
    intros c. apply onMessageCreate_finishes.
  - by apply sftp_run.
  - by apply conn_run.
  - by apply request_run.
Qed.

(** And so does the main goroutine. *)
Lemma main_act_run p : proc_ok p → main_at p ≠ MainReturned →
  wp (act MainGoes) (λ o p', turn MainGoes p o p' ∧
    (o = Done tt → main_at p' = MainReturned →
     main_at p = StartingHttp ∧ HTTPListen (cfg_Config (loaded (psys p'))) = "")) p.
Proof.
  intros Hok Hp. unfold act. do 2 apply wp_bind, wp_gets. apply wp_bind.
  eapply wp_mono; [by apply main_run|]. intros [pt|why] p'; [|done]. intros [H1 H2]. apply wp_modify.
  split; [by split|]. intros _. exact H2.
Qed.

Lemma act_dec (a : Act) : a = MainGoes ∨ a ≠ MainGoes.
Proof. destruct a; auto. Qed.

Lemma lives_ok w p : rtc lives (start_process w) p → proc_ok p ∧ main_at p ≠ MainReturned.
Proof.
  apply (rtc_invariant _ (λ p, proc_ok p ∧ main_at p ≠ MainReturned)).
  - intros q q' [Hq Hr] Hl. inversion Hl as [a ? He E Hne| |]; subst. split; [|done].
    destruct (act_dec a) as [->|Ha].
    + by destruct (wp_elim _ _ _ _ _ (main_act_run q Hq He) E) as [[? _] _].
    + by destruct (wp_elim _ _ _ _ _ (act_run a q Hq He Ha) E).
  - split; [|done]. split; simpl; [|done|done|by intros c ?%elem_of_nil].
    intros token. simpl. rewrite lookup_empty. by intros [].
Qed.

(** C24: the process ends in no other way than these.  [main] returns, which ends
    it with all its goroutines, when no address is configured for the web
    interface.  The main goroutine panics with the error it could not listen, or
    serve, with.  A goroutine nobody recovers panics: the bots' over a configured
    token shorter than four bytes; that of a slash command without an option its
    command requires; that of an SFTP connection on a subsystem request without
    the length of its name; that of a terminal opened with a session in a mode
    that is neither exec nor logs; and those that use Docker when no client could
    be made.  Whatever else a handler of a request panics with is recovered. *)
Theorem main_ends w p e p' :
  rtc lives (start_process w) p → proc_step p (Some e) p' →
  match e with
  | Exited => main_at p = StartingHttp ∧ HTTPListen (cfg_Config (loaded (psys p'))) = ""
  | Died MainGoes why => ∃ t err, events (psys p') = events (psys p) ++ t ∧ why = ErrorText err ∧
      let addr := HTTPListen (cfg_Config (loaded (psys p'))) in
      (main_at p = StartingHttp ∧ addr ≠ "" ∧ EvListen addr (Some err) ∈ t ∨
       main_at p = Serving ∧ EvServeEnd err ∈ t)
  | Died BotsTick _ =>
      ∃ token, bot_token (cfg_Config (get_outcome (psys p))) token ∧ String.length token < 4
  | Died ForwardersTick _ | Died (SftpStarts _) _ => False
  | Died (TailGoes _) _ | Died (MessageCreated _ _) _ => client p = None
  | Died (InteractionCreated _ i) _ => client p = None ∨ ¬ well_formed i
  | Died (ConnHandled _ _) _ => client p = None ∨ ∃ ch, short_subsystem (W := W) ch
  | Died (Requested r) why => why = nil_pointer ∧ fatal_request (webSessions p) (Req r)
  end.
Proof.
  intros [Hok _]%lives_ok Hs. inversion Hs as [|? He E Hr|a ? why He E]; subst.
  - by apply (wp_elim _ _ _ _ _ (main_act_run p Hok He) E).
  - destruct (act_dec a) as [->|Ha].
    + by destruct (wp_elim _ _ _ _ _ (main_act_run p Hok He) E) as [Hc _].
    + pose proof (wp_elim _ _ _ _ _ (act_run a p Hok He Ha) E) as Hc. by destruct a.
Qed.

(** While the server is serving, a request that is not one of those leaves the
    process running and the server serving, whether or not its handler panics. *)
Theorem request_survives w p r :
  rtc lives (start_process w) p → main_at p = Serving → ¬ fatal_request (webSessions p) (Req r) →
  ∃ p', act (Requested r) p = (Done tt, p') ∧ lives p p' ∧ main_at p' = Serving.
Proof.
  intros [Hok _]%lives_ok Hm Hf. destruct (act (Requested r) p) as [o p'] eqn:E.
  pose proof (wp_elim _ _ _ _ _ (request_run r p Hok) E) as Ht.
  destruct o as [[]|why]; [|by destruct Ht]. destruct Ht as [_ Hp']. exists p'.
  assert (main_at p' = Serving) as Hs by (by rewrite Hp').
  split; [done|]. split; [|done]. eapply goes; [|exact E|]; [done|]. by rewrite Hs.
Qed.
End Main.

(** * At a concrete input *)

(** The libraries of the example panic only when they are made to. *)
#[export] Instance toy_ssh_calm : SshCalm (W := Toy).
Proof.
  split.
  - intros ch handler Hh. apply finishes_bind; [by apply Hh; vm_compute|]. intros _.
    apply finishes_bind; [by apply Hh; vm_compute|]. intros _. apply finishes_ret.
  - intros nc cb [|key keys] Hcb; [apply finishes_ret|]. apply finishes_bind; [apply Hcb|]. intros u. apply finishes_ret.
Qed.

Section Runs.
Context {W : Type} `{!Regexp, !OS W, !MapRange W, !WebSocket W, !DiscordClient W, !Boot W, !SshLib W, !LineReader W}.
Implicit Types p : Process (W := W).

(** The turns of a list, one after the other. *)
Fixpoint run_acts (l : list Act) p : Process (W := W) :=
  match l with
  | [] => p
  | a :: l => run_acts l (act (λ _, []) a p).2
  end.

Fixpoint can_run (l : list Act) p : Prop :=
  match l with
  | [] => True
  | a :: l =>
      enabled a p ∧ (act (λ _, []) a p).1 = Done tt ∧ main_at (act (λ _, []) a p).2 ≠ MainReturned ∧
      can_run l (act (λ _, []) a p).2
  end.

Lemma run_acts_lives l p : can_run l p → rtc (lives (λ _, [])) p (run_acts l p).
Proof.
  revert p. induction l as [|a l IH]; intros p; [intros; apply rtc_refl|].
  intros (He & Hd & Hm & Hl). eapply rtc_l; [|by apply IH].
  destruct (act (λ _, []) a p) as [o p1] eqn:E. simpl in *. subst o. by eapply goes.
Qed.
End Runs.

(** The web server up, and [alice] logged in. *)
Definition logged_in : list (Act (W := Toy)) :=
  [MainGoes; MainGoes; MainGoes; Requested (mkFullRequest "POST" "/api/login" (login_request "alice" "wonder"))].

(** She opens a terminal in a mode that does not exist. *)
Definition bad_terminal : FullRequest :=
  mkFullRequest "GET" "/ws/terminal" (get_request "/ws/terminal" toy_token "" "x").

Lemma logged_in_runs : can_run logged_in (start_process toy_world).
Proof. repeat split; try by vm_compute. Qed.

(** That ends the process, and with it everything else it does. *)
Lemma main_ends_witness :
  ∃ p', proc_step (λ _, []) (run_acts logged_in (start_process toy_world))
          (Some (Died (Requested bad_terminal) nil_pointer)) p' ∧
        query (Req bad_terminal) "mode" = "x" ∧ unknown_mode (Req bad_terminal).
Proof.
  destruct (act (λ _, []) (Requested bad_terminal) (run_acts logged_in (start_process toy_world))) as [o p'] eqn:E.
  assert (o = Panic nil_pointer) as -> by (apply (f_equal fst) in E; vm_compute in E; by rewrite <- E).
  assert (proc_step (λ _, []) (run_acts logged_in (start_process toy_world))
    (Some (Died (Requested bad_terminal) nil_pointer)) p') as Hs by (apply dies; [by vm_compute|exact E]).
  exists p'. split; [exact Hs|]. split; [reflexivity|].
  destruct (main_ends (λ _, []) toy_world _ _ p' (run_acts_lives _ _ logged_in_runs) Hs) as [_ (_ & Hm & _)]. exact Hm.
Defined.

(** A terminal in a mode that exists does not. *)
Lemma request_survives_witness :
  ∃ p', lives (λ _, []) (run_acts logged_in (start_process toy_world)) p' ∧ main_at p' = Serving.
Proof.
  destruct (request_survives (λ _, []) toy_world _ (mkFullRequest "GET" "/ws/terminal" (get_request "/ws/terminal" toy_token "" "logs"))
    (run_acts_lives _ _ logged_in_runs)) as (p' & _ & H1 & H2); [by vm_compute| |by exists p'].
  intros (_ & (_ & Hm) & _). by apply Hm.
Defined.

(** The configuration names an address for SFTP but none for the web interface:
    the process ends as soon as it is put together. *)
Definition sftp_only : Toy :=
  mkToy (mkConfig "" ":2022" (Users toy_config) (Servers toy_config)) 100
    (t_engine toy_world) (t_dirs toy_world) (t_disk toy_world).

Example sftp_ends_with_http :
  ∃ p', proc_step (λ _, []) (run_acts [MainGoes; MainGoes] (start_process sftp_only)) (Some Exited) p'.
Proof. eexists. apply exits; [by vm_compute|apply surjective_pairing|by vm_compute]. Qed.
